(** * k8s-image-pull-metrics: the event-to-metric pipeline of [main.go]

    A shallow embedding of [handleAddFunc] together with the parts of the Go
    standard library it calls ([fmt.Sscanf], [strconv.Unquote],
    [strconv.ParseInt], [time.ParseDuration], [regexp] for the one pattern
    used), and of [main], [newResource] and [newMeterProvider] with the
    command line of the [flag] package, followed by the properties of the
    pipeline and of the start of the program.

    Conventions.  A Go [string] is a sequence of bytes: [String.string].
    A [rune] is a code point, an integer in [Z].  Fixed-width integers are
    [Z] with the wrap-around written out ([wrap64], [wrapU64]).  A [float64]
    is an IEEE-754 binary64 value, [spec_float] at precision 53. *)

From Stdlib Require Import ZArith List Bool Ascii String Lia SpecFloat.
Import ListNotations.

Open Scope Z_scope.

(** ** Bytes, runes and fixed-width integers *)

Abbreviation rune := Z (only parsing).

Definition byteZ (c : ascii) : Z := Z.of_N (N_of_ascii c).
Definition Zbyte (z : Z) : ascii := ascii_of_N (Z.to_N (z mod 256)).

Fixpoint bytes (s : string) : list Z :=
  match s with
  | EmptyString => []
  | String c s' => byteZ c :: bytes s'
  end.

Fixpoint of_bytes (l : list Z) : string :=
  match l with
  | [] => EmptyString
  | b :: l' => String (Zbyte b) (of_bytes l')
  end.

Definition len (s : string) : Z := Z.of_nat (String.length s).

(** [int64(x)] and [uint64(x)] of a mathematical integer. *)
Definition wrapU64 (z : Z) : Z := z mod 2 ^ 64.
Definition wrap64 (z : Z) : Z := (z + 2 ^ 63) mod 2 ^ 64 - 2 ^ 63.

(** The double quote, the backslash and the line feed as bytes. *)
Definition dquote : ascii := "034"%char.
Definition bslash : ascii := "092"%char.
Definition newline : ascii := "010"%char.
Definition dq : string := String dquote EmptyString.

(** ** unicode/utf8 *)

Module utf8.

Definition RuneError : rune := 65533.
Definition RuneSelf : Z := 128.
Definition MaxRune : rune := 1114111.
Definition surrogateMin : rune := 55296.
Definition surrogateMax : rune := 57343.

Definition rune1Max : Z := 127.
Definition rune2Max : Z := 2047.
Definition rune3Max : Z := 65535.

Definition t2 : Z := 192.
Definition t3 : Z := 224.
Definition t4 : Z := 240.
Definition tx : Z := 128.
Definition maskx : Z := 63.
Definition mask2 : Z := 31.
Definition mask3 : Z := 15.
Definition mask4 : Z := 7.

Definition locb : Z := 128.
Definition hicb : Z := 191.

(* Entries of the [first] table. *)
Definition xx : Z := 241.
Definition as_ : Z := 240.
Definition s1 : Z := 2.
Definition s2 : Z := 19.
Definition s3 : Z := 3.
Definition s4 : Z := 35.
Definition s5 : Z := 52.
Definition s6 : Z := 4.
Definition s7 : Z := 68.

(** [first[b]]: information about the first byte of an encoding. *)
Definition first (b : Z) : Z :=
  if b <? 128 then as_
  else if b <? 194 then xx
  else if b <? 224 then s1
  else if b =? 224 then s2
  else if b <? 237 then s3
  else if b =? 237 then s4
  else if b <? 240 then s3
  else if b =? 240 then s5
  else if b <? 244 then s6
  else if b =? 244 then s7
  else xx.

(** [acceptRanges[i]] as a pair (lo, hi); the unset entries are zero. *)
Definition acceptRanges (i : Z) : Z * Z :=
  if i =? 0 then (locb, hicb)
  else if i =? 1 then (160, hicb)
  else if i =? 2 then (locb, 159)
  else if i =? 3 then (144, hicb)
  else if i =? 4 then (locb, 143)
  else (0, 0).

(** [utf8.DecodeRuneInString] on a byte sequence: the rune and its width. *)
Definition DecodeRune (s : list Z) : rune * nat :=
  match s with
  | [] => (RuneError, 0%nat)
  | s0 :: t0 =>
    let x := first s0 in
    if as_ <=? x then
      (if x =? xx then RuneError else s0, 1%nat)
    else
      let sz := Z.land x 7 in
      let accept := acceptRanges (Z.shiftr x 4) in
      if Z.of_nat (List.length s) <? sz then (RuneError, 1%nat)
      else match t0 with
      | [] => (RuneError, 1%nat)
      | b1 :: t1 =>
        if (b1 <? fst accept) || (snd accept <? b1) then (RuneError, 1%nat)
        else if sz <=? 2 then
          (Z.lor (Z.shiftl (Z.land s0 mask2) 6) (Z.land b1 maskx), 2%nat)
        else match t1 with
        | [] => (RuneError, 1%nat)
        | b2 :: t2 =>
          if (b2 <? locb) || (hicb <? b2) then (RuneError, 1%nat)
          else if sz <=? 3 then
            (Z.lor (Z.lor (Z.shiftl (Z.land s0 mask3) 12)
                          (Z.shiftl (Z.land b1 maskx) 6))
                   (Z.land b2 maskx), 3%nat)
          else match t2 with
          | [] => (RuneError, 1%nat)
          | b3 :: _ =>
            if (b3 <? locb) || (hicb <? b3) then (RuneError, 1%nat)
            else
              (Z.lor (Z.lor (Z.lor (Z.shiftl (Z.land s0 mask4) 18)
                                   (Z.shiftl (Z.land b1 maskx) 12))
                            (Z.shiftl (Z.land b2 maskx) 6))
                     (Z.land b3 maskx), 4%nat)
          end
        end
      end
  end.

(** [utf8.AppendRune], giving the bytes appended. *)
Definition EncodeRune (r : rune) : list Z :=
  let i := r mod 2 ^ 32 in
  if i <=? rune1Max then [r mod 256]
  else if i <=? rune2Max then
    [Z.lor t2 (Z.shiftr r 6 mod 256); Z.lor tx (Z.land (r mod 256) maskx)]
  else
    let enc3 (r : Z) :=
      [Z.lor t3 (Z.shiftr r 12 mod 256);
       Z.lor tx (Z.land (Z.shiftr r 6 mod 256) maskx);
       Z.lor tx (Z.land (r mod 256) maskx)] in
    if (MaxRune <? i) || ((surrogateMin <=? i) && (i <=? surrogateMax))
    then enc3 RuneError
    else if i <=? rune3Max then enc3 r
    else
      [Z.lor t4 (Z.shiftr r 18 mod 256);
       Z.lor tx (Z.land (Z.shiftr r 12 mod 256) maskx);
       Z.lor tx (Z.land (Z.shiftr r 6 mod 256) maskx);
       Z.lor tx (Z.land (r mod 256) maskx)].

Definition ValidRune (r : rune) : bool :=
  ((0 <=? r) && (r <? surrogateMin)) || ((surrogateMax <? r) && (r <=? MaxRune)).

(** The runes of a string, as successive [DecodeRune] calls read them.  Every
    call consumes at least one byte, so [length s] steps always suffice. *)
Fixpoint decodeRunes (fuel : nat) (s : list Z) : list rune :=
  match fuel, s with
  | O, _ => []
  | _, [] => []
  | S fuel', _ :: _ =>
    let (r, size) := DecodeRune s in
    r :: decodeRunes fuel' (skipn size s)
  end.

Definition runes (s : string) : list rune :=
  decodeRunes (String.length s) (bytes s).

(** [utf8.ValidString]: no byte sequence decodes to a width-1 error. *)
Fixpoint validBytes (fuel : nat) (s : list Z) : bool :=
  match fuel, s with
  | O, _ => true
  | _, [] => true
  | S fuel', _ :: _ =>
    let (r, size) := DecodeRune s in
    if (r =? RuneError) && (Nat.eqb size 1) then false
    else validBytes fuel' (skipn size s)
  end.

Definition ValidString (s : string) : bool :=
  validBytes (String.length s) (bytes s).

(** The string a buffer holds after [writeRune] of each rune in turn. *)
Definition encodeRunes (l : list rune) : string :=
  of_bytes (flat_map EncodeRune l).

End utf8.

(** ** Results of fallible calls *)

Inductive result (E A : Type) : Type :=
| Ok (a : A)
| Err (e : E).
Arguments Ok {E A} a.
Arguments Err {E A} e.

Definition is_ok {E A} (r : result E A) : bool :=
  match r with Ok _ => true | Err _ => false end.

(** ** Byte-string helpers ([s[i:]], [s[:i]], [strings.IndexByte]) *)

Fixpoint drop (n : nat) (s : string) : string :=
  match n, s with
  | O, _ => s
  | S n', EmptyString => EmptyString
  | S n', String _ s' => drop n' s'
  end.

Fixpoint take (n : nat) (s : string) : string :=
  match n, s with
  | O, _ => EmptyString
  | S n', EmptyString => EmptyString
  | S n', String c s' => String c (take n' s')
  end.

Fixpoint indexByte (s : string) (c : ascii) : option nat :=
  match s with
  | EmptyString => None
  | String d s' =>
    if Ascii.eqb d c then Some O
    else match indexByte s' c with
         | Some i => Some (S i)
         | None => None
         end
  end.

Definition contains (s : string) (c : ascii) : bool :=
  match indexByte s c with Some _ => true | None => false end.

Fixpoint removeByte (c : ascii) (s : string) : string :=
  match s with
  | EmptyString => EmptyString
  | String d s' =>
    if Ascii.eqb d c then removeByte c s' else String d (removeByte c s')
  end.

Definition isDigit (c : ascii) : bool :=
  (48 <=? byteZ c) && (byteZ c <=? 57).

(** ** strconv *)

Module strconv.

Inductive NumError := ErrSyntax | ErrRange.

Definition unhex (c : ascii) : option Z :=
  let b := byteZ c in
  if (48 <=? b) && (b <=? 57) then Some (b - 48)
  else if (97 <=? b) && (b <=? 102) then Some (b - 97 + 10)
  else if (65 <=? b) && (b <=? 70) then Some (b - 65 + 10)
  else None.

(** The loop of [UnquoteChar] that reads [n] hexadecimal digits. *)
Fixpoint hexDigits (n : nat) (v : Z) (s : string) : option (Z * string) :=
  match n with
  | O => Some (v, s)
  | S n' =>
    match s with
    | EmptyString => None
    | String c s' =>
      match unhex c with
      | Some x => hexDigits n' (Z.lor (Z.shiftl v 4) x) s'
      | None => None
      end
    end
  end.

(** The loop of [UnquoteChar] that reads two more octal digits. *)
Fixpoint octDigits (n : nat) (v : Z) (s : string) : option (Z * string) :=
  match n with
  | O => Some (v, s)
  | S n' =>
    match s with
    | EmptyString => None
    | String c s' =>
      let x := byteZ c - 48 in
      if (x <? 0) || (7 <? x) then None
      else octDigits n' (Z.lor (Z.shiftl v 3) x) s'
    end
  end.

(** [strconv.UnquoteChar]: value, multibyte flag and tail. *)
Definition UnquoteChar (s : string) (quote : ascii)
  : result NumError (rune * bool * string) :=
  match s with
  | EmptyString => Err ErrSyntax
  | String c0 t0 =>
    if Ascii.eqb c0 quote && (Ascii.eqb quote "'" || Ascii.eqb quote dquote)
    then Err ErrSyntax
    else if utf8.RuneSelf <=? byteZ c0 then
      let (r, size) := utf8.DecodeRune (bytes s) in
      Ok (r, true, drop size s)
    else if negb (Ascii.eqb c0 bslash) then
      Ok (byteZ c0, false, t0)
    else
      (* hard case: c0 is a backslash *)
      match t0 with
      | EmptyString => Err ErrSyntax
      | String c s2 =>
        let simple (v : Z) := Ok (v, false, s2) in
        if Ascii.eqb c "a" then simple 7
        else if Ascii.eqb c "b" then simple 8
        else if Ascii.eqb c "f" then simple 12
        else if Ascii.eqb c "n" then simple 10
        else if Ascii.eqb c "r" then simple 13
        else if Ascii.eqb c "t" then simple 9
        else if Ascii.eqb c "v" then simple 11
        else if Ascii.eqb c "x" || Ascii.eqb c "u" || Ascii.eqb c "U" then
          let n := if Ascii.eqb c "x" then 2%nat
                   else if Ascii.eqb c "u" then 4%nat else 8%nat in
          match hexDigits n 0 s2 with
          | None => Err ErrSyntax
          | Some (v, s3) =>
            if Ascii.eqb c "x" then Ok (v, false, s3)
            else if negb (utf8.ValidRune v) then Err ErrSyntax
            else Ok (v, true, s3)
          end
        else if (48 <=? byteZ c) && (byteZ c <=? 55) then
          match octDigits 2 (byteZ c - 48) s2 with
          | None => Err ErrSyntax
          | Some (v, s3) =>
            if 255 <? v then Err ErrSyntax else Ok (v, false, s3)
          end
        else if Ascii.eqb c bslash then simple 92
        else if Ascii.eqb c "'" || Ascii.eqb c dquote then
          if negb (Ascii.eqb c quote) then Err ErrSyntax
          else simple (byteZ c)
        else Err ErrSyntax
      end
  end.

(** The loop of [unquote] over a string with escape sequences: the bytes
    appended to [buf] and the input left, which must start with the closing
    quote.  Every [UnquoteChar] consumes a byte, so [length in] steps
    suffice. *)
Fixpoint unquoteLoop (fuel : nat) (quote : ascii) (inp : string) (buf : list Z)
  : result NumError (list Z * string) :=
  match fuel with
  | O => Ok (buf, inp)
  | S fuel' =>
    match inp with
    | EmptyString => Ok (buf, inp)
    | String c0 _ =>
      if Ascii.eqb c0 quote then Ok (buf, inp)
      else
        match UnquoteChar inp quote with
        | Err _ => Err ErrSyntax
        | Ok (r, multibyte, rem) =>
          if Ascii.eqb c0 newline then Err ErrSyntax
          else
            let buf' :=
              if (r <? utf8.RuneSelf) || negb multibyte
              then buf ++ [r mod 256]
              else buf ++ utf8.EncodeRune r in
            if Ascii.eqb quote "'" then Ok (buf', rem)
            else unquoteLoop fuel' quote rem buf'
        end
    end
  end.

(** [strconv.unquote] with [unescape = true]: the value and the remainder. *)
Definition unquote (inp : string) : result NumError (string * string) :=
  match inp with
  | String quote (String _ _ as in1) =>
    match indexByte in1 quote with
    | None => Err ErrSyntax
    | Some e =>
      let fin := (e + 2)%nat in
      if Ascii.eqb quote "`" then
        if negb (contains (take fin inp) "013") then
          Ok (take e in1, drop fin inp)
        else
          Ok (removeByte "013" (take e in1), drop fin inp)
      else if Ascii.eqb quote dquote || Ascii.eqb quote "'" then
        let fast :=
          if negb (contains (take fin inp) bslash)
             && negb (contains (take fin inp) newline)
          then
            if Ascii.eqb quote dquote then utf8.ValidString (take e in1)
            else
              let (r, n) := utf8.DecodeRune (bytes (take e in1)) in
              Nat.eqb (1 + n + 1) fin
              && (negb (r =? utf8.RuneError) || negb (Nat.eqb n 1))
          else false in
        if fast then Ok (take e in1, drop fin inp)
        else
          match unquoteLoop (String.length in1) quote in1 [] with
          | Err e => Err e
          | Ok (buf, rest) =>
            match rest with
            | String c rest' =>
              if Ascii.eqb c quote then Ok (of_bytes buf, rest')
              else Err ErrSyntax
            | EmptyString => Err ErrSyntax
            end
          end
      else Err ErrSyntax
    end
  | _ => Err ErrSyntax
  end.

(** [strconv.Unquote]. *)
Definition Unquote (s : string) : result NumError string :=
  match unquote s with
  | Err e => Err e
  | Ok (out, rem) =>
    if 0 <? len rem then Err ErrSyntax else Ok out
  end.

Definition maxUint64 : Z := 2 ^ 64 - 1.

(** The digit loop of [ParseUint] at base 10 and bit size 64: the
    accumulated [n] and the error, if any.  A letter is a digit of value at
    least 10, so at base 10 it is a syntax error like any other byte. *)
Fixpoint parseUintLoop (s : string) (n : Z) : Z * option NumError :=
  match s with
  | EmptyString => (n, None)
  | String c s' =>
    if negb (isDigit c) then (0, Some ErrSyntax)
    else
      let d := byteZ c - 48 in
      let cutoff := maxUint64 / 10 + 1 in
      let maxVal := wrapU64 (2 ^ 64 - 1) in
      if cutoff <=? n then (maxVal, Some ErrRange)
      else
        let n := wrapU64 (n * 10) in
        let n1 := wrapU64 (n + d) in
        if (n1 <? n) || (maxVal <? n1) then (maxVal, Some ErrRange)
        else parseUintLoop s' n1
  end.

(** [strconv.ParseUint(s, 10, 64)]. *)
Definition ParseUint (s : string) : Z * option NumError :=
  match s with
  | EmptyString => (0, Some ErrSyntax)
  | _ => parseUintLoop s 0
  end.

(** [strconv.ParseInt(s, 10, 64)]. *)
Definition ParseInt (s : string) : result NumError Z :=
  match s with
  | EmptyString => Err ErrSyntax
  | String c0 t0 =>
    let neg := Ascii.eqb c0 "-" in
    let s' := if Ascii.eqb c0 "+" then t0 else if neg then t0 else s in
    let (un, err) := ParseUint s' in
    match err with
    | Some ErrSyntax => Err ErrSyntax
    | _ =>
      let cutoff := 2 ^ 63 in
      if negb neg && (cutoff <=? un) then Err ErrRange
      else if neg && (cutoff <? un) then Err ErrRange
      else
        let n := wrap64 un in
        Ok (if neg then wrap64 (- n) else n)
    end
  end.

End strconv.

(** ** float64 arithmetic, as far as [time.ParseDuration] uses it *)

Module float64.

Definition prec : Z := 53.
Definition emax : Z := 1024.

Definition t := spec_float.

(** [float64(z)] of an integer: rounded to the nearest, ties to even. *)
Definition of_Z (z : Z) : t := binary_normalize prec emax z 0 false.

Definition mul (x y : t) : t := SFmul prec emax x y.
Definition div (x y : t) : t := SFdiv prec emax x y.

Definition one : t := of_Z 1.

(** [uint64(x)] of a finite non-negative float: the fraction is discarded.
    [ParseDuration] converts only values between 0 and a little more than
    3.6e12, far inside the range of [uint64]. *)
Definition to_uint64 (x : t) : Z :=
  match x with
  | S754_finite false m e =>
    if 0 <=? e then Zpos m * 2 ^ e else Zpos m / 2 ^ (- e)
  | _ => 0
  end.

End float64.

(** ** time *)

Module time.

(** A [Duration] is an [int64] count of nanoseconds. *)
Definition Duration := Z.

Definition Nanosecond : Duration := 1.
Definition Microsecond : Duration := 1000 * Nanosecond.
Definition Millisecond : Duration := 1000 * Microsecond.
Definition Second : Duration := 1000 * Millisecond.
Definition Minute : Duration := 60 * Second.
Definition Hour : Duration := 60 * Minute.

Inductive DurationError :=
| InvalidDuration
| MissingUnit
| UnknownUnit (u : string).

(** The two spellings of the micro sign in UTF-8: U+00B5 and U+03BC. *)
Definition micro1 : string := String "194" (String "181" "s").
Definition micro2 : string := String "206" (String "188" "s").

Definition unitMap (u : string) : option Z :=
  if String.eqb u "ns" then Some Nanosecond
  else if String.eqb u "us" then Some Microsecond
  else if String.eqb u micro1 then Some Microsecond
  else if String.eqb u micro2 then Some Microsecond
  else if String.eqb u "ms" then Some Millisecond
  else if String.eqb u "s" then Some Second
  else if String.eqb u "m" then Some Minute
  else if String.eqb u "h" then Some Hour
  else None.

(** [leadingInt]: the leading [[0-9]*] of [s] as a [uint64], or the
    overflow error. *)
Fixpoint leadingInt (s : string) (x : Z) : option (Z * string) :=
  match s with
  | EmptyString => Some (x, s)
  | String c s' =>
    if negb (isDigit c) then Some (x, s)
    else if 2 ^ 63 / 10 <? x then None
    else
      let x := wrapU64 (x * 10 + byteZ c - 48) in
      if 2 ^ 63 <? x then None
      else leadingInt s' x
  end.

(** [leadingFraction]: the leading [[0-9]*] of [s] as digits [x] over
    [scale]; on overflow it stops accumulating precision. *)
Fixpoint leadingFraction (s : string) (x : Z) (scale : float64.t)
  (overflow : bool) : Z * float64.t * string :=
  match s with
  | EmptyString => (x, scale, s)
  | String c s' =>
    if negb (isDigit c) then (x, scale, s)
    else if overflow then leadingFraction s' x scale overflow
    else if (2 ^ 63 - 1) / 10 <? x then leadingFraction s' x scale true
    else
      let y := wrapU64 (x * 10 + byteZ c - 48) in
      if 2 ^ 63 <? y then leadingFraction s' x scale true
      else leadingFraction s' y (float64.mul scale (float64.of_Z 10)) false
  end.

(** The unit: the bytes up to the next ['.'] or digit. *)
Fixpoint unitSpan (s : string) : string * string :=
  match s with
  | EmptyString => (EmptyString, s)
  | String c s' =>
    if Ascii.eqb c "." || isDigit c then (EmptyString, s)
    else let (u, r) := unitSpan s' in (String c u, r)
  end.

(** The loop of [ParseDuration] over the [<number><unit>] groups, with the
    [uint64] accumulator [d].  Each group consumes at least one byte, so
    [length s] rounds suffice. *)
Fixpoint parseGroups (fuel : nat) (s : string) (d : Z)
  : result DurationError Z :=
  match s with
  | EmptyString => Ok d
  | String c0 _ =>
    match fuel with
    | O => Err InvalidDuration
    | S fuel' =>
      if negb (Ascii.eqb c0 "." || isDigit c0) then Err InvalidDuration
      else
        match leadingInt s 0 with
        | None => Err InvalidDuration
        | Some (v, s1) =>
          let pre := negb (len s =? len s1) in
          let '(f, scale, s2, post) :=
            match s1 with
            | String "." t =>
              let '(f, scale, r) := leadingFraction t 0 float64.one false in
              (f, scale, r, negb (len t =? len r))
            | _ => (0, float64.one, s1, false)
            end in
          if negb pre && negb post then Err InvalidDuration
          else
            let (u, s3) := unitSpan s2 in
            if len u =? 0 then Err MissingUnit
            else
              match unitMap u with
              | None => Err (UnknownUnit u)
              | Some unit =>
                if 2 ^ 63 / unit <? v then Err InvalidDuration
                else
                  let v := wrapU64 (v * unit) in
                  let v' :=
                    if 0 <? f then
                      wrapU64 (v + float64.to_uint64
                                     (float64.mul (float64.of_Z f)
                                        (float64.div (float64.of_Z unit) scale)))
                    else v in
                  if (0 <? f) && (2 ^ 63 <? v') then Err InvalidDuration
                  else
                    let d := wrapU64 (d + v') in
                    if 2 ^ 63 <? d then Err InvalidDuration
                    else parseGroups fuel' s3 d
              end
        end
    end
  end.

(** [time.ParseDuration]. *)
Definition ParseDuration (s : string) : result DurationError Duration :=
  let '(neg, s) :=
    match s with
    | String c t =>
      if Ascii.eqb c "-" || Ascii.eqb c "+" then (Ascii.eqb c "-", t)
      else (false, s)
    | EmptyString => (false, s)
    end in
  if String.eqb s "0" then Ok 0
  else if String.eqb s "" then Err InvalidDuration
  else
    match parseGroups (String.length s) s 0 with
    | Err e => Err e
    | Ok d =>
      if neg then Ok (wrap64 (- wrap64 d))
      else if 2 ^ 63 - 1 <? d then Err InvalidDuration
      else Ok (wrap64 d)
    end.

(** [Duration.Milliseconds]: [int64(d) / 1e6], Go's integer division, which
    truncates toward zero. *)
Definition Milliseconds (d : Duration) : Z := Z.quot d 1000000.

(** A [time.Time] by its Unix time: seconds since the epoch and the
    nanoseconds within the second. *)
Record Time := { unixSec : Z; nsec : Z }.

(** [Time.UnixMilli]: [t.unixSec()*1e3 + int64(t.nsec())/1e6]. *)
Definition UnixMilli (t : Time) : Z :=
  wrap64 (wrap64 (unixSec t * 1000) + Z.quot (nsec t) 1000000).

End time.

(** ** fmt: scanning with a format *)

Module fmt.

Inductive scanError :=
| ErrUnexpectedEOF                      (* io.ErrUnexpectedEOF *)
| EOF                                   (* io.EOF *)
| ErrString (msg : string)              (* s.errorString(msg) *)
| ErrUnquote (e : strconv.NumError).    (* s.error(err) of strconv.Unquote *)

Definition hugeWid : Z := 2 ^ 30.

(** The scan state [ss]: the runes still to be read from the string reader
    and [count], the runes consumed so far.  The format of [main.go] gives no
    width, so [argLimit] stays at [limit], which is [hugeWid].  Where Go
    reads a rune and calls [UnreadRune], the state before the read is kept. *)
Record ss := mkss { rs : list rune; count : Z }.

Definition newScanState (str : string) : ss :=
  {| rs := utf8.runes str; count := 0 |}.

(** [ss.getRune]: [None] is [eof]. *)
Definition getRune (s : ss) : option rune * ss :=
  if hugeWid <=? count s then (None, s)
  else match rs s with
       | [] => (None, s)
       | r :: t => (Some r, {| rs := t; count := count s + 1 |})
       end.

Definition mustReadRune (s : ss) : result scanError (rune * ss) :=
  match getRune s with
  | (None, _) => Err ErrUnexpectedEOF
  | (Some r, s') => Ok (r, s')
  end.

(** [isSpace], over the table [space] of fmt. *)
Definition space : list (Z * Z) :=
  [(9, 13); (32, 32); (133, 133); (160, 160); (5760, 5760); (8192, 8202);
   (8232, 8233); (8239, 8239); (8287, 8287); (12288, 12288)].

Fixpoint inRanges (tbl : list (Z * Z)) (rx : Z) : bool :=
  match tbl with
  | [] => false
  | (lo, hi) :: tbl' =>
    if rx <? lo then false
    else if rx <=? hi then true
    else inRanges tbl' rx
  end.

Definition isSpace (r : rune) : bool :=
  if 2 ^ 16 <=? r then false else inRanges space r.

Definition notSpace (r : rune) : bool := negb (isSpace r).

(** [ss.peek(ok)] for a one-rune [ok]. *)
Definition peek (s : ss) (ok : rune) : bool :=
  match getRune s with
  | (Some r, _) => r =? ok
  | (None, _) => false
  end.

(** [ss.SkipSpace] with [nlIsSpace = false], as [Sscanf] sets it. *)
Fixpoint SkipSpace_from (l : list rune) (cnt : Z) : result scanError ss :=
  if hugeWid <=? cnt then Ok (mkss l cnt)
  else match l with
  | [] => Ok (mkss l cnt)
  | r :: t =>
    if (r =? 13) && peek (mkss t (cnt + 1)) 10 then SkipSpace_from t (cnt + 1)
    else if r =? 10 then Err (ErrString "unexpected newline")
    else if negb (isSpace r) then Ok (mkss l cnt)
    else SkipSpace_from t (cnt + 1)
  end.

Definition SkipSpace (s : ss) : result scanError ss :=
  SkipSpace_from (rs s) (count s).

(** [ss.notEOF]. *)
Definition notEOF (s : ss) : result scanError ss :=
  match getRune s with
  | (None, _) => Err EOF
  | (Some _, _) => Ok s
  end.

(** The loop of [ss.token]: runes are written to [buf] while [f] holds. *)
Fixpoint token_from (f : rune -> bool) (l : list rune) (cnt : Z)
  (buf : list rune) : list rune * ss :=
  if hugeWid <=? cnt then (buf, mkss l cnt)
  else match l with
  | [] => (buf, mkss l cnt)
  | r :: t =>
    if negb (f r) then (buf, mkss l cnt)
    else token_from f t (cnt + 1) (buf ++ [r])
  end.

(** [ss.token(skipSpace, f)]. *)
Definition token (skipSpace : bool) (f : rune -> bool) (s : ss)
  : result scanError (string * ss) :=
  match (if skipSpace then SkipSpace s else Ok s) with
  | Err e => Err e
  | Ok s1 =>
    let (buf, s2) := token_from f (rs s1) (count s1) [] in
    Ok (utf8.encodeRunes buf, s2)
  end.

(** The loop of [quotedString] for a back-quoted string. *)
Fixpoint rawQuoted_from (l : list rune) (cnt : Z) (buf : list rune)
  : result scanError (list rune * ss) :=
  if hugeWid <=? cnt then Err ErrUnexpectedEOF
  else match l with
  | [] => Err ErrUnexpectedEOF
  | r :: t =>
    if r =? 96 then Ok (buf, mkss t (cnt + 1))
    else rawQuoted_from t (cnt + 1) (buf ++ [r])
  end.

(** The loop of [quotedString] for a double-quoted string: the rune after a
    backslash is copied unseen; the closing quote ends the loop. *)
Fixpoint dblQuoted_from (l : list rune) (cnt : Z) (buf : list rune)
  : result scanError (list rune * ss) :=
  if hugeWid <=? cnt then Err ErrUnexpectedEOF
  else match l with
  | [] => Err ErrUnexpectedEOF
  | r :: t =>
    if r =? 92 then
      if hugeWid <=? cnt + 1 then Err ErrUnexpectedEOF
      else match t with
      | [] => Err ErrUnexpectedEOF
      | r2 :: t2 => dblQuoted_from t2 (cnt + 1 + 1) (buf ++ [r; r2])
      end
    else if r =? 34 then Ok (buf ++ [r], mkss t (cnt + 1))
    else dblQuoted_from t (cnt + 1) (buf ++ [r])
  end.

(** [ss.quotedString]. *)
Definition quotedString (s : ss) : result scanError (string * ss) :=
  match notEOF s with
  | Err e => Err e
  | Ok s =>
    match getRune s with
    | (None, _) => Err (ErrString "expected quoted string")
    | (Some quote, s1) =>
      if quote =? 96 then
        match rawQuoted_from (rs s1) (count s1) [] with
        | Err e => Err e
        | Ok (buf, s2) => Ok (utf8.encodeRunes buf, s2)
        end
      else if quote =? 34 then
        match dblQuoted_from (rs s1) (count s1) [34] with
        | Err e => Err e
        | Ok (buf, s2) =>
          match strconv.Unquote (utf8.encodeRunes buf) with
          | Err e => Err (ErrUnquote e)
          | Ok result => Ok (result, s2)
          end
        end
      else Err (ErrString "expected quoted string")
    end
  end.

(** [ss.convertString(verb)], for the verbs [s], [v] and [q]; the hexadecimal
    verbs [x] and [X] do not occur in the format of [main.go]. *)
Definition convertString (verb : rune) (s : ss)
  : result scanError (string * ss) :=
  if negb ((verb =? 115) || (verb =? 118) || (verb =? 113))
  then Err (ErrString "bad verb for string")
  else
    match SkipSpace s with
    | Err e => Err e
    | Ok s =>
      match notEOF s with
      | Err e => Err e
      | Ok s =>
        if verb =? 113 then quotedString s
        else token true notSpace s
      end
    end.

(** The input side of a run of spaces in the format: [newlines] newlines,
    then possibly trailing spaces. *)
Fixpoint skipBlanks (l : list rune) (cnt : Z) : ss :=
  if hugeWid <=? cnt then mkss l cnt
  else match l with
  | [] => mkss l cnt
  | r :: t =>
    if isSpace r && negb (r =? 10) then skipBlanks t (cnt + 1)
    else mkss l cnt
  end.

Fixpoint matchNewlines (newlines : nat) (s : ss) : result scanError ss :=
  match newlines with
  | O => Ok s
  | S n =>
    let s1 := skipBlanks (rs s) (count s) in
    match getRune s1 with
    | (None, _) => matchNewlines n s1
    | (Some inputc, s2) =>
      if inputc =? 10 then matchNewlines n s2
      else Err (ErrString "newline in format does not match input")
    end
  end.

Definition matchSpaces (newlines : nat) (trailingSpace : bool) (s : ss)
  : result scanError ss :=
  match matchNewlines newlines s with
  | Err e => Err e
  | Ok s =>
    if trailingSpace then
      match getRune s with
      | (None, _) => Ok s
      | (Some inputc, _) =>
        if Nat.eqb newlines 0 && negb (isSpace inputc)
        then Err (ErrString "expected space in input to match format")
        else if Nat.eqb newlines 0 && (inputc =? 10)
        then Err (ErrString "newline in input does not match format")
        else Ok (skipBlanks (rs s) (count s))
      end
    else Ok s
  end.

(** [ss.advance(format)]: the number of format runes consumed, or [-1] when
    the input does not match.  [sp] carries the run of format spaces being
    collected ([newlines], [trailingSpace]); it is matched against the input
    when the run ends. *)
Fixpoint advance (format : list rune) (i : Z) (sp : option (nat * bool))
  (s : ss) : result scanError (Z * ss) :=
  let flush (s : ss) :=
    match sp with
    | None => Ok s
    | Some (newlines, trailingSpace) => matchSpaces newlines trailingSpace s
    end in
  match format with
  | [] =>
    match flush s with
    | Err e => Err e
    | Ok s => Ok (i, s)
    end
  | fmtc :: rest =>
    if isSpace fmtc then
      let '(newlines, trailingSpace) :=
        match sp with Some p => p | None => (O, false) end in
      advance rest (i + 1)
        (Some (if fmtc =? 10 then (S newlines, false) else (newlines, true))) s
    else
      match flush s with
      | Err e => Err e
      | Ok s =>
        if fmtc =? 37 then
          match rest with
          | [] => Err (ErrString "missing verb: % at end of format string")
          | nextc :: rest' =>
            if negb (nextc =? 37) then Ok (i, s)
            else
              (* %% acts like a real percent *)
              match mustReadRune s with
              | Err e => Err e
              | Ok (inputc, s') =>
                if negb (fmtc =? inputc) then Ok (-1, s)
                else advance rest' (i + 1 + 1) None s'
              end
          end
        else
          match mustReadRune s with
          | Err e => Err e
          | Ok (inputc, s') =>
            if negb (fmtc =? inputc) then Ok (-1, s)
            else advance rest (i + 1) None s'
          end
      end
  end.

(** [ss.scanPercent]. *)
Definition scanPercent (s : ss) : result scanError ss :=
  match SkipSpace s with
  | Err e => Err e
  | Ok s =>
    match notEOF s with
    | Err e => Err e
    | Ok s =>
      match getRune s with
      | (Some 37, s') => Ok s'
      | _ => Err (ErrString "missing literal %")
      end
    end
  end.

(** [ss.doScanf(format, a)] for operands that are all [*string]: [nargs] is
    [len(a)], [out] the strings stored so far, so [numProcessed] is its
    length.  Every round consumes a rune of the format; [fuel] bounds the
    rounds. *)
Fixpoint doScanf (fuel : nat) (format : list rune) (nargs : nat) (s : ss)
  (out : list string) : list string * option scanError :=
  let finish (out : list string) :=
    if Nat.ltb (List.length out) nargs
    then (out, Some (ErrString "too many operands"))
    else (out, None) in
  match fuel, format with
  | O, _ => finish out
  | _, [] => finish out
  | S fuel', c0 :: _ =>
    match advance format 0 None s with
    | Err e => (out, Some e)
    | Ok (w, s) =>
      if 0 <? w then doScanf fuel' (skipn (Z.to_nat w) format) nargs s out
      else if negb (c0 =? 37) then
        if w <? 0 then (out, Some (ErrString "input does not match format"))
        else finish out
      else
        match format with
        | _ :: c :: rest =>
          match (if negb (c =? 99) then SkipSpace s else Ok s) with
          | Err e => (out, Some e)
          | Ok s =>
            if c =? 37 then
              match scanPercent s with
              | Err e => (out, Some e)
              | Ok s => doScanf fuel' rest nargs s out
              end
            else if Nat.leb nargs (List.length out)
            then (out, Some (ErrString "too few operands for format"))
            else
              match convertString c s with
              | Err e => (out, Some e)
              | Ok (v, s) => doScanf fuel' rest nargs s (out ++ [v])
              end
          end
        | _ => (out, Some (ErrString "too few operands for format"))
        end
    end
  end.

(** [fmt.Sscanf(str, format, &a1, ..., &an)] with [n] string operands: the
    strings stored, in order, and the error.  The count [n] that Go returns
    is the length of the list.  The format is ASCII, so its runes are its
    bytes. *)
Definition Sscanf (str format : string) (nargs : nat)
  : list string * option scanError :=
  doScanf (S (String.length format)) (bytes format) nargs
          (newScanState str) [].

End fmt.

Definition pullFormat : string :=
  "Successfully pulled image %q in %s (%s including waiting). Image size: %s bytes.".


(** ** regexp, for patterns made of bytes, [.], [.*], groups, [^] and [$]

    Go's [regexp] returns the match a backtracking search finds first
    (leftmost, then by preference of the operators, [*] greedy).  The matcher
    below is that search.  It works on bytes: for a pattern whose only
    literals are ASCII, a rune-wise match has the same boundaries, since
    [.] takes every rune but the line feed, also an invalid byte. *)

Module regexp.

Inductive cls :=
| Byte (c : ascii)       (* a literal byte *)
| AnyCharNotNL.          (* [.] without the [s] flag *)

Inductive Regexp :=
| Char (c : cls)
| Star (c : cls)                 (* [c*], greedy *)
| Cat (r1 r2 : Regexp)
| Capture (i : nat) (r : Regexp)
| BeginText                      (* [^] without the [m] flag *)
| EndText.                       (* [$] without the [m] flag *)

Definition cmatch (c : cls) (a : ascii) : bool :=
  match c with
  | Byte b => Ascii.eqb a b
  | AnyCharNotNL => negb (Ascii.eqb a newline)
  end.

Definition caps := list (nat * string).

Section Match.
Context {A : Type}.

(** Greedy iteration: the longest run first, then shorter ones. *)
Fixpoint star (c : cls) (s : string) (pos : nat)
  (k : string -> nat -> option A) : option A :=
  match s with
  | EmptyString => k s pos
  | String a s' =>
    if cmatch c a then
      match star c s' (S pos) k with
      | Some r => Some r
      | None => k s pos
      end
    else k s pos
  end.

(** [matchAt r s pos cs k]: match [r] at the head of [s], which starts at
    offset [pos] of the text, then continue with [k]. *)
Fixpoint matchAt (r : Regexp) (s : string) (pos : nat) (cs : caps)
  (k : string -> nat -> caps -> option A) : option A :=
  match r with
  | Char c =>
    match s with
    | String a s' => if cmatch c a then k s' (S pos) cs else None
    | EmptyString => None
    end
  | Star c => star c s pos (fun s' pos' => k s' pos' cs)
  | Cat r1 r2 =>
    matchAt r1 s pos cs (fun s' pos' cs' => matchAt r2 s' pos' cs' k)
  | Capture i r1 =>
    matchAt r1 s pos cs
      (fun s' pos' cs' => k s' pos' ((i, take (pos' - pos) s) :: cs'))
  | BeginText => if Nat.eqb pos 0 then k s pos cs else None
  | EndText => match s with EmptyString => k s pos cs | _ => None end
  end.
End Match.

Fixpoint lookupCap (cs : caps) (i : nat) : string :=
  match cs with
  | [] => EmptyString
  | (j, v) :: cs' => if Nat.eqb i j then v else lookupCap cs' i
  end.

(** The unanchored search: the leftmost offset at which [r] matches. *)
Fixpoint searchFrom (r : Regexp) (ngroups : nat) (s : string) (pos : nat)
  : option (list string) :=
  let here :=
    matchAt r s pos []
      (fun s' pos' cs =>
         Some (take (pos' - pos) s
                 :: List.map (lookupCap cs) (seq 1 ngroups))) in
  match here with
  | Some m => Some m
  | None =>
    match s with
    | EmptyString => None
    | String _ s' => searchFrom r ngroups s' (S pos)
    end
  end.

(** [Regexp.FindStringSubmatch]: [None] is the nil slice. *)
Definition FindStringSubmatch (r : Regexp) (ngroups : nat) (s : string)
  : option (list string) :=
  searchFrom r ngroups s 0.

End regexp.

(** The pattern of [handleAddFunc], compiled: start of text, a group of any
    characters (greedy), a dash, any characters, a dash, any characters, end
    of text. *)
Definition podPrefixRe : regexp.Regexp :=
  let any := regexp.Star regexp.AnyCharNotNL in
  let dash := regexp.Char (regexp.Byte "-") in
  regexp.Cat regexp.BeginText
    (regexp.Cat (regexp.Capture 1 any)
       (regexp.Cat dash
          (regexp.Cat any
             (regexp.Cat dash
                (regexp.Cat any regexp.EndText))))).

(** ** The Kubernetes event and the OpenTelemetry instruments *)

Record EventSource := { Component : string; Host : string }.

Record ObjectReference := { Kind : string; Name : string }.

(** The fields of [v1.Event] that [handleAddFunc] reads. *)
Record Event := {
  Namespace : string;
  InvolvedObject : ObjectReference;
  Reason : string;
  Message : string;
  Source : EventSource;
  LastTimestamp : time.Time
}.

(** The [interface{}] handed to the handler: a [*v1.Event] or not. *)
Inductive object :=
| EventObj (event : Event)
| OtherObj.

Module attribute.
Inductive Value :=
| Int64Value (v : Z)
| StringValue (v : string).

Definition KeyValue : Type := string * Value.

Definition Int64 (k : string) (v : Z) : KeyValue := (k, Int64Value v).
Definition String (k : string) (v : string) : KeyValue := (k, StringValue v).
End attribute.

Inductive instrument :=
| imageSizeGauge
| durationPullHistogram
| durationPullWaitOnlyHistogram.

Inductive instrumentKind := Int64Gauge | Int64Histogram.

(** What [main] passes when it creates an instrument. *)
Record instrumentDef := {
  kind : instrumentKind;
  name : string;
  description : string;
  unit_ : string;
  explicitBucketBoundaries : list Z
}.

Definition instrumentOf (i : instrument) : instrumentDef :=
  match i with
  | durationPullHistogram =>
    {| kind := Int64Histogram;
       name := "k8s.image.pull.duration";
       description := "The duration of image pull.";
       unit_ := "ms";
       explicitBucketBoundaries :=
         [15000; 30000; 45000; 60000; 120000; 180000; 240000; 300000] |}
  | durationPullWaitOnlyHistogram =>
    {| kind := Int64Histogram;
       name := "k8s.image.pull_wait_only.duration";
       description := "The duration of image pull including waiting time.";
       unit_ := "ms";
       explicitBucketBoundaries :=
         [15000; 30000; 45000; 60000; 120000; 180000; 240000; 300000] |}
  | imageSizeGauge =>
    {| kind := Int64Gauge;
       name := "k8s.image.size";
       description := "The size of the image in bytes.";
       unit_ := "bytes";
       explicitBucketBoundaries := [] |}
  end.

(** What a call of the handler does, in order: the lines it logs and the
    values it records. *)
Inductive effect :=
| LogSkipping (msg : string)
| LogPodEventAdded (msg : string)
| LogFailedDurationPull (e : time.DurationError)
| LogFailedDurationWait (e : time.DurationError)
| LogFailedImageSize (e : strconv.NumError)
| LogRecorded (durationPull durationWait : time.Duration) (imageSize : Z)
| LogFailedParse (e : option fmt.scanError)
| Record_ (i : instrument) (value : Z) (attrs : list attribute.KeyValue).

(** ** handleAddFunc *)

(** [len(msg) >= 15 && msg[:15] == "Container image"]. *)
Definition skipMessage (msg : string) : bool :=
  (15 <=? len msg) && String.eqb (take 15 msg) "Container image".

(** [time.Duration(durationWithWait - durationPull)]: an [int64]
    subtraction. *)
Definition waitOnlyDuration (durationWithWait durationPull : time.Duration)
  : time.Duration :=
  wrap64 (durationWithWait - durationPull).

Definition handleAddFunc (obj : object) : list effect :=
  match obj with
  | OtherObj => []
  | EventObj event =>
    if negb (String.eqb (Component (Source event)) "kubelet")
       || negb (String.eqb (Kind (InvolvedObject event)) "Pod")
       || negb (String.eqb (Reason event) "Pulled")
    then []
    else
      let msg := Message event in
      if skipMessage msg then [LogSkipping msg]
      else
        LogPodEventAdded (Message event) ::
        match fmt.Sscanf msg pullFormat 4 with
        | ([imageName; durationPullStr; durationWaitStr; imageSize], None) =>
          match time.ParseDuration durationPullStr with
          | Err e => [LogFailedDurationPull e]
          | Ok durationPull =>
            match time.ParseDuration durationWaitStr with
            | Err e => [LogFailedDurationWait e]
            | Ok durationWithWait =>
              match strconv.ParseInt imageSize with
              | Err e => [LogFailedImageSize e]
              | Ok imageSizeInt =>
                let commonAttributes :=
                  [ attribute.Int64 "observed.timestamp"
                      (time.UnixMilli (LastTimestamp event));
                    attribute.String "exported.namespace" (Namespace event);
                    attribute.String "exported.pod.name"
                      (Name (InvolvedObject event));
                    attribute.String "exported.container.name"
                      (Name (InvolvedObject event));
                    attribute.String "exported.pod.image" imageName;
                    attribute.Int64 "exported.pod.image.size" imageSizeInt;
                    attribute.String "exported.host" (Host (Source event)) ] in
                let podName := Name (InvolvedObject event) in
                let matches :=
                  regexp.FindStringSubmatch podPrefixRe 1 podName in
                let commonAttributes :=
                  match matches with
                  | Some (_ :: m1 :: _) =>
                    commonAttributes
                      ++ [attribute.String "exported.pod.prefix" m1]
                  | _ => commonAttributes
                  end in
                let waitOnly := waitOnlyDuration durationWithWait durationPull in
                [ Record_ imageSizeGauge imageSizeInt commonAttributes;
                  Record_ durationPullHistogram
                    (time.Milliseconds durationPull) commonAttributes;
                  Record_ durationPullWaitOnlyHistogram
                    (time.Milliseconds waitOnly) commonAttributes;
                  LogRecorded durationPull waitOnly imageSizeInt ]
              end
            end
          end
        | (_, err) => [LogFailedParse err]
        end
  end.

(** The values the handler records, in order. *)
Definition recorded (l : list effect)
  : list (instrument * Z * list attribute.KeyValue) :=
  flat_map (fun e => match e with
                     | Record_ i v a => [(i, v, a)]
                     | _ => []
                     end) l.

Definition mkEvent (component kind_ reason msg ns pod host : string)
  (ts : time.Time) : Event :=
  {| Namespace := ns;
     InvolvedObject := {| Kind := kind_; Name := pod |};
     Reason := reason;
     Message := msg;
     Source := {| Component := component; Host := host |};
     LastTimestamp := ts |}.

Definition pulledEvent (msg : string) : Event :=
  mkEvent "kubelet" "Pod" "Pulled" msg "default"
          "k8s-image-pull-metrics-5f588dd8cf-8lnm4" "node-1"
          {| time.unixSec := 1700000000; time.nsec := 123456789 |}.

(** ** The stages of the handler, read off its code *)

(** What lines 167-184 of [main.go] extract from a message. *)
Record ParsedPullRecord := {
  imageRef : string;
  pullDuration : time.Duration;
  totalDuration : time.Duration;
  imageSizeBytes : Z
}.

(** Lines 167-184 and 212-215: the scan and the three field conversions.
    The error is the line the handler logs before it returns. *)
Definition parse (msg : string) : result effect ParsedPullRecord :=
  match fmt.Sscanf msg pullFormat 4 with
  | ([imageName; durationPullStr; durationWaitStr; imageSize], None) =>
    match time.ParseDuration durationPullStr with
    | Err e => Err (LogFailedDurationPull e)
    | Ok durationPull =>
      match time.ParseDuration durationWaitStr with
      | Err e => Err (LogFailedDurationWait e)
      | Ok durationWithWait =>
        match strconv.ParseInt imageSize with
        | Err e => Err (LogFailedImageSize e)
        | Ok imageSizeInt =>
          Ok {| imageRef := imageName;
                pullDuration := durationPull;
                totalDuration := durationWithWait;
                imageSizeBytes := imageSizeInt |}
        end
      end
    end
  | (_, err) => Err (LogFailedParse err)
  end.

(** Lines 199-204: the prefix of the pod name, when the pattern matches. *)
Definition podPrefix (podName : string) : option string :=
  match regexp.FindStringSubmatch podPrefixRe 1 podName with
  | Some (_ :: m1 :: _) => Some m1
  | _ => None
  end.

(** Lines 186-204: the attributes attached to the three observations. *)
Definition commonAttributes (event : Event) (r : ParsedPullRecord)
  : list attribute.KeyValue :=
  [ attribute.Int64 "observed.timestamp"
      (time.UnixMilli (LastTimestamp event));
    attribute.String "exported.namespace" (Namespace event);
    attribute.String "exported.pod.name" (Name (InvolvedObject event));
    attribute.String "exported.container.name" (Name (InvolvedObject event));
    attribute.String "exported.pod.image" (imageRef r);
    attribute.Int64 "exported.pod.image.size" (imageSizeBytes r);
    attribute.String "exported.host" (Host (Source event)) ]
  ++ match podPrefix (Name (InvolvedObject event)) with
     | Some p => [attribute.String "exported.pod.prefix" p]
     | None => []
     end.

(** Lines 206-210: the three observations and the closing log line. *)
Definition recordAll (event : Event) (r : ParsedPullRecord) : list effect :=
  let attrs := commonAttributes event r in
  let waitOnly := waitOnlyDuration (totalDuration r) (pullDuration r) in
  [ Record_ imageSizeGauge (imageSizeBytes r) attrs;
    Record_ durationPullHistogram (time.Milliseconds (pullDuration r)) attrs;
    Record_ durationPullWaitOnlyHistogram (time.Milliseconds waitOnly) attrs;
    LogRecorded (pullDuration r) waitOnly (imageSizeBytes r) ].

(** [EventFilter.accept] as section 4.1 of the specification words it. *)
Definition accept (event : Event) : bool :=
  String.eqb (Component (Source event)) "kubelet"
  && String.eqb (Kind (InvolvedObject event)) "Pod"
  && String.eqb (Reason event) "Pulled"
  && negb (String.prefix "Container image" (Message event)).

Definition keys (attrs : list attribute.KeyValue) : list string :=
  List.map fst attrs.

Fixpoint lookup (k : string) (attrs : list attribute.KeyValue)
  : option attribute.Value :=
  match attrs with
  | [] => None
  | (k', v) :: rest => if String.eqb k k' then Some v else lookup k rest
  end.

(** The four conditions of the filter, as the specification lists them. *)
Definition filterConditions (event : Event) : Prop :=
  Component (Source event) = "kubelet"%string
  /\ Kind (InvolvedObject event) = "Pod"%string
  /\ Reason event = "Pulled"%string
  /\ String.prefix "Container image" (Message event) = false.

(** [q] is [d] nanoseconds in whole milliseconds, the fraction discarded
    (truncation toward zero). *)
Definition truncatedMillis (q : Z) (d : time.Duration) : Prop :=
  Z.abs d - 1000000 < Z.abs q * 1000000 <= Z.abs d /\ 0 <= q * d.

(** A message in the form of section 4.2, with the final period. *)
Definition pullMessage (ref pull total size : string) : string :=
  "Successfully pulled image " ++ dq ++ ref ++ dq ++ " in " ++ pull ++ " (" ++
  total ++ " including waiting). Image size: " ++ size ++ " bytes.".

(** The messages of the scenarios of section 8, and two more. *)
Definition exampleMsg : string :=
  pullMessage "repo/example:99cd3b4" "1m44.643s" "1m44.643s" "1169083618".
Definition msg15s45s : string := pullMessage "repo/example:99cd3b4" "15s" "45s" "500".
Definition msgDeficit : string := pullMessage "repo/example:99cd3b4" "1.0005s" "1s" "500".
Definition msgHalfMs : string := pullMessage "repo/example:99cd3b4" "0.5ms" "1s" "500".

Definition baseKeys : list string :=
  [ "observed.timestamp"; "exported.namespace"; "exported.pod.name";
    "exported.container.name"; "exported.pod.image"; "exported.pod.image.size";
    "exported.host" ]%string.

(** The dash-separated segments of a name ([strings.Split(s, "-")]) and
    their concatenation with dashes ([strings.Join(l, "-")]). *)
Fixpoint splitDash (s : string) : list string :=
  match s with
  | EmptyString => [EmptyString]
  | String c s' =>
    if Ascii.eqb c "-" then EmptyString :: splitDash s'
    else match splitDash s' with
         | seg :: rest => String c seg :: rest
         | [] => [String c EmptyString]
         end
  end.

Fixpoint joinDash (l : list string) : string :=
  match l with
  | [] => EmptyString
  | [x] => x
  | x :: rest => x ++ "-" ++ joinDash rest
  end.

(** The prefix tag as section 4.4 of the specification words it: present
    when the name has at least three dash-separated segments, and then
    everything up to, but not including, the last two segments. *)
Definition prefixBySegments (podName : string) : option string :=
  let segs := splitDash podName in
  if Nat.leb 3 (List.length segs)
  then Some (joinDash (firstn (List.length segs - 2) segs))
  else None.

(** What the greedy search of the pattern settles on: the longest prefix
    that is followed by a dash, some text, a dash and some text. *)
Fixpoint greedyPrefix (s : string) : option string :=
  match s with
  | EmptyString => None
  | String a s' =>
    match greedyPrefix s' with
    | Some p => Some (String a p)
    | None =>
      if Ascii.eqb a "-" && contains s' "-" then Some EmptyString else None
    end
  end.

Definition threeSegmentsNewline : string := "a-b-c" ++ String newline "".

Definition eventOfPod (podName : string) : Event :=
  mkEvent "kubelet" "Pod" "Pulled" exampleMsg "default" podName "node-1"
          {| time.unixSec := 1700000000; time.nsec := 123456789 |}.

(** Decimal numerals: strings of the digits 0 to 9, and their value. *)
Fixpoint allDigits (s : string) : bool :=
  match s with
  | EmptyString => true
  | String c s' => isDigit c && allDigits s'
  end.

Fixpoint decimalFrom (s : string) (acc : Z) : Z :=
  match s with
  | EmptyString => acc
  | String c s' => decimalFrom s' (acc * 10 + (byteZ c - 48))
  end.

Definition decimalValue (s : string) : Z := decimalFrom s 0.

Definition msgNegativeSize : string :=
  pullMessage "repo/example:99cd3b4" "15s" "45s" "-5".
Definition msgOverflowSize : string :=
  pullMessage "repo/example:99cd3b4" "15s" "45s" "9223372036854775808".

(** Strings the scan copies unchanged.  A plain reference is made of ASCII
    bytes other than the double quote, the backslash and the line feed; a
    plain token is a non-empty string of ASCII bytes above the space. *)
Fixpoint allBytes (p : Z -> bool) (s : string) : bool :=
  match s with
  | EmptyString => true
  | String c s' => p (byteZ c) && allBytes p s'
  end.

Definition plainRefByte (b : Z) : bool :=
  (b <? 128) && negb (b =? 34) && negb (b =? 92) && negb (b =? 10).

Definition plainTokenByte (b : Z) : bool := (32 <? b) && (b <? 128).

Definition plainRef (s : string) : bool := allBytes plainRefByte s.

Definition plainToken (s : string) : bool :=
  negb (String.eqb s "") && allBytes plainTokenByte s.

(** A reference the scan returns as it stands: valid UTF-8 without double
    quote, backslash and line feed. *)
Definition validRefByte (b : Z) : bool :=
  negb (b =? 34) && negb (b =? 92) && negb (b =? 10).

Definition validRef (s : string) : bool :=
  utf8.ValidString s && allBytes validRefByte s.

Definition isByte (b : Z) : Prop := 0 <= b < 256.

(** The byte sequences [utf8] accepts as the encoding of one rune, each
    with the rune it encodes. *)
Inductive accepted : list Z -> rune -> Prop :=
| accepted1 (b0 : Z) :
    0 <= b0 < 128 -> accepted [b0] b0
| accepted2 (b0 b1 : Z) :
    194 <= b0 < 224 -> 128 <= b1 <= 191 ->
    accepted [b0; b1] ((b0 - 192) * 64 + (b1 - 128))
| accepted3 (b0 b1 b2 : Z) :
    224 <= b0 < 240 -> 128 <= b1 <= 191 ->
    (b0 = 224 -> 160 <= b1) -> (b0 = 237 -> b1 <= 159) ->
    128 <= b2 <= 191 ->
    accepted [b0; b1; b2]
      ((b0 - 224) * 4096 + (b1 - 128) * 64 + (b2 - 128))
| accepted4 (b0 b1 b2 b3 : Z) :
    240 <= b0 <= 244 -> 128 <= b1 <= 191 ->
    (b0 = 240 -> 144 <= b1) -> (b0 = 244 -> b1 <= 143) ->
    128 <= b2 <= 191 -> 128 <= b3 <= 191 ->
    accepted [b0; b1; b2; b3]
      ((b0 - 240) * 262144 + (b1 - 128) * 4096 + (b2 - 128) * 64
       + (b3 - 128)).

Definition asciiBytes (l : list Z) : Prop := Forall (fun b => 0 <= b < 128) l.

(** A message of that form cut before its final period. *)
Definition pullMessageCut (ref pull total size : string) : string :=
  "Successfully pulled image " ++ dq ++ ref ++ dq ++ " in " ++ pull ++ " (" ++
  total ++ " including waiting). Image size: " ++ size ++ " bytes".

(** ** The grammar of section 4.2, as the specification words it

    The literal [Successfully pulled image] and a double quote, then a
    captured image reference up to the next double quote, that quote and the
    literal [ in ], a captured duration token, the literal [ (], a second
    captured duration token, the literal [ including waiting). Image size: ],
    a captured non-negative integer, the literal [ bytes.] (trailing period
    optional/ignored), matched in full.  A duration token is a sequence of
    pairs of an integer or decimal and a unit, the units drawn from hours,
    minutes, seconds, milliseconds, abbreviated, most-significant unit
    first; the integer is base 10 and fits the integer width. *)

Fixpoint stripPrefix (p s : string) : option string :=
  match p with
  | EmptyString => Some s
  | String a p' =>
    match s with
    | String b s' => if Ascii.eqb a b then stripPrefix p' s' else None
    | EmptyString => None
    end
  end.

(** The text before the next [c], and the rest from that [c] on. *)
Fixpoint spanUntil (c : ascii) (s : string) : string * string :=
  match s with
  | EmptyString => (EmptyString, EmptyString)
  | String a s' =>
    if Ascii.eqb a c then (EmptyString, s)
    else let (x, r) := spanUntil c s' in (String a x, r)
  end.

Fixpoint spanWhile (p : ascii -> bool) (s : string) : string * string :=
  match s with
  | EmptyString => (EmptyString, EmptyString)
  | String a s' =>
    if p a then let (x, r) := spanWhile p s' in (String a x, r)
    else (EmptyString, s)
  end.

(** Hours, minutes, seconds, milliseconds, by significance. *)
Definition unitRank (u : string) : option nat :=
  if String.eqb u "h" then Some 4%nat
  else if String.eqb u "m" then Some 3%nat
  else if String.eqb u "s" then Some 2%nat
  else if String.eqb u "ms" then Some 1%nat
  else None.

(** Pairs of a number and a unit, the units of strictly falling
    significance below [bound]. *)
Fixpoint durationPairs (fuel : nat) (t : string) (bound : nat) : bool :=
  match fuel with
  | O => false
  | S fuel' =>
    let (whole, r1) := spanWhile isDigit t in
    let afterNumber :=
      match r1 with
      | String "." r =>
        let (frac, r') := spanWhile isDigit r in
        if String.eqb frac "" then None else Some r'
      | _ => Some r1
      end in
    match afterNumber with
    | None => false
    | Some r2 =>
      let (u, r3) := spanWhile (fun a => negb (isDigit a)) r2 in
      match unitRank u with
      | None => false
      | Some k =>
        negb (String.eqb whole "") && Nat.ltb k bound
        && (String.eqb r3 "" || durationPairs fuel' r3 k)
      end
    end
  end.

Definition isDurationToken (t : string) : bool :=
  durationPairs (String.length t) t 5.

Definition isSizeToken (n : string) : bool :=
  negb (String.eqb n "") && allDigits n && (decimalValue n <? 2 ^ 63).

(** The four captures of a message that matches the grammar in full. *)
Definition grammarFields (msg : string)
  : option (string * string * string * string) :=
  match stripPrefix ("Successfully pulled image " ++ dq) msg with
  | None => None
  | Some s1 =>
    let (ref, s2) := spanUntil dquote s1 in
    match stripPrefix (dq ++ " in ") s2 with
    | None => None
    | Some s3 =>
      let (pull, s4) := spanUntil " " s3 in
      match stripPrefix " (" s4 with
      | None => None
      | Some s5 =>
        let (total, s6) := spanUntil " " s5 in
        match stripPrefix " including waiting). Image size: " s6 with
        | None => None
        | Some s7 =>
          let (size, s8) := spanUntil " " s7 in
          if isDurationToken pull && isDurationToken total
             && isSizeToken size
             && (String.eqb s8 " bytes." || String.eqb s8 " bytes")
          then Some (ref, pull, total, size)
          else None
        end
      end
    end
  end.

Definition matchesGrammar (msg : string) : bool :=
  match grammarFields msg with Some _ => true | None => false end.

(** A duration token by its structure: the pairs of a number, given by
    the digits of its whole part and those after the decimal point (none
    for an integer), and a unit. *)
Inductive durationUnit := Hours | Minutes | Seconds | Millis.

Definition unitAbbrev (u : durationUnit) : string :=
  match u with
  | Hours => "h" | Minutes => "m" | Seconds => "s" | Millis => "ms"
  end.

Definition unitNanos (u : durationUnit) : Z :=
  match u with
  | Hours => time.Hour
  | Minutes => time.Minute
  | Seconds => time.Second
  | Millis => time.Millisecond
  end.

Definition unitSignificance (u : durationUnit) : nat :=
  match u with
  | Hours => 4 | Minutes => 3 | Seconds => 2 | Millis => 1
  end%nat.

Record durationPair := {
  whole : string;
  fraction : string;
  pairUnit : durationUnit
}.

Definition renderPair (p : durationPair) : string :=
  whole p
  ++ (if String.eqb (fraction p) "" then "" else "." ++ fraction p)
  ++ unitAbbrev (pairUnit p).

Fixpoint renderToken (l : list durationPair) : string :=
  match l with
  | [] => EmptyString
  | p :: l' => renderPair p ++ renderToken l'
  end.

(** The value of a pair and of a token, in nanoseconds. *)
Definition pairNanos (p : durationPair) : Z :=
  decimalValue (whole p) * unitNanos (pairUnit p)
  + decimalValue (fraction p) * unitNanos (pairUnit p)
    / 10 ^ Z.of_nat (String.length (fraction p)).

Fixpoint tokenNanos (l : list durationPair) : Z :=
  match l with
  | [] => 0
  | p :: l' => pairNanos p + tokenNanos l'
  end.

(** The digits a number in unit [u] can have after its decimal point for
    each of them to stand for a whole number of nanoseconds: the powers of
    ten that divide the nanoseconds of the unit. *)
Definition fractionDigits (u : durationUnit) : nat :=
  match u with
  | Hours => 11 | Minutes => 10 | Seconds => 9 | Millis => 6
  end%nat.

(** Pairs in the order of the grammar, most significant unit first, with
    no more digits after a decimal point than [fractionDigits] allows
    (nanosecond precision). *)
Fixpoint wellFormedPairs (bound : nat) (l : list durationPair) : bool :=
  match l with
  | [] => true
  | p :: l' =>
    negb (String.eqb (whole p) "") && allDigits (whole p)
    && allDigits (fraction p)
    && Nat.leb (String.length (fraction p)) (fractionDigits (pairUnit p))
    && Nat.ltb (unitSignificance (pairUnit p)) bound
    && wellFormedPairs (unitSignificance (pairUnit p)) l'
  end.

Definition wellFormedToken (l : list durationPair) : bool :=
  match l with
  | [] => false
  | _ :: _ => wellFormedPairs 5 l
  end.

(** [scale] after [n] more digits of a fraction: [scale *= 10], [n]
    times. *)
Fixpoint scaleUp (n : nat) (scale : float64.t) : float64.t :=
  match n with
  | O => scale
  | S n' => scaleUp n' (float64.mul scale (float64.of_Z 10))
  end.

(** The nanoseconds [ParseDuration] adds for the digits [f] after the
    decimal point, [k] of them, of a number in unit [u]. *)
Definition fractionNanos (u : durationUnit) (k : nat) (f : Z) : Z :=
  float64.to_uint64
    (float64.mul (float64.of_Z f)
       (float64.div (float64.of_Z (unitNanos u)) (scaleUp k float64.one))).

(** The mantissa [q] with [n] zero bits behind it. *)
Definition shifted (q : positive) (n : Z) : positive :=
  match n with Zpos p => Pos.iter xO q p | _ => q end.

(** The mantissa of 53 bits of the integer [a]. *)
Definition norm (a : positive) : positive :=
  shifted a (53 - Zpos (Pos.size a)).

Definition startsWithDigitOrEnds (s : string) : bool :=
  match s with
  | EmptyString => true
  | String c _ => isDigit c
  end.

Definition startsWithNonDigitOrEnds (s : string) : bool :=
  match s with
  | EmptyString => true
  | String c _ => negb (isDigit c)
  end.

(** The token [1m44.643s] of the end-to-end scenario. *)
Definition examplePullToken : list durationPair :=
  [ {| whole := "1"; fraction := ""; pairUnit := Minutes |};
    {| whole := "44"; fraction := "643"; pairUnit := Seconds |} ].

Definition msgTrailing : string := msg15s45s ++ " and more".
Definition msgNoPeriod : string :=
  pullMessageCut "repo/example:99cd3b4" "15s" "45s" "500".
Definition msgBackquoted : string :=
  "Successfully pulled image `repo/example:99cd3b4` in 15s (45s including waiting). Image size: 500 bytes.".
Definition msgSingleQuoted : string :=
  "Successfully pulled image 'repo/example:99cd3b4' in 15s (45s including waiting). Image size: 500 bytes.".
Definition msgTruncated : string :=
  "Successfully pulled image " ++ dq ++ "repo/example:99cd3b4" ++ dq ++ " in 15s".
Definition msgNonNumericSize : string :=
  pullMessage "repo/example:99cd3b4" "15s" "45s" "large".

(** ** The informer's handler (lines 127-129 of [main.go])

    [cache.ResourceEventHandlerFuncs] holds three optional functions; a
    notification is handed to the function of its kind when that is set,
    and dropped when it is [nil]. *)

Record ResourceEventHandlerFuncs := {
  AddFunc : option (object -> list effect);
  UpdateFunc : option (object -> object -> list effect);
  DeleteFunc : option (object -> list effect)
}.

Definition OnAdd (r : ResourceEventHandlerFuncs) (obj : object)
  (isInInitialList : bool) : list effect :=
  match AddFunc r with Some f => f obj | None => [] end.

Definition OnUpdate (r : ResourceEventHandlerFuncs) (oldObj newObj : object)
  : list effect :=
  match UpdateFunc r with Some f => f oldObj newObj | None => [] end.

Definition OnDelete (r : ResourceEventHandlerFuncs) (obj : object)
  : list effect :=
  match DeleteFunc r with Some f => f obj | None => [] end.

(** What [main] registers: [AddFunc] alone. *)
Definition eventHandler : ResourceEventHandlerFuncs :=
  {| AddFunc := Some handleAddFunc; UpdateFunc := None; DeleteFunc := None |}.

(** What the informer tells its handlers. *)
Inductive notification :=
| addNotification (newObj : object) (isInInitialList : bool)
| updateNotification (oldObj newObj : object)
| deleteNotification (oldObj : object).

Definition deliver (r : ResourceEventHandlerFuncs) (n : notification)
  : list effect :=
  match n with
  | addNotification obj initial => OnAdd r obj initial
  | updateNotification oldObj newObj => OnUpdate r oldObj newObj
  | deleteNotification obj => OnDelete r obj
  end.

(** The notifications of a run, handled one after the other. *)
Definition deliverAll (r : ResourceEventHandlerFuncs)
  (ns : list notification) : list effect :=
  flat_map (deliver r) ns.

(** The added objects that get past the filter and the parse. *)
Definition pullReported (n : notification) : bool :=
  match n with
  | addNotification (EventObj event) _ =>
    accept event && is_ok (parse (Message event))
  | _ => false
  end.

(** The lines a call logs, without the observations. *)
Definition logged (l : list effect) : list effect :=
  filter (fun e => match e with Record_ _ _ _ => false | _ => true end) l.

(** The first three tests of the handler: source, kind and reason. *)
Definition kubeletPulledPod (event : Event) : bool :=
  String.eqb (Component (Source event)) "kubelet"
  && String.eqb (Kind (InvolvedObject event)) "Pod"
  && String.eqb (Reason event) "Pulled".

(** The zero [time.Time], January 1 of year 1, which an event without a
    last timestamp carries. *)
Definition zeroTime : time.Time :=
  {| time.unixSec := -62135596800; time.nsec := 0 |}.

(** A decimal numeral with an optional sign, and its value. *)
Definition signedNumeral (s : string) : option Z :=
  match s with
  | EmptyString => None
  | String c t =>
    let digits := if Ascii.eqb c "-" || Ascii.eqb c "+" then t else s in
    if allDigits digits && negb (String.eqb digits "")
    then Some (if Ascii.eqb c "-" then - decimalValue digits
               else decimalValue digits)
    else None
  end.

(** An accepted event with a given last timestamp. *)
Definition eventAt (ts : time.Time) : Event :=
  mkEvent "kubelet" "Pod" "Pulled" msg15s45s "default" "web-0" "node-1" ts.

(** A duration token with a sign before it, and its value. *)
Definition signedToken (negative : bool) (l : list durationPair) : string :=
  String (if negative then "-" else "+")%char (renderToken l).

Definition signedNanos (negative : bool) (l : list durationPair) : Z :=
  if negative then - tokenNanos l else tokenNanos l.

(** ** flag: the command line, for flags of type string

    [main] defines its flags on [flag.CommandLine], whose error handling is
    [ExitOnError]. *)

Module flag.

Inductive Error :=
| ErrHelp                                (* flag: help requested *)
| ErrBadSyntax (arg : string)            (* bad flag syntax: %s *)
| ErrNotDefined (name : string)          (* flag provided but not defined: -%s *)
| ErrNeedsArgument (name : string).      (* flag needs an argument: -%s *)

(** The flags defined on a set ([formal]), each with the string its pointer
    points to. *)
Definition FlagSet : Type := list (string * string).

Fixpoint formal (f : FlagSet) (name : string) : option string :=
  match f with
  | [] => None
  | (n, v) :: f' => if String.eqb n name then Some v else formal f' name
  end.

(** [flag.Value.Set(value)] on the flag [name]. *)
Fixpoint set (f : FlagSet) (name value : string) : FlagSet :=
  match f with
  | [] => []
  | (n, v) :: f' =>
    if String.eqb n name then (n, value) :: f'
    else (n, v) :: set f' name value
  end.

(** What the pointer returned for the flag [name] points to. *)
Definition deref (f : FlagSet) (name : string) : string :=
  match formal f name with Some v => v | None => EmptyString end.

(** The text before the first [=] and the text after it. *)
Fixpoint cutAtEquals (s : string) : option (string * string) :=
  match s with
  | EmptyString => None
  | String c s' =>
    if Ascii.eqb c "=" then Some (EmptyString, s')
    else match cutAtEquals s' with
         | Some (n, v) => Some (String c n, v)
         | None => None
         end
  end.

(** The loop of [parseOne] over [name]: an [=] cannot be first. *)
Definition nameValue (name : string) : string * option string :=
  match name with
  | EmptyString => (name, None)
  | String c0 rest =>
    match cutAtEquals rest with
    | Some (n, v) => (String c0 n, Some v)
    | None => (name, None)
    end
  end.

(** [FlagSet.parseOne]: whether a flag was seen, the error, the flags and
    the arguments left. *)
Definition parseOne (f : FlagSet) (args : list string)
  : bool * option Error * FlagSet * list string :=
  match args with
  | [] => (false, None, f, args)
  | s :: rest =>
    match s with
    | String c0 (String c1 t) =>
      if negb (Ascii.eqb c0 "-") then (false, None, f, args)
      else if Ascii.eqb c1 "-" && (len s =? 2) then (false, None, f, rest)
      else
        let name := if Ascii.eqb c1 "-" then t else String c1 t in
        match name with
        | EmptyString => (false, Some (ErrBadSyntax s), f, args)
        | String n0 _ =>
          if Ascii.eqb n0 "-" || Ascii.eqb n0 "="
          then (false, Some (ErrBadSyntax s), f, args)
          else
            let (name, value) := nameValue name in
            match formal f name with
            | None =>
              if String.eqb name "help" || String.eqb name "h"
              then (false, Some ErrHelp, f, rest)
              else (false, Some (ErrNotDefined name), f, rest)
            | Some _ =>
              match value, rest with
              | Some v, _ => (true, None, set f name v, rest)
              | None, v :: rest' => (true, None, set f name v, rest')
              | None, [] => (false, Some (ErrNeedsArgument name), f, rest)
              end
            end
        end
    | _ => (false, None, f, args)
    end
  end.

(** The loop of [FlagSet.Parse].  Every flag seen takes an argument away,
    so one round more than there are arguments suffices. *)
Fixpoint parseLoop (fuel : nat) (f : FlagSet) (args : list string)
  : result Error (FlagSet * list string) :=
  match fuel with
  | O => Ok (f, args)
  | S fuel' =>
    match parseOne f args with
    | (true, _, f', args') => parseLoop fuel' f' args'
    | (false, None, f', args') => Ok (f', args')
    | (false, Some e, _, _) => Err e
    end
  end.

(** [FlagSet.Parse(arguments)], up to what [ExitOnError] does with the
    error: the flags and the arguments that are no flags. *)
Definition Parse (f : FlagSet) (arguments : list string)
  : result Error (FlagSet * list string) :=
  parseLoop (S (List.length arguments)) f arguments.

(** [os.Exit(0)] for [ErrHelp] and [os.Exit(2)] for the other errors. *)
Definition exitCode (e : Error) : Z :=
  match e with ErrHelp => 0 | _ => 2 end.

(** [flag.String(name, value, usage)], on a set without a flag [name]. *)
Definition String (f : FlagSet) (name value : string) : FlagSet :=
  f ++ [(name, value)].

End flag.

(** ** main, newResource and newMeterProvider

    The calls into client-go and the OpenTelemetry SDK are kept as what
    they were called with; whether a call fails is for the environment to
    say. *)

(** The three ways [main] obtains a [*rest.Config]. *)
Inductive Config :=
| InClusterConfig
| BuildConfigFromFlags (masterUrl kubeconfigPath : string)
| ClientConfig (ExplicitPath CurrentContext : string).

Inductive Resource :=
| Default
| NewWithAttributes (schemaURL : string) (attrs : list attribute.KeyValue)
| Merge (a b : Resource).

Inductive Compression := NoCompression | GzipCompression.

Inductive exporterOption :=
| WithInsecure
| WithCompression (c : Compression).

(** A meter provider, by the resource and the periodic reader it was made
    with. *)
Record MeterProvider := {
  WithResource : Resource;
  exporterOptions : list exporterOption;
  WithInterval : time.Duration
}.

(** The environment of a run: the home directory, the arguments after the
    program name, the error of each call that can fail ([None] when it
    succeeds), and what [cache.WaitForCacheSync] returns. *)
Record World := {
  HomeDir : string;
  Args : list string;
  configError : Config -> option string;
  NewForConfigError : Config -> option string;
  MergeError : Resource -> Resource -> option string;
  exporterError : list exporterOption -> option string;
  WaitForCacheSync : bool
}.

Definition SchemaURL : string := "https://opentelemetry.io/schemas/1.26.0".

Definition ServiceName (val : string) : attribute.KeyValue :=
  attribute.String "service.name" val.

Definition newResource (w : World) : result string Resource :=
  let a := Default in
  let b := NewWithAttributes SchemaURL [ServiceName "k8s-image-pull-metrics"] in
  match MergeError w a b with
  | Some err => Err err
  | None => Ok (Merge a b)
  end.

Definition newMeterProvider (w : World) (res : Resource)
  : result string MeterProvider :=
  let opts := [] in
  let opts := opts ++ [WithInsecure] in
  let opts := opts ++ [WithCompression GzipCompression] in
  match exporterError w opts with
  | Some err => Err err
  | None =>
    Ok {| WithResource := res;
          exporterOptions := opts;
          WithInterval := 30 * time.Second |}
  end.

(** What [main] does that can be seen from outside, in order. *)
Inductive action :=
| SetMeterProvider (p : MeterProvider)
| CreateInstrument (i : instrument) (def : instrumentDef)
| AddEventHandler (h : ResourceEventHandlerFuncs)
| RunInformer (config : Config)
| Shutdown (p : MeterProvider)
| CloseStopCh
| LogFatalf (msg : string).

Inductive panicValue :=
| NilPointerDereference
| PanicString (s : string)      (* panic(err.Error()) *)
| PanicError (err : string).    (* panic(err) *)

(** How the body of a function ends. *)
Inductive ending :=
| Returned
| Panicked (v : panicValue)
| Exited (code : Z)             (* os.Exit *)
| Blocked.                      (* select {} *)

(** A run of a function body: what it did, the calls it deferred (the last
    deferred first) and how it ended. *)
Record run := {
  performed : list action;
  deferred : list action;
  ended : ending
}.

(** Deferred calls run when the function returns or panics; [os.Exit] runs
    none, and a blocked function has not come to them. *)
Definition trace (r : run) : list action :=
  match ended r with
  | Returned | Panicked _ => performed r ++ deferred r
  | Exited _ | Blocked => performed r
  end.

(** The first configuration of [main], from the value of [-kubeconfig]. *)
Definition firstConfig (kubeconfig : string) : Config :=
  if String.eqb kubeconfig "" then InClusterConfig
  else BuildConfigFromFlags "" kubeconfig.

Definition main (w : World) : run :=
  let stop (e : ending) := {| performed := []; deferred := []; ended := e |} in
  let flags : flag.FlagSet := [] in
  let '(kubeconfig, flags) :=
    if negb (String.eqb (HomeDir w) "")
    then (Some "kubeconfig"%string, flag.String flags "kubeconfig" "")
    else (None, flags) in
  let ctx := "context"%string in
  let flags := flag.String flags "context" "" in
  match flag.Parse flags (Args w) with
  | Err e => stop (Exited (flag.exitCode e))
  | Ok (flags, _) =>
    match kubeconfig with
    | None => stop (Panicked NilPointerDereference)
    | Some kubeconfig =>
      let config := firstConfig (flag.deref flags kubeconfig) in
      match configError w config with
      | Some err => stop (Panicked (PanicString err))
      | None =>
        let override := negb (String.eqb (flag.deref flags ctx) "") in
        let config' :=
          ClientConfig (flag.deref flags kubeconfig) (flag.deref flags ctx) in
        match (if override then configError w config' else None) with
        | Some err => stop (Panicked (PanicString err))
        | None =>
          let config := if override then config' else config in
          match NewForConfigError w config with
          | Some err => stop (Panicked (PanicString err))
          | None =>
            match newResource w with
            | Err err => stop (Panicked (PanicError err))
            | Ok res =>
              match newMeterProvider w res with
              | Err err => stop (Panicked (PanicError err))
              | Ok meterProvider =>
                let setup :=
                  [ SetMeterProvider meterProvider;
                    CreateInstrument durationPullHistogram
                      (instrumentOf durationPullHistogram);
                    CreateInstrument durationPullWaitOnlyHistogram
                      (instrumentOf durationPullWaitOnlyHistogram);
                    CreateInstrument imageSizeGauge
                      (instrumentOf imageSizeGauge);
                    AddEventHandler eventHandler;
                    RunInformer config ] in
                let defers := [CloseStopCh; Shutdown meterProvider] in
                if WaitForCacheSync w
                then {| performed := setup;
                        deferred := defers;
                        ended := Blocked |}
                else {| performed := setup ++ [LogFatalf "Error syncing cache"];
                        deferred := defers;
                        ended := Exited 1 |}
              end
            end
          end
        end
      end
    end
  end.

(** The configuration the informer of [main] runs on, from the values of
    the two flags. *)
Definition chosenConfig (kubeconfig ctx : string) : Config :=
  if String.eqb ctx "" then firstConfig kubeconfig
  else ClientConfig kubeconfig ctx.

(** The flags [main] defines when the home directory is known. *)
Definition mainFlags : flag.FlagSet :=
  flag.String (flag.String [] "kubeconfig" "") "context" "".

(** The same environment with other arguments. *)
Definition withArgs (w : World) (args : list string) : World :=
  {| HomeDir := HomeDir w;
     Args := args;
     configError := configError w;
     NewForConfigError := NewForConfigError w;
     MergeError := MergeError w;
     exporterError := exporterError w;
     WaitForCacheSync := WaitForCacheSync w |}.

(** A name a flag can have: not empty, no [-] first, no [=]. *)
Definition flagName (name : string) : bool :=
  match name with
  | EmptyString => false
  | String c _ => negb (Ascii.eqb c "-") && negb (contains name "=")
  end.

(** What [main] does once it serves, for the configuration [config]. *)
Definition servingActions (config : Config) (res : Resource) : list action :=
  [ SetMeterProvider
      {| WithResource := res;
         exporterOptions := [WithInsecure; WithCompression GzipCompression];
         WithInterval := 30000000000 |};
    CreateInstrument durationPullHistogram
      (instrumentOf durationPullHistogram);
    CreateInstrument durationPullWaitOnlyHistogram
      (instrumentOf durationPullWaitOnlyHistogram);
    CreateInstrument imageSizeGauge (instrumentOf imageSizeGauge);
    AddEventHandler eventHandler;
    RunInformer config ].

(** An environment in which every call succeeds. *)
Definition quietWorld (home : string) (args : list string) : World :=
  {| HomeDir := home;
     Args := args;
     configError := fun _ => None;
     NewForConfigError := fun _ => None;
     MergeError := fun _ _ => None;
     exporterError := fun _ => None;
     WaitForCacheSync := true |}.

(** The names of the flags [main] defines, by the home directory. *)
Definition definedFlags (home : string) : list string :=
  if String.eqb home "" then ["context"%string]
  else ["kubeconfig"%string; "context"%string].

(** A text that can stand for a unit: not empty, no digit and no point. *)
Fixpoint noDigitNoPoint (u : string) : bool :=
  match u with
  | EmptyString => true
  | String c u' => negb (Ascii.eqb c "." || isDigit c) && noDigitNoPoint u'
  end.

Definition unitText (u : string) : bool :=
  negb (String.eqb u "") && noDigitNoPoint u.

(** A rune of a format that stands for itself: no space and no [%]. *)
Definition literalRune (c : Z) : Prop := fmt.isSpace c = false /\ c <> 37.

(** The back quote, and a message in the form of section 4.2 whose
    reference stands between back quotes. *)
Definition bquote : ascii := "096"%char.
Definition bq : string := String bquote EmptyString.

Definition rawPullMessage (ref pull total size : string) : string :=
  "Successfully pulled image " ++ bq ++ ref ++ bq ++ " in " ++ pull ++ " (" ++
  total ++ " including waiting). Image size: " ++ size ++ " bytes.".

(** A reference of ASCII bytes without a back quote. *)
Definition rawRefByte (b : Z) : bool := (b <? 128) && negb (b =? 96).

Definition rawRef (s : string) : bool := allBytes rawRefByte s.

(** An argument that is no flag: shorter than two bytes, or without a
    dash first. *)
Definition nonFlag (s : string) : bool :=
  match s with
  | String c0 (String _ _) => negb (Ascii.eqb c0 "-")
  | _ => true
  end.

(** The flags [main] has defined when it calls [flag.Parse]. *)
Definition flagsAtParse (w : World) : flag.FlagSet :=
  if String.eqb (HomeDir w) "" then [("context", "")]%string else mainFlags.

(** Whether the arguments [args] end in a flag that still waits for its
    value. *)
Definition awaitsValue (w : World) (args : list string) : bool :=
  match flag.Parse (flagsAtParse w) args with
  | Err (flag.ErrNeedsArgument _) => true
  | _ => false
  end.

(** The instruments created in a run, in order, each with what it was
    created with. *)
Definition created (l : list action) : list (instrument * instrumentDef) :=
  flat_map (fun a => match a with
                     | CreateInstrument i def => [(i, def)]
                     | _ => []
                     end) l.

(** The scan state [s] with the runes [X] behind its input. *)
Definition extended (X : list rune) (s : fmt.ss) : fmt.ss :=
  fmt.mkss (fmt.rs s ++ X) (fmt.count s).

(** A format without newline in which every [%] begins a verb [%q] or
    [%s]. *)
Fixpoint tameFormat (format : list rune) : bool :=
  match format with
  | [] => true
  | c :: rest =>
    (if c =? 37
     then match rest with
          | v :: _ => (v =? 113) || (v =? 115)
          | [] => false
          end
     else negb (c =? 10))
    && tameFormat rest
  end.

(** A format whose last rune is a literal that is not the letter of a
    verb. *)
Definition endsLiteral (format : list rune) : Prop :=
  exists pre b,
    format = pre ++ [b] /\ literalRune b
    /\ forall pre', pre <> pre' ++ [37].

(** The run of spaces collected so far in a format without newline. *)
Definition spaceRun (sp : option (nat * bool)) : Prop :=
  sp = None \/ sp = Some (0%nat, true).

(** The prefixes of a text that are shorter than the text. *)
Fixpoint properPrefixes (s : string) : list string :=
  match s with
  | EmptyString => []
  | String c s' => EmptyString :: List.map (String c) (properPrefixes s')
  end.

(** Whether a scan ended in an error. *)
Definition scanFailed (r : list string * option fmt.scanError) : bool :=
  match r with (_, Some _) => true | (_, None) => false end.

(** ** The form of the messages that the scan accepts

    What [Sscanf] reads under the format of [main.go], rune by rune: the
    words of the format, a run of blanks where the format has a space, a
    quoted string for [%q] and a token without space for [%s]. *)

(** A space other than the line feed: what a space of the format
    matches. *)
Definition blank (r : rune) : bool := fmt.isSpace r && negb (r =? 10).

(** The runes between two double quotes: a backslash takes the rune
    behind it along, and no other double quote occurs. *)
Inductive escaped : list rune -> Prop :=
| escaped_nil : escaped []
| escaped_rune (r : rune) (l : list rune) :
    r <> 92 -> r <> 34 -> escaped l -> escaped (r :: l)
| escaped_pair (r : rune) (l : list rune) :
    escaped l -> escaped (92 :: r :: l).

(** A quoted string and what it stands for: between back quotes the text
    as it is, between double quotes what [strconv.Unquote] makes of it. *)
Inductive quotedLiteral : list rune -> string -> Prop :=
| quoted_raw (body : list rune) :
    Forall (fun r => r <> 96) body ->
    quotedLiteral (96 :: body ++ [96]) (utf8.encodeRunes body)
| quoted_interpreted (body : list rune) (v : string) :
    escaped body ->
    strconv.Unquote (utf8.encodeRunes (34 :: body ++ [34])) = Ok v ->
    quotedLiteral (34 :: body ++ [34]) v.

Inductive item :=
| Word (w : string)     (* the runes of [w] *)
| Blanks                (* one blank or more *)
| OptBlanks             (* blanks, or nothing *)
| Quoted                (* a quoted string, stored *)
| Token.                (* runes that are no spaces, one or more, stored *)

(** [laidOut items l out]: the runes [l] begin with the items in order,
    and [out] are the strings stored; what follows the last item is
    free. *)
Inductive laidOut : list item -> list rune -> list string -> Prop :=
| laidOut_nil (l : list rune) : laidOut [] l []
| laidOut_Word (w : string) (items : list item) (l : list rune)
    (out : list string) :
    laidOut items l out -> laidOut (Word w :: items) (bytes w ++ l) out
| laidOut_Blanks (b : list rune) (items : list item) (l : list rune)
    (out : list string) :
    b <> [] -> Forall (fun r => blank r = true) b ->
    laidOut items l out -> laidOut (Blanks :: items) (b ++ l) out
| laidOut_OptBlanks (b : list rune) (items : list item) (l : list rune)
    (out : list string) :
    Forall (fun r => blank r = true) b ->
    laidOut items l out -> laidOut (OptBlanks :: items) (b ++ l) out
| laidOut_Quoted (q : list rune) (v : string) (items : list item)
    (l : list rune) (out : list string) :
    quotedLiteral q v ->
    laidOut items l out -> laidOut (Quoted :: items) (q ++ l) (v :: out)
| laidOut_Token (t : list rune) (items : list item) (l : list rune)
    (out : list string) :
    t <> [] -> Forall (fun r => fmt.notSpace r = true) t ->
    laidOut items l out ->
    laidOut (Token :: items) (t ++ l) (utf8.encodeRunes t :: out).

(** The format of [main.go], item by item. *)
Definition pullLayout : list item :=
  [ Word "Successfully"; Blanks; Word "pulled"; Blanks; Word "image";
    Blanks; Quoted; Blanks; Word "in"; Blanks; Token; Blanks; Word "(";
    OptBlanks; Token; Blanks; Word "including"; Blanks; Word "waiting).";
    Blanks; Word "Image"; Blanks; Word "size:"; Blanks; Token; Blanks;
    Word "bytes." ].

(** The scan state has nothing more to give. *)
Definition atEOF (s : fmt.ss) : Prop := fst (fmt.getRune s) = None.

(** Runes that begin with a rune that is no space, or with a space. *)
Definition startsNonSpace (l : list rune) : Prop :=
  exists x l', l = x :: l' /\ fmt.isSpace x = false.

Definition startsSpace (l : list rune) : Prop :=
  exists x l', l = x :: l' /\ fmt.isSpace x = true.

(** Messages that the scan accepts although they are not in the form of
    section 4.2: with two spaces, a tab and a space behind the
    parenthesis; and with an escaped double quote in the reference. *)
Definition tab : string := String "009"%char EmptyString.
Definition msgWideBlanks : string :=
  "Successfully  pulled" ++ tab ++ "image " ++ dq ++ "repo/example:99cd3b4"
  ++ dq ++ " in 15s ( 45s including waiting). Image size: 500 bytes.".
Definition msgEscapedQuote : string :=
  pullMessage ("repo" ++ String bslash dq ++ "example") "15s" "45s" "500".


(** * Properties *)

(** ** Decomposition of the handler *)

Lemma prefix_take (p s : string) :
  String.prefix p s
  = (Nat.leb (String.length p) (String.length s)
     && String.eqb (take (String.length p) s) p)%bool.
Proof.
  revert s; induction p as [|a p IH]; intros [|b s]; simpl; try reflexivity.
  rewrite Ascii.eqb_sym.
  destruct (Ascii.eqb_spec a b) as [->|Hne].
  - rewrite IH. destruct (ascii_dec b b); [reflexivity|congruence].
  - destruct (ascii_dec a b); [congruence|].
    now rewrite Bool.andb_false_r.
Qed.

Lemma skipMessage_prefix (msg : string) :
  skipMessage msg = String.prefix "Container image" msg.
Proof.
  rewrite prefix_take. unfold skipMessage, len. f_equal.
  change (String.length "Container image") with 15%nat.
  destruct (Nat.leb_spec 15 (String.length msg));
    [apply Z.leb_le | apply Z.leb_gt]; lia.
Qed.

Lemma handleAddFunc_accepted (event : Event) :
  accept event = true ->
  handleAddFunc (EventObj event)
  = LogPodEventAdded (Message event)
      :: match parse (Message event) with
         | Ok r => recordAll event r
         | Err line => [line]
         end.
Proof.
  unfold accept, handleAddFunc. intros H.
  repeat (apply andb_prop in H; destruct H as [H ?]).
  rewrite skipMessage_prefix, H, H1, H2. simpl.
  apply negb_true_iff in H0. rewrite H0. f_equal.
  unfold parse, recordAll, commonAttributes, podPrefix.
  destruct (fmt.Sscanf (Message event) pullFormat 4) as [out err].
  destruct out as [|a [|b [|c [|d [|e out]]]]]; destruct err; try reflexivity.
  destruct (time.ParseDuration b); [|reflexivity].
  destruct (time.ParseDuration c); [|reflexivity].
  destruct (strconv.ParseInt d); [|reflexivity].
  simpl.
  destruct (regexp.FindStringSubmatch podPrefixRe 1 (Name (InvolvedObject event)))
    as [[|m0 [|m1 ms]]|]; reflexivity.
Qed.

Lemma handleAddFunc_rejected (event : Event) :
  accept event = false ->
  handleAddFunc (EventObj event) = []
  \/ handleAddFunc (EventObj event) = [LogSkipping (Message event)].
Proof.
  unfold accept, handleAddFunc. rewrite skipMessage_prefix. intros H.
  destruct (String.eqb (Component (Source event)) "kubelet"); [|now left].
  destruct (String.eqb (Kind (InvolvedObject event)) "Pod"); [|now left].
  destruct (String.eqb (Reason event) "Pulled"); [|now left].
  simpl in *. apply negb_false_iff in H. rewrite H. now right.
Qed.

Lemma recorded_recordAll (event : Event) (r : ParsedPullRecord) :
  recorded (recordAll event r)
  = [ (imageSizeGauge, imageSizeBytes r, commonAttributes event r);
      (durationPullHistogram, time.Milliseconds (pullDuration r),
       commonAttributes event r);
      (durationPullWaitOnlyHistogram,
       time.Milliseconds (waitOnlyDuration (totalDuration r) (pullDuration r)),
       commonAttributes event r) ].
Proof. reflexivity. Qed.

Lemma recorded_parsed (event : Event) (r : ParsedPullRecord) :
  accept event = true ->
  parse (Message event) = Ok r ->
  recorded (handleAddFunc (EventObj event)) = recorded (recordAll event r).
Proof.
  intros Ha Hp. rewrite (handleAddFunc_accepted _ Ha), Hp. reflexivity.
Qed.

(** ** Arithmetic of [int64] and of [Milliseconds] *)

Lemma wrap64_range (z : Z) : - 2 ^ 63 <= wrap64 z < 2 ^ 63.
Proof. unfold wrap64. pose proof (Z.mod_pos_bound (z + 2 ^ 63) (2 ^ 64)). lia. Qed.

Lemma wrap64_small (z : Z) : - 2 ^ 63 <= z < 2 ^ 63 -> wrap64 z = z.
Proof. intros H. unfold wrap64. rewrite Z.mod_small; lia. Qed.

Lemma Milliseconds_truncates (d : time.Duration) :
  truncatedMillis (time.Milliseconds d) d.
Proof.
  unfold truncatedMillis, time.Milliseconds.
  pose proof (Z.quot_rem' d 1000000) as E.
  set (q := Z.quot d 1000000) in *. set (r := Z.rem d 1000000) in *.
  destruct (Z_le_gt_dec 0 d) as [Hd|Hd].
  - pose proof (Z.rem_bound_pos d 1000000 Hd ltac:(lia)) as H. fold r in H.
    assert (0 <= q) by lia.
    split; [lia|]. apply Z.mul_nonneg_nonneg; lia.
  - pose proof (Z.rem_nonpos d 1000000 ltac:(lia) ltac:(lia)) as H.
    pose proof (Z.rem_bound_abs d 1000000 ltac:(lia)) as H0. fold r in H, H0.
    assert (q <= 0) by lia.
    split; [lia|]. apply Z.mul_nonpos_nonpos; lia.
Qed.

(** ** C2: the filter *)

Lemma accept_iff (event : Event) :
  accept event = true <-> filterConditions event.
Proof.
  unfold accept, filterConditions.
  rewrite !andb_true_iff, !String.eqb_eq, negb_true_iff. tauto.
Qed.

(** C2.  The handler goes past its filter (its first act there is the
    "Pod event added" log line) exactly when the source component is
    "kubelet", the involved object is a "Pod", the reason is "Pulled" and the
    message does not begin with "Container image"; when a condition fails the
    handler stops at once, having at most logged the skipped message, and
    records nothing. *)
Theorem C2_filter_accepts_iff (event : Event) :
  (In (LogPodEventAdded (Message event)) (handleAddFunc (EventObj event))
   <-> filterConditions event)
  /\ (~ filterConditions event ->
      (handleAddFunc (EventObj event) = []
       \/ handleAddFunc (EventObj event) = [LogSkipping (Message event)])
      /\ recorded (handleAddFunc (EventObj event)) = []).
Proof.
  assert (Hd : accept event = true \/ accept event = false)
    by (destruct (accept event); [left|right]; reflexivity).
  destruct Hd as [Ha|Ha].
  - assert (Hc : filterConditions event) by (apply accept_iff; exact Ha).
    split.
    + split; [intros _; exact Hc|].
      intros _. rewrite (handleAddFunc_accepted _ Ha). apply in_eq.
    + intros Hn. exfalso. exact (Hn Hc).
  - assert (Hc : ~ filterConditions event).
    { intros H. apply accept_iff in H. congruence. }
    destruct (handleAddFunc_rejected _ Ha) as [E|E]; rewrite E.
    + split.
      * split; [intros []|intros H; exfalso; exact (Hc H)].
      * intros _. split; [left|]; reflexivity.
    + split.
      * split; [intros [H|[]]; discriminate H|intros H; exfalso; exact (Hc H)].
      * intros _. split; [right|]; reflexivity.
Qed.


(** ** The example message *)

Lemma exampleMsg_parse :
  parse exampleMsg
  = Ok {| imageRef := "repo/example:99cd3b4";
          pullDuration := 104643000000;
          totalDuration := 104643000000;
          imageSizeBytes := 1169083618 |}.
Proof. vm_compute. reflexivity. Qed.

(** ** What a successful parse went through *)

Lemma parse_Ok_inv (msg : string) (r : ParsedPullRecord) :
  parse msg = Ok r ->
  exists pull total size,
    fmt.Sscanf msg pullFormat 4 = ([imageRef r; pull; total; size], None)
    /\ time.ParseDuration pull = Ok (pullDuration r)
    /\ time.ParseDuration total = Ok (totalDuration r)
    /\ strconv.ParseInt size = Ok (imageSizeBytes r).
Proof.
  unfold parse.
  destruct (fmt.Sscanf msg pullFormat 4) as [out err].
  destruct out as [|a [|b [|c [|d [|e out]]]]]; destruct err; try discriminate.
  destruct (time.ParseDuration b) as [d1|] eqn:E1; [|discriminate].
  destruct (time.ParseDuration c) as [d2|] eqn:E2; [|discriminate].
  destruct (strconv.ParseInt d) as [n|] eqn:E3; [|discriminate].
  intros H. injection H as <-. exists b, c, d. simpl. auto.
Qed.

Lemma ParseDuration_range (s : string) (d : time.Duration) :
  time.ParseDuration s = Ok d -> - 2 ^ 63 <= d < 2 ^ 63.
Proof.
  unfold time.ParseDuration.
  destruct (match s with
            | String c t =>
              if (Ascii.eqb c "-" || Ascii.eqb c "+")%bool
              then (Ascii.eqb c "-", t) else (false, s)
            | EmptyString => (false, s)
            end) as [neg s'].
  destruct (String.eqb s' "0"); [intros H; injection H as <-; lia|].
  destruct (String.eqb s' ""); [discriminate|].
  destruct (time.parseGroups (String.length s') s' 0) as [d0|]; [|discriminate].
  destruct neg.
  - intros H; injection H as <-. apply wrap64_range.
  - destruct (2 ^ 63 - 1 <? d0); [discriminate|].
    intros H; injection H as <-. apply wrap64_range.
Qed.

Lemma parse_range (msg : string) (r : ParsedPullRecord) :
  parse msg = Ok r ->
  - 2 ^ 63 <= pullDuration r < 2 ^ 63
  /\ - 2 ^ 63 <= totalDuration r < 2 ^ 63.
Proof.
  intros H. destruct (parse_Ok_inv _ _ H) as (p & t & s & _ & Hp & Ht & _).
  split; eapply ParseDuration_range; eassumption.
Qed.

(** ** C6: the attribute set *)

Lemma UnixMilli_floor (t : time.Time) :
  0 <= time.nsec t < 1000000000 ->
  - 2 ^ 63 <= time.unixSec t * 1000 ->
  time.unixSec t * 1000 + 999 < 2 ^ 63 ->
  time.UnixMilli t
  = (time.unixSec t * 1000000000 + time.nsec t) / 1000000.
Proof.
  intros Hn Hlo Hhi. unfold time.UnixMilli.
  rewrite Z.quot_div_nonneg by lia.
  assert (Hq : 0 <= time.nsec t / 1000000 < 1000).
  { split; [apply Z.div_pos; lia|].
    apply Z.div_lt_upper_bound; lia. }
  rewrite (wrap64_small (time.unixSec t * 1000)) by lia.
  rewrite wrap64_small by lia.
  replace (time.unixSec t * 1000000000 + time.nsec t)
    with (time.nsec t + (time.unixSec t * 1000) * 1000000) by lia.
  rewrite Z.div_add by lia. lia.
Qed.

(** C6.  For an accepted event whose message parses, the three observations
    carry one and the same attribute list; its keys are the seven always
    present ones, followed or not by exported.pod.prefix; observed.timestamp
    holds the Unix milliseconds of the event's last timestamp, which for a
    timestamp of [unixSec] seconds and [nsec] nanoseconds after the epoch
    is the whole number of milliseconds in [unixSec * 10^9 + nsec]
    nanoseconds, rounded down; and the value of exported.container.name is
    that of exported.pod.name, the name of the involved object. *)
Theorem C6_attribute_set (event : Event) (r : ParsedPullRecord) :
  accept event = true ->
  parse (Message event) = Ok r ->
  exists attrs size pullMs waitMs,
    recorded (handleAddFunc (EventObj event))
    = [ (imageSizeGauge, size, attrs);
        (durationPullHistogram, pullMs, attrs);
        (durationPullWaitOnlyHistogram, waitMs, attrs) ]
    /\ (keys attrs = baseKeys
        \/ keys attrs = baseKeys ++ ["exported.pod.prefix"%string])
    /\ lookup "observed.timestamp" attrs
       = Some (attribute.Int64Value (time.UnixMilli (LastTimestamp event)))
    /\ lookup "exported.namespace" attrs
       = Some (attribute.StringValue (Namespace event))
    /\ lookup "exported.pod.name" attrs
       = Some (attribute.StringValue (Name (InvolvedObject event)))
    /\ lookup "exported.container.name" attrs
       = lookup "exported.pod.name" attrs
    /\ lookup "exported.pod.image" attrs
       = Some (attribute.StringValue (imageRef r))
    /\ lookup "exported.pod.image.size" attrs
       = Some (attribute.Int64Value (imageSizeBytes r))
    /\ lookup "exported.host" attrs
       = Some (attribute.StringValue (Host (Source event)))
    /\ (0 <= time.nsec (LastTimestamp event) < 1000000000 ->
        - 2 ^ 63 <= time.unixSec (LastTimestamp event) * 1000 ->
        time.unixSec (LastTimestamp event) * 1000 + 999 < 2 ^ 63 ->
        lookup "observed.timestamp" attrs
        = Some (attribute.Int64Value
                  ((time.unixSec (LastTimestamp event) * 1000000000
                    + time.nsec (LastTimestamp event)) / 1000000))).
Proof.
  intros Ha Hp.
  exists (commonAttributes event r). do 3 eexists.
  split; [rewrite (recorded_parsed _ _ Ha Hp); apply recorded_recordAll|].
  assert (T : 0 <= time.nsec (LastTimestamp event) < 1000000000 ->
              - 2 ^ 63 <= time.unixSec (LastTimestamp event) * 1000 ->
              time.unixSec (LastTimestamp event) * 1000 + 999 < 2 ^ 63 ->
              lookup "observed.timestamp" (commonAttributes event r)
              = Some (attribute.Int64Value
                        ((time.unixSec (LastTimestamp event) * 1000000000
                          + time.nsec (LastTimestamp event)) / 1000000))).
  { intros Hn Hlo Hhi. rewrite <- (UnixMilli_floor _ Hn Hlo Hhi).
    reflexivity. }
  revert T. unfold commonAttributes.
  destruct (podPrefix (Name (InvolvedObject event))) as [p|]; intros T.
  - split; [right; reflexivity|]. repeat split. exact T.
  - split; [left; reflexivity|]. repeat split. exact T.
Qed.

Lemma C6_attribute_set_witness :
  accept (pulledEvent exampleMsg) = true
  /\ parse (Message (pulledEvent exampleMsg))
     = Ok {| imageRef := "repo/example:99cd3b4";
             pullDuration := 104643000000;
             totalDuration := 104643000000;
             imageSizeBytes := 1169083618 |}
  /\ exists attrs size pullMs waitMs,
       recorded (handleAddFunc (EventObj (pulledEvent exampleMsg)))
       = [ (imageSizeGauge, size, attrs);
           (durationPullHistogram, pullMs, attrs);
           (durationPullWaitOnlyHistogram, waitMs, attrs) ]
       /\ (keys attrs = baseKeys
           \/ keys attrs = baseKeys ++ ["exported.pod.prefix"%string])
       /\ lookup "exported.container.name" attrs
          = lookup "exported.pod.name" attrs
       /\ lookup "observed.timestamp" attrs
          = Some (attribute.Int64Value 1700000000123).
Proof.
  split; [reflexivity|]. split; [vm_compute; reflexivity|].
  destruct (C6_attribute_set (pulledEvent exampleMsg)
              {| imageRef := "repo/example:99cd3b4";
                 pullDuration := 104643000000;
                 totalDuration := 104643000000;
                 imageSizeBytes := 1169083618 |}
              eq_refl ltac:(vm_compute; reflexivity))
    as (attrs & size & pullMs & waitMs & H1 & H2 & _ & _ & _ & H3 & _ & _
        & _ & H4).
  exists attrs, size, pullMs, waitMs.
  split; [exact H1|]. split; [exact H2|]. split; [exact H3|].
  exact (H4 ltac:(cbn; lia) ltac:(cbn; lia) ltac:(cbn; lia)).
Defined.

(** ** C10: whole milliseconds *)

(** C10.  For an accepted event whose message parses, the values recorded to
    the two histograms are the parsed pull duration and the wait-only
    duration in whole milliseconds, the part below a millisecond discarded
    (truncation toward zero); so a pull duration strictly between 0 and one
    millisecond is recorded as 0. *)
Theorem C10_whole_milliseconds (event : Event) (r : ParsedPullRecord) :
  accept event = true ->
  parse (Message event) = Ok r ->
  exists size pullMs waitMs attrs,
    recorded (handleAddFunc (EventObj event))
    = [ (imageSizeGauge, size, attrs);
        (durationPullHistogram, pullMs, attrs);
        (durationPullWaitOnlyHistogram, waitMs, attrs) ]
    /\ truncatedMillis pullMs (pullDuration r)
    /\ truncatedMillis waitMs
         (waitOnlyDuration (totalDuration r) (pullDuration r))
    /\ (0 < pullDuration r < 1000000 -> pullMs = 0).
Proof.
  intros Ha Hp.
  exists (imageSizeBytes r), (time.Milliseconds (pullDuration r)),
    (time.Milliseconds (waitOnlyDuration (totalDuration r) (pullDuration r))),
    (commonAttributes event r).
  split; [rewrite (recorded_parsed _ _ Ha Hp); apply recorded_recordAll|].
  split; [apply Milliseconds_truncates|].
  split; [apply Milliseconds_truncates|].
  intros H. unfold time.Milliseconds. apply Z.quot_small. lia.
Qed.

Lemma C10_whole_milliseconds_witness :
  accept (pulledEvent msgHalfMs) = true
  /\ parse (Message (pulledEvent msgHalfMs))
     = Ok {| imageRef := "repo/example:99cd3b4";
             pullDuration := 500000;
             totalDuration := 1000000000;
             imageSizeBytes := 500 |}
  /\ 0 < 500000 < 1000000
  /\ exists size waitMs attrs,
       recorded (handleAddFunc (EventObj (pulledEvent msgHalfMs)))
       = [ (imageSizeGauge, size, attrs);
           (durationPullHistogram, 0, attrs);
           (durationPullWaitOnlyHistogram, waitMs, attrs) ].
Proof.
  split; [reflexivity|]. split; [vm_compute; reflexivity|]. split; [lia|].
  destruct (C10_whole_milliseconds (pulledEvent msgHalfMs)
              {| imageRef := "repo/example:99cd3b4";
                 pullDuration := 500000;
                 totalDuration := 1000000000;
                 imageSizeBytes := 500 |}
              eq_refl ltac:(vm_compute; reflexivity))
    as (size & pullMs & waitMs & attrs & H1 & _ & _ & H2).
  exists size, waitMs, attrs.
  rewrite <- (H2 ltac:(simpl; lia)). exact H1.
Defined.

(** ** C3: the wait-only duration *)

(** C3, as stated, fails: "when totalDuration is less than pullDuration the
    recorded value is negative".  With a pull of 1.0005s and a total of 1s
    the total is the smaller one, and the value recorded to the wait-only
    histogram is 0: the deficit of half a millisecond is truncated away. *)
Lemma C3_counterexample :
  accept (pulledEvent msgDeficit) = true
  /\ parse (Message (pulledEvent msgDeficit))
     = Ok {| imageRef := "repo/example:99cd3b4";
             pullDuration := 1000500000;
             totalDuration := 1000000000;
             imageSizeBytes := 500 |}
  /\ 1000000000 < 1000500000
  /\ (exists attrs,
        recorded (handleAddFunc (EventObj (pulledEvent msgDeficit)))
        = [ (imageSizeGauge, 500, attrs);
            (durationPullHistogram, 1000, attrs);
            (durationPullWaitOnlyHistogram, 0, attrs) ]).
Proof.
  split; [reflexivity|]. split; [vm_compute; reflexivity|].
  split; [lia|].
  eexists. vm_compute. reflexivity.
Qed.

(** C3, amended.  For an accepted event whose message parses, the value
    recorded to the wait-only histogram is the whole milliseconds
    (truncated toward zero) of totalDuration minus pullDuration, the
    difference taken in int64 nanoseconds and not clamped.  When neither
    duration is negative the subtraction is exact, and the recorded value
    is negative exactly when the total is smaller than the pull by a
    millisecond or more; a smaller deficit is recorded as 0.  For the
    message with the durations 15s and 45s the recorded values are 15000
    and 30000 milliseconds. *)
Theorem C3_wait_only_unclamped (event : Event) (r : ParsedPullRecord) :
  accept event = true ->
  parse (Message event) = Ok r ->
  exists size pullMs waitMs attrs,
    recorded (handleAddFunc (EventObj event))
    = [ (imageSizeGauge, size, attrs);
        (durationPullHistogram, pullMs, attrs);
        (durationPullWaitOnlyHistogram, waitMs, attrs) ]
    /\ waitMs
       = time.Milliseconds (wrap64 (totalDuration r - pullDuration r))
    /\ (0 <= pullDuration r -> 0 <= totalDuration r ->
        waitMs = Z.quot (totalDuration r - pullDuration r) 1000000
        /\ (waitMs < 0 <-> totalDuration r - pullDuration r <= - 1000000)
        /\ (- 1000000 < totalDuration r - pullDuration r < 0 -> waitMs = 0))
    /\ (Message event = msg15s45s -> pullMs = 15000 /\ waitMs = 30000).
Proof.
  intros Ha Hp.
  exists (imageSizeBytes r), (time.Milliseconds (pullDuration r)),
    (time.Milliseconds (waitOnlyDuration (totalDuration r) (pullDuration r))),
    (commonAttributes event r).
  split; [rewrite (recorded_parsed _ _ Ha Hp); apply recorded_recordAll|].
  split; [reflexivity|].
  destruct (parse_range _ _ Hp) as [Rp Rt].
  split.
  - intros H1 H2. unfold waitOnlyDuration.
    rewrite wrap64_small by lia.
    set (d := totalDuration r - pullDuration r).
    pose proof (Milliseconds_truncates d) as [T1 T2].
    unfold time.Milliseconds in *.
    set (q := Z.quot d 1000000) in *.
    split; [reflexivity|].
    split; [|intros H; apply Z.quot_small_iff; lia].
    split; intros H.
    + assert (d <= 0) by nia. lia.
    + destruct (Z_lt_le_dec q 0) as [|Hq]; [assumption|].
      exfalso. assert (Z.abs q * 1000000 <= Z.abs d) by lia.
      assert (0 <= q * d) by assumption. nia.
  - intros Hm. rewrite Hm in Hp.
    assert (E : parse msg15s45s
                = Ok {| imageRef := "repo/example:99cd3b4";
                        pullDuration := 15000000000;
                        totalDuration := 45000000000;
                        imageSizeBytes := 500 |})
      by (vm_compute; reflexivity).
    rewrite E in Hp. injection Hp as <-. simpl. split; reflexivity.
Qed.

Lemma C3_wait_only_unclamped_witness :
  accept (pulledEvent msg15s45s) = true
  /\ parse (Message (pulledEvent msg15s45s))
     = Ok {| imageRef := "repo/example:99cd3b4";
             pullDuration := 15000000000;
             totalDuration := 45000000000;
             imageSizeBytes := 500 |}
  /\ exists size attrs,
       recorded (handleAddFunc (EventObj (pulledEvent msg15s45s)))
       = [ (imageSizeGauge, size, attrs);
           (durationPullHistogram, 15000, attrs);
           (durationPullWaitOnlyHistogram, 30000, attrs) ].
Proof.
  split; [reflexivity|]. split; [vm_compute; reflexivity|].
  destruct (C3_wait_only_unclamped (pulledEvent msg15s45s)
              {| imageRef := "repo/example:99cd3b4";
                 pullDuration := 15000000000;
                 totalDuration := 45000000000;
                 imageSizeBytes := 500 |}
              eq_refl ltac:(vm_compute; reflexivity))
    as (size & pullMs & waitMs & attrs & H1 & _ & _ & H2).
  destruct (H2 eq_refl) as [E1 E2].
  exists size, attrs. rewrite <- E1, <- E2. exact H1.
Defined.

(** ** C5: the prefix of the pod name *)

Lemma contains_cons (a c : ascii) (s : string) :
  contains (String a s) c = (Ascii.eqb a c || contains s c)%bool.
Proof.
  unfold contains. simpl. destruct (Ascii.eqb a c); [reflexivity|].
  destruct (indexByte s c); reflexivity.
Qed.

Lemma take_app_length (a b : string) : take (String.length a) (a ++ b) = a.
Proof. induction a as [|c a IH]; simpl; [destruct b|rewrite IH]; reflexivity. Qed.

Lemma take_length (a : string) : take (String.length a) a = a.
Proof. induction a as [|c a IH]; simpl; [|rewrite IH]; reflexivity. Qed.

Lemma take_ge (n : nat) (a : string) :
  (String.length a <= n)%nat -> take n a = a.
Proof.
  revert n. induction a as [|c a IH]; intros [|n] H; simpl in *;
    try reflexivity; try lia.
  rewrite IH by lia. reflexivity.
Qed.

Lemma take_app_exact (n : nat) (a b : string) :
  n = String.length a -> take n (a ++ b) = a.
Proof. intros ->. apply take_app_length. Qed.

Lemma string_app_assoc (a b c : string) : ((a ++ b) ++ c = a ++ (b ++ c))%string.
Proof. induction a as [|x a IH]; simpl; [|rewrite IH]; reflexivity. Qed.

Lemma string_app_nil_r (a : string) : (a ++ "" = a)%string.
Proof. induction a as [|x a IH]; simpl; [|rewrite IH]; reflexivity. Qed.

Lemma string_app_length (a b : string) :
  String.length (a ++ b) = (String.length a + String.length b)%nat.
Proof. induction a as [|x a IH]; simpl; [|rewrite IH]; reflexivity. Qed.

Section PodPrefix.

Let any := regexp.AnyCharNotNL.

(** The continuations of the search after the group, for the text
    [orig]: the end of text, the second dash, the first dash. *)
Let kEnd (orig : string) (p1 : nat) : string -> nat -> option (list string) :=
  fun s pos =>
    match s with
    | EmptyString => Some [take (pos - 0) orig; take (p1 - 0) orig]
    | String _ _ => None
    end.

Let kDash2 (orig : string) (p1 : nat) : string -> nat -> option (list string) :=
  fun s pos =>
    match s with
    | EmptyString => None
    | String a t =>
      if Ascii.eqb a "-" then regexp.star any t (S pos) (kEnd orig p1)
      else None
    end.

Let kDash1 (orig : string) : string -> nat -> option (list string) :=
  fun s pos =>
    match s with
    | EmptyString => None
    | String a t =>
      if Ascii.eqb a "-" then regexp.star any t (S pos) (kDash2 orig pos)
      else None
    end.

Lemma matchAt_podPrefixRe (s : string) :
  regexp.matchAt podPrefixRe s 0 []
    (fun s' pos' cs =>
       Some (take (pos' - 0) s :: List.map (regexp.lookupCap cs) (seq 1 1)))
  = regexp.star any s 0 (kDash1 s).
Proof. reflexivity. Qed.

Lemma searchFrom_later (s : string) (n : nat) :
  regexp.searchFrom podPrefixRe 1 s (S n) = None.
Proof.
  revert n. induction s as [|a s IH]; intros n; [reflexivity|].
  simpl. apply IH.
Qed.

Lemma FindStringSubmatch_star (s : string) :
  regexp.FindStringSubmatch podPrefixRe 1 s = regexp.star any s 0 (kDash1 s).
Proof.
  unfold regexp.FindStringSubmatch.
  destruct s as [|a s]; unfold regexp.searchFrom; fold regexp.searchFrom;
    rewrite matchAt_podPrefixRe.
  - destruct (regexp.star any "" 0 (kDash1 "")); reflexivity.
  - rewrite searchFrom_later.
    destruct (regexp.star any (String a s) 0 (kDash1 (String a s))); reflexivity.
Qed.

(** The last run of any characters reaches the end of a text without
    line feed. *)
Lemma star_to_end (orig : string) (p1 : nat) (s : string) (pos : nat) :
  contains s newline = false ->
  regexp.star any s pos (kEnd orig p1)
  = Some [take (pos + String.length s - 0) orig; take (p1 - 0) orig].
Proof.
  revert pos. induction s as [|a s IH]; intros pos Hn.
  - simpl. now rewrite Nat.add_0_r.
  - rewrite contains_cons in Hn. apply orb_false_elim in Hn as [Ea Hn].
    simpl. rewrite Ea. simpl. rewrite (IH (S pos) Hn).
    now replace (S pos + String.length s)%nat
      with (pos + S (String.length s))%nat by lia.
Qed.

(** The middle run succeeds when a dash follows somewhere. *)
Lemma star_dash2 (orig : string) (p1 : nat) (s : string) (pos : nat) :
  contains s newline = false ->
  regexp.star any s pos (kDash2 orig p1)
  = if contains s "-"
    then Some [take (pos + String.length s - 0) orig; take (p1 - 0) orig]
    else None.
Proof.
  revert pos. induction s as [|a s IH]; intros pos Hn; [reflexivity|].
  rewrite contains_cons in Hn. apply orb_false_elim in Hn as [Ea Hn].
  rewrite contains_cons. simpl. rewrite Ea. simpl.
  rewrite (IH (S pos) Hn), (star_to_end _ _ _ _ Hn).
  replace (S pos + String.length s)%nat
    with (pos + S (String.length s))%nat by lia.
  destruct (contains s "-"); [now rewrite orb_true_r|].
  rewrite orb_false_r. reflexivity.
Qed.

(** The group: the longest prefix after which the rest still matches. *)
Lemma star_dash1 (pre s : string) :
  contains s newline = false ->
  regexp.star any s (String.length pre) (kDash1 (pre ++ s))
  = match greedyPrefix s with
    | Some p => Some [(pre ++ s)%string; (pre ++ p)%string]
    | None => None
    end.
Proof.
  revert pre. induction s as [|a s IH]; intros pre Hn; [reflexivity|].
  rewrite contains_cons in Hn. apply orb_false_elim in Hn as [Ea Hn].
  simpl regexp.star. unfold any at 1. simpl regexp.cmatch. rewrite Ea. simpl negb.
  cbv iota.
  specialize (IH (pre ++ String a "")%string Hn).
  rewrite string_app_assoc, string_app_length in IH. simpl in IH.
  rewrite Nat.add_1_r in IH. fold any. rewrite IH. simpl greedyPrefix.
  destruct (greedyPrefix s) as [p|].
  - now rewrite string_app_assoc.
  - rewrite (star_dash2 _ _ _ _ Hn).
    destruct (Ascii.eqb a "-"); [|reflexivity].
    destruct (contains s "-"); [|reflexivity]. cbn -[take Nat.sub Nat.add].
    rewrite (take_app_exact (String.length pre - 0) pre) by lia.
    rewrite take_ge by (rewrite string_app_length; simpl; lia).
    rewrite string_app_nil_r. reflexivity.
Qed.

Lemma podPrefix_greedy (s : string) :
  contains s newline = false -> podPrefix s = greedyPrefix s.
Proof.
  intros Hn. unfold podPrefix. rewrite FindStringSubmatch_star.
  change (regexp.star any s 0 (kDash1 s))
    with (regexp.star any s (String.length "") (kDash1 ("" ++ s))).
  rewrite (star_dash1 "" s Hn).
  destruct (greedyPrefix s); reflexivity.
Qed.

End PodPrefix.

Lemma splitDash_cons (s : string) :
  exists seg rest, splitDash s = seg :: rest.
Proof.
  induction s as [|a s (seg & rest & E)]; simpl; [eauto|].
  rewrite E. destruct (Ascii.eqb a "-"); eauto.
Qed.

Lemma contains_dash_segments (s : string) :
  contains s "-" = Nat.leb 2 (List.length (splitDash s)).
Proof.
  induction s as [|a s IH]; [reflexivity|].
  rewrite contains_cons, IH. simpl splitDash.
  destruct (splitDash_cons s) as (seg & rest & E). rewrite E.
  destruct (Ascii.eqb a "-"); [|destruct rest]; reflexivity.
Qed.

Lemma joinDash_cons_char (a : ascii) (seg : string) (l : list string) :
  joinDash (String a seg :: l) = String a (joinDash (seg :: l)).
Proof. destruct l; reflexivity. Qed.

(** The greedy search and the wording by segments agree. *)
Lemma greedyPrefix_segments (s : string) :
  greedyPrefix s = prefixBySegments s.
Proof.
  induction s as [|a s IH]; [reflexivity|].
  simpl greedyPrefix. rewrite IH, contains_dash_segments.
  unfold prefixBySegments. simpl splitDash.
  destruct (splitDash_cons s) as (seg0 & rest0 & E). rewrite E.
  destruct (Ascii.eqb_spec a "-") as [->|Hne].
  - destruct rest0 as [|seg1 [|seg2 rest]]; reflexivity.
  - destruct rest0 as [|seg1 [|seg2 rest]]; try reflexivity.
    cbn -[joinDash firstn].
    change (firstn (S (List.length rest)) (String a seg0 :: seg1 :: seg2 :: rest))
      with (String a seg0 :: firstn (List.length rest) (seg1 :: seg2 :: rest)).
    change (firstn (S (List.length rest)) (seg0 :: seg1 :: seg2 :: rest))
      with (seg0 :: firstn (List.length rest) (seg1 :: seg2 :: rest)).
    now rewrite joinDash_cons_char.
Qed.

Lemma podPrefix_segments (podName : string) :
  contains podName newline = false ->
  podPrefix podName = prefixBySegments podName.
Proof.
  intros Hn. rewrite (podPrefix_greedy _ Hn). apply greedyPrefix_segments.
Qed.

Lemma lookup_prefix (event : Event) (r : ParsedPullRecord) :
  lookup "exported.pod.prefix" (commonAttributes event r)
  = option_map attribute.StringValue (podPrefix (Name (InvolvedObject event))).
Proof.
  unfold commonAttributes.
  destruct (podPrefix (Name (InvolvedObject event))); reflexivity.
Qed.

(** C5, as stated, fails for a pod name with a line feed: "a-b-c" followed
    by a line feed has three dash-separated segments, so the claim promises
    the prefix "a", but the pattern does not match (its [.] excludes the
    line feed) and the attribute list has no exported.pod.prefix. *)
Lemma C5_counterexample :
  List.length (splitDash threeSegmentsNewline) = 3%nat
  /\ prefixBySegments threeSegmentsNewline = Some "a"%string
  /\ accept (eventOfPod threeSegmentsNewline) = true
  /\ exists attrs,
       recorded (handleAddFunc (EventObj (eventOfPod threeSegmentsNewline)))
       = [ (imageSizeGauge, 1169083618, attrs);
           (durationPullHistogram, 104643, attrs);
           (durationPullWaitOnlyHistogram, 0, attrs) ]
       /\ keys attrs = baseKeys
       /\ lookup "exported.pod.prefix" attrs = None.
Proof.
  split; [reflexivity|]. split; [reflexivity|]. split; [reflexivity|].
  eexists. split; [vm_compute; reflexivity|]. split; reflexivity.
Qed.

(** C5, amended.  For an accepted event whose message parses and whose pod
    name contains no line feed, the attribute exported.pod.prefix is present
    exactly when the pod name has at least three dash-separated segments,
    and its value is then everything up to, but not including, the last two
    segments: "k8s-image-pull-metrics-5f588dd8cf-8lnm4" gives
    "k8s-image-pull-metrics"; "single" and "a-b" give no such attribute. *)
Theorem C5_pod_prefix (event : Event) (r : ParsedPullRecord) :
  accept event = true ->
  parse (Message event) = Ok r ->
  contains (Name (InvolvedObject event)) newline = false ->
  let podName := Name (InvolvedObject event) in
  let segs := splitDash podName in
  exists attrs size pullMs waitMs,
    recorded (handleAddFunc (EventObj event))
    = [ (imageSizeGauge, size, attrs);
        (durationPullHistogram, pullMs, attrs);
        (durationPullWaitOnlyHistogram, waitMs, attrs) ]
    /\ lookup "exported.pod.prefix" attrs
       = (if Nat.leb 3 (List.length segs)
          then Some (attribute.StringValue
                       (joinDash (firstn (List.length segs - 2) segs)))
          else None)
    /\ (In "exported.pod.prefix"%string (keys attrs)
        <-> (3 <= List.length segs)%nat)
    /\ (podName = "k8s-image-pull-metrics-5f588dd8cf-8lnm4"%string ->
        lookup "exported.pod.prefix" attrs
        = Some (attribute.StringValue "k8s-image-pull-metrics"))
    /\ (podName = "single"%string ->
        ~ In "exported.pod.prefix"%string (keys attrs))
    /\ (podName = "a-b"%string ->
        ~ In "exported.pod.prefix"%string (keys attrs)).
Proof.
  intros Ha Hp Hn podName segs.
  exists (commonAttributes event r). do 3 eexists.
  split; [rewrite (recorded_parsed _ _ Ha Hp); apply recorded_recordAll|].
  assert (L : lookup "exported.pod.prefix" (commonAttributes event r)
              = (if Nat.leb 3 (List.length segs)
                 then Some (attribute.StringValue
                              (joinDash (firstn (List.length segs - 2) segs)))
                 else None)).
  { rewrite lookup_prefix, (podPrefix_segments _ Hn).
    unfold prefixBySegments. fold podName. fold segs.
    destruct (Nat.leb 3 (List.length segs)); reflexivity. }
  assert (K : In "exported.pod.prefix"%string (keys (commonAttributes event r))
              <-> (3 <= List.length segs)%nat).
  { unfold commonAttributes. rewrite (podPrefix_segments _ Hn).
    unfold prefixBySegments. fold podName. fold segs.
    destruct (Nat.leb_spec 3 (List.length segs)) as [H|H]; simpl.
    - split; [intros _; exact H|]. intros _. do 7 right. now left.
    - split; [|lia]. intros H'.
      repeat (destruct H' as [H'|H']; [discriminate H'|]). destruct H'. }
  split; [exact L|]. split; [exact K|].
  split; [|split].
  - intros E. rewrite L. unfold segs. rewrite E. reflexivity.
  - intros E. rewrite K. unfold segs. rewrite E. simpl. lia.
  - intros E. rewrite K. unfold segs. rewrite E. simpl. lia.
Qed.

Lemma C5_pod_prefix_witness :
  accept (pulledEvent exampleMsg) = true
  /\ parse (Message (pulledEvent exampleMsg))
     = Ok {| imageRef := "repo/example:99cd3b4";
             pullDuration := 104643000000;
             totalDuration := 104643000000;
             imageSizeBytes := 1169083618 |}
  /\ contains (Name (InvolvedObject (pulledEvent exampleMsg))) newline = false
  /\ exists attrs size pullMs waitMs,
       recorded (handleAddFunc (EventObj (pulledEvent exampleMsg)))
       = [ (imageSizeGauge, size, attrs);
           (durationPullHistogram, pullMs, attrs);
           (durationPullWaitOnlyHistogram, waitMs, attrs) ]
       /\ lookup "exported.pod.prefix" attrs
          = Some (attribute.StringValue "k8s-image-pull-metrics").
Proof.
  split; [reflexivity|]. split; [vm_compute; reflexivity|].
  split; [reflexivity|].
  destruct (C5_pod_prefix (pulledEvent exampleMsg)
              {| imageRef := "repo/example:99cd3b4";
                 pullDuration := 104643000000;
                 totalDuration := 104643000000;
                 imageSizeBytes := 1169083618 |}
              eq_refl ltac:(vm_compute; reflexivity) eq_refl)
    as (attrs & size & pullMs & waitMs & H1 & _ & _ & H2 & _).
  exists attrs, size, pullMs, waitMs. split; [exact H1|]. exact (H2 eq_refl).
Defined.

(** ** C7: the image size token *)

Lemma isDigit_range (c : ascii) :
  isDigit c = true -> 0 <= byteZ c - 48 <= 9.
Proof. unfold isDigit. rewrite andb_true_iff, !Z.leb_le. lia. Qed.

Lemma decimalFrom_ge (s : string) (acc : Z) :
  allDigits s = true -> 0 <= acc -> acc <= decimalFrom s acc.
Proof.
  revert acc. induction s as [|c s IH]; intros acc Hd Ha; simpl; [lia|].
  simpl in Hd. apply andb_prop in Hd as [Hc Hd].
  pose proof (isDigit_range _ Hc).
  specialize (IH (acc * 10 + (byteZ c - 48)) Hd ltac:(lia)). lia.
Qed.

(** The digit loop of [ParseUint] computes the decimal value, or reports
    the range error when that exceeds [uint64]. *)
Lemma parseUintLoop_digits (s : string) (n : Z) :
  allDigits s = true -> 0 <= n <= strconv.maxUint64 ->
  strconv.parseUintLoop s n
  = if decimalFrom s n <=? strconv.maxUint64
    then (decimalFrom s n, None)
    else (strconv.maxUint64, Some strconv.ErrRange).
Proof.
  revert n. induction s as [|c s IH]; intros n Hd Hn.
  - simpl. destruct (Z.leb_spec n strconv.maxUint64); [reflexivity|lia].
  - simpl in Hd. apply andb_prop in Hd as [Hc Hd].
    pose proof (isDigit_range _ Hc) as Hr.
    simpl. rewrite Hc. simpl negb. cbv iota.
    unfold strconv.maxUint64, wrapU64 in *.
    change (2 ^ 64 - 1) with 18446744073709551615 in *.
    change ((18446744073709551615 / 10 + 1)) with 1844674407370955162.
    change (18446744073709551615 mod 2 ^ 64) with 18446744073709551615.
    change (2 ^ 64) with 18446744073709551616.
    pose proof (decimalFrom_ge s (n * 10 + (byteZ c - 48)) Hd ltac:(lia)) as Hge.
    destruct (Z.leb_spec 1844674407370955162 n) as [Hcut|Hcut].
    + destruct (Z.leb_spec (decimalFrom s (n * 10 + (byteZ c - 48)))
                  18446744073709551615); [lia|reflexivity].
    + rewrite (Z.mod_small (n * 10)) by lia.
      destruct (Z_le_gt_dec (n * 10 + (byteZ c - 48)) 18446744073709551615)
        as [Hfit|Hover].
      * rewrite (Z.mod_small (n * 10 + (byteZ c - 48))) by lia.
        destruct (Z.ltb_spec (n * 10 + (byteZ c - 48)) (n * 10)); [lia|].
        destruct (Z.ltb_spec 18446744073709551615 (n * 10 + (byteZ c - 48))); [lia|].
        simpl orb. cbv iota.
        rewrite IH by (assumption || lia). reflexivity.
      * assert (E : (n * 10 + (byteZ c - 48)) mod 18446744073709551616
                    = n * 10 + (byteZ c - 48) - 18446744073709551616).
        { symmetry. apply Z.mod_unique with (q := 1); lia. }
        rewrite E.
        destruct (Z.ltb_spec (n * 10 + (byteZ c - 48) - 18446744073709551616)
                    (n * 10)); [|lia].
        simpl orb. cbv iota.
        destruct (Z.leb_spec (decimalFrom s (n * 10 + (byteZ c - 48)))
                    18446744073709551615); [lia|reflexivity].
Qed.

Lemma ParseUint_digits (s : string) :
  allDigits s = true -> s <> EmptyString ->
  strconv.ParseUint s
  = if decimalValue s <=? strconv.maxUint64
    then (decimalValue s, None)
    else (strconv.maxUint64, Some strconv.ErrRange).
Proof.
  intros Hd Hne. destruct s as [|c s]; [congruence|].
  unfold strconv.ParseUint, decimalValue.
  apply parseUintLoop_digits; [assumption|]. unfold strconv.maxUint64. lia.
Qed.

Lemma isDigit_not_sign (c : ascii) :
  isDigit c = true -> Ascii.eqb c "-" = false /\ Ascii.eqb c "+" = false.
Proof.
  intros H. split.
  - destruct (Ascii.eqb_spec c "-") as [->|]; [discriminate H|reflexivity].
  - destruct (Ascii.eqb_spec c "+") as [->|]; [discriminate H|reflexivity].
Qed.

(** [ParseInt] on an unsigned decimal numeral. *)
Lemma ParseInt_digits (s : string) :
  allDigits s = true -> s <> EmptyString ->
  strconv.ParseInt s
  = if decimalValue s <? 2 ^ 63 then Ok (decimalValue s)
    else Err strconv.ErrRange.
Proof.
  intros Hd Hne. pose proof (ParseUint_digits s Hd Hne) as HU.
  destruct s as [|c s]; [congruence|].
  pose proof Hd as Hd'. simpl in Hd'. apply andb_prop in Hd' as [Hc _].
  destruct (isDigit_not_sign _ Hc) as [Em Ep].
  unfold strconv.ParseInt. rewrite Em, Ep, HU.
  pose proof (decimalFrom_ge (String c s) 0 Hd ltac:(lia)) as Hge.
  fold (decimalValue (String c s)) in Hge.
  unfold strconv.maxUint64.
  destruct (Z.leb_spec (decimalValue (String c s)) (2 ^ 64 - 1)) as [H1|H1].
  - simpl negb. rewrite andb_true_l, andb_false_l.
    destruct (Z.leb_spec (2 ^ 63) (decimalValue (String c s))) as [H2|H2];
      destruct (Z.ltb_spec (decimalValue (String c s)) (2 ^ 63)); try lia;
      [reflexivity|].
    rewrite wrap64_small by lia. reflexivity.
  - destruct (Z.ltb_spec (decimalValue (String c s)) (2 ^ 63)); [lia|].
    reflexivity.
Qed.

(** [ParseInt] on a decimal numeral with a minus sign. *)
Lemma ParseInt_minus (s : string) :
  allDigits s = true -> s <> EmptyString ->
  strconv.ParseInt (String "-" s)
  = if decimalValue s <=? 2 ^ 63 then Ok (- decimalValue s)
    else Err strconv.ErrRange.
Proof.
  intros Hd Hne. pose proof (ParseUint_digits s Hd Hne) as HU.
  unfold strconv.ParseInt.
  change (Ascii.eqb "-" "-") with true. change (Ascii.eqb "-" "+") with false.
  cbv iota. rewrite HU.
  pose proof (decimalFrom_ge s 0 Hd ltac:(lia)) as Hge.
  fold (decimalValue s) in Hge.
  unfold strconv.maxUint64.
  destruct (Z.leb_spec (decimalValue s) (2 ^ 64 - 1)) as [H1|H1].
  - simpl negb. rewrite andb_false_l, andb_true_l.
    destruct (Z.ltb_spec (2 ^ 63) (decimalValue s)) as [H2|H2];
      destruct (Z.leb_spec (decimalValue s) (2 ^ 63)); try lia;
      [reflexivity|].
    f_equal.
    destruct (Z.eq_dec (decimalValue s) (2 ^ 63)) as [->|]; [reflexivity|].
    rewrite (wrap64_small (decimalValue s)) by lia.
    apply wrap64_small. lia.
  - destruct (Z.leb_spec (decimalValue s) (2 ^ 63)); [lia|]. reflexivity.
Qed.

(** ** What the handler does when the parse fails *)

Lemma parse_Err_logs (msg : string) (line : effect) :
  parse msg = Err line -> recorded [line] = [].
Proof.
  unfold parse.
  destruct (fmt.Sscanf msg pullFormat 4) as [out err].
  assert (G : forall e, @Err effect ParsedPullRecord (LogFailedParse e) = Err line
                        -> recorded [line] = []).
  { intros e H. injection H as <-. reflexivity. }
  destruct out as [|a [|b [|c [|d [|e out]]]]]; destruct err; try apply G.
  destruct (time.ParseDuration b); [|intros H; injection H as <-; reflexivity].
  destruct (time.ParseDuration c); [|intros H; injection H as <-; reflexivity].
  destruct (strconv.ParseInt d); [discriminate|].
  intros H; injection H as <-; reflexivity.
Qed.

Lemma handleAddFunc_parse_Err (event : Event) (line : effect) :
  accept event = true ->
  parse (Message event) = Err line ->
  handleAddFunc (EventObj event) = [LogPodEventAdded (Message event); line]
  /\ recorded (handleAddFunc (EventObj event)) = [].
Proof.
  intros Ha Hp. rewrite (handleAddFunc_accepted _ Ha), Hp.
  split; [reflexivity|]. exact (parse_Err_logs _ _ Hp).
Qed.

Lemma parse_scanned (msg ref pull total size : string) :
  fmt.Sscanf msg pullFormat 4 = ([ref; pull; total; size], None) ->
  parse msg
  = match time.ParseDuration pull with
    | Err e => Err (LogFailedDurationPull e)
    | Ok durationPull =>
      match time.ParseDuration total with
      | Err e => Err (LogFailedDurationWait e)
      | Ok durationWithWait =>
        match strconv.ParseInt size with
        | Err e => Err (LogFailedImageSize e)
        | Ok imageSizeInt =>
          Ok {| imageRef := ref;
                pullDuration := durationPull;
                totalDuration := durationWithWait;
                imageSizeBytes := imageSizeInt |}
        end
      end
    end.
Proof. intros H. unfold parse. rewrite H. reflexivity. Qed.

(** C7, as stated, fails for the negative sign: the size token "-5" is not a
    parse error; it is converted to -5 and recorded. *)
Lemma C7_counterexample :
  accept (pulledEvent msgNegativeSize) = true
  /\ fmt.Sscanf msgNegativeSize pullFormat 4
     = (["repo/example:99cd3b4"; "15s"; "45s"; "-5"]%string, None)
  /\ strconv.ParseInt "-5" = Ok (-5)
  /\ parse (Message (pulledEvent msgNegativeSize))
     = Ok {| imageRef := "repo/example:99cd3b4";
             pullDuration := 15000000000;
             totalDuration := 45000000000;
             imageSizeBytes := -5 |}
  /\ exists attrs,
       recorded (handleAddFunc (EventObj (pulledEvent msgNegativeSize)))
       = [ (imageSizeGauge, -5, attrs);
           (durationPullHistogram, 15000, attrs);
           (durationPullWaitOnlyHistogram, 30000, attrs) ].
Proof.
  split; [reflexivity|]. split; [vm_compute; reflexivity|].
  split; [reflexivity|]. split; [vm_compute; reflexivity|].
  eexists. vm_compute. reflexivity.
Qed.

(** C7, amended.  The captured image-size token is converted as a base-10
    signed 64-bit integer.  A token of decimal digits whose value overflows
    that width (2^63 or more), or a minus sign followed by digits of value
    above 2^63, is a parse error: the whole parse fails and nothing is
    recorded.  A token of digits below 2^63 yields its value.  A leading
    minus sign is accepted: with digits of value at most 2^63 the size is
    the negative value, and it is recorded. *)
Theorem C7_image_size_token (event : Event) (ref pull total size : string) :
  accept event = true ->
  fmt.Sscanf (Message event) pullFormat 4 = ([ref; pull; total; size], None) ->
  (allDigits size = true -> size <> EmptyString ->
   (2 ^ 63 <= decimalValue size ->
    strconv.ParseInt size = Err strconv.ErrRange
    /\ (exists line, parse (Message event) = Err line)
    /\ recorded (handleAddFunc (EventObj event)) = [])
   /\ (decimalValue size < 2 ^ 63 ->
       strconv.ParseInt size = Ok (decimalValue size)))
  /\ (forall ds, size = String "-" ds -> allDigits ds = true ->
      ds <> EmptyString ->
      (2 ^ 63 < decimalValue ds ->
       strconv.ParseInt size = Err strconv.ErrRange
       /\ (exists line, parse (Message event) = Err line)
       /\ recorded (handleAddFunc (EventObj event)) = [])
      /\ (decimalValue ds <= 2 ^ 63 ->
          strconv.ParseInt size = Ok (- decimalValue ds)
          /\ forall d1 d2,
               time.ParseDuration pull = Ok d1 ->
               time.ParseDuration total = Ok d2 ->
               exists attrs pullMs waitMs,
                 recorded (handleAddFunc (EventObj event))
                 = [ (imageSizeGauge, - decimalValue ds, attrs);
                     (durationPullHistogram, pullMs, attrs);
                     (durationPullWaitOnlyHistogram, waitMs, attrs) ])).
Proof.
  intros Ha Hs.
  assert (Fail : strconv.ParseInt size = Err strconv.ErrRange ->
                 (exists line, parse (Message event) = Err line)
                 /\ recorded (handleAddFunc (EventObj event)) = []).
  { intros He.
    assert (exists line, parse (Message event) = Err line) as [line Hl].
    { rewrite (parse_scanned _ _ _ _ _ Hs), He.
      destruct (time.ParseDuration pull); [|eauto].
      destruct (time.ParseDuration total); eauto. }
    split; [eauto|]. exact (proj2 (handleAddFunc_parse_Err _ _ Ha Hl)). }
  split.
  - intros Hd Hne. pose proof (ParseInt_digits size Hd Hne) as HP.
    split; intros Hv.
    + destruct (Z.ltb_spec (decimalValue size) (2 ^ 63)); [lia|].
      split; [exact HP|]. exact (Fail HP).
    + destruct (Z.ltb_spec (decimalValue size) (2 ^ 63)); [exact HP|lia].
  - intros ds -> Hd Hne. pose proof (ParseInt_minus ds Hd Hne) as HP.
    split; intros Hv.
    + destruct (Z.leb_spec (decimalValue ds) (2 ^ 63)); [lia|].
      split; [exact HP|]. exact (Fail HP).
    + destruct (Z.leb_spec (decimalValue ds) (2 ^ 63)); [|lia].
      split; [exact HP|]. intros d1 d2 H1 H2.
      assert (Hp : parse (Message event)
                   = Ok {| imageRef := ref; pullDuration := d1;
                           totalDuration := d2;
                           imageSizeBytes := - decimalValue ds |}).
      { rewrite (parse_scanned _ _ _ _ _ Hs), H1, H2, HP. reflexivity. }
      rewrite (recorded_parsed _ _ Ha Hp), recorded_recordAll. simpl.
      eauto.
Qed.

Lemma C7_image_size_token_witness :
  accept (pulledEvent msgOverflowSize) = true
  /\ fmt.Sscanf (Message (pulledEvent msgOverflowSize)) pullFormat 4
     = (["repo/example:99cd3b4"; "15s"; "45s"; "9223372036854775808"]%string,
        None)
  /\ 2 ^ 63 <= decimalValue "9223372036854775808"
  /\ strconv.ParseInt "9223372036854775808" = Err strconv.ErrRange
  /\ recorded (handleAddFunc (EventObj (pulledEvent msgOverflowSize))) = [].
Proof.
  split; [reflexivity|]. split; [vm_compute; reflexivity|].
  split; [vm_compute; discriminate|].
  destruct (proj1 (C7_image_size_token (pulledEvent msgOverflowSize)
                     "repo/example:99cd3b4" "15s" "45s" "9223372036854775808"
                     eq_refl ltac:(vm_compute; reflexivity))
              eq_refl ltac:(discriminate)) as [H _].
  destruct (H ltac:(vm_compute; discriminate)) as (H1 & _ & H2).
  split; assumption.
Defined.

(** ** Bytes and runes of ASCII strings *)

Lemma byteZ_range (c : ascii) : 0 <= byteZ c < 256.
Proof.
  unfold byteZ. pose proof (N_ascii_bounded c). lia.
Qed.

Lemma Zbyte_byteZ (c : ascii) : Zbyte (byteZ c) = c.
Proof.
  unfold Zbyte. rewrite Z.mod_small by apply byteZ_range.
  unfold byteZ. rewrite N2Z.id. apply ascii_N_embedding.
Qed.

Lemma of_bytes_bytes (s : string) : of_bytes (bytes s) = s.
Proof.
  induction s as [|c s IH]; simpl; [reflexivity|].
  now rewrite Zbyte_byteZ, IH.
Qed.

Lemma bytes_app (a b : string) : bytes (a ++ b) = bytes a ++ bytes b.
Proof. induction a as [|c a IH]; simpl; [|rewrite IH]; reflexivity. Qed.

Lemma bytes_length (s : string) : List.length (bytes s) = String.length s.
Proof. induction s as [|c s IH]; simpl; [|rewrite IH]; reflexivity. Qed.

Lemma allBytes_Forall (p : Z -> bool) (s : string) :
  allBytes p s = true <-> Forall (fun b => p b = true) (bytes s).
Proof.
  induction s as [|c s IH]; simpl.
  - split; [constructor|reflexivity].
  - rewrite andb_true_iff, IH. split.
    + intros [H1 H2]. now constructor.
    + intros H. inversion H; subst. now split.
Qed.

Lemma allBytes_weaken (p q : Z -> bool) (s : string) :
  (forall b, p b = true -> q b = true) ->
  allBytes p s = true -> allBytes q s = true.
Proof.
  intros Hpq. induction s as [|c s IH]; simpl; [reflexivity|].
  rewrite !andb_true_iff. intros [H1 H2]. auto.
Qed.

Lemma DecodeRune_ascii (b : Z) (l : list Z) :
  0 <= b < 128 -> utf8.DecodeRune (b :: l) = (b, 1%nat).
Proof.
  intros H. unfold utf8.DecodeRune, utf8.first.
  destruct (Z.ltb_spec b 128); [|lia]. reflexivity.
Qed.

Lemma EncodeRune_ascii (b : Z) :
  0 <= b < 128 -> utf8.EncodeRune b = [b].
Proof.
  intros H. unfold utf8.EncodeRune, utf8.rune1Max.
  rewrite (Z.mod_small b (2 ^ 32)) by lia.
  destruct (Z.leb_spec b 127); [|lia].
  rewrite Z.mod_small by lia. reflexivity.
Qed.

Lemma decodeRunes_ascii_app (l rest : list Z) (fuel : nat) :
  asciiBytes l ->
  utf8.decodeRunes (List.length l + fuel) (l ++ rest)
  = l ++ utf8.decodeRunes fuel rest.
Proof.
  induction 1 as [|b l Hb Hl IH]; [reflexivity|].
  cbn [List.length Nat.add app].
  unfold utf8.decodeRunes; fold utf8.decodeRunes.
  rewrite (DecodeRune_ascii _ _ Hb). cbn [skipn]. now rewrite IH.
Qed.

Lemma flat_map_EncodeRune_ascii (l : list Z) :
  asciiBytes l -> flat_map utf8.EncodeRune l = l.
Proof.
  induction 1 as [|b l Hb Hl IH]; [reflexivity|].
  simpl. rewrite (EncodeRune_ascii _ Hb), IH. reflexivity.
Qed.

Lemma encodeRunes_ascii (s : string) :
  asciiBytes (bytes s) -> utf8.encodeRunes (bytes s) = s.
Proof.
  intros H. unfold utf8.encodeRunes.
  rewrite (flat_map_EncodeRune_ascii _ H). apply of_bytes_bytes.
Qed.

(** The runes of a message that starts with ASCII bytes. *)
Lemma runes_ascii_app (a rest : string) :
  asciiBytes (bytes a) ->
  utf8.runes (a ++ rest) = bytes a ++ utf8.runes rest.
Proof.
  intros H. unfold utf8.runes.
  rewrite string_app_length, bytes_app, <- (bytes_length a).
  apply decodeRunes_ascii_app, H.
Qed.

Lemma runes_nil : utf8.runes "" = [].
Proof. reflexivity. Qed.

Lemma plainRef_ascii (s : string) :
  plainRef s = true -> asciiBytes (bytes s).
Proof.
  intros H. apply allBytes_Forall in H.
  unfold asciiBytes. rewrite Forall_forall in *. intros b Hb.
  specialize (H b Hb). unfold plainRefByte in H.
  rewrite !andb_true_iff, Z.ltb_lt in H.
  assert (exists c, b = byteZ c) as [c ->].
  { clear H. induction s as [|c s IH]; simpl in Hb; [easy|].
    destruct Hb as [<-|Hb]; eauto. }
  pose proof (byteZ_range c). lia.
Qed.

Lemma plainToken_ascii (s : string) :
  plainToken s = true -> asciiBytes (bytes s).
Proof.
  unfold plainToken. rewrite andb_true_iff. intros [_ H].
  apply allBytes_Forall in H.
  unfold asciiBytes. rewrite Forall_forall in *. intros b Hb.
  specialize (H b Hb). unfold plainTokenByte in H.
  rewrite !andb_true_iff, !Z.ltb_lt in H. lia.
Qed.
(** ** Steps of the scanner *)

Lemma hugeWid_value : fmt.hugeWid = 1073741824.
Proof. reflexivity. Qed.

Lemma getRune_cons (r : rune) (l : list rune) (cnt : Z) :
  cnt < fmt.hugeWid ->
  fmt.getRune (fmt.mkss (r :: l) cnt) = (Some r, fmt.mkss l (cnt + 1)).
Proof.
  intros H. unfold fmt.getRune. simpl.
  destruct (Z.leb_spec fmt.hugeWid cnt); [lia|reflexivity].
Qed.

Lemma isSpace_false_neq (x c : Z) :
  fmt.isSpace x = false -> fmt.isSpace c = true -> (x =? c) = false.
Proof.
  intros Hx Hc. destruct (Z.eqb_spec x c) as [->|]; [congruence|reflexivity].
Qed.

Lemma SkipSpace_nonspace (x : rune) (l : list rune) (cnt : Z) :
  fmt.isSpace x = false ->
  fmt.SkipSpace (fmt.mkss (x :: l) cnt) = Ok (fmt.mkss (x :: l) cnt).
Proof.
  intros Hx. unfold fmt.SkipSpace. simpl.
  rewrite (isSpace_false_neq x 13 Hx eq_refl).
  rewrite (isSpace_false_neq x 10 Hx eq_refl), Hx. simpl.
  destruct (fmt.hugeWid <=? cnt); reflexivity.
Qed.

Lemma skipBlanks_nonspace (x : rune) (l : list rune) (cnt : Z) :
  fmt.isSpace x = false ->
  fmt.skipBlanks (x :: l) cnt = fmt.mkss (x :: l) cnt.
Proof.
  intros Hx. simpl. rewrite Hx. simpl.
  destruct (fmt.hugeWid <=? cnt); reflexivity.
Qed.

Lemma matchSpaces_one (x : rune) (l : list rune) (cnt : Z) :
  fmt.isSpace x = false -> cnt < fmt.hugeWid ->
  fmt.matchSpaces 0 true (fmt.mkss (32 :: x :: l) cnt)
  = Ok (fmt.mkss (x :: l) (cnt + 1)).
Proof.
  intros Hx Hc. unfold fmt.matchSpaces. cbn [fmt.matchNewlines].
  rewrite (getRune_cons _ _ _ Hc).
  change (fmt.isSpace 32) with true. change (32 =? 10) with false.
  cbn [Nat.eqb negb andb fmt.rs fmt.count].
  unfold fmt.skipBlanks; fold fmt.skipBlanks.
  destruct (Z.leb_spec fmt.hugeWid cnt); [lia|].
  change (fmt.isSpace 32 && negb (32 =? 10))%bool with true. cbv iota.
  rewrite Hx. cbn [andb]. destruct (fmt.hugeWid <=? cnt + 1); reflexivity.
Qed.

Lemma token_from_plain (tR : list rune) (x : rune) (rest buf : list rune)
  (cnt : Z) :
  Forall (fun r => fmt.notSpace r = true) tR ->
  fmt.isSpace x = true ->
  cnt + Z.of_nat (List.length tR) < fmt.hugeWid ->
  fmt.token_from fmt.notSpace (tR ++ x :: rest) cnt buf
  = (buf ++ tR, fmt.mkss (x :: rest) (cnt + Z.of_nat (List.length tR))).
Proof.
  intros Ht Hx. revert cnt buf.
  induction Ht as [|r tR Hr Ht IH]; intros cnt buf Hc.
  - simpl. unfold fmt.notSpace. rewrite Hx. simpl.
    rewrite app_nil_r, Z.add_0_r.
    destruct (fmt.hugeWid <=? cnt); reflexivity.
  - cbn [app List.length] in *.
    unfold fmt.token_from; fold fmt.token_from.
    destruct (Z.leb_spec fmt.hugeWid cnt); [lia|].
    rewrite Hr. cbn [negb]. rewrite IH by lia.
    rewrite <- app_assoc. simpl. f_equal. f_equal. lia.
Qed.

Lemma dblQuoted_from_plain (body rest buf : list rune) (cnt : Z) :
  Forall (fun r => r <> 92 /\ r <> 34) body ->
  cnt + Z.of_nat (List.length body) < fmt.hugeWid ->
  fmt.dblQuoted_from (body ++ 34 :: rest) cnt buf
  = Ok (buf ++ body ++ [34],
        fmt.mkss rest (cnt + Z.of_nat (List.length body) + 1)).
Proof.
  intros Hb. revert cnt buf.
  induction Hb as [|r body [Hr1 Hr2] Hb IH]; intros cnt buf Hc.
  - cbn [app List.length] in *. unfold fmt.dblQuoted_from.
    destruct (Z.leb_spec fmt.hugeWid cnt); [lia|].
    change (34 =? 92) with false. change (34 =? 34) with true. cbv iota.
    rewrite Z.add_0_r. reflexivity.
  - cbn [app List.length] in *.
    unfold fmt.dblQuoted_from; fold fmt.dblQuoted_from.
    destruct (Z.leb_spec fmt.hugeWid cnt); [lia|].
    destruct (Z.eqb_spec r 92); [contradiction|].
    destruct (Z.eqb_spec r 34); [contradiction|].
    rewrite IH by lia. rewrite <- app_assoc. simpl. f_equal. f_equal. f_equal. lia.
Qed.

(** [%s] in front of a plain token that a space follows. *)
Lemma convertString_s (tR : list rune) (x : rune) (rest : list rune) (cnt : Z) :
  tR <> [] ->
  Forall (fun r => fmt.notSpace r = true) tR ->
  fmt.isSpace x = true ->
  cnt + Z.of_nat (List.length tR) < fmt.hugeWid ->
  fmt.convertString 115 (fmt.mkss (tR ++ x :: rest) cnt)
  = Ok (utf8.encodeRunes tR,
        fmt.mkss (x :: rest) (cnt + Z.of_nat (List.length tR))).
Proof.
  intros Hne Ht Hx Hc.
  destruct tR as [|r tR]; [congruence|].
  pose proof (Forall_inv Ht) as Hr. unfold fmt.notSpace in Hr.
  apply negb_true_iff in Hr.
  unfold fmt.convertString. change (115 =? 115) with true.
  change (115 =? 118) with false. change (115 =? 113) with false.
  cbn [orb negb]. cbv iota.
  change ((r :: tR) ++ x :: rest) with (r :: (tR ++ x :: rest)).
  rewrite (SkipSpace_nonspace _ _ _ Hr).
  unfold fmt.notEOF. rewrite getRune_cons by (cbn [List.length] in Hc; lia).
  unfold fmt.token. rewrite (SkipSpace_nonspace _ _ _ Hr).
  cbn [fmt.rs fmt.count].
  change (r :: (tR ++ x :: rest)) with ((r :: tR) ++ x :: rest).
  rewrite (token_from_plain _ _ _ _ _ Ht Hx Hc). reflexivity.
Qed.

(** [%q] in front of a double-quoted string without backslash. *)
Lemma convertString_q (body rest : list rune) (cnt : Z) :
  Forall (fun r => r <> 92 /\ r <> 34) body ->
  cnt + Z.of_nat (List.length body) + 1 < fmt.hugeWid ->
  fmt.convertString 113 (fmt.mkss (34 :: body ++ 34 :: rest) cnt)
  = match strconv.Unquote (utf8.encodeRunes (34 :: body ++ [34])) with
    | Err e => Err (fmt.ErrUnquote e)
    | Ok v =>
      Ok (v, fmt.mkss rest (cnt + 1 + Z.of_nat (List.length body) + 1))
    end.
Proof.
  intros Hb Hc.
  unfold fmt.convertString. change (113 =? 115) with false.
  change (113 =? 118) with false. change (113 =? 113) with true.
  cbn [orb negb]. cbv iota.
  rewrite (SkipSpace_nonspace 34 _ _ eq_refl).
  unfold fmt.quotedString, fmt.notEOF. rewrite !getRune_cons by lia.
  change (34 =? 96) with false. change (34 =? 34) with true. cbv iota.
  cbn [fmt.rs fmt.count].
  rewrite (dblQuoted_from_plain _ _ _ _ Hb) by lia.
  reflexivity.
Qed.
(** ** Unquoting a plain reference *)

Lemma allBytes_contains (p : Z -> bool) (s : string) (c : ascii) :
  allBytes p s = true -> p (byteZ c) = false -> contains s c = false.
Proof.
  intros Hs Hc. induction s as [|a s IH]; [reflexivity|].
  simpl in Hs. apply andb_prop in Hs as [Ha Hs].
  rewrite contains_cons, (IH Hs), orb_false_r.
  destruct (Ascii.eqb_spec a c) as [->|]; [congruence|reflexivity].
Qed.

Lemma contains_app (a b : string) (c : ascii) :
  contains (a ++ b) c = (contains a c || contains b c)%bool.
Proof.
  induction a as [|x a IH]; [reflexivity|].
  simpl append. rewrite !contains_cons, IH. now rewrite orb_assoc.
Qed.

Lemma indexByte_app_fresh (a rest : string) (c : ascii) :
  contains a c = false ->
  indexByte (a ++ String c rest) c = Some (String.length a).
Proof.
  induction a as [|x a IH]; intros H.
  - simpl. now rewrite Ascii.eqb_refl.
  - rewrite contains_cons in H. apply orb_false_elim in H as [Hx Ha].
    simpl. rewrite Hx, (IH Ha). reflexivity.
Qed.

Lemma drop_length (s : string) : drop (String.length s) s = EmptyString.
Proof. induction s as [|c s IH]; simpl; [reflexivity|exact IH]. Qed.

Lemma validBytes_ascii (l : list Z) (fuel : nat) :
  asciiBytes l -> utf8.validBytes fuel l = true.
Proof.
  intros H. revert fuel. induction H as [|b l Hb Hl IH]; intros [|fuel];
    try reflexivity.
  unfold utf8.validBytes; fold utf8.validBytes.
  rewrite (DecodeRune_ascii _ _ Hb).
  unfold utf8.RuneError. destruct (Z.eqb_spec b 65533); [lia|].
  cbn [andb skipn]. apply IH.
Qed.

Lemma ValidString_ascii (s : string) :
  asciiBytes (bytes s) -> utf8.ValidString s = true.
Proof. intros H. now apply validBytes_ascii. Qed.

(** [strconv.Unquote] returns a plain reference between double quotes as
    it is. *)
Lemma Unquote_plain (ref : string) :
  plainRef ref = true ->
  strconv.Unquote (String dquote (ref ++ dq)) = Ok ref.
Proof.
  intros Hp.
  assert (Hq : contains ref dquote = false)
    by (exact (allBytes_contains plainRefByte ref dquote Hp eq_refl)).
  assert (Hb : contains ref bslash = false)
    by (exact (allBytes_contains plainRefByte ref bslash Hp eq_refl)).
  assert (Hn : contains ref newline = false)
    by (exact (allBytes_contains plainRefByte ref newline Hp eq_refl)).
  assert (Hin : exists c t, (ref ++ dq)%string = String c t)
    by (destruct ref; [exists dquote, EmptyString|eexists; eexists];
        reflexivity).
  destruct Hin as (c0 & t0 & Hin).
  unfold strconv.Unquote, strconv.unquote. rewrite Hin, <- Hin.
  unfold dq at 1. rewrite (indexByte_app_fresh _ _ _ Hq).
  change (Ascii.eqb dquote "`") with false.
  change (Ascii.eqb dquote dquote) with true. cbn [orb]. cbv iota.
  fold dq.
  assert (Hlen : (String.length ref + 2)%nat
                 = String.length (String dquote (ref ++ dq))).
  { simpl. rewrite string_app_length. simpl. lia. }
  rewrite Hlen, take_length, drop_length.
  rewrite !contains_cons, !contains_app, Hb, Hn.
  change (Ascii.eqb dquote bslash) with false.
  change (Ascii.eqb dquote newline) with false.
  change (contains dq bslash) with false.
  change (contains dq newline) with false.
  cbn [orb negb andb]. cbv iota.
  rewrite take_app_length.
  rewrite (ValidString_ascii _ (plainRef_ascii _ Hp)).
  reflexivity.
Qed.
(** ** Sequences of bytes and their runes *)

Lemma lor_add (q y k : Z) :
  0 <= k -> 0 <= y < 2 ^ k -> Z.lor (q * 2 ^ k) y = q * 2 ^ k + y.
Proof.
  intros Hk Hy.
  assert (L : Z.land (q * 2 ^ k) y = 0).
  { apply Z.bits_inj'. intros n Hn. rewrite Z.land_spec, Z.bits_0.
    destruct (Z.lt_ge_cases n k).
    - rewrite Z.mul_pow2_bits_low by lia. reflexivity.
    - rewrite <- (Z.mod_small y (2 ^ k)) by lia.
      rewrite Z.mod_pow2_bits_high by lia. apply andb_false_r. }
  rewrite <- Z.lxor_lor by exact L. symmetry.
  apply Z.add_nocarry_lxor. exact L.
Qed.

Lemma land_low (b n : Z) : 0 <= n -> Z.land b (2 ^ n - 1) = b mod 2 ^ n.
Proof.
  intros Hn. rewrite <- Z.land_ones by exact Hn.
  now rewrite Z.ones_equiv, Z.sub_1_r.
Qed.

Lemma land_63 (b : Z) : Z.land b 63 = b mod 64.
Proof. exact (land_low b 6 ltac:(lia)). Qed.

Lemma land_31 (b : Z) : Z.land b 31 = b mod 32.
Proof. exact (land_low b 5 ltac:(lia)). Qed.

Lemma land_15 (b : Z) : Z.land b 15 = b mod 16.
Proof. exact (land_low b 4 ltac:(lia)). Qed.

Lemma land_7 (b : Z) : Z.land b 7 = b mod 8.
Proof. exact (land_low b 3 ltac:(lia)). Qed.

Ltac divmod := Z.div_mod_to_equations; lia.

(** The rune of a sequence of two, three and four bytes, by arithmetic. *)
Lemma decoded2 (b0 b1 : Z) :
  192 <= b0 < 224 -> 128 <= b1 <= 191 ->
  Z.lor (Z.shiftl (Z.land b0 utf8.mask2) 6) (Z.land b1 utf8.maskx)
  = (b0 - 192) * 64 + (b1 - 128).
Proof.
  intros H0 H1. unfold utf8.mask2, utf8.maskx.
  rewrite land_31, land_63, Z.shiftl_mul_pow2 by lia.
  rewrite lor_add by (try lia; change (2 ^ 6) with 64; divmod).
  change (2 ^ 6) with 64. divmod.
Qed.

Lemma decoded3 (b0 b1 b2 : Z) :
  224 <= b0 < 240 -> 128 <= b1 <= 191 -> 128 <= b2 <= 191 ->
  Z.lor (Z.lor (Z.shiftl (Z.land b0 utf8.mask3) 12)
               (Z.shiftl (Z.land b1 utf8.maskx) 6))
        (Z.land b2 utf8.maskx)
  = (b0 - 224) * 4096 + (b1 - 128) * 64 + (b2 - 128).
Proof.
  intros H0 H1 H2. unfold utf8.mask3, utf8.maskx.
  rewrite land_15, !land_63, !Z.shiftl_mul_pow2 by lia.
  change (2 ^ 6) with 64. change (2 ^ 12) with 4096.
  assert (E0 : b0 mod 16 = b0 - 224) by divmod.
  assert (E1 : b1 mod 64 = b1 - 128) by divmod.
  assert (E2 : b2 mod 64 = b2 - 128) by divmod.
  rewrite E0, E1, E2.
  change 4096 with (2 ^ 12) at 1. rewrite lor_add by (change (2 ^ 12) with 4096; lia).
  replace ((b0 - 224) * 2 ^ 12 + (b1 - 128) * 64)
    with (((b0 - 224) * 64 + (b1 - 128)) * 2 ^ 6)
    by (change (2 ^ 12) with 4096; change (2 ^ 6) with 64; lia).
  rewrite lor_add by (change (2 ^ 6) with 64; lia).
  change (2 ^ 6) with 64. lia.
Qed.

Lemma decoded4 (b0 b1 b2 b3 : Z) :
  240 <= b0 < 248 -> 128 <= b1 <= 191 -> 128 <= b2 <= 191 ->
  128 <= b3 <= 191 ->
  Z.lor (Z.lor (Z.lor (Z.shiftl (Z.land b0 utf8.mask4) 18)
                      (Z.shiftl (Z.land b1 utf8.maskx) 12))
               (Z.shiftl (Z.land b2 utf8.maskx) 6))
        (Z.land b3 utf8.maskx)
  = (b0 - 240) * 262144 + (b1 - 128) * 4096 + (b2 - 128) * 64 + (b3 - 128).
Proof.
  intros H0 H1 H2 H3. unfold utf8.mask4, utf8.maskx.
  rewrite land_7, !land_63, !Z.shiftl_mul_pow2 by lia.
  change (2 ^ 6) with 64.
  assert (E0 : b0 mod 8 = b0 - 240) by divmod.
  assert (E1 : b1 mod 64 = b1 - 128) by divmod.
  assert (E2 : b2 mod 64 = b2 - 128) by divmod.
  assert (E3 : b3 mod 64 = b3 - 128) by divmod.
  rewrite E0, E1, E2, E3.
  rewrite lor_add by (change (2 ^ 18) with 262144; change (2 ^ 12) with 4096; lia).
  replace ((b0 - 240) * 2 ^ 18 + (b1 - 128) * 2 ^ 12)
    with (((b0 - 240) * 64 + (b1 - 128)) * 2 ^ 12)
    by (change (2 ^ 18) with 262144; change (2 ^ 12) with 4096; lia).
  rewrite lor_add by (change (2 ^ 12) with 4096; lia).
  replace (((b0 - 240) * 64 + (b1 - 128)) * 2 ^ 12 + (b2 - 128) * 64)
    with ((((b0 - 240) * 64 + (b1 - 128)) * 64 + (b2 - 128)) * 2 ^ 6)
    by (change (2 ^ 12) with 4096; change (2 ^ 6) with 64; lia).
  rewrite lor_add by (change (2 ^ 6) with 64; lia).
  change (2 ^ 6) with 64. lia.
Qed.

Lemma lor_tag (tag x k : Z) :
  0 <= k -> tag mod 2 ^ k = 0 -> 0 <= x < 2 ^ k -> Z.lor tag x = tag + x.
Proof.
  intros Hk Ht Hx.
  rewrite (Z.div_mod tag (2 ^ k)) at 1 by lia.
  rewrite Ht, Z.add_0_r, (Z.mul_comm (2 ^ k)), lor_add by lia.
  pose proof (Z.div_mod tag (2 ^ k) ltac:(lia)). lia.
Qed.

Lemma continuation (x : Z) :
  0 <= x ->
  Z.lor utf8.tx (Z.land (x mod 256) utf8.maskx) = 128 + x mod 64.
Proof.
  intros Hx. unfold utf8.tx, utf8.maskx.
  rewrite land_63.
  rewrite (lor_tag 128 _ 6) by (try reflexivity; try lia; change (2 ^ 6) with 64; divmod).
  divmod.
Qed.

Lemma encoded2 (r : Z) :
  128 <= r <= 2047 ->
  utf8.EncodeRune r = [192 + r / 64; 128 + r mod 64].
Proof.
  intros H. unfold utf8.EncodeRune, utf8.rune1Max, utf8.rune2Max. cbv zeta.
  rewrite (Z.mod_small r (2 ^ 32)) by lia.
  destruct (Z.leb_spec r 127); [lia|].
  destruct (Z.leb_spec r 2047); [|lia].
  rewrite continuation by lia. rewrite Z.shiftr_div_pow2 by lia.
  change (2 ^ 6) with 64. unfold utf8.t2.
  rewrite (lor_tag 192 _ 6) by (try reflexivity; try lia; change (2 ^ 6) with 64; divmod).
  f_equal. divmod.
Qed.

Lemma encoded3 (r : Z) :
  2048 <= r <= 65535 -> ~ 55296 <= r <= 57343 ->
  utf8.EncodeRune r
  = [224 + r / 4096; 128 + r / 64 mod 64; 128 + r mod 64].
Proof.
  intros H Hs. unfold utf8.EncodeRune, utf8.rune1Max, utf8.rune2Max,
    utf8.rune3Max, utf8.MaxRune, utf8.surrogateMin, utf8.surrogateMax.
  cbv zeta.
  rewrite (Z.mod_small r (2 ^ 32)) by lia.
  destruct (Z.leb_spec r 127); [lia|].
  destruct (Z.leb_spec r 2047); [lia|].
  destruct (Z.ltb_spec 1114111 r); [lia|].
  assert (S0 : ((55296 <=? r) && (r <=? 57343))%bool = false).
  { destruct (Z.leb_spec 55296 r); destruct (Z.leb_spec r 57343);
      try reflexivity. lia. }
  rewrite S0. cbn [orb].
  destruct (Z.leb_spec r 65535); [|lia].
  rewrite !Z.shiftr_div_pow2 by lia.
  change (2 ^ 6) with 64. change (2 ^ 12) with 4096.
  rewrite !continuation by (try lia; apply Z.div_pos; lia).
  unfold utf8.t3.
  rewrite (lor_tag 224 _ 4) by (try reflexivity; try lia; change (2 ^ 4) with 16; divmod).
  f_equal. divmod.
Qed.

Lemma encoded4 (r : Z) :
  65536 <= r <= 1114111 ->
  utf8.EncodeRune r
  = [240 + r / 262144; 128 + r / 4096 mod 64; 128 + r / 64 mod 64;
     128 + r mod 64].
Proof.
  intros H. unfold utf8.EncodeRune, utf8.rune1Max, utf8.rune2Max,
    utf8.rune3Max, utf8.MaxRune, utf8.surrogateMin, utf8.surrogateMax.
  cbv zeta.
  rewrite (Z.mod_small r (2 ^ 32)) by lia.
  destruct (Z.leb_spec r 127); [lia|].
  destruct (Z.leb_spec r 2047); [lia|].
  destruct (Z.ltb_spec 1114111 r); [lia|].
  assert (S0 : ((55296 <=? r) && (r <=? 57343))%bool = false).
  { destruct (Z.leb_spec 55296 r); destruct (Z.leb_spec r 57343);
      try reflexivity. lia. }
  rewrite S0. cbn [orb].
  destruct (Z.leb_spec r 65535); [lia|].
  rewrite !Z.shiftr_div_pow2 by lia.
  change (2 ^ 6) with 64. change (2 ^ 12) with 4096.
  change (2 ^ 18) with 262144.
  rewrite !continuation by (try lia; apply Z.div_pos; lia).
  unfold utf8.t4.
  rewrite (lor_tag 240 _ 3) by (try reflexivity; try lia; change (2 ^ 3) with 8; divmod).
  f_equal. divmod.
Qed.

Lemma first_exact (b : Z) :
  0 <= b < 256 ->
  (b < 128 /\ utf8.first b = 240)
  \/ (128 <= b < 194 /\ utf8.first b = 241)
  \/ (194 <= b < 224 /\ utf8.first b = 2)
  \/ (b = 224 /\ utf8.first b = 19)
  \/ (225 <= b < 237 /\ utf8.first b = 3)
  \/ (b = 237 /\ utf8.first b = 35)
  \/ (238 <= b < 240 /\ utf8.first b = 3)
  \/ (b = 240 /\ utf8.first b = 52)
  \/ (241 <= b < 244 /\ utf8.first b = 4)
  \/ (b = 244 /\ utf8.first b = 68)
  \/ (245 <= b /\ utf8.first b = 241).
Proof.
  intros Hb. unfold utf8.first.
  destruct (Z.ltb_spec b 128); [left; split; [lia|reflexivity]|].
  destruct (Z.ltb_spec b 194); [right; left; split; [lia|reflexivity]|].
  destruct (Z.ltb_spec b 224);
    [do 2 right; left; split; [lia|reflexivity]|].
  destruct (Z.eqb_spec b 224);
    [do 3 right; left; split; [lia|reflexivity]|].
  destruct (Z.ltb_spec b 237);
    [do 4 right; left; split; [lia|reflexivity]|].
  destruct (Z.eqb_spec b 237);
    [do 5 right; left; split; [lia|reflexivity]|].
  destruct (Z.ltb_spec b 240);
    [do 6 right; left; split; [lia|reflexivity]|].
  destruct (Z.eqb_spec b 240);
    [do 7 right; left; split; [lia|reflexivity]|].
  destruct (Z.ltb_spec b 244);
    [do 8 right; left; split; [lia|reflexivity]|].
  destruct (Z.eqb_spec b 244);
    [do 9 right; left; split; [lia|reflexivity]|].
  do 10 right. split; [lia|reflexivity].
Qed.

(** [DecodeRune] with the entry of the [first] table worked out. *)
Lemma DecodeRune_first (s0 : Z) (t0 : list Z) :
  utf8.DecodeRune (s0 :: t0)
  = let x := utf8.first s0 in
    if utf8.as_ <=? x then
      (if x =? utf8.xx then utf8.RuneError else s0, 1%nat)
    else
      let sz := Z.land x 7 in
      let accept := utf8.acceptRanges (Z.shiftr x 4) in
      if Z.of_nat (S (List.length t0)) <? sz then (utf8.RuneError, 1%nat)
      else match t0 with
      | [] => (utf8.RuneError, 1%nat)
      | b1 :: t1 =>
        if (b1 <? fst accept) || (snd accept <? b1)
        then (utf8.RuneError, 1%nat)
        else if sz <=? 2 then
          (Z.lor (Z.shiftl (Z.land s0 utf8.mask2) 6) (Z.land b1 utf8.maskx),
           2%nat)
        else match t1 with
        | [] => (utf8.RuneError, 1%nat)
        | b2 :: t2 =>
          if (b2 <? utf8.locb) || (utf8.hicb <? b2)
          then (utf8.RuneError, 1%nat)
          else if sz <=? 3 then
            (Z.lor (Z.lor (Z.shiftl (Z.land s0 utf8.mask3) 12)
                          (Z.shiftl (Z.land b1 utf8.maskx) 6))
                   (Z.land b2 utf8.maskx), 3%nat)
          else match t2 with
          | [] => (utf8.RuneError, 1%nat)
          | b3 :: _ =>
            if (b3 <? utf8.locb) || (utf8.hicb <? b3)
            then (utf8.RuneError, 1%nat)
            else
              (Z.lor (Z.lor (Z.lor (Z.shiftl (Z.land s0 utf8.mask4) 18)
                                   (Z.shiftl (Z.land b1 utf8.maskx) 12))
                            (Z.shiftl (Z.land b2 utf8.maskx) 6))
                     (Z.land b3 utf8.maskx), 4%nat)
          end
        end
      end.
Proof. reflexivity. Qed.

(** The accepted sequences: what [DecodeRune] returns on each. *)
Lemma DecodeRune_2 (b0 b1 : Z) (t : list Z) :
  194 <= b0 < 224 -> 128 <= b1 <= 191 ->
  utf8.DecodeRune (b0 :: b1 :: t)
  = ((b0 - 192) * 64 + (b1 - 128), 2%nat).
Proof.
  intros H0 H1. rewrite <- (decoded2 b0 b1) by lia.
  rewrite DecodeRune_first. unfold utf8.first.
  destruct (Z.ltb_spec b0 128); [lia|]. destruct (Z.ltb_spec b0 194); [lia|].
  destruct (Z.ltb_spec b0 224); [|lia].
  cbv zeta.
  change (utf8.as_ <=? utf8.s1) with false.
  change (Z.land utf8.s1 7) with 2.
  change (utf8.acceptRanges (Z.shiftr utf8.s1 4)) with (128, 191).
  cbv iota. cbn [fst snd List.length].
  destruct (Z.ltb_spec (Z.of_nat (S (S (List.length t)))) 2); [lia|].
  destruct (Z.ltb_spec b1 128); [lia|]. destruct (Z.ltb_spec 191 b1); [lia|].
  reflexivity.
Qed.

Ltac first_entry F :=
  match type of F with
  | utf8.first _ = ?x =>
    rewrite F; cbv zeta;
    let sz := eval vm_compute in (Z.land x 7) in
    let ac := eval vm_compute in (utf8.acceptRanges (Z.shiftr x 4)) in
    let c1 := eval vm_compute in (utf8.as_ <=? x) in
    let c2 := eval vm_compute in (x =? utf8.xx) in
    let c3 := eval vm_compute in (sz <=? 2) in
    let c4 := eval vm_compute in (sz <=? 3) in
    change (utf8.as_ <=? x) with c1;
    change (x =? utf8.xx) with c2;
    change (utf8.acceptRanges (Z.shiftr x 4)) with ac;
    change (Z.land x 7) with sz;
    change (sz <=? 2) with c3;
    change (sz <=? 3) with c4;
    cbv iota; cbn [fst snd]
  end.

Ltac in_range :=
  unfold utf8.locb, utf8.hicb;
  repeat match goal with
         | |- context [?a <? ?b] =>
           destruct (Z.ltb_spec a b); [cbn [List.length] in *; lia|]
         end;
  cbn [orb]; cbv iota.

Lemma DecodeRune_3 (b0 b1 b2 : Z) (t : list Z) :
  224 <= b0 < 240 -> 128 <= b1 <= 191 ->
  (b0 = 224 -> 160 <= b1) -> (b0 = 237 -> b1 <= 159) ->
  128 <= b2 <= 191 ->
  utf8.DecodeRune (b0 :: b1 :: b2 :: t)
  = ((b0 - 224) * 4096 + (b1 - 128) * 64 + (b2 - 128), 3%nat).
Proof.
  intros H0 H1 L1 U1 H2. rewrite <- (decoded3 b0 b1 b2) by lia.
  rewrite DecodeRune_first.
  destruct (first_exact b0 ltac:(lia))
    as [[H F]|[[H F]|[[H F]|[[H F]|[[H F]|[[H F]|[[H F]|[[H F]|[[H F]|
        [[H F]|[H F]]]]]]]]]]]; try lia;
    first_entry F; in_range; reflexivity.
Qed.

Lemma DecodeRune_4 (b0 b1 b2 b3 : Z) (t : list Z) :
  240 <= b0 <= 244 -> 128 <= b1 <= 191 ->
  (b0 = 240 -> 144 <= b1) -> (b0 = 244 -> b1 <= 143) ->
  128 <= b2 <= 191 -> 128 <= b3 <= 191 ->
  utf8.DecodeRune (b0 :: b1 :: b2 :: b3 :: t)
  = ((b0 - 240) * 262144 + (b1 - 128) * 4096 + (b2 - 128) * 64
     + (b3 - 128), 4%nat).
Proof.
  intros H0 H1 L1 U1 H2 H3. rewrite <- (decoded4 b0 b1 b2 b3) by lia.
  rewrite DecodeRune_first.
  destruct (first_exact b0 ltac:(lia))
    as [[H F]|[[H F]|[[H F]|[[H F]|[[H F]|[[H F]|[[H F]|[[H F]|[[H F]|
        [[H F]|[H F]]]]]]]]]]]; try lia;
    first_entry F; in_range; reflexivity.
Qed.

Ltac decode_leaves E :=
  repeat match type of E with
         | context [match ?l with [] => _ | _ :: _ => _ end] =>
           is_var l; destruct l
         | context [if ?c then _ else _] => destruct c eqn:?
         end.

Ltac byte_ranges :=
  repeat match goal with
         | H : (_ || _)%bool = false |- _ =>
           apply orb_false_elim in H; destruct H as [? ?]
         | H : (_ <? _) = false |- _ => apply Z.ltb_ge in H
         end.

(** What [DecodeRune] accepts: wherever it does not answer with an error
    of width 1, an accepted sequence is at the head of the bytes. *)
Lemma DecodeRune_accepted (b0 : Z) (t : list Z) (r : Z) (n : nat) :
  0 <= b0 < 256 ->
  utf8.DecodeRune (b0 :: t) = (r, n) ->
  ((r =? utf8.RuneError) && Nat.eqb n 1)%bool = false ->
  exists q t',
    b0 :: t = q ++ t' /\ accepted q r /\ n = List.length q.
Proof.
  intros Hb E V. rewrite DecodeRune_first in E. revert E.
  destruct (first_exact b0 Hb)
    as [[H F]|[[H F]|[[H F]|[[H F]|[[H F]|[[H F]|[[H F]|[[H F]|[[H F]|
        [[H F]|[H F]]]]]]]]]]];
    first_entry F; intros E; decode_leaves E;
    apply pair_equal_spec in E; destruct E as [<- <-];
    try (vm_compute in V; discriminate V);
    unfold utf8.locb, utf8.hicb in *; byte_ranges.
  - exists [b0], t. split; [reflexivity|]. split; [|reflexivity].
    constructor. lia.
  - eexists [b0; _], _. split; [reflexivity|]. split; [|reflexivity].
    rewrite decoded2 by lia. constructor; lia.
  - eexists [b0; _; _], _. split; [reflexivity|]. split; [|reflexivity].
    rewrite decoded3 by lia. constructor; lia.
  - eexists [b0; _; _], _. split; [reflexivity|]. split; [|reflexivity].
    rewrite decoded3 by lia. constructor; lia.
  - eexists [b0; _; _], _. split; [reflexivity|]. split; [|reflexivity].
    rewrite decoded3 by lia. constructor; lia.
  - eexists [b0; _; _], _. split; [reflexivity|]. split; [|reflexivity].
    rewrite decoded3 by lia. constructor; lia.
  - eexists [b0; _; _; _], _. split; [reflexivity|]. split; [|reflexivity].
    rewrite decoded4 by lia. constructor; lia.
  - eexists [b0; _; _; _], _. split; [reflexivity|]. split; [|reflexivity].
    rewrite decoded4 by lia. constructor; lia.
  - eexists [b0; _; _; _], _. split; [reflexivity|]. split; [|reflexivity].
    rewrite decoded4 by lia. constructor; lia.
Qed.

(** An accepted sequence is decoded as its rune, whatever follows, and is
    the encoding of that rune. *)
Lemma accepted_DecodeRune (q : list Z) (r : rune) (rest : list Z) :
  accepted q r -> utf8.DecodeRune (q ++ rest) = (r, List.length q).
Proof.
  intros [b0 H|b0 b1 H0 H1|b0 b1 b2 H0 H1 L U H2
          |b0 b1 b2 b3 H0 H1 L U H2 H3]; cbn [app List.length].
  - now apply DecodeRune_ascii.
  - now apply DecodeRune_2.
  - now apply DecodeRune_3.
  - now apply DecodeRune_4.
Qed.

Lemma accepted_EncodeRune (q : list Z) (r : rune) :
  accepted q r -> utf8.EncodeRune r = q.
Proof.
  intros [b0 H|b0 b1 H0 H1|b0 b1 b2 H0 H1 L U H2
          |b0 b1 b2 b3 H0 H1 L U H2 H3].
  - now apply EncodeRune_ascii.
  - rewrite encoded2 by lia. f_equal; [divmod|f_equal; divmod].
  - rewrite encoded3 by lia. f_equal; [divmod|f_equal; [divmod|f_equal; divmod]].
  - rewrite encoded4 by lia.
    f_equal; [divmod|f_equal; [divmod|f_equal; [divmod|f_equal; divmod]]].
Qed.

Lemma accepted_head (q : list Z) (r : rune) :
  accepted q r ->
  exists b0 q', q = b0 :: q' /\ (r < 128 -> r = b0 /\ q' = [])
                /\ Forall (fun b => 128 <= b) q' /\ 0 <= r.
Proof.
  intros [b0 H|b0 b1 H0 H1|b0 b1 b2 H0 H1 L U H2
          |b0 b1 b2 b3 H0 H1 L U H2 H3];
    eexists _, _; (split; [reflexivity|]);
    (split; [intros Hr; try lia; split; reflexivity|]);
    (split; [repeat constructor; lia|lia]).
Qed.

(** ** The runes of valid UTF-8 *)

Lemma DecodeRune_size (b0 : Z) (t : list Z) (r : rune) (n : nat) :
  utf8.DecodeRune (b0 :: t) = (r, n) -> (1 <= n)%nat.
Proof.
  intros E. rewrite DecodeRune_first in E. cbv zeta in E.
  decode_leaves E; apply pair_equal_spec in E; destruct E as [_ <-]; lia.
Qed.

(** Every call of [DecodeRune] takes a byte at least: the runes do not
    depend on the fuel, once there is as much of it as there are bytes. *)
Lemma decodeRunes_fuel (f1 : nat) :
  forall (f2 : nat) (s : list Z),
    (List.length s <= f1)%nat -> (List.length s <= f2)%nat ->
    utf8.decodeRunes f1 s = utf8.decodeRunes f2 s.
Proof.
  induction f1 as [|f1 IH]; intros f2 s H1 H2.
  - destruct s; [|cbn in H1; lia]. destruct f2; reflexivity.
  - destruct s as [|b t]; [destruct f2; reflexivity|].
    destruct f2 as [|f2]; [cbn in H2; lia|].
    cbn [utf8.decodeRunes].
    destruct (utf8.DecodeRune (b :: t)) as [r n] eqn:E.
    pose proof (DecodeRune_size _ _ _ _ E) as Hn.
    f_equal. cbn [List.length] in H1, H2.
    apply IH; rewrite length_skipn; cbn [List.length]; lia.
Qed.

Lemma validBytes_step (fuel : nat) (b0 : Z) (t : list Z) :
  0 <= b0 < 256 ->
  utf8.validBytes (S fuel) (b0 :: t) = true ->
  exists q t' r,
    b0 :: t = q ++ t' /\ accepted q r
    /\ utf8.DecodeRune (b0 :: t) = (r, List.length q)
    /\ utf8.validBytes fuel t' = true.
Proof.
  intros Hb V. cbn [utf8.validBytes] in V.
  destruct (utf8.DecodeRune (b0 :: t)) as [r n] eqn:E.
  destruct ((r =? utf8.RuneError) && Nat.eqb n 1)%bool eqn:C;
    [discriminate V|].
  destruct (DecodeRune_accepted _ _ _ _ Hb E C) as (q & t' & Hq & A & ->).
  exists q, t', r. split; [exact Hq|]. split; [exact A|].
  split; [reflexivity|].
  rewrite Hq in V. rewrite skipn_app, skipn_all, Nat.sub_diag in V.
  exact V.
Qed.

Lemma decodeRunes_valid (fuel : nat) :
  forall l : list Z,
    Forall isByte l -> utf8.validBytes fuel l = true ->
    (List.length l <= fuel)%nat ->
    flat_map utf8.EncodeRune (utf8.decodeRunes fuel l) = l
    /\ (forall r, In r (utf8.decodeRunes fuel l) -> r < 128 -> In r l)
    /\ (List.length (utf8.decodeRunes fuel l) <= List.length l)%nat
    /\ (forall (rest : list Z) (fuel' : nat),
          (List.length rest <= fuel')%nat ->
          utf8.decodeRunes (fuel + fuel') (l ++ rest)
          = utf8.decodeRunes fuel l ++ utf8.decodeRunes fuel' rest).
Proof.
  induction fuel as [|fuel IH]; intros l Hl V Hf.
  - destruct l; [|cbn in Hf; lia].
    split; [reflexivity|]. split; [intros r []|]. split; [cbn; lia|].
    intros rest fuel' Hr. reflexivity.
  - destruct l as [|b0 t].
    + split; [reflexivity|]. split; [intros r []|]. split; [cbn; lia|].
      intros rest fuel' Hr. cbn [app].
      apply decodeRunes_fuel; lia.
    + inversion Hl as [|? ? Hb Ht]; subst.
      destruct (validBytes_step _ _ _ Hb V) as (q & t' & r & Hq & A & D & V').
      destruct (accepted_head _ _ A) as (c0 & q' & -> & Hr & _ & _).
      assert (Ht' : Forall isByte t').
      { rewrite Hq in Hl. apply Forall_app in Hl. tauto. }
      assert (Hlen : (List.length t' <= fuel)%nat).
      { apply (f_equal (@List.length Z)) in Hq.
        rewrite length_app in Hq. cbn [List.length] in Hq, Hf. lia. }
      destruct (IH t' Ht' V' Hlen) as (I1 & I2 & I3 & I4).
      assert (R : utf8.decodeRunes (S fuel) (b0 :: t)
                  = r :: utf8.decodeRunes fuel t').
      { cbn [utf8.decodeRunes]. rewrite D. f_equal.
        rewrite Hq, skipn_app, skipn_all, Nat.sub_diag. reflexivity. }
      rewrite R. split; [|split; [|split]].
      * cbn [flat_map]. rewrite I1, (accepted_EncodeRune _ _ A).
        symmetry. exact Hq.
      * intros x [<-|Hx] Hx128.
        -- destruct (Hr Hx128) as [-> _]. rewrite Hq. left. reflexivity.
        -- rewrite Hq. apply in_or_app. right. now apply I2.
      * rewrite Hq, length_app. cbn [List.length]. lia.
      * intros rest fuel' Hrest.
        cbn [Nat.add utf8.decodeRunes].
        change ((b0 :: t) ++ rest) with (b0 :: t ++ rest).
        assert (D' : utf8.DecodeRune (b0 :: t ++ rest)
                     = (r, List.length (c0 :: q'))).
        { change (b0 :: t ++ rest) with ((b0 :: t) ++ rest).
          rewrite Hq, <- app_assoc. now apply accepted_DecodeRune. }
        rewrite D'. cbn [app]. f_equal.
        change (b0 :: t ++ rest) with ((b0 :: t) ++ rest).
        rewrite Hq, <- app_assoc, skipn_app, skipn_all, Nat.sub_diag.
        cbn [skipn app]. now apply I4.
Qed.

Lemma bytes_isByte (s : string) : Forall isByte (bytes s).
Proof.
  induction s as [|c s IH]; cbn [bytes]; constructor; [|exact IH].
  apply byteZ_range.
Qed.

(** The runes of a text that starts with valid UTF-8. *)
Lemma runes_valid_app (a rest : string) :
  utf8.ValidString a = true ->
  utf8.runes (a ++ rest) = utf8.runes a ++ utf8.runes rest.
Proof.
  intros V. unfold utf8.runes.
  rewrite string_app_length, bytes_app.
  apply (decodeRunes_valid (String.length a) (bytes a) (bytes_isByte a) V).
  - rewrite bytes_length. lia.
  - rewrite bytes_length. lia.
Qed.

Lemma plainRef_validRef (ref : string) :
  plainRef ref = true -> validRef ref = true.
Proof.
  intros H. unfold validRef.
  rewrite (ValidString_ascii _ (plainRef_ascii _ H)). cbn [andb].
  revert H. apply allBytes_weaken. intros b. unfold plainRefByte, validRefByte.
  rewrite !andb_true_iff. tauto.
Qed.

Lemma validRef_runes (ref : string) :
  validRef ref = true ->
  Forall (fun r => r <> 92 /\ r <> 34) (utf8.runes ref)
  /\ utf8.encodeRunes (34 :: utf8.runes ref ++ [34])
     = String dquote (ref ++ dq)
  /\ (List.length (utf8.runes ref) <= List.length (bytes ref))%nat.
Proof.
  unfold validRef. rewrite andb_true_iff. intros [V H].
  destruct (decodeRunes_valid (String.length ref) (bytes ref)
              (bytes_isByte ref) V ltac:(rewrite bytes_length; lia))
    as (I1 & I2 & I3 & _).
  fold (utf8.runes ref) in I1, I2, I3.
  apply allBytes_Forall in H. rewrite Forall_forall in H.
  split; [|split; [|exact I3]].
  - rewrite Forall_forall. intros r Hr.
    split; intros ->;
      specialize (H _ (I2 _ Hr ltac:(lia))); discriminate H.
  - unfold utf8.encodeRunes. cbn [flat_map].
    rewrite flat_map_app, I1. cbn [flat_map].
    change (utf8.EncodeRune 34) with [34]. cbn [app].
    change (34 :: bytes ref ++ [34])
      with (bytes (String dquote "") ++ bytes ref ++ bytes dq).
    rewrite <- !bytes_app. apply of_bytes_bytes.
Qed.

(** [strconv.Unquote] returns such a reference between double quotes as
    it is. *)
Lemma Unquote_valid (ref : string) :
  validRef ref = true ->
  strconv.Unquote (String dquote (ref ++ dq)) = Ok ref.
Proof.
  intros Hv. pose proof Hv as Hv'. unfold validRef in Hv'.
  apply andb_prop in Hv' as [V Hp].
  assert (Hq : contains ref dquote = false)
    by (exact (allBytes_contains validRefByte ref dquote Hp eq_refl)).
  assert (Hb : contains ref bslash = false)
    by (exact (allBytes_contains validRefByte ref bslash Hp eq_refl)).
  assert (Hn : contains ref newline = false)
    by (exact (allBytes_contains validRefByte ref newline Hp eq_refl)).
  assert (Hin : exists c t, (ref ++ dq)%string = String c t)
    by (destruct ref; [exists dquote, EmptyString|eexists; eexists];
        reflexivity).
  destruct Hin as (c0 & t0 & Hin).
  unfold strconv.Unquote, strconv.unquote. rewrite Hin, <- Hin.
  unfold dq at 1. rewrite (indexByte_app_fresh _ _ _ Hq).
  change (Ascii.eqb dquote "`") with false.
  change (Ascii.eqb dquote dquote) with true. cbn [orb]. cbv iota.
  fold dq.
  assert (Hlen : (String.length ref + 2)%nat
                 = String.length (String dquote (ref ++ dq))).
  { simpl. rewrite string_app_length. simpl. lia. }
  rewrite Hlen, take_length, drop_length.
  rewrite !contains_cons, !contains_app, Hb, Hn.
  change (Ascii.eqb dquote bslash) with false.
  change (Ascii.eqb dquote newline) with false.
  change (contains dq bslash) with false.
  change (contains dq newline) with false.
  cbn [orb negb andb]. cbv iota.
  rewrite take_app_length.
  rewrite V.
  reflexivity.
Qed.

(** ** Steps of [advance] and of [doScanf] *)

Lemma mustReadRune_cons (r : rune) (l : list rune) (cnt : Z) :
  cnt < fmt.hugeWid ->
  fmt.mustReadRune (fmt.mkss (r :: l) cnt) = Ok (r, fmt.mkss l (cnt + 1)).
Proof. intros H. unfold fmt.mustReadRune. now rewrite getRune_cons. Qed.

Lemma advance_lit (c : rune) (format : list rune) (i : Z) (l : list rune)
  (cnt : Z) :
  fmt.isSpace c = false -> (c =? 37) = false -> cnt < fmt.hugeWid ->
  fmt.advance (c :: format) i None (fmt.mkss (c :: l) cnt)
  = fmt.advance format (i + 1) None (fmt.mkss l (cnt + 1)).
Proof.
  intros Hs Hp Hc. cbn [fmt.advance]. rewrite Hs, Hp.
  rewrite (mustReadRune_cons _ _ _ Hc), Z.eqb_refl. reflexivity.
Qed.

Lemma advance_lit_eof (c : rune) (format : list rune) (i cnt : Z) :
  fmt.isSpace c = false -> (c =? 37) = false ->
  fmt.advance (c :: format) i None (fmt.mkss [] cnt) = Err fmt.ErrUnexpectedEOF.
Proof.
  intros Hs Hp. cbn [fmt.advance]. rewrite Hs, Hp.
  unfold fmt.mustReadRune, fmt.getRune. cbn [fmt.rs fmt.count].
  destruct (fmt.hugeWid <=? cnt); reflexivity.
Qed.

Lemma advance_space (format : list rune) (i : Z) (s : fmt.ss) :
  fmt.advance (32 :: format) i None s
  = fmt.advance format (i + 1) (Some (0%nat, true)) s.
Proof. reflexivity. Qed.

Lemma advance_flush_lit (c : rune) (format : list rune) (i : Z)
  (l : list rune) (cnt : Z) :
  fmt.isSpace c = false -> (c =? 37) = false -> cnt + 1 < fmt.hugeWid ->
  fmt.advance (c :: format) i (Some (0%nat, true))
    (fmt.mkss (32 :: c :: l) cnt)
  = fmt.advance format (i + 1) None (fmt.mkss l (cnt + 1 + 1)).
Proof.
  intros Hs Hp Hc. cbn [fmt.advance]. rewrite Hs, Hp.
  rewrite (matchSpaces_one _ _ _ Hs) by lia.
  rewrite mustReadRune_cons by lia. rewrite Z.eqb_refl. reflexivity.
Qed.

Lemma advance_flush_verb (v : rune) (format : list rune) (i : Z) (x : rune)
  (l : list rune) (cnt : Z) :
  (v =? 37) = false -> fmt.isSpace x = false -> cnt < fmt.hugeWid ->
  fmt.advance (37 :: v :: format) i (Some (0%nat, true))
    (fmt.mkss (32 :: x :: l) cnt)
  = Ok (i, fmt.mkss (x :: l) (cnt + 1)).
Proof.
  intros Hv Hx Hc. cbn [fmt.advance].
  change (fmt.isSpace 37) with false. change (37 =? 37) with true. cbv iota.
  rewrite (matchSpaces_one _ _ _ Hx Hc), Hv. reflexivity.
Qed.

Lemma advance_verb (v : rune) (format : list rune) (i : Z) (s : fmt.ss) :
  (v =? 37) = false ->
  fmt.advance (37 :: v :: format) i None s = Ok (i, s).
Proof.
  intros Hv. cbn [fmt.advance].
  change (fmt.isSpace 37) with false. change (37 =? 37) with true. cbv iota.
  now rewrite Hv.
Qed.

Lemma advance_nil (i : Z) (s : fmt.ss) : fmt.advance [] i None s = Ok (i, s).
Proof. reflexivity. Qed.

Lemma doScanf_round (fuel : nat) (c0 : rune) (format : list rune)
  (nargs : nat) (s : fmt.ss) (out : list string) :
  fmt.doScanf (S fuel) (c0 :: format) nargs s out
  = match fmt.advance (c0 :: format) 0 None s with
    | Err e => (out, Some e)
    | Ok (w, s) =>
      if 0 <? w
      then fmt.doScanf fuel (skipn (Z.to_nat w) (c0 :: format)) nargs s out
      else if negb (c0 =? 37) then
        if w <? 0
        then (out, Some (fmt.ErrString "input does not match format"))
        else if Nat.ltb (List.length out) nargs
             then (out, Some (fmt.ErrString "too many operands"))
             else (out, None)
      else
        match c0 :: format with
        | _ :: c :: rest =>
          match (if negb (c =? 99) then fmt.SkipSpace s else Ok s) with
          | Err e => (out, Some e)
          | Ok s =>
            if c =? 37 then
              match fmt.scanPercent s with
              | Err e => (out, Some e)
              | Ok s => fmt.doScanf fuel rest nargs s out
              end
            else if Nat.leb nargs (List.length out)
            then (out, Some (fmt.ErrString "too few operands for format"))
            else
              match fmt.convertString c s with
              | Err e => (out, Some e)
              | Ok (v, s) => fmt.doScanf fuel rest nargs s (out ++ [v])
              end
          end
        | _ => (out, Some (fmt.ErrString "too few operands for format"))
        end
    end.
Proof. reflexivity. Qed.

Lemma plainTokenByte_notSpace (b : Z) :
  plainTokenByte b = true -> fmt.notSpace b = true.
Proof.
  unfold plainTokenByte. rewrite andb_true_iff, !Z.ltb_lt. intros [H1 H2].
  unfold fmt.notSpace, fmt.isSpace.
  destruct (Z.leb_spec (2 ^ 16) b); [lia|].
  unfold fmt.space, fmt.inRanges.
  repeat match goal with
         | |- context [?a <? ?b] => destruct (Z.ltb_spec a b); try lia
         | |- context [?a <=? ?b] => destruct (Z.leb_spec a b); try lia
         end; reflexivity.
Qed.

Lemma plainToken_runes (t : string) :
  plainToken t = true ->
  bytes t <> []
  /\ Forall (fun r => fmt.notSpace r = true) (bytes t)
  /\ utf8.encodeRunes (bytes t) = t.
Proof.
  intros H. pose proof (plainToken_ascii _ H) as Ha.
  unfold plainToken in H. apply andb_prop in H as [Hne Hb].
  split; [|split].
  - destruct t; [discriminate Hne|discriminate].
  - apply allBytes_Forall in Hb. revert Hb. apply Forall_impl.
    intros b. apply plainTokenByte_notSpace.
  - now apply encodeRunes_ascii.
Qed.

(** ** The scan of a message in the expected form *)

Lemma asciiBytes_check (s : string) :
  allBytes (fun b => b <? 128) s = true -> asciiBytes (bytes s).
Proof.
  intros H. apply allBytes_Forall in H. unfold asciiBytes.
  rewrite Forall_forall in *. intros b Hb. specialize (H b Hb).
  apply Z.ltb_lt in H.
  assert (exists c, b = byteZ c) as [c ->].
  { clear H. induction s as [|c s IH]; simpl in Hb; [easy|].
    destruct Hb as [<-|Hb]; eauto. }
  pose proof (byteZ_range c). lia.
Qed.

Lemma SkipSpace_token (tR rest : list rune) (cnt : Z) :
  tR <> [] -> Forall (fun r => fmt.notSpace r = true) tR ->
  fmt.SkipSpace (fmt.mkss (tR ++ rest) cnt) = Ok (fmt.mkss (tR ++ rest) cnt).
Proof.
  intros Hne Ht. destruct tR as [|r tR]; [congruence|].
  apply Forall_inv in Ht. unfold fmt.notSpace in Ht.
  apply negb_true_iff in Ht. apply (SkipSpace_nonspace _ _ _ Ht).
Qed.

Lemma advance_flush_verb_token (v : rune) (format : list rune) (i : Z)
  (tR rest : list rune) (cnt : Z) :
  (v =? 37) = false ->
  tR <> [] -> Forall (fun r => fmt.notSpace r = true) tR ->
  cnt < fmt.hugeWid ->
  fmt.advance (37 :: v :: format) i (Some (0%nat, true))
    (fmt.mkss (32 :: tR ++ rest) cnt)
  = Ok (i, fmt.mkss (tR ++ rest) (cnt + 1)).
Proof.
  intros Hv Hne Ht Hc. destruct tR as [|r tR]; [congruence|].
  apply Forall_inv in Ht. unfold fmt.notSpace in Ht.
  apply negb_true_iff in Ht.
  apply (advance_flush_verb _ _ _ _ _ _ Hv Ht Hc).
Qed.

Ltac side := first [reflexivity | rewrite hugeWid_value; lia].

Ltac adv :=
  first
    [ rewrite advance_lit by side
    | rewrite advance_space
    | rewrite advance_flush_lit by side
    | rewrite advance_flush_verb by side
    | rewrite advance_verb by side
    | rewrite advance_nil ].

Ltac norm :=
  try match goal with
      | |- context [0 <? ?e] =>
        let v := eval vm_compute in e in change e with v
      end;
  cbn [negb Z.eqb Pos.eqb Z.ltb Z.leb Z.compare Pos.compare Pos.compare_cont
       Nat.ltb Nat.leb List.length app CompOpp];
  try match goal with
      | |- context [skipn ?n ?l] =>
        let v := eval vm_compute in (skipn n l) in change (skipn n l) with v
      end.

Ltac expose_lists :=
  let f := eval vm_compute in (bytes pullFormat) in
  change (bytes pullFormat) with f;
  let n := eval vm_compute in (S (String.length pullFormat)) in
  change (S (String.length pullFormat)) with n;
  repeat match goal with
         | |- context [bytes ?s] =>
           let l := eval vm_compute in (bytes s) in change (bytes s) with l
         end;
  cbn [app].

Ltac round := rewrite doScanf_round; repeat adv.

Section ScanPull.

Variables refR t1R t2R t3R : list rune.
Hypothesis Href : Forall (fun r => r <> 92 /\ r <> 34) refR.
Hypothesis N1 : t1R <> [].
Hypothesis H1 : Forall (fun r => fmt.notSpace r = true) t1R.
Hypothesis N2 : t2R <> [].
Hypothesis H2 : Forall (fun r => fmt.notSpace r = true) t2R.
Hypothesis N3 : t3R <> [].
Hypothesis H3 : Forall (fun r => fmt.notSpace r = true) t3R.
Hypothesis Hlen :
  73 + Z.of_nat (List.length refR) + Z.of_nat (List.length t1R)
  + Z.of_nat (List.length t2R) + Z.of_nat (List.length t3R) < fmt.hugeWid.

(** The rounds up to and including the last verb. *)
Ltac rounds :=
  round; norm;
  round; norm;
  rewrite (SkipSpace_nonspace 34 _ _ eq_refl);
  rewrite (convertString_q _ _ _ Href) by side;
  destruct (strconv.Unquote (utf8.encodeRunes (34 :: refR ++ [34])))
    as [v|e]; [|reflexivity];
  round;
  rewrite (advance_flush_verb_token 115 _ _ _ _ _ eq_refl N1 H1) by side;
  norm;
  round; norm;
  rewrite (SkipSpace_token _ _ _ N1 H1);
  rewrite (convertString_s _ 32 _ _ N1 H1 eq_refl) by side;
  round; norm;
  round; norm;
  rewrite (SkipSpace_token _ _ _ N2 H2);
  rewrite (convertString_s _ 32 _ _ N2 H2 eq_refl) by side;
  round;
  rewrite (advance_flush_verb_token 115 _ _ _ _ _ eq_refl N3 H3) by side;
  norm;
  round; norm;
  rewrite (SkipSpace_token _ _ _ N3 H3);
  rewrite (convertString_s _ 32 _ _ N3 H3 eq_refl) by side.

(** The scan of the runes of a message in the expected form, whatever
    runes [R] follow the final period. *)
Lemma doScanf_pull (R : list rune) :
  fmt.doScanf (S (String.length pullFormat)) (bytes pullFormat) 4
    (fmt.mkss
       (bytes "Successfully pulled image " ++ 34 :: refR ++ 34 ::
        bytes " in " ++ t1R ++ bytes " (" ++ t2R ++
        bytes " including waiting). Image size: " ++ t3R ++
        bytes " bytes." ++ R) 0) []
  = match strconv.Unquote (utf8.encodeRunes (34 :: refR ++ [34])) with
    | Err e => ([], Some (fmt.ErrUnquote e))
    | Ok v =>
      ([v; utf8.encodeRunes t1R; utf8.encodeRunes t2R;
        utf8.encodeRunes t3R], None)
    end.
Proof.
  rewrite hugeWid_value in Hlen. expose_lists.
  rounds. round. norm. reflexivity.
Qed.

(** The same message cut before its final period: the last literal of
    the format meets the end of the input. *)
Lemma doScanf_pull_no_period :
  fmt.doScanf (S (String.length pullFormat)) (bytes pullFormat) 4
    (fmt.mkss
       (bytes "Successfully pulled image " ++ 34 :: refR ++ 34 ::
        bytes " in " ++ t1R ++ bytes " (" ++ t2R ++
        bytes " including waiting). Image size: " ++ t3R ++
        bytes " bytes") 0) []
  = match strconv.Unquote (utf8.encodeRunes (34 :: refR ++ [34])) with
    | Err e => ([], Some (fmt.ErrUnquote e))
    | Ok v =>
      ([v; utf8.encodeRunes t1R; utf8.encodeRunes t2R;
        utf8.encodeRunes t3R], Some fmt.ErrUnexpectedEOF)
    end.
Proof.
  rewrite hugeWid_value in Hlen. expose_lists.
  rounds. round. rewrite advance_lit_eof by reflexivity. reflexivity.
Qed.

End ScanPull.

Section ScanMessage.

Variables ref pull total size : string.
Hypothesis Href : validRef ref = true.
Hypothesis Hpull : plainToken pull = true.
Hypothesis Htotal : plainToken total = true.
Hypothesis Hsize : plainToken size = true.
Hypothesis Hlen : len (pullMessage ref pull total size) <= fmt.hugeWid.

Lemma pull_length :
  73 + Z.of_nat (List.length (utf8.runes ref))
  + Z.of_nat (List.length (bytes pull))
  + Z.of_nat (List.length (bytes total))
  + Z.of_nat (List.length (bytes size)) < fmt.hugeWid.
Proof.
  destruct (validRef_runes _ Href) as (_ & _ & L).
  revert Hlen L. unfold len, pullMessage.
  rewrite !string_app_length, !bytes_length. simpl String.length. lia.
Qed.

Ltac ascii_lit := apply asciiBytes_check; reflexivity.

Ltac to_runes :=
  unfold fmt.Sscanf, fmt.newScanState;
  rewrite ?string_app_assoc;
  rewrite (runes_ascii_app "Successfully pulled image ") by ascii_lit;
  rewrite (runes_ascii_app dq) by ascii_lit;
  rewrite (runes_valid_app ref)
    by (apply andb_prop in Href; apply (proj1 Href));
  rewrite (runes_ascii_app dq) by ascii_lit;
  rewrite (runes_ascii_app " in ") by ascii_lit;
  rewrite (runes_ascii_app pull) by (apply plainToken_ascii, Hpull);
  rewrite (runes_ascii_app " (") by ascii_lit;
  rewrite (runes_ascii_app total) by (apply plainToken_ascii, Htotal);
  rewrite (runes_ascii_app " including waiting). Image size: ")
    by ascii_lit;
  rewrite (runes_ascii_app size) by (apply plainToken_ascii, Hsize).

Ltac fields :=
  destruct (validRef_runes _ Href) as (Hr1 & Hr2 & _);
  destruct (plainToken_runes _ Hpull) as (N1 & T1 & E1);
  destruct (plainToken_runes _ Htotal) as (N2 & T2 & E2);
  destruct (plainToken_runes _ Hsize) as (N3 & T3 & E3).

(** The scan of a message in the expected form stores the four fields
    as they stand in the message, whatever follows the final period. *)
Lemma Sscanf_pullMessage (extra : string) :
  fmt.Sscanf (pullMessage ref pull total size ++ extra) pullFormat 4
  = ([ref; pull; total; size], None).
Proof.
  fields. unfold pullMessage. to_runes.
  rewrite (runes_ascii_app " bytes.") by ascii_lit.
  etransitivity;
    [exact (doScanf_pull _ _ _ _ Hr1 N1 T1 N2 T2 N3 T3 pull_length _)|].
  rewrite Hr2, (Unquote_valid _ Href), E1, E2, E3. reflexivity.
Qed.

(** Cut before the final period, the message fails to scan. *)
Lemma Sscanf_pullMessageCut :
  fmt.Sscanf (pullMessageCut ref pull total size) pullFormat 4
  = ([ref; pull; total; size], Some fmt.ErrUnexpectedEOF).
Proof.
  fields. unfold pullMessageCut. to_runes.
  rewrite <- (string_app_nil_r " bytes").
  rewrite (runes_ascii_app " bytes") by ascii_lit.
  rewrite runes_nil, app_nil_r.
  etransitivity;
    [exact (doScanf_pull_no_period _ _ _ _ Hr1 N1 T1 N2 T2 N3 T3 pull_length)|].
  rewrite Hr2, (Unquote_valid _ Href), E1, E2, E3. reflexivity.
Qed.

End ScanMessage.

(** ** [time.ParseDuration] on the duration tokens of the grammar *)

Lemma leadingInt_digits (w r : string) (x : Z) :
  allDigits w = true -> startsWithNonDigitOrEnds r = true ->
  0 <= x -> decimalFrom w x <= 2 ^ 63 ->
  time.leadingInt (w ++ r) x = Some (decimalFrom w x, r).
Proof.
  revert x. induction w as [|c w IH]; intros x Hw Hr Hx Hv.
  - simpl. destruct r as [|c r]; [reflexivity|].
    simpl in Hr. simpl. now rewrite Hr.
  - simpl in Hw. apply andb_prop in Hw as [Hc Hw].
    pose proof (isDigit_range _ Hc) as Hd.
    pose proof (decimalFrom_ge w (x * 10 + (byteZ c - 48)) Hw ltac:(lia)) as Hge.
    cbn [decimalFrom] in Hv. cbn [append time.leadingInt].
    rewrite Hc. simpl negb. cbv iota.
    change (2 ^ 63 / 10) with 922337203685477580.
    change (2 ^ 63) with 9223372036854775808 in *.
    destruct (Z.ltb_spec 922337203685477580 x); [lia|].
    unfold wrapU64. rewrite Z.mod_small by lia.
    destruct (Z.ltb_spec 9223372036854775808 (x * 10 + byteZ c - 48)); [lia|].
    replace (x * 10 + byteZ c - 48) with (x * 10 + (byteZ c - 48)) by lia.
    apply IH; assumption || lia.
Qed.

Lemma leadingFraction_digits (f r : string) (x : Z) (scale : float64.t) :
  allDigits f = true -> startsWithNonDigitOrEnds r = true ->
  0 <= x -> decimalFrom f x <= 922337203685477580 ->
  time.leadingFraction (f ++ r) x scale false
  = (decimalFrom f x, scaleUp (String.length f) scale, r).
Proof.
  revert x scale. induction f as [|c f IH]; intros x scale Hf Hr Hx Hv.
  - simpl. destruct r as [|c r]; [reflexivity|].
    simpl in Hr. simpl. now rewrite Hr.
  - simpl in Hf. apply andb_prop in Hf as [Hc Hf].
    pose proof (isDigit_range _ Hc) as Hd.
    pose proof (decimalFrom_ge f (x * 10 + (byteZ c - 48)) Hf ltac:(lia)) as Hge.
    cbn [decimalFrom] in Hv. cbn [append time.leadingFraction String.length scaleUp].
    rewrite Hc. simpl negb. cbv iota.
    change ((2 ^ 63 - 1) / 10) with 922337203685477580.
    change (2 ^ 63) with 9223372036854775808 in *.
    destruct (Z.ltb_spec 922337203685477580 x); [lia|].
    unfold wrapU64. rewrite Z.mod_small by lia.
    destruct (Z.ltb_spec 9223372036854775808 (x * 10 + byteZ c - 48)); [lia|].
    replace (x * 10 + byteZ c - 48) with (x * 10 + (byteZ c - 48)) by lia.
    apply IH; assumption || lia.
Qed.

Lemma unitSpan_abbrev (u : durationUnit) (r : string) :
  startsWithDigitOrEnds r = true ->
  time.unitSpan (unitAbbrev u ++ r) = (unitAbbrev u, r).
Proof.
  intros Hr.
  assert (E : time.unitSpan r = (EmptyString, r)).
  { destruct r as [|c r]; [reflexivity|]. simpl in Hr. simpl.
    now rewrite Hr, orb_true_r. }
  destruct u; simpl; rewrite E; reflexivity.
Qed.

Lemma unitMap_abbrev (u : durationUnit) :
  time.unitMap (unitAbbrev u) = Some (unitNanos u).
Proof. destruct u; reflexivity. Qed.

Lemma decimalFrom_bound (s : string) (x : Z) :
  allDigits s = true -> 0 <= x ->
  decimalFrom s x < (x + 1) * 10 ^ Z.of_nat (String.length s).
Proof.
  revert x. induction s as [|c s IH]; intros x Hs Hx.
  - simpl. lia.
  - simpl in Hs. apply andb_prop in Hs as [Hc Hs].
    pose proof (isDigit_range _ Hc) as Hd.
    specialize (IH (x * 10 + (byteZ c - 48)) Hs ltac:(lia)).
    cbn [decimalFrom String.length]. rewrite Nat2Z.inj_succ, Z.pow_succ_r by lia.
    assert (0 < 10 ^ Z.of_nat (String.length s)) by (apply Z.pow_pos_nonneg; lia).
    nia.
Qed.

(** ** Integers as [float64] *)

Lemma digits2_pos_size (p : positive) : digits2_pos p = Pos.size p.
Proof. induction p as [p IH|p IH|]; cbn; now rewrite ?IH. Qed.

Lemma iter_xO_Z (q n : positive) :
  Zpos (Pos.iter xO q n) = Zpos q * 2 ^ Zpos n.
Proof.
  induction n as [|n IH] using Pos.peano_ind.
  - cbn [Pos.iter]. lia.
  - rewrite Pos.iter_succ, Pos2Z.inj_xO, IH, Pos2Z.inj_succ, Z.pow_succ_r by lia.
    lia.
Qed.

Lemma iter_xO_size (q n : positive) :
  Pos.size (Pos.iter xO q n) = (Pos.size q + n)%positive.
Proof.
  induction n as [|n IH] using Pos.peano_ind.
  - cbn [Pos.iter Pos.size]. lia.
  - rewrite Pos.iter_succ. cbn [Pos.size]. rewrite IH. lia.
Qed.

Lemma shifted_Z (q : positive) (n : Z) :
  0 <= n -> Zpos (shifted q n) = Zpos q * 2 ^ n.
Proof.
  intros Hn. destruct n as [|p|p]; [cbn; lia| |lia].
  apply iter_xO_Z.
Qed.

Lemma shifted_size (q : positive) (n : Z) :
  0 <= n -> Zpos (Pos.size (shifted q n)) = Zpos (Pos.size q) + n.
Proof.
  intros Hn. destruct n as [|p|p]; [cbn [shifted]; lia| |lia].
  cbn [shifted]. rewrite iter_xO_size. lia.
Qed.

Lemma iter_pos_iter {A : Type} (f : A -> A) (n : positive) (x : A) :
  iter_pos f n x = Pos.iter f x n.
Proof.
  revert x. induction n as [n IH|n IH|]; intros x; cbn [iter_pos Pos.iter].
  - rewrite !IH, Pos.iter_swap. f_equal. now rewrite Pos.iter_swap.
  - now rewrite !IH.
  - reflexivity.
Qed.

Lemma iter_shr_1 (q n : positive) :
  Pos.iter shr_1
    {| shr_m := Zpos (Pos.iter xO q n); shr_r := false; shr_s := false |} n
  = {| shr_m := Zpos q; shr_r := false; shr_s := false |}.
Proof.
  induction n as [|n IH] using Pos.peano_ind.
  - reflexivity.
  - rewrite !Pos.iter_succ, <- Pos.iter_swap.
    cbn [shr_1 orb]. exact IH.
Qed.

Lemma size_bounds (p : positive) :
  2 ^ (Zpos (Pos.size p) - 1) <= Zpos p < 2 ^ Zpos (Pos.size p).
Proof.
  pose proof (Pos.size_gt p) as H1. pose proof (Pos.size_le p) as H2.
  apply Pos2Z.pos_lt_pos in H1. apply Pos2Z.pos_le_pos in H2.
  rewrite Pos2Z.inj_pow in H1, H2.
  change (Z.pos p~0) with (2 * Z.pos p) in H2.
  replace (Zpos (Pos.size p)) with (Z.succ (Zpos (Pos.size p) - 1)) in H2
    by lia.
  rewrite Z.pow_succ_r in H2 by lia. lia.
Qed.

Lemma size_below (p : positive) (n : Z) :
  Zpos p < 2 ^ n -> Zpos (Pos.size p) <= n.
Proof.
  intros H. destruct (size_bounds p) as [L _].
  destruct (Z_le_gt_dec (Zpos (Pos.size p)) n) as [|G]; [assumption|].
  exfalso.
  assert (2 ^ n <= 2 ^ (Zpos (Pos.size p) - 1))
    by (apply Z.pow_le_mono_r; lia).
  lia.
Qed.

(** A mantissa of 53 bits with zero bits behind it is rounded to itself. *)
Lemma binary_round_aux_shifted (q : positive) (n e : Z) :
  Zpos (Pos.size q) = 53 -> 0 <= n -> - 1074 <= e + n <= 971 ->
  binary_round_aux 53 1024 false (Zpos (shifted q n)) e loc_Exact
  = S754_finite false q (e + n).
Proof.
  intros Hq Hn He.
  unfold binary_round_aux, shr_fexp, Zdigits2, shr_record_of_loc.
  rewrite digits2_pos_size, (shifted_size q n Hn), Hq.
  unfold fexp, emin.
  replace (Z.max (53 + n + e - 53) (3 - 1024 - 53) - e) with n by lia.
  assert (S1 : shr {| shr_m := Zpos (shifted q n); shr_r := false;
                      shr_s := false |} e n
               = ({| shr_m := Zpos q; shr_r := false; shr_s := false |},
                  e + n)).
  { destruct n as [|p|p]; [cbn; f_equal; lia| |lia].
    cbn [shr shifted]. now rewrite iter_pos_iter, iter_shr_1. }
  rewrite S1. cbn [shr_m loc_of_shr_record round_nearest_even].
  cbn [Zdigits2]. rewrite digits2_pos_size, Hq.
  replace (Z.max (53 + (e + n) - 53) (3 - 1024 - 53) - (e + n)) with 0 by lia.
  cbn [shr shr_m].
  destruct (Z.leb_spec (e + n) (1024 - 53)); [reflexivity|lia].
Qed.

Lemma norm_size (a : positive) :
  Zpos a < 2 ^ 53 -> Zpos (Pos.size (norm a)) = 53.
Proof.
  intros H. pose proof (size_below a 53 H).
  unfold norm. rewrite shifted_size by lia. lia.
Qed.

Lemma norm_Z (a : positive) :
  Zpos a < 2 ^ 53 ->
  Zpos (norm a) = Zpos a * 2 ^ (53 - Zpos (Pos.size a)).
Proof.
  intros H. pose proof (size_below a 53 H).
  unfold norm. apply shifted_Z. lia.
Qed.

(** [float64] of an integer below [2 ^ 53]: the integer, exactly. *)
Lemma of_Z_pos (a : positive) :
  Zpos a < 2 ^ 53 ->
  float64.of_Z (Zpos a)
  = S754_finite false (norm a) (Zpos (Pos.size a) - 53).
Proof.
  intros H. pose proof (size_below a 53 H) as Hs.
  unfold float64.of_Z, binary_normalize, binary_round, shl_align.
  rewrite digits2_pos_size.
  unfold fexp at 1 2, emin, float64.prec, float64.emax.
  replace (Z.max (Zpos (Pos.size a) + 0 - 53) (3 - 1024 - 53) - 0)
    with (Zpos (Pos.size a) - 53) by lia.
  replace (Z.max (Zpos (Pos.size a) + 0 - 53) (3 - 1024 - 53))
    with (Zpos (Pos.size a) - 53) by lia.
  destruct (Zpos (Pos.size a) - 53) as [|d|d] eqn:E; [|lia|].
  - assert (N : norm a = a) by (unfold norm; now replace (53 - Zpos (Pos.size a)) with 0 by lia).
    rewrite <- N at 1.
    replace (Zpos (norm a)) with (Zpos (shifted (norm a) 0)) by reflexivity.
    rewrite binary_round_aux_shifted; [rewrite N; reflexivity| |lia|lia].
    rewrite N. lia.
  - assert (N : norm a = Pos.iter xO a d).
    { unfold norm. replace (53 - Zpos (Pos.size a)) with (Zpos d) by lia.
      reflexivity. }
    rewrite <- N.
    replace (Zpos (norm a)) with (Zpos (shifted (norm a) 0)) by reflexivity.
    rewrite binary_round_aux_shifted; [f_equal; lia| |lia|lia].
    apply norm_size. exact H.
Qed.

(** The product of two integers whose product is below [2 ^ 53] is
    computed exactly. *)
Lemma mul_of_Z_exact (a b : positive) :
  Zpos (a * b) < 2 ^ 53 ->
  float64.mul (float64.of_Z (Zpos a)) (float64.of_Z (Zpos b))
  = float64.of_Z (Zpos (a * b)).
Proof.
  intros H.
  assert (Ha : Zpos a < 2 ^ 53) by (rewrite Pos2Z.inj_mul in H; nia).
  assert (Hb : Zpos b < 2 ^ 53) by (rewrite Pos2Z.inj_mul in H; nia).
  rewrite (of_Z_pos a Ha), (of_Z_pos b Hb), (of_Z_pos (a * b) H).
  unfold float64.mul, SFmul, float64.prec, float64.emax. cbn [xorb].
  destruct (size_bounds a) as [La Ua]. destruct (size_bounds b) as [Lb Ub].
  destruct (size_bounds (a * b)) as [Lp Up].
  pose proof (size_below _ _ Ha) as Sa. pose proof (size_below _ _ Hb) as Sb.
  pose proof (size_below _ _ H) as Sp.
  set (da := Zpos (Pos.size a)) in *. set (db := Zpos (Pos.size b)) in *.
  set (dp := Zpos (Pos.size (a * b))) in *.
  assert (D : da + db - 1 <= dp).
  { destruct (Z_le_gt_dec (da + db - 1) dp) as [|G]; [assumption|].
    exfalso.
    assert (P1 : 2 ^ (da - 1) * 2 ^ (db - 1) <= Zpos a * Zpos b).
    { apply Z.mul_le_mono_nonneg; try assumption;
        apply Z.pow_nonneg; lia. }
    rewrite <- Z.pow_add_r in P1 by lia.
    rewrite Pos2Z.inj_mul in Up.
    assert (2 ^ dp <= 2 ^ (da - 1 + (db - 1)))
      by (apply Z.pow_le_mono_r; lia).
    lia. }
  assert (M : (norm a * norm b)%positive
              = shifted (norm (a * b)) (53 + dp - da - db)).
  { apply Pos2Z.inj. rewrite Pos2Z.inj_mul, shifted_Z by lia.
    rewrite !norm_Z by assumption. fold da db dp.
    rewrite Pos2Z.inj_mul.
    assert (E1 : 2 ^ (53 - da) * 2 ^ (53 - db)
                 = 2 ^ (53 - dp) * 2 ^ (53 + dp - da - db))
      by (rewrite <- !Z.pow_add_r by lia; f_equal; lia).
    replace (Zpos a * 2 ^ (53 - da) * (Zpos b * 2 ^ (53 - db)))
      with (Zpos a * Zpos b * (2 ^ (53 - da) * 2 ^ (53 - db))) by ring.
    rewrite E1. ring. }
  rewrite M, binary_round_aux_shifted; [f_equal; lia| |lia|lia].
  apply norm_size. exact H.
Qed.

Lemma to_uint64_of_Z (a : positive) :
  Zpos a < 2 ^ 53 -> float64.to_uint64 (float64.of_Z (Zpos a)) = Zpos a.
Proof.
  intros H. rewrite (of_Z_pos a H). unfold float64.to_uint64.
  pose proof (size_below _ _ H) as Hs. rewrite (norm_Z a H).
  destruct (Z.leb_spec 0 (Zpos (Pos.size a) - 53)).
  - replace (Zpos (Pos.size a) - 53) with 0 by lia.
    replace (53 - Zpos (Pos.size a)) with 0 by lia. cbn. lia.
  - replace (- (Zpos (Pos.size a) - 53)) with (53 - Zpos (Pos.size a)) by lia.
    apply Z.div_mul. apply Z.pow_nonzero; lia.
Qed.

Lemma unitNanos_range (u : durationUnit) :
  1000000 <= unitNanos u <= 3600000000000 /\ unitNanos u mod 1000 = 0.
Proof. destruct u; vm_compute; repeat split; discriminate. Qed.

Lemma div_table (u : durationUnit) (k : nat) :
  (k <= fractionDigits u)%nat ->
  float64.div (float64.of_Z (unitNanos u)) (scaleUp k float64.one)
  = float64.of_Z (unitNanos u / 10 ^ Z.of_nat k)
  /\ unitNanos u = unitNanos u / 10 ^ Z.of_nat k * 10 ^ Z.of_nat k.
Proof.
  intros Hk.
  destruct u; cbn [fractionDigits] in Hk;
    do 12 (destruct k as [|k];
          [first [exfalso; lia|split; vm_compute; reflexivity]|]); lia.
Qed.

(** With no more digits after the decimal point than [fractionDigits]
    allows, the float64 computation of [ParseDuration] is exact. *)
Lemma fractionNanos_exact (u : durationUnit) (k : nat) (f : Z) :
  (k <= fractionDigits u)%nat -> 0 <= f < 10 ^ Z.of_nat k ->
  fractionNanos u k f = f * unitNanos u / 10 ^ Z.of_nat k.
Proof.
  intros Hk Hf. destruct (div_table u k Hk) as [D E].
  unfold fractionNanos. rewrite D.
  destruct (unitNanos_range u) as [[U1 U2] _].
  set (q := unitNanos u / 10 ^ Z.of_nat k) in *.
  set (s := 10 ^ Z.of_nat k) in *.
  assert (Hs : 0 < s) by (apply Z.pow_pos_nonneg; lia).
  assert (Hq : 0 < q) by nia.
  rewrite E, Z.mul_assoc, Z.div_mul by lia.
  destruct q as [|b|b]; try lia.
  assert (Hb : Zpos b < 2 ^ 53)
    by (change (2 ^ 53) with 9007199254740992; nia).
  destruct f as [|a|a]; [rewrite (of_Z_pos b Hb); reflexivity| |lia].
  assert (P : Zpos (a * b) < 2 ^ 53).
  { rewrite Pos2Z.inj_mul. change (2 ^ 53) with 9007199254740992. nia. }
  rewrite (mul_of_Z_exact a b P), (to_uint64_of_Z _ P). reflexivity.
Qed.

Lemma parseGroups_step (fuel : nat) (c0 : ascii) (t : string) (d : Z) :
  time.parseGroups (S fuel) (String c0 t) d
  = if negb (Ascii.eqb c0 "." || isDigit c0) then Err time.InvalidDuration
    else
      match time.leadingInt (String c0 t) 0 with
      | None => Err time.InvalidDuration
      | Some (v, s1) =>
        let pre := negb (len (String c0 t) =? len s1) in
        let '(f, scale, s2, post) :=
          match s1 with
          | String "." t =>
            let '(f, scale, r) := time.leadingFraction t 0 float64.one false in
            (f, scale, r, negb (len t =? len r))
          | _ => (0, float64.one, s1, false)
          end in
        if negb pre && negb post then Err time.InvalidDuration
        else
          let (u, s3) := time.unitSpan s2 in
          if len u =? 0 then Err time.MissingUnit
          else
            match time.unitMap u with
            | None => Err (time.UnknownUnit u)
            | Some unit =>
              if 2 ^ 63 / unit <? v then Err time.InvalidDuration
              else
                let v := wrapU64 (v * unit) in
                let v' :=
                  if 0 <? f then
                    wrapU64 (v + float64.to_uint64
                                   (float64.mul (float64.of_Z f)
                                      (float64.div (float64.of_Z unit) scale)))
                  else v in
                if (0 <? f) && (2 ^ 63 <? v') then Err time.InvalidDuration
                else
                  let d := wrapU64 (d + v') in
                  if 2 ^ 63 <? d then Err time.InvalidDuration
                  else time.parseGroups fuel s3 d
            end
      end.
Proof. reflexivity. Qed.

Lemma len_app (a b : string) : len (a ++ b) = len a + len b.
Proof. unfold len. rewrite string_app_length. lia. Qed.

Lemma decimalValue_nonneg (s : string) :
  allDigits s = true -> 0 <= decimalValue s.
Proof. intros H. exact (decimalFrom_ge s 0 H ltac:(lia)). Qed.

Lemma fractionDigits_le (u : durationUnit) : (fractionDigits u <= 11)%nat.
Proof. destruct u; cbn; lia. Qed.

Lemma pairNanos_parts (p : durationPair) :
  allDigits (whole p) = true -> allDigits (fraction p) = true ->
  (String.length (fraction p) <= fractionDigits (pairUnit p))%nat ->
  0 <= decimalValue (whole p)
  /\ 0 <= decimalValue (fraction p)
       < 10 ^ Z.of_nat (String.length (fraction p))
  /\ 0 <= decimalValue (fraction p) * unitNanos (pairUnit p)
          / 10 ^ Z.of_nat (String.length (fraction p))
       < unitNanos (pairUnit p)
  /\ 10 ^ Z.of_nat (String.length (fraction p)) <= 100000000000.
Proof.
  intros Hw Hf Hk.
  pose proof (decimalValue_nonneg _ Hw) as H1.
  pose proof (decimalValue_nonneg _ Hf) as H2.
  pose proof (decimalFrom_bound _ 0 Hf ltac:(lia)) as H3.
  fold (decimalValue (fraction p)) in H3. rewrite Z.mul_1_l in H3.
  destruct (unitNanos_range (pairUnit p)) as [[U1 U2] _].
  pose proof (fractionDigits_le (pairUnit p)) as H9.
  set (k := Z.of_nat (String.length (fraction p))) in *.
  assert (Hk' : 0 <= k <= 11) by lia.
  assert (P : 0 < 10 ^ k) by (apply Z.pow_pos_nonneg; lia).
  assert (P9 : 10 ^ k <= 10 ^ 11) by (apply Z.pow_le_mono_r; lia).
  change (10 ^ 11) with 100000000000 in P9.
  split; [exact H1|]. split; [lia|]. split; [|exact P9]. split.
  - apply Z.div_pos; [|exact P]. apply Z.mul_nonneg_nonneg; lia.
  - apply Z.div_lt_upper_bound; [exact P|]. nia.
Qed.

Lemma abbrev_nonDigit (u : durationUnit) (rest : string) :
  startsWithNonDigitOrEnds (unitAbbrev u ++ rest) = true.
Proof. destruct u; reflexivity. Qed.

Lemma len_abbrev_pos (u : durationUnit) : (len (unitAbbrev u) =? 0) = false.
Proof. destruct u; reflexivity. Qed.

(** One pair of a token: [ParseDuration] adds its value. *)
Lemma parseGroups_pair (p : durationPair) (rest : string) (fuel : nat) (d : Z) :
  String.eqb (whole p) "" = false ->
  allDigits (whole p) = true -> allDigits (fraction p) = true ->
  (String.length (fraction p) <= fractionDigits (pairUnit p))%nat ->
  startsWithDigitOrEnds rest = true ->
  0 <= d -> d + pairNanos p <= 2 ^ 63 - 1 ->
  time.parseGroups (S fuel) (renderPair p ++ rest) d
  = time.parseGroups fuel rest (d + pairNanos p).
Proof.
  intros Hne Hw Hf Hk Hr Hd Hfit.
  destruct (pairNanos_parts p Hw Hf Hk) as (V1 & V2 & V3 & V4).
  destruct (unitNanos_range (pairUnit p)) as [[U1 U2] _].
  unfold pairNanos in *.
  destruct p as [w f u]. cbn [whole fraction pairUnit] in *.
  set (v := decimalValue w) in *. set (fv := decimalValue f) in *.
  set (unit := unitNanos u) in *.
  set (k := String.length f) in *.
  set (fn := fv * unit / 10 ^ Z.of_nat k) in *.
  change (2 ^ 63 - 1) with 9223372036854775807 in Hfit.
  assert (Hvu : v * unit <= 9223372036854775807) by nia.
  destruct w as [|c0 w']; [discriminate Hne|].
  pose proof Hw as Hw'. cbn [allDigits] in Hw'.
  apply andb_prop in Hw' as [Hc0 _].
  (* the text after the whole part *)
  set (r1 := ((if String.eqb f "" then "" else "." ++ f)
              ++ unitAbbrev u ++ rest)%string).
  assert (E : (renderPair {| whole := String c0 w'; fraction := f;
                             pairUnit := u |} ++ rest)%string
              = String c0 (w' ++ r1)).
  { unfold renderPair, r1. cbn [whole fraction pairUnit].
    rewrite !string_app_assoc. reflexivity. }
  rewrite E, parseGroups_step. rewrite Hc0, orb_true_r. cbn [negb].
  assert (N1 : startsWithNonDigitOrEnds r1 = true).
  { unfold r1. destruct (String.eqb f ""); [apply abbrev_nonDigit|reflexivity]. }
  change (String c0 (w' ++ r1)) with (String c0 w' ++ r1)%string.
  rewrite (leadingInt_digits _ _ 0 Hw N1) by (fold (decimalValue (String c0 w')); fold v; lia).
  fold (decimalValue (String c0 w')). fold v.
  assert (Hpre : negb (len (String c0 w' ++ r1) =? len r1) = true).
  { rewrite len_app. unfold len at 1. cbn [String.length].
    apply negb_true_iff, Z.eqb_neq. lia. }
  assert (F : match r1 with
              | String "." t =>
                let '(f, scale, r) :=
                  time.leadingFraction t 0 float64.one false in
                (f, scale, r, negb (len t =? len r))
              | _ => (0, float64.one, r1, false)
              end
              = (fv, scaleUp k float64.one, (unitAbbrev u ++ rest)%string,
                 negb (String.eqb f ""))).
  { unfold r1, fv, k. destruct f as [|cf f'].
    - destruct u; reflexivity.
    - cbn [String.eqb append].
      rewrite (leadingFraction_digits _ _ 0 _ Hf (abbrev_nonDigit u rest))
        by (fold (decimalValue (String cf f')); fold fv; lia).
      f_equal. apply negb_true_iff, Z.eqb_neq.
      unfold len. cbn [String.length]. rewrite !string_app_length. lia. }
  rewrite F, Hpre. cbn [negb andb].
  rewrite (unitSpan_abbrev _ _ Hr), len_abbrev_pos, unitMap_abbrev.
  fold unit.
  change (2 ^ 63) with 9223372036854775808.
  assert (Hq : v <= 9223372036854775808 / unit)
    by (apply Z.div_le_lower_bound; lia).
  destruct (Z.ltb_spec (9223372036854775808 / unit) v); [lia|].
  unfold wrapU64. rewrite (Z.mod_small (v * unit)) by nia.
  assert (Hfrac : (if 0 <? fv
                   then (v * unit
                         + float64.to_uint64
                             (float64.mul (float64.of_Z fv)
                                (float64.div (float64.of_Z unit)
                                   (scaleUp k float64.one)))) mod 2 ^ 64
                   else v * unit) = v * unit + fn).
  { destruct (Z.ltb_spec 0 fv) as [Hpos|Hzero].
    - change (float64.to_uint64
                (float64.mul (float64.of_Z fv)
                   (float64.div (float64.of_Z unit) (scaleUp k float64.one))))
        with (fractionNanos u k fv).
      rewrite (fractionNanos_exact u k fv Hk V2). fold unit. fold fn.
      apply Z.mod_small. nia.
    - assert (fv = 0) by lia. unfold fn. replace fv with 0 by lia.
      rewrite Z.mul_0_l, Z.div_0_l; [lia|].
      apply Z.pow_nonzero; lia. }
  rewrite Hfrac.
  destruct (Z.ltb_spec 9223372036854775808 (v * unit + fn)); [lia|].
  rewrite andb_false_r.
  rewrite (Z.mod_small (d + (v * unit + fn))) by nia.
  destruct (Z.ltb_spec 9223372036854775808 (d + (v * unit + fn))); [lia|].
  reflexivity.
Qed.


Lemma wellFormedPairs_inv (bound : nat) (p : durationPair)
  (l : list durationPair) :
  wellFormedPairs bound (p :: l) = true ->
  String.eqb (whole p) "" = false
  /\ allDigits (whole p) = true /\ allDigits (fraction p) = true
  /\ (String.length (fraction p) <= fractionDigits (pairUnit p))%nat
  /\ wellFormedPairs (unitSignificance (pairUnit p)) l = true.
Proof.
  cbn [wellFormedPairs]. rewrite !andb_true_iff, negb_true_iff, Nat.leb_le.
  tauto.
Qed.

Lemma pairNanos_nonneg (p : durationPair) :
  allDigits (whole p) = true -> allDigits (fraction p) = true ->
  (String.length (fraction p) <= fractionDigits (pairUnit p))%nat ->
  0 <= pairNanos p.
Proof.
  intros Hw Hf Hk.
  destruct (pairNanos_parts p Hw Hf Hk) as (V1 & V2 & V3 & _).
  destruct (unitNanos_range (pairUnit p)) as [[U1 U2] _].
  unfold pairNanos. nia.
Qed.

Lemma tokenNanos_nonneg (l : list durationPair) (bound : nat) :
  wellFormedPairs bound l = true -> 0 <= tokenNanos l.
Proof.
  revert bound. induction l as [|p l IH]; intros bound H; [simpl; lia|].
  destruct (wellFormedPairs_inv _ _ _ H) as (_ & Hw & Hf & Hk & Hl).
  pose proof (pairNanos_nonneg p Hw Hf Hk). specialize (IH _ Hl).
  cbn [tokenNanos]. lia.
Qed.

Lemma renderPair_head (p : durationPair) (rest : string) :
  String.eqb (whole p) "" = false -> allDigits (whole p) = true ->
  exists c t, (renderPair p ++ rest)%string = String c t
              /\ isDigit c = true
              /\ (2 <= String.length (String c t))%nat.
Proof.
  intros Hne Hw. unfold renderPair. destruct (whole p) as [|c w]; [discriminate|].
  cbn [allDigits] in Hw. apply andb_prop in Hw as [Hc _].
  eexists c, _. split; [reflexivity|]. split; [exact Hc|].
  cbn [String.length]. rewrite !string_app_length.
  destruct (pairUnit p); simpl; lia.
Qed.

Lemma renderToken_starts (l : list durationPair) (bound : nat) :
  wellFormedPairs bound l = true ->
  startsWithDigitOrEnds (renderToken l) = true.
Proof.
  destruct l as [|p l]; [reflexivity|]. intros H.
  destruct (wellFormedPairs_inv _ _ _ H) as (Hne & Hw & _).
  cbn [renderToken].
  destruct (renderPair_head p (renderToken l) Hne Hw) as (c & t & E & Hc & _).
  rewrite E. exact Hc.
Qed.

Lemma parseGroups_render (l : list durationPair) :
  forall (bound fuel : nat) (d : Z),
    wellFormedPairs bound l = true ->
    0 <= d -> d + tokenNanos l <= 2 ^ 63 - 1 ->
    (List.length l <= fuel)%nat ->
    time.parseGroups fuel (renderToken l) d = Ok (d + tokenNanos l).
Proof.
  induction l as [|p l IH]; intros bound fuel d H Hd Hfit Hfuel.
  - cbn [renderToken tokenNanos]. rewrite Z.add_0_r.
    destruct fuel; reflexivity.
  - destruct (wellFormedPairs_inv _ _ _ H) as (Hne & Hw & Hf & Hk & Hl).
    pose proof (pairNanos_nonneg p Hw Hf Hk) as P0.
    pose proof (tokenNanos_nonneg _ _ Hl) as T0.
    cbn [renderToken tokenNanos List.length] in *.
    destruct fuel as [|fuel]; [lia|].
    rewrite (parseGroups_pair p _ fuel d Hne Hw Hf Hk
               (renderToken_starts _ _ Hl) Hd) by lia.
    rewrite (IH _ fuel (d + pairNanos p) Hl) by lia.
    f_equal. lia.
Qed.

Lemma renderToken_length (l : list durationPair) (bound : nat) :
  wellFormedPairs bound l = true ->
  (List.length l <= String.length (renderToken l))%nat.
Proof.
  revert bound. induction l as [|p l IH]; intros bound H; [simpl; lia|].
  destruct (wellFormedPairs_inv _ _ _ H) as (Hne & Hw & _ & _ & Hl).
  specialize (IH _ Hl). cbn [renderToken List.length].
  rewrite string_app_length.
  destruct (renderPair_head p "" Hne Hw) as (c & t & E & _ & L).
  rewrite string_app_nil_r in E. rewrite E. lia.
Qed.


(** A well-formed token and a decimal numeral are plain tokens. *)
Lemma allBytes_app (p : Z -> bool) (a b : string) :
  allBytes p (a ++ b) = (allBytes p a && allBytes p b)%bool.
Proof.
  induction a as [|c a IH]; [reflexivity|].
  cbn [append allBytes]. now rewrite IH, andb_assoc.
Qed.

Lemma allDigits_plain (s : string) :
  allDigits s = true -> allBytes plainTokenByte s = true.
Proof.
  induction s as [|c s IH]; [reflexivity|]. cbn [allDigits allBytes].
  rewrite !andb_true_iff. intros [Hc Hs]. split; [|auto].
  unfold isDigit in Hc. unfold plainTokenByte.
  rewrite andb_true_iff, !Z.leb_le in Hc. rewrite andb_true_iff, !Z.ltb_lt. lia.
Qed.

Lemma numeral_plainToken (s : string) :
  allDigits s = true -> s <> EmptyString -> plainToken s = true.
Proof.
  intros Hd Hne. unfold plainToken. rewrite (allDigits_plain _ Hd), andb_true_r.
  apply negb_true_iff, String.eqb_neq. exact Hne.
Qed.

Lemma renderPair_plain (p : durationPair) :
  allDigits (whole p) = true -> allDigits (fraction p) = true ->
  allBytes plainTokenByte (renderPair p) = true.
Proof.
  intros Hw Hf. unfold renderPair. rewrite !allBytes_app.
  rewrite (allDigits_plain _ Hw).
  assert (U : allBytes plainTokenByte (unitAbbrev (pairUnit p)) = true)
    by (destruct (pairUnit p); reflexivity).
  rewrite U. destruct (String.eqb (fraction p) ""); [reflexivity|].
  cbn [append allBytes]. now rewrite (allDigits_plain _ Hf).
Qed.

Lemma renderToken_plain (l : list durationPair) (bound : nat) :
  wellFormedPairs bound l = true ->
  allBytes plainTokenByte (renderToken l) = true.
Proof.
  revert bound. induction l as [|p l IH]; intros bound H; [reflexivity|].
  destruct (wellFormedPairs_inv _ _ _ H) as (_ & Hw & Hf & _ & Hl).
  cbn [renderToken]. rewrite allBytes_app, (renderPair_plain p Hw Hf).
  exact (IH _ Hl).
Qed.

Lemma renderToken_plainToken (l : list durationPair) :
  wellFormedToken l = true -> plainToken (renderToken l) = true.
Proof.
  intros H. destruct l as [|p l]; [discriminate H|].
  cbn [wellFormedToken] in H. unfold plainToken.
  rewrite (renderToken_plain _ _ H), andb_true_r.
  destruct (wellFormedPairs_inv _ _ _ H) as (Hne & Hw & _).
  cbn [renderToken].
  destruct (renderPair_head p (renderToken l) Hne Hw) as (c & t & E & _).
  rewrite E. reflexivity.
Qed.

(** The parse of a message in the expected form, given what the field
    conversions make of its tokens. *)
Lemma parse_pullMessage (ref pull total size extra : string) (d1 d2 n : Z) :
  validRef ref = true ->
  plainToken pull = true -> plainToken total = true ->
  plainToken size = true ->
  len (pullMessage ref pull total size) <= fmt.hugeWid ->
  time.ParseDuration pull = Ok d1 ->
  time.ParseDuration total = Ok d2 ->
  strconv.ParseInt size = Ok n ->
  parse (pullMessage ref pull total size ++ extra)
  = Ok {| imageRef := ref; pullDuration := d1; totalDuration := d2;
          imageSizeBytes := n |}.
Proof.
  intros Href Hp Ht Hs Hlen E1 E2 E3.
  rewrite (parse_scanned _ _ _ _ _
             (Sscanf_pullMessage _ _ _ _ Href Hp Ht Hs Hlen extra)).
  rewrite E1, E2, E3. reflexivity.
Qed.

Example ParseDuration_render_1m44 :
  renderToken examplePullToken = "1m44.643s"%string
  /\ tokenNanos examplePullToken = 104643000000.
Proof. split; reflexivity. Qed.

(** ** The structured messages match the grammar *)









Section GrammarOfMessage.

Variables (ref : string) (pull total : list durationPair) (size : string).
Hypothesis Href : contains ref dquote = false.
Hypothesis Wp : wellFormedToken pull = true.
Hypothesis Wt : wellFormedToken total = true.
Hypothesis Hd : allDigits size = true.
Hypothesis Hne : size <> EmptyString.
Hypothesis Hv : decimalValue size < 2 ^ 63.



End GrammarOfMessage.

(** ** A reference that reaches the limit of the scan *)








(** ** C1: the four fields *)




(** ** C8: where the scan ends *)

(** C8, as stated, fails on both counts.  The message of the second
    scenario followed by " and more" does not match the grammar in full, and
    is parsed all the same, with the fields of the scenario; the same
    message cut before its final period matches the grammar (the period is
    optional there), and fails to parse: the format ends with the period
    and meets the end of the input. *)
Lemma C8_counterexample :
  matchesGrammar msgTrailing = false
  /\ parse msgTrailing
     = Ok {| imageRef := "repo/example:99cd3b4";
             pullDuration := 15000000000;
             totalDuration := 45000000000;
             imageSizeBytes := 500 |}
  /\ (exists attrs,
        recorded (handleAddFunc (EventObj (pulledEvent msgTrailing)))
        = [ (imageSizeGauge, 500, attrs);
            (durationPullHistogram, 15000, attrs);
            (durationPullWaitOnlyHistogram, 30000, attrs) ])
  /\ matchesGrammar msgNoPeriod = true
  /\ parse msgNoPeriod = Err (LogFailedParse (Some fmt.ErrUnexpectedEOF))
  /\ recorded (handleAddFunc (EventObj (pulledEvent msgNoPeriod))) = [].
Proof.
  split; [vm_compute; reflexivity|]. split; [vm_compute; reflexivity|].
  split; [eexists; vm_compute; reflexivity|].
  split; [vm_compute; reflexivity|]. split; vm_compute; reflexivity.
Qed.

(** C8, amended.  The format is matched from the start of the message up
    to and including the final period of [ bytes.], and no further.  For a
    message of the form of section 4.2 (reference of ASCII bytes without
    double quote, backslash and line feed; tokens non-empty, of ASCII bytes
    above the space): whatever text follows the final period is ignored,
    the scan stores the same four fields and the parse gives the same
    result; the period is required, and the message cut before it fails
    with an unexpected end of input, so that nothing is recorded. *)
Theorem C8_scan_extent (ref pull total size : string) :
  plainRef ref = true ->
  plainToken pull = true -> plainToken total = true ->
  plainToken size = true ->
  len (pullMessage ref pull total size) < fmt.hugeWid ->
  (forall extra,
     fmt.Sscanf (pullMessage ref pull total size ++ extra) pullFormat 4
     = ([ref; pull; total; size], None)
     /\ parse (pullMessage ref pull total size ++ extra)
        = parse (pullMessage ref pull total size))
  /\ fmt.Sscanf (pullMessageCut ref pull total size) pullFormat 4
     = ([ref; pull; total; size], Some fmt.ErrUnexpectedEOF)
  /\ parse (pullMessageCut ref pull total size)
     = Err (LogFailedParse (Some fmt.ErrUnexpectedEOF))
  /\ (forall event,
        accept event = true ->
        Message event = pullMessageCut ref pull total size ->
        recorded (handleAddFunc (EventObj event)) = []).
Proof.
  intros Href Hp Ht Hs Hlen.
  apply Z.lt_le_incl in Hlen.
  pose proof (Sscanf_pullMessage _ _ _ _ (plainRef_validRef _ Href)
                Hp Ht Hs Hlen) as S1.
  pose proof (Sscanf_pullMessageCut _ _ _ _ (plainRef_validRef _ Href)
                Hp Ht Hs Hlen) as S2.
  assert (P2 : parse (pullMessageCut ref pull total size)
               = Err (LogFailedParse (Some fmt.ErrUnexpectedEOF)))
    by (unfold parse; rewrite S2; reflexivity).
  split; [|split; [exact S2|split; [exact P2|]]].
  - intros extra. split; [apply S1|].
    rewrite (parse_scanned _ _ _ _ _ (S1 extra)).
    pose proof (S1 ""%string) as S0. rewrite string_app_nil_r in S0.
    now rewrite (parse_scanned _ _ _ _ _ S0).
  - intros event Ha Hm. rewrite <- Hm in P2.
    exact (proj2 (handleAddFunc_parse_Err _ _ Ha P2)).
Qed.

Lemma C8_scan_extent_witness :
  plainRef "repo/example:99cd3b4" = true
  /\ plainToken "15s" = true /\ plainToken "45s" = true
  /\ plainToken "500" = true
  /\ len (pullMessage "repo/example:99cd3b4" "15s" "45s" "500") < fmt.hugeWid
  /\ fmt.Sscanf msgTrailing pullFormat 4
     = (["repo/example:99cd3b4"; "15s"; "45s"; "500"]%string, None)
  /\ parse msgTrailing = parse msg15s45s
  /\ parse msgNoPeriod = Err (LogFailedParse (Some fmt.ErrUnexpectedEOF)).
Proof.
  split; [reflexivity|]. split; [reflexivity|]. split; [reflexivity|].
  split; [reflexivity|]. split; [reflexivity|].
  destruct (C8_scan_extent "repo/example:99cd3b4" "15s" "45s" "500"
              eq_refl eq_refl eq_refl eq_refl eq_refl)
    as (H1 & _ & H2 & _).
  destruct (H1 " and more"%string) as [H3 H4].
  split; [exact H3|]. split; [exact H4|exact H2].
Defined.

(** * Further properties of the handler *)

Lemma kubeletPulledPod_accept (event : Event) :
  accept event
  = (kubeletPulledPod event
     && negb (String.prefix "Container image" (Message event)))%bool.
Proof. reflexivity. Qed.

Lemma handleAddFunc_other (event : Event) :
  kubeletPulledPod event = false -> handleAddFunc (EventObj event) = [].
Proof.
  unfold kubeletPulledPod, handleAddFunc. intros H.
  destruct (String.eqb (Component (Source event)) "kubelet"); [|reflexivity].
  destruct (String.eqb (Kind (InvolvedObject event)) "Pod"); [|reflexivity].
  destruct (String.eqb (Reason event) "Pulled"); [discriminate H|reflexivity].
Qed.

Lemma handleAddFunc_skipped (event : Event) :
  kubeletPulledPod event = true ->
  String.prefix "Container image" (Message event) = true ->
  handleAddFunc (EventObj event) = [LogSkipping (Message event)].
Proof.
  unfold kubeletPulledPod, handleAddFunc. intros H Hp.
  repeat (apply andb_prop in H; destruct H as [H ?]).
  rewrite skipMessage_prefix, H, H0, H1, Hp. reflexivity.
Qed.

(** X1.  The handler does nothing at all, no log line and no observation,
    exactly when its argument is not an event, or is an event whose source
    component is not "kubelet", whose involved object is not a "Pod" or
    whose reason is not "Pulled". *)
Theorem handleAddFunc_silent_iff (obj : object) :
  handleAddFunc obj = []
  <-> forall event, obj = EventObj event -> kubeletPulledPod event = false.
Proof.
  split.
  - intros Hs event ->.
    assert (Hk : kubeletPulledPod event = true \/ kubeletPulledPod event = false)
      by (destruct (kubeletPulledPod event); [left|right]; reflexivity).
    destruct Hk as [Hk|Hk]; [exfalso|exact Hk].
    assert (Hp : String.prefix "Container image" (Message event) = true
                 \/ String.prefix "Container image" (Message event) = false)
      by (destruct (String.prefix "Container image" (Message event));
          [left|right]; reflexivity).
    destruct Hp as [Hp|Hp].
    + rewrite (handleAddFunc_skipped _ Hk Hp) in Hs. discriminate Hs.
    + assert (Ha : accept event = true)
        by (rewrite kubeletPulledPod_accept, Hk, Hp; reflexivity).
      rewrite (handleAddFunc_accepted _ Ha) in Hs. discriminate Hs.
  - intros H. destruct obj as [event|]; [|reflexivity].
    apply handleAddFunc_other. apply H. reflexivity.
Qed.

Lemma logged_recordAll (event : Event) (r : ParsedPullRecord) :
  logged (recordAll event r)
  = [LogRecorded (pullDuration r)
       (waitOnlyDuration (totalDuration r) (pullDuration r))
       (imageSizeBytes r)].
Proof. reflexivity. Qed.

Lemma logged_parse_Err (msg : string) (line : effect) :
  parse msg = Err line -> logged [line] = [line].
Proof.
  unfold parse.
  destruct (fmt.Sscanf msg pullFormat 4) as [out err].
  assert (G : forall e, @Err effect ParsedPullRecord (LogFailedParse e) = Err line
                        -> logged [line] = [line]).
  { intros e H. injection H as <-. reflexivity. }
  destruct out as [|a [|b [|c [|d [|e out]]]]]; destruct err; try apply G.
  destruct (time.ParseDuration b); [|intros H; injection H as <-; reflexivity].
  destruct (time.ParseDuration c); [|intros H; injection H as <-; reflexivity].
  destruct (strconv.ParseInt d); [|intros H; injection H as <-; reflexivity].
  discriminate.
Qed.

(** X2.  For an event of the kubelet with reason "Pulled" on a pod, the
    handler logs one line or two.  When the message begins with "Container
    image" it logs that it skips the message, and does nothing else.
    Otherwise it logs the message first, and then exactly one more line:
    after a successful parse the line with the recorded values, which
    follows the three observations, and after a failed parse the line of
    that failure, with no observation. *)
Theorem handleAddFunc_log_lines (event : Event) :
  kubeletPulledPod event = true ->
  (String.prefix "Container image" (Message event) = true
   /\ handleAddFunc (EventObj event) = [LogSkipping (Message event)])
  \/ (String.prefix "Container image" (Message event) = false
      /\ ((exists r attrs,
             parse (Message event) = Ok r
             /\ handleAddFunc (EventObj event)
                = [ LogPodEventAdded (Message event);
                    Record_ imageSizeGauge (imageSizeBytes r) attrs;
                    Record_ durationPullHistogram
                      (time.Milliseconds (pullDuration r)) attrs;
                    Record_ durationPullWaitOnlyHistogram
                      (time.Milliseconds
                         (waitOnlyDuration (totalDuration r) (pullDuration r)))
                      attrs;
                    LogRecorded (pullDuration r)
                      (waitOnlyDuration (totalDuration r) (pullDuration r))
                      (imageSizeBytes r) ])
          \/ (exists line,
                parse (Message event) = Err line
                /\ handleAddFunc (EventObj event)
                   = [LogPodEventAdded (Message event); line]
                /\ logged [line] = [line]))).
Proof.
  intros Hk.
  assert (Hp : String.prefix "Container image" (Message event) = true
               \/ String.prefix "Container image" (Message event) = false)
    by (destruct (String.prefix "Container image" (Message event));
        [left|right]; reflexivity).
  destruct Hp as [Hp|Hp].
  - left. split; [exact Hp|]. exact (handleAddFunc_skipped _ Hk Hp).
  - right. split; [exact Hp|].
    assert (Ha : accept event = true)
      by (rewrite kubeletPulledPod_accept, Hk, Hp; reflexivity).
    rewrite (handleAddFunc_accepted _ Ha).
    destruct (parse (Message event)) as [r|line] eqn:E.
    + left. exists r, (commonAttributes event r). split; reflexivity.
    + right. exists line. split; [reflexivity|]. split; [reflexivity|].
      exact (logged_parse_Err _ _ E).
Qed.

Lemma handleAddFunc_log_lines_witness :
  kubeletPulledPod (pulledEvent msgNonNumericSize) = true
  /\ handleAddFunc (EventObj (pulledEvent msgNonNumericSize))
     = [ LogPodEventAdded msgNonNumericSize;
         LogFailedImageSize strconv.ErrSyntax ].
Proof.
  split; [reflexivity|].
  destruct (handleAddFunc_log_lines (pulledEvent msgNonNumericSize) eq_refl)
    as [[Hp _]|[_ [(r & attrs & Hr & _)|(line & Hl & Hh & _)]]].
  - vm_compute in Hp. discriminate Hp.
  - vm_compute in Hr. discriminate Hr.
  - vm_compute in Hl. injection Hl as <-. exact Hh.
Defined.

(** ** Notifications of the informer *)

Lemma recorded_app (a b : list effect) :
  recorded (a ++ b) = recorded a ++ recorded b.
Proof. unfold recorded. apply flat_map_app. Qed.

Lemma recorded_handleAddFunc_length (obj : object) :
  List.length (recorded (handleAddFunc obj))
  = match obj with
    | EventObj event =>
      if accept event && is_ok (parse (Message event)) then 3%nat else 0%nat
    | OtherObj => 0%nat
    end.
Proof.
  destruct obj as [event|]; [|reflexivity].
  assert (Hd : accept event = true \/ accept event = false)
    by (destruct (accept event); [left|right]; reflexivity).
  destruct Hd as [Ha|Ha]; rewrite Ha.
  - rewrite (handleAddFunc_accepted _ Ha).
    destruct (parse (Message event)) as [r|line] eqn:E.
    + reflexivity.
    + change (recorded (LogPodEventAdded (Message event) :: [line]))
        with (recorded [line]).
      rewrite (parse_Err_logs _ _ E). reflexivity.
  - destruct (handleAddFunc_rejected _ Ha) as [E|E]; rewrite E; reflexivity.
Qed.

(** X3.  The handler registered by [main] acts on additions only: an
    update or a deletion of an event is dropped, with no log line and no
    observation.  Over any sequence of notifications, the observations are
    three for each added object that is an event, passes the filter and
    parses, and none for any other; an event added twice is recorded
    twice. *)
Theorem eventHandler_additions_only (ns : list notification) :
  (forall oldObj newObj,
     deliver eventHandler (updateNotification oldObj newObj) = [])
  /\ (forall oldObj, deliver eventHandler (deleteNotification oldObj) = [])
  /\ List.length (recorded (deliverAll eventHandler ns))
     = (3 * List.length (filter pullReported ns))%nat.
Proof.
  split; [reflexivity|]. split; [reflexivity|].
  induction ns as [|n ns IH]; [reflexivity|].
  unfold deliverAll in *. cbn [flat_map filter].
  rewrite recorded_app, length_app, IH.
  destruct n as [obj initial|oldObj newObj|oldObj].
  - change (deliver eventHandler (addNotification obj initial))
      with (handleAddFunc obj).
    rewrite recorded_handleAddFunc_length.
    destruct obj as [event|]; [|reflexivity].
    cbn [pullReported].
    destruct (accept event && is_ok (parse (Message event)))%bool;
      cbn [List.length]; lia.
  - reflexivity.
  - reflexivity.
Qed.

(** ** The timestamp attribute *)

Lemma lookup_timestamp (event : Event) (r : ParsedPullRecord) :
  lookup "observed.timestamp" (commonAttributes event r)
  = Some (attribute.Int64Value (time.UnixMilli (LastTimestamp event))).
Proof. reflexivity. Qed.

(** X4.  Every observation of an accepted, parsed event carries the
    event's last timestamp, not the time of the call, as
    [observed.timestamp]: the milliseconds since the Unix epoch, rounded
    down (so also for a time before the epoch, where the truncation of
    durations would round up).  An event without a last timestamp carries
    the zero time and is stamped -62135596800000. *)
Theorem observed_timestamp_floor (event : Event) (r : ParsedPullRecord) :
  accept event = true ->
  parse (Message event) = Ok r ->
  0 <= time.nsec (LastTimestamp event) < 1000000000 ->
  - 2 ^ 63 <= time.unixSec (LastTimestamp event) * 1000 ->
  time.unixSec (LastTimestamp event) * 1000 + 999 < 2 ^ 63 ->
  (forall i v attrs,
     In (i, v, attrs) (recorded (handleAddFunc (EventObj event))) ->
     lookup "observed.timestamp" attrs
     = Some (attribute.Int64Value
               ((time.unixSec (LastTimestamp event) * 1000000000
                 + time.nsec (LastTimestamp event)) / 1000000)))
  /\ (LastTimestamp event = zeroTime ->
      forall i v attrs,
        In (i, v, attrs) (recorded (handleAddFunc (EventObj event))) ->
        lookup "observed.timestamp" attrs
        = Some (attribute.Int64Value (-62135596800000))).
Proof.
  intros Ha Hp Hn Hlo Hhi.
  assert (G : forall i v attrs,
            In (i, v, attrs) (recorded (handleAddFunc (EventObj event))) ->
            lookup "observed.timestamp" attrs
            = Some (attribute.Int64Value
                      (time.UnixMilli (LastTimestamp event)))).
  { intros i v attrs Hin.
    rewrite (recorded_parsed _ _ Ha Hp), recorded_recordAll in Hin.
    destruct Hin as [H|[H|[H|[]]]]; injection H as _ _ <-;
      apply lookup_timestamp. }
  split.
  - intros i v attrs Hin. rewrite (G i v attrs Hin).
    now rewrite (UnixMilli_floor _ Hn Hlo Hhi).
  - intros Hz i v attrs Hin. rewrite (G i v attrs Hin), Hz. reflexivity.
Qed.

Lemma observed_timestamp_floor_witness :
  accept (eventAt {| time.unixSec := -1; time.nsec := 999999999 |}) = true
  /\ forall i v attrs,
       In (i, v, attrs)
          (recorded
             (handleAddFunc
                (EventObj
                   (eventAt {| time.unixSec := -1; time.nsec := 999999999 |})))) ->
       lookup "observed.timestamp" attrs = Some (attribute.Int64Value (-1)).
Proof.
  split; [reflexivity|].
  exact (proj1 (observed_timestamp_floor
                  (eventAt {| time.unixSec := -1; time.nsec := 999999999 |})
                  {| imageRef := "repo/example:99cd3b4";
                     pullDuration := 15000000000;
                     totalDuration := 45000000000;
                     imageSizeBytes := 500 |}
                  eq_refl ltac:(vm_compute; reflexivity)
                  ltac:(cbn; lia) ltac:(cbn; lia) ltac:(cbn; lia))).
Defined.

(** ** The size token, in full *)

Lemma parseUintLoop_not_digits (s : string) (n : Z) :
  allDigits s = false ->
  exists un e,
    strconv.parseUintLoop s n = (un, Some e)
    /\ (e = strconv.ErrRange -> un = strconv.maxUint64).
Proof.
  revert n. induction s as [|c s IH]; intros n Hd; [discriminate Hd|].
  cbn [allDigits] in Hd. cbn [strconv.parseUintLoop].
  destruct (isDigit c) eqn:Hc.
  - cbn [andb negb] in *.
    destruct (strconv.maxUint64 / 10 + 1 <=? n).
    + exists (wrapU64 (2 ^ 64 - 1)), strconv.ErrRange.
      split; [reflexivity|]. intros _. reflexivity.
    + destruct ((wrapU64 (wrapU64 (n * 10) + (byteZ c - 48))
                 <? wrapU64 (n * 10))
                || (wrapU64 (2 ^ 64 - 1)
                    <? wrapU64 (wrapU64 (n * 10) + (byteZ c - 48))))%bool.
      * exists (wrapU64 (2 ^ 64 - 1)), strconv.ErrRange.
        split; [reflexivity|]. intros _. reflexivity.
      * apply IH. exact Hd.
  - exists 0, strconv.ErrSyntax. split; [reflexivity|discriminate].
Qed.

Lemma ParseUint_not_numeral (s : string) :
  (allDigits s && negb (String.eqb s ""))%bool = false ->
  exists un e,
    strconv.ParseUint s = (un, Some e)
    /\ (e = strconv.ErrRange -> un = strconv.maxUint64).
Proof.
  intros H. destruct s as [|c s].
  - exists 0, strconv.ErrSyntax. split; [reflexivity|discriminate].
  - change (String.eqb (String c s) "") with false in H.
    rewrite andb_true_r in H.
    exact (parseUintLoop_not_digits _ 0 H).
Qed.

(** [ParseInt] from what [ParseUint] makes of the text after the sign. *)
Lemma ParseInt_signed (c : ascii) (t : string) :
  strconv.ParseInt (String c t)
  = let neg := Ascii.eqb c "-" in
    let text := if (Ascii.eqb c "-" || Ascii.eqb c "+")%bool then t
                else String c t in
    match strconv.ParseUint text with
    | (_, Some strconv.ErrSyntax) => Err strconv.ErrSyntax
    | (un, _) =>
      if (negb neg && (2 ^ 63 <=? un))%bool then Err strconv.ErrRange
      else if (neg && (2 ^ 63 <? un))%bool then Err strconv.ErrRange
      else Ok (if neg then wrap64 (- wrap64 un) else wrap64 un)
    end.
Proof.
  unfold strconv.ParseInt. cbv zeta.
  destruct (Ascii.eqb c "+") eqn:Ep; destruct (Ascii.eqb c "-") eqn:Em;
    cbn [orb];
    match goal with
    | |- context [strconv.ParseUint ?x] =>
      destruct (strconv.ParseUint x) as [un [[|]|]]
    end; reflexivity.
Qed.

Lemma ParseInt_not_numeral (c : ascii) (t : string) :
  signedNumeral (String c t) = None ->
  is_ok (strconv.ParseInt (String c t)) = false.
Proof.
  unfold signedNumeral. rewrite ParseInt_signed. cbv zeta.
  set (text := if (Ascii.eqb c "-" || Ascii.eqb c "+")%bool then t
               else String c t).
  destruct (allDigits text && negb (String.eqb text ""))%bool eqn:Hn;
    [discriminate|]. intros _.
  destruct (ParseUint_not_numeral _ Hn) as (un & e & -> & Hr).
  destruct e; [reflexivity|].
  rewrite (Hr eq_refl).
  destruct (Ascii.eqb c "-"); reflexivity.
Qed.

Lemma ParseInt_numeral (c : ascii) (t : string) (v : Z) :
  signedNumeral (String c t) = Some v ->
  strconv.ParseInt (String c t)
  = if (- 2 ^ 63 <=? v) && (v <? 2 ^ 63) then Ok v else Err strconv.ErrRange.
Proof.
  unfold signedNumeral. rewrite ParseInt_signed. cbv zeta.
  set (text := if (Ascii.eqb c "-" || Ascii.eqb c "+")%bool then t
               else String c t).
  destruct (allDigits text && negb (String.eqb text ""))%bool eqn:Hn;
    [|discriminate].
  apply andb_prop in Hn as [Hd Hne].
  apply negb_true_iff, String.eqb_neq in Hne.
  intros Hv. injection Hv as <-.
  rewrite (ParseUint_digits _ Hd Hne).
  pose proof (decimalFrom_ge text 0 Hd ltac:(lia)) as Hge.
  fold (decimalValue text) in Hge.
  unfold strconv.maxUint64.
  destruct (Z.leb_spec (decimalValue text) (2 ^ 64 - 1)) as [H1|H1].
  - destruct (Ascii.eqb c "-"); cbn [negb andb].
    + destruct (Z.ltb_spec (2 ^ 63) (decimalValue text));
        destruct (Z.leb_spec (- 2 ^ 63) (- decimalValue text));
        destruct (Z.ltb_spec (- decimalValue text) (2 ^ 63));
        try lia; cbn [andb]; try reflexivity.
      f_equal.
      destruct (Z.eq_dec (decimalValue text) (2 ^ 63)) as [->|];
        [reflexivity|].
      rewrite (wrap64_small (decimalValue text)) by lia.
      apply wrap64_small. lia.
    + destruct (Z.leb_spec (2 ^ 63) (decimalValue text));
        destruct (Z.leb_spec (- 2 ^ 63) (decimalValue text));
        destruct (Z.ltb_spec (decimalValue text) (2 ^ 63));
        try lia; cbn [andb]; try reflexivity.
      now rewrite wrap64_small by lia.
  - destruct (Ascii.eqb c "-"); cbn [negb andb].
    + destruct (Z.ltb_spec (2 ^ 63) (2 ^ 64 - 1)); [|lia].
      destruct (Z.leb_spec (- 2 ^ 63) (- decimalValue text)); [lia|].
      reflexivity.
    + destruct (Z.leb_spec (2 ^ 63) (2 ^ 64 - 1)); [|lia].
      destruct (Z.leb_spec (- 2 ^ 63) (decimalValue text));
        destruct (Z.ltb_spec (decimalValue text) (2 ^ 63)); try lia;
        reflexivity.
Qed.

(** X5.  The size token is accepted exactly when it is a decimal numeral,
    digits only and at least one, after an optional sign [+] or [-], whose
    value fits a signed 64-bit integer; the result is that value.  Leading
    zeros are allowed, and nothing else is: no space, no underscore, no
    prefix of another base, no empty token. *)
Theorem ParseInt_iff_signed_numeral (s : string) (n : Z) :
  strconv.ParseInt s = Ok n
  <-> signedNumeral s = Some n /\ - 2 ^ 63 <= n < 2 ^ 63.
Proof.
  destruct s as [|c t].
  - split; [discriminate|intros [H _]; discriminate H].
  - destruct (signedNumeral (String c t)) as [v|] eqn:Hs.
    + rewrite (ParseInt_numeral _ _ _ Hs).
      destruct (Z.leb_spec (- 2 ^ 63) v) as [Hlo|Hlo];
        destruct (Z.ltb_spec v (2 ^ 63)) as [Hhi|Hhi]; cbn [andb].
      * split.
        -- intros E. injection E as <-. split; [reflexivity|lia].
        -- intros [E _]. injection E as <-. reflexivity.
      * split; [discriminate|]. intros [E Hb]. injection E as <-. lia.
      * split; [discriminate|]. intros [E Hb]. injection E as <-. lia.
      * split; [discriminate|]. intros [E Hb]. injection E as <-. lia.
    + pose proof (ParseInt_not_numeral _ _ Hs) as Hf.
      split; [intros H; rewrite H in Hf; discriminate Hf|].
      intros [H _]. discriminate H.
Qed.

(** ** Duration tokens outside the grammar: signs, and no unit *)

Lemma ParseDuration_signed (negative : bool) (l : list durationPair) :
  wellFormedToken l = true -> tokenNanos l <= 2 ^ 63 - 1 ->
  time.ParseDuration (signedToken negative l) = Ok (signedNanos negative l).
Proof.
  intros H Hfit. destruct l as [|p l]; [discriminate H|].
  cbn [wellFormedToken] in H.
  destruct (wellFormedPairs_inv _ _ _ H) as (Hne & Hw & _).
  pose proof (parseGroups_render (p :: l) 5 _ 0 H ltac:(lia) ltac:(lia)
                (renderToken_length _ _ H)) as G.
  pose proof (tokenNanos_nonneg _ _ H) as T0.
  unfold signedToken, signedNanos.
  cbn [renderToken] in *.
  destruct (renderPair_head p (renderToken l) Hne Hw) as (c & t & E & Hc & L).
  rewrite E in *.
  assert (E0 : String.eqb (String c t) "0" = false).
  { apply String.eqb_neq. intros Heq. rewrite Heq in L. simpl in L. lia. }
  unfold time.ParseDuration.
  destruct negative.
  - change (Ascii.eqb "-" "-" || Ascii.eqb "-" "+")%bool with true.
    change (Ascii.eqb "-" "-") with true. cbv iota.
    rewrite E0. cbn [String.eqb]. rewrite G, Z.add_0_l.
    rewrite (wrap64_small (tokenNanos (p :: l))) by lia.
    rewrite wrap64_small by lia. reflexivity.
  - change (Ascii.eqb "+" "-" || Ascii.eqb "+" "+")%bool with true.
    change (Ascii.eqb "+" "-") with false. cbv iota.
    rewrite E0. cbn [String.eqb]. rewrite G, Z.add_0_l.
    destruct (Z.ltb_spec (2 ^ 63 - 1) (tokenNanos (p :: l))); [lia|].
    rewrite wrap64_small by lia. reflexivity.
Qed.

Lemma signedToken_plainToken (negative : bool) (l : list durationPair) :
  wellFormedToken l = true -> plainToken (signedToken negative l) = true.
Proof.
  intros H. pose proof (renderToken_plainToken _ H) as P.
  unfold plainToken in *. apply andb_prop in P as [_ P].
  unfold signedToken. cbn [String.eqb negb andb allBytes]. rewrite P.
  destruct negative; reflexivity.
Qed.

Lemma Milliseconds_opp (d : time.Duration) :
  time.Milliseconds (- d) = - time.Milliseconds d.
Proof. unfold time.Milliseconds. apply Z.quot_opp_l. lia. Qed.

(** X6.  A sign before a duration token is accepted: [ParseDuration] reads
    [+] and [-], so a message whose durations carry a sign is parsed and
    recorded, a negative pull duration as a negative number of
    milliseconds, the opposite of what the unsigned token gives. *)
Theorem signed_durations_recorded (event : Event) (ref : string)
  (negPull negTotal : bool) (pull total : list durationPair)
  (size extra : string) :
  accept event = true ->
  Message event
  = (pullMessage ref (signedToken negPull pull) (signedToken negTotal total)
       size ++ extra)%string ->
  plainRef ref = true ->
  wellFormedToken pull = true -> tokenNanos pull <= 2 ^ 63 - 1 ->
  wellFormedToken total = true -> tokenNanos total <= 2 ^ 63 - 1 ->
  allDigits size = true -> size <> EmptyString ->
  decimalValue size < 2 ^ 63 ->
  len (pullMessage ref (signedToken negPull pull)
         (signedToken negTotal total) size) < fmt.hugeWid ->
  (exists attrs,
     recorded (handleAddFunc (EventObj event))
     = [ (imageSizeGauge, decimalValue size, attrs);
         (durationPullHistogram,
          time.Milliseconds (signedNanos negPull pull), attrs);
         (durationPullWaitOnlyHistogram,
          time.Milliseconds
            (waitOnlyDuration (signedNanos negTotal total)
               (signedNanos negPull pull)),
          attrs) ])
  /\ time.Milliseconds (signedNanos true pull)
     = - time.Milliseconds (tokenNanos pull)
  /\ time.Milliseconds (signedNanos false pull)
     = time.Milliseconds (tokenNanos pull).
Proof.
  intros Ha Hm Href Wp Fp Wt Ft Hd Hne Hv Hlen.
  assert (P : parse (Message event)
              = Ok {| imageRef := ref;
                      pullDuration := signedNanos negPull pull;
                      totalDuration := signedNanos negTotal total;
                      imageSizeBytes := decimalValue size |}).
  { rewrite Hm.
    apply parse_pullMessage; try assumption.
    - now apply plainRef_validRef.
    - now apply signedToken_plainToken.
    - now apply signedToken_plainToken.
    - now apply numeral_plainToken.
    - now apply Z.lt_le_incl.
    - now apply ParseDuration_signed.
    - now apply ParseDuration_signed.
    - rewrite (ParseInt_digits _ Hd Hne).
      destruct (Z.ltb_spec (decimalValue size) (2 ^ 63)); [reflexivity|lia]. }
  split; [|split].
  - eexists. rewrite (recorded_parsed _ _ Ha P). apply recorded_recordAll.
  - apply Milliseconds_opp.
  - reflexivity.
Qed.

Lemma signed_durations_recorded_witness :
  accept (pulledEvent
            (pullMessage "repo/example:99cd3b4"
               (signedToken true examplePullToken)
               (signedToken false examplePullToken) "500")) = true
  /\ signedToken true examplePullToken = "-1m44.643s"%string
  /\ exists attrs,
       recorded
         (handleAddFunc
            (EventObj
               (pulledEvent
                  (pullMessage "repo/example:99cd3b4"
                     (signedToken true examplePullToken)
                     (signedToken false examplePullToken) "500"))))
       = [ (imageSizeGauge, decimalValue "500", attrs);
           (durationPullHistogram,
            time.Milliseconds (signedNanos true examplePullToken), attrs);
           (durationPullWaitOnlyHistogram,
            time.Milliseconds
              (waitOnlyDuration (signedNanos false examplePullToken)
                 (signedNanos true examplePullToken)),
            attrs) ].
Proof.
  split; [reflexivity|]. split; [reflexivity|].
  exact (proj1 (signed_durations_recorded
                  (pulledEvent
                     (pullMessage "repo/example:99cd3b4"
                        (signedToken true examplePullToken)
                        (signedToken false examplePullToken) "500"))
                  "repo/example:99cd3b4" true false
                  examplePullToken examplePullToken "500" ""
                  eq_refl eq_refl eq_refl
                  eq_refl ltac:(vm_compute; discriminate)
                  eq_refl ltac:(vm_compute; discriminate)
                  eq_refl ltac:(discriminate) eq_refl eq_refl)).
Defined.

Lemma leadingInt_all_digits (w : string) (x : Z) :
  allDigits w = true ->
  time.leadingInt w x = None
  \/ exists v, time.leadingInt w x = Some (v, EmptyString).
Proof.
  revert x. induction w as [|c w IH]; intros x Hw.
  - right. exists x. reflexivity.
  - cbn [allDigits] in Hw. apply andb_prop in Hw as [Hc Hw].
    cbn [time.leadingInt]. rewrite Hc. cbn [negb].
    destruct (2 ^ 63 / 10 <? x); [now left|].
    destruct (2 ^ 63 <? wrapU64 (x * 10 + byteZ c - 48)); [now left|].
    apply IH. exact Hw.
Qed.

Lemma ParseDuration_no_unit (t : string) :
  allDigits t = true -> t <> EmptyString -> t <> "0"%string ->
  (time.ParseDuration t = Err time.MissingUnit
   \/ time.ParseDuration t = Err time.InvalidDuration)
  /\ (decimalValue t <= 2 ^ 63 ->
      time.ParseDuration t = Err time.MissingUnit).
Proof.
  intros Hd Hne H0.
  destruct t as [|c t]; [congruence|].
  pose proof Hd as Hd'. cbn [allDigits] in Hd'.
  apply andb_prop in Hd' as [Hc _].
  destruct (isDigit_not_sign _ Hc) as [Em Ep].
  assert (E0 : String.eqb (String c t) "0" = false)
    by (apply String.eqb_neq; exact H0).
  assert (U : time.ParseDuration (String c t)
              = match time.leadingInt (String c t) 0 with
                | None => Err time.InvalidDuration
                | Some (_, EmptyString) => Err time.MissingUnit
                | Some (_, String _ _) =>
                  time.ParseDuration (String c t)
                end).
  { destruct (leadingInt_all_digits (String c t) 0 Hd) as [E|[v E]].
    - rewrite E. unfold time.ParseDuration. rewrite Em, Ep. cbn [orb].
      rewrite E0. cbn [String.eqb String.length time.parseGroups].
      rewrite Hc. cbn [orb negb]. rewrite orb_true_r. cbn [negb].
      rewrite E. reflexivity.
    - rewrite E. unfold time.ParseDuration. rewrite Em, Ep. cbn [orb].
      rewrite E0. cbn [String.eqb String.length time.parseGroups].
      rewrite Hc. rewrite orb_true_r. cbn [negb].
      rewrite E.
      assert (L : (len (String c t) =? len "") = false).
      { apply Z.eqb_neq. unfold len. cbn [String.length]. lia. }
      rewrite L. reflexivity. }
  split.
  - rewrite U.
    destruct (leadingInt_all_digits (String c t) 0 Hd) as [E|[v E]];
      rewrite E; [now right|now left].
  - intros Hv. rewrite U.
    pose proof (leadingInt_digits (String c t) "" 0 Hd eq_refl
                  ltac:(lia) Hv) as E.
    rewrite string_app_nil_r in E. rewrite E. reflexivity.
Qed.

Lemma leadingInt_overflow (w : string) (x : Z) :
  allDigits w = true -> 0 <= x <= 2 ^ 63 -> 2 ^ 63 < decimalFrom w x ->
  time.leadingInt w x = None.
Proof.
  revert x. induction w as [|c w IH]; intros x Hw Hx Hv.
  - cbn [decimalFrom] in Hv. lia.
  - cbn [allDigits] in Hw. apply andb_prop in Hw as [Hc Hw].
    pose proof (isDigit_range _ Hc) as Hd.
    cbn [decimalFrom] in Hv. cbn [time.leadingInt].
    rewrite Hc. cbn [negb].
    change (2 ^ 63 / 10) with 922337203685477580.
    change (2 ^ 63) with 9223372036854775808 in *.
    destruct (Z.ltb_spec 922337203685477580 x); [reflexivity|].
    unfold wrapU64. rewrite Z.mod_small by lia.
    destruct (Z.ltb_spec 9223372036854775808 (x * 10 + byteZ c - 48));
      [reflexivity|].
    apply IH; [exact Hw|lia|].
    replace (x * 10 + byteZ c - 48) with (x * 10 + (byteZ c - 48)) by lia.
    exact Hv.
Qed.

Lemma ParseDuration_no_unit_overflow (t : string) :
  allDigits t = true -> t <> EmptyString ->
  2 ^ 63 < decimalValue t ->
  time.ParseDuration t = Err time.InvalidDuration.
Proof.
  intros Hd Hne Hv.
  assert (H0 : t <> "0"%string) by (intros ->; vm_compute in Hv; discriminate).
  destruct (ParseDuration_no_unit t Hd Hne H0) as [[E|E] _]; [|exact E].
  exfalso.
  destruct t as [|c t]; [congruence|].
  pose proof Hd as Hd'. cbn [allDigits] in Hd'.
  apply andb_prop in Hd' as [Hc _].
  destruct (isDigit_not_sign _ Hc) as [Em Ep].
  assert (E0 : String.eqb (String c t) "0" = false)
    by (apply String.eqb_neq; exact H0).
  pose proof (leadingInt_overflow (String c t) 0 Hd ltac:(lia) Hv) as L.
  unfold time.ParseDuration in E. rewrite Em, Ep in E. cbn [orb] in E.
  rewrite E0 in E. cbn [String.eqb String.length time.parseGroups] in E.
  rewrite Hc in E. cbn [orb negb] in E. rewrite orb_true_r in E.
  cbn [negb] in E. rewrite L in E. discriminate.
Qed.

(** X7.  A duration token of digits only, without a unit, is rejected
    unless it is [0]: the handler logs that it failed to parse the pull
    duration and records nothing.  The error is a missing unit when the
    digits read as a number of at most [2 ^ 63], and an invalid duration
    when they read as more.  The token [0] alone is a duration, of zero
    milliseconds. *)
Theorem duration_without_unit (event : Event)
  (ref t total size extra : string) :
  accept event = true ->
  Message event = (pullMessage ref t total size ++ extra)%string ->
  plainRef ref = true ->
  allDigits t = true -> t <> EmptyString ->
  plainToken total = true -> plainToken size = true ->
  len (pullMessage ref t total size) < fmt.hugeWid ->
  (t <> "0"%string ->
   exists e,
     handleAddFunc (EventObj event)
     = [LogPodEventAdded (Message event); LogFailedDurationPull e]
     /\ (e = time.MissingUnit \/ e = time.InvalidDuration)
     /\ (decimalValue t <= 2 ^ 63 -> e = time.MissingUnit)
     /\ (2 ^ 63 < decimalValue t -> e = time.InvalidDuration))
  /\ (t = "0"%string ->
      forall d n,
        time.ParseDuration total = Ok d -> strconv.ParseInt size = Ok n ->
        exists attrs,
          recorded (handleAddFunc (EventObj event))
          = [ (imageSizeGauge, n, attrs);
              (durationPullHistogram, 0, attrs);
              (durationPullWaitOnlyHistogram,
               time.Milliseconds (waitOnlyDuration d 0), attrs) ]).
Proof.
  intros Ha Hm Href Hd Hne Ht Hs Hlen. apply Z.lt_le_incl in Hlen.
  pose proof (Sscanf_pullMessage _ _ _ _ (plainRef_validRef _ Href)
                (numeral_plainToken _ Hd Hne) Ht Hs Hlen extra) as S.
  rewrite <- Hm in S. pose proof (parse_scanned _ _ _ _ _ S) as P.
  split.
  - intros H0.
    destruct (ParseDuration_no_unit t Hd Hne H0) as [D1 D2].
    assert (D : exists e, time.ParseDuration t = Err e
                          /\ (e = time.MissingUnit \/ e = time.InvalidDuration)
                          /\ (decimalValue t <= 2 ^ 63 -> e = time.MissingUnit)
                          /\ (2 ^ 63 < decimalValue t
                              -> e = time.InvalidDuration)).
    { destruct D1 as [E|E].
      - exists time.MissingUnit. split; [exact E|].
        split; [now left|]. split; [reflexivity|].
        intros Hv.
        pose proof (ParseDuration_no_unit_overflow t Hd Hne Hv) as E'.
        congruence.
      - exists time.InvalidDuration. split; [exact E|].
        split; [now right|]. split; [|reflexivity].
        intros Hv. specialize (D2 Hv). congruence. }
    destruct D as (e & E & He & Hv & Ho).
    rewrite E in P. exists e. split; [|repeat split; assumption].
    exact (proj1 (handleAddFunc_parse_Err _ _ Ha P)).
  - intros -> d n E2 E3.
    change (time.ParseDuration "0") with (@Ok time.DurationError Z 0) in P.
    cbv iota in P. rewrite E2, E3 in P.
    eexists. rewrite (recorded_parsed _ _ Ha P). apply recorded_recordAll.
Qed.

Lemma duration_without_unit_witness :
  accept (pulledEvent (pullMessage "repo/example:99cd3b4" "15" "45s" "500"))
  = true
  /\ handleAddFunc
       (EventObj
          (pulledEvent (pullMessage "repo/example:99cd3b4" "15" "45s" "500")))
     = [ LogPodEventAdded (pullMessage "repo/example:99cd3b4" "15" "45s" "500");
         LogFailedDurationPull time.MissingUnit ]
  /\ handleAddFunc
       (EventObj
          (pulledEvent
             (pullMessage "repo/example:99cd3b4" "9223372036854775809"
                "45s" "500")))
     = [ LogPodEventAdded
           (pullMessage "repo/example:99cd3b4" "9223372036854775809"
              "45s" "500");
         LogFailedDurationPull time.InvalidDuration ].
Proof.
  split; [reflexivity|]. split.
  - destruct (proj1 (duration_without_unit
                       (pulledEvent
                          (pullMessage "repo/example:99cd3b4" "15" "45s"
                             "500"))
                       "repo/example:99cd3b4" "15" "45s" "500" ""
                       eq_refl eq_refl eq_refl eq_refl ltac:(discriminate)
                       eq_refl eq_refl eq_refl)
                    ltac:(discriminate))
      as (e & H & _ & He & _).
    rewrite (He ltac:(vm_compute; discriminate)) in H. exact H.
  - destruct (proj1 (duration_without_unit
                       (pulledEvent
                          (pullMessage "repo/example:99cd3b4"
                             "9223372036854775809" "45s" "500"))
                       "repo/example:99cd3b4" "9223372036854775809" "45s"
                       "500" ""
                       eq_refl eq_refl eq_refl eq_refl ltac:(discriminate)
                       eq_refl eq_refl eq_refl)
                    ltac:(discriminate))
      as (e & H & _ & _ & He).
    rewrite (He ltac:(vm_compute; reflexivity)) in H. exact H.
Defined.

(** ** The units of a duration *)

Lemma unitSpan_text (u : string) :
  noDigitNoPoint u = true -> time.unitSpan u = (u, EmptyString).
Proof.
  induction u as [|c u IH]; intros H; [reflexivity|].
  cbn [noDigitNoPoint] in H. apply andb_prop in H as [Hc Hu].
  apply negb_true_iff in Hc.
  cbn [time.unitSpan]. rewrite Hc, (IH Hu). reflexivity.
Qed.

Lemma unitMap_positive (u : string) (k : Z) :
  time.unitMap u = Some k -> 1 <= k <= 3600000000000.
Proof.
  unfold time.unitMap.
  repeat match goal with
         | |- context [String.eqb u ?x] => destruct (String.eqb u x)
         end;
    intros H; try discriminate H; injection H as <-; vm_compute;
    split; discriminate.
Qed.

Lemma match_point (X : Type) (s : string) (x : string -> X) (y : X) :
  (forall t, s <> String "." t) ->
  match s with
  | String "." t => x t
  | _ => y
  end = y.
Proof.
  intros H. destruct s as [|c t]; [reflexivity|].
  destruct c as [[] [] [] [] [] [] [] []]; try reflexivity.
  exfalso. exact (H t eq_refl).
Qed.

Lemma parseGroups_end (fuel : nat) (d : Z) :
  time.parseGroups fuel "" d = Ok d.
Proof. destruct fuel; reflexivity. Qed.

(** X13.  An integer followed by a unit is a duration exactly when the
    unit is one of those of [ParseDuration]: ns, us (also with either micro
    sign), ms, s, m and h.  Its value is the integer times the unit, an
    error when that exceeds the largest duration; any other unit, as d for
    days, is an unknown unit, which the handler logs as a failure to parse
    the duration. *)
Theorem ParseDuration_integer_unit (w u : string) :
  allDigits w = true -> w <> EmptyString -> decimalValue w <= 2 ^ 63 ->
  unitText u = true ->
  time.ParseDuration (w ++ u)
  = match time.unitMap u with
    | None => Err (time.UnknownUnit u)
    | Some unit =>
      if decimalValue w * unit <=? 2 ^ 63 - 1
      then Ok (decimalValue w * unit)
      else Err time.InvalidDuration
    end.
Proof.
  intros Hd Hne Hv Hu.
  unfold unitText in Hu. apply andb_prop in Hu as [Hu0 Hu].
  apply negb_true_iff in Hu0.
  assert (Hs : startsWithNonDigitOrEnds u = true).
  { destruct u as [|c u']; [reflexivity|].
    cbn [noDigitNoPoint] in Hu. apply andb_prop in Hu as [Hc _].
    apply negb_true_iff, orb_false_elim in Hc as [_ Hc].
    cbn [startsWithNonDigitOrEnds]. now rewrite Hc. }
  pose proof (leadingInt_digits w u 0 Hd Hs ltac:(lia) Hv) as L.
  fold (decimalValue w) in L.
  pose proof (decimalFrom_ge w 0 Hd ltac:(lia)) as Hge.
  fold (decimalValue w) in Hge.
  destruct w as [|c w]; [congruence|].
  pose proof Hd as Hd'. cbn [allDigits] in Hd'.
  apply andb_prop in Hd' as [Hc _].
  destruct (isDigit_not_sign _ Hc) as [Em Ep].
  set (v := decimalValue (String c w)) in *.
  cbn [append] in *.
  assert (E0 : String.eqb (String c (w ++ u)) "0" = false).
  { apply String.eqb_neq. intros H. injection H as _ H.
    destruct w; cbn [append] in H; [|discriminate H].
    subst u. discriminate Hu0. }
  assert (Ll : (len (String c (w ++ u)) =? len u) = false).
  { apply Z.eqb_neq. unfold len. cbn [String.length].
    rewrite string_app_length. lia. }
  assert (Lu : (len u =? 0) = false).
  { apply Z.eqb_neq. unfold len. destruct u; [discriminate Hu0|].
    cbn [String.length]. lia. }
  assert (Hpt : forall t, u <> String "." t).
  { intros t ->. cbn [noDigitNoPoint] in Hu. discriminate Hu. }
  unfold time.ParseDuration. rewrite Em, Ep. cbn [orb].
  rewrite E0. cbn [String.eqb String.length].
  rewrite parseGroups_step, Hc. rewrite orb_true_r. cbn [negb].
  rewrite L. cbv zeta. rewrite Ll.
  rewrite (match_point _ u _ _ Hpt).
  cbn [negb andb]. rewrite (unitSpan_text _ Hu), Lu.
  destruct (time.unitMap u) as [unit|] eqn:Eu; [|reflexivity].
  pose proof (unitMap_positive _ _ Eu) as Hk.
  change (0 <? 0) with false. cbn [andb]. cbv iota.
  rewrite Z.add_0_l.
  destruct (Z.ltb_spec (2 ^ 63 / unit) v) as [Ho|Ho].
  - assert (2 ^ 63 < v * unit).
    { pose proof (Z.div_mod (2 ^ 63) unit ltac:(lia)) as Hq.
      pose proof (Z.mod_pos_bound (2 ^ 63) unit ltac:(lia)) as Hr.
      nia. }
    destruct (Z.leb_spec (v * unit) (2 ^ 63 - 1)); [lia|reflexivity].
  - assert (Hm : v * unit <= 2 ^ 63).
    { pose proof (Z.mul_div_le (2 ^ 63) unit ltac:(lia)). nia. }
    unfold wrapU64. rewrite (Z.mod_small (v * unit)) by nia.
    rewrite (Z.mod_small (v * unit)) by nia.
    destruct (Z.ltb_spec (2 ^ 63) (v * unit)); [lia|].
    rewrite parseGroups_end.
    destruct (Z.ltb_spec (2 ^ 63 - 1) (v * unit));
      destruct (Z.leb_spec (v * unit) (2 ^ 63 - 1)); try lia;
      [reflexivity|rewrite wrap64_small by nia; reflexivity].
Qed.

Lemma ParseDuration_integer_unit_witness :
  allDigits "500" = true /\ unitText time.micro1 = true
  /\ time.ParseDuration ("500" ++ time.micro1) = Ok 500000
  /\ time.ParseDuration ("2" ++ "d") = Err (time.UnknownUnit "d").
Proof.
  split; [reflexivity|]. split; [reflexivity|]. split.
  - exact (ParseDuration_integer_unit "500" time.micro1
             eq_refl ltac:(discriminate) ltac:(vm_compute; discriminate)
             eq_refl).
  - exact (ParseDuration_integer_unit "2" "d"
             eq_refl ltac:(discriminate) ltac:(vm_compute; discriminate)
             eq_refl).
Defined.

(** * The scan is anchored at the start of the message *)

(** ** A rune below [RuneSelf] is read from one byte *)

Lemma lor_ge_pow2 (a b n : Z) :
  0 <= n -> 2 ^ n <= a -> 0 <= b -> 2 ^ n <= Z.lor a b.
Proof.
  intros Hn Ha Hb.
  assert (0 < 2 ^ n) by (apply Z.pow_pos_nonneg; lia).
  assert (H0 : 0 <= Z.lor a b) by (apply Z.lor_nonneg; lia).
  assert (H1 : Z.lor a b <> 0).
  { intros E. apply Z.lor_eq_0_iff in E. lia. }
  apply Z.log2_le_pow2; [lia|].
  rewrite Z.log2_lor by lia.
  assert (n <= Z.log2 a) by (apply Z.log2_le_pow2; lia).
  lia.
Qed.

Lemma byte_cases (P : Z -> bool) :
  forallb P (List.map Z.of_nat (seq 0 256)) = true ->
  forall b, 0 <= b < 256 -> P b = true.
Proof.
  intros H b Hb. rewrite forallb_forall in H. apply H.
  apply in_map_iff. exists (Z.to_nat b). split; [lia|].
  apply in_seq. lia.
Qed.

(** The leading bits of a sequence of two, three or four bytes: each
    accepted sequence has a bit set above the seventh. *)
Lemma leading_bits (b : Z) :
  0 <= b < 256 ->
  (194 <= b < 224 -> 2 ^ 7 <= Z.shiftl (Z.land b utf8.mask2) 6)
  /\ (225 <= b < 240 -> 2 ^ 7 <= Z.shiftl (Z.land b utf8.mask3) 12)
  /\ (160 <= b <= 191 -> 2 ^ 7 <= Z.shiftl (Z.land b utf8.maskx) 6)
  /\ (241 <= b <= 244 -> 2 ^ 7 <= Z.shiftl (Z.land b utf8.mask4) 18)
  /\ (144 <= b <= 191 -> 2 ^ 7 <= Z.shiftl (Z.land b utf8.maskx) 12).
Proof.
  intros Hb.
  pose proof (byte_cases
    (fun b =>
       (negb ((194 <=? b) && (b <? 224))
        || (2 ^ 7 <=? Z.shiftl (Z.land b utf8.mask2) 6))
       && (negb ((225 <=? b) && (b <? 240))
           || (2 ^ 7 <=? Z.shiftl (Z.land b utf8.mask3) 12))
       && (negb ((160 <=? b) && (b <=? 191))
           || (2 ^ 7 <=? Z.shiftl (Z.land b utf8.maskx) 6))
       && (negb ((241 <=? b) && (b <=? 244))
           || (2 ^ 7 <=? Z.shiftl (Z.land b utf8.mask4) 18))
       && (negb ((144 <=? b) && (b <=? 191))
           || (2 ^ 7 <=? Z.shiftl (Z.land b utf8.maskx) 12)))%bool
    ltac:(vm_compute; reflexivity) b Hb) as H.
  cbv beta in H.
  repeat (apply andb_prop in H; destruct H as [H ?]).
  repeat split; intros Hr;
    match goal with
    | G : (negb (?p && ?q) || (?x <=? ?y))%bool = true |- ?x <= ?y =>
      apply Z.leb_le;
      assert (Hp : p = true) by (apply Z.leb_le; lia);
      assert (Hq : q = true) by (first [apply Z.ltb_lt; lia | apply Z.leb_le; lia]);
      rewrite Hp, Hq in G; exact G
    end.
Qed.

Lemma shifted_nonneg (b mask k : Z) :
  0 <= b -> 0 <= Z.shiftl (Z.land b mask) k.
Proof.
  intros Hb. apply Z.shiftl_nonneg, Z.land_nonneg. now left.
Qed.

Lemma masked_nonneg (b mask : Z) : 0 <= b -> 0 <= Z.land b mask.
Proof. intros Hb. apply Z.land_nonneg. now left. Qed.

Lemma first_cases (b : Z) :
  0 <= b < 256 ->
  (b < 128 /\ utf8.first b = 240)
  \/ (128 <= b /\ utf8.first b = 241)
  \/ (194 <= b < 224 /\ utf8.first b = 2)
  \/ (b = 224 /\ utf8.first b = 19)
  \/ (225 <= b < 240 /\ (utf8.first b = 3 \/ utf8.first b = 35))
  \/ (b = 240 /\ utf8.first b = 52)
  \/ (241 <= b <= 244 /\ (utf8.first b = 4 \/ utf8.first b = 68)).
Proof.
  intros Hb. unfold utf8.first.
  destruct (Z.ltb_spec b 128); [left; split; [lia|reflexivity]|].
  destruct (Z.ltb_spec b 194); [right; left; split; [lia|reflexivity]|].
  destruct (Z.ltb_spec b 224);
    [right; right; left; split; [lia|reflexivity]|].
  destruct (Z.eqb_spec b 224);
    [right; right; right; left; split; [lia|reflexivity]|].
  destruct (Z.ltb_spec b 237);
    [do 4 right; left; split; [lia|left; reflexivity]|].
  destruct (Z.eqb_spec b 237);
    [do 4 right; left; split; [lia|right; reflexivity]|].
  destruct (Z.ltb_spec b 240);
    [do 4 right; left; split; [lia|left; reflexivity]|].
  destruct (Z.eqb_spec b 240);
    [do 5 right; left; split; [lia|reflexivity]|].
  destruct (Z.ltb_spec b 244);
    [do 6 right; split; [lia|left; reflexivity]|].
  destruct (Z.eqb_spec b 244);
    [do 6 right; split; [lia|right; reflexivity]|].
  right; left; split; [lia|reflexivity].
Qed.

Ltac nonneg_bits :=
  repeat first
    [ apply Z.lor_nonneg; split
    | apply shifted_nonneg; lia
    | apply masked_nonneg; lia ].

Ltac leading_bit :=
  match goal with
  | |- 2 ^ 7 <= Z.lor _ _ =>
    first [ apply lor_ge_pow2; [lia|leading_bit|nonneg_bits]
          | rewrite Z.lor_comm;
            apply lor_ge_pow2; [lia|leading_bit|nonneg_bits] ]
  | |- 2 ^ 7 <= Z.shiftl (Z.land ?b _) _ => apply (leading_bits b); lia
  end.

(** A rune below [RuneSelf] comes from a single byte, which it equals. *)
Lemma DecodeRune_below_RuneSelf (b0 : Z) (t : list Z) (r : Z) (n : nat) :
  0 <= b0 < 256 ->
  utf8.DecodeRune (b0 :: t) = (r, n) -> r < 128 ->
  r = b0 /\ n = 1%nat.
Proof.
  intros Hb E Hr.
  unfold utf8.DecodeRune in E.
  destruct (first_cases b0 Hb)
    as [[H F]|[[H F]|[[H F]|[[H F]|[[H [F|F]]|[[H F]|[H [F|F]]]]]]]];
    rewrite F in E; cbv zeta in E;
    match type of F with
    | utf8.first _ = ?x =>
      let sz := eval vm_compute in (Z.land x 7) in
      let ac := eval vm_compute in (utf8.acceptRanges (Z.shiftr x 4)) in
      let c1 := eval vm_compute in (utf8.as_ <=? x) in
      let c2 := eval vm_compute in (x =? utf8.xx) in
      let c3 := eval vm_compute in (sz <=? 2) in
      let c4 := eval vm_compute in (sz <=? 3) in
      change (utf8.as_ <=? x) with c1 in E;
      change (x =? utf8.xx) with c2 in E;
      change (utf8.acceptRanges (Z.shiftr x 4)) with ac in E;
      change (Z.land x 7) with sz in E;
      change (sz <=? 2) with c3 in E;
      change (sz <=? 3) with c4 in E
    end;
    cbv iota in E; cbn [fst snd] in E.
  all: decode_leaves E.
  all: try (injection E as <- <-; unfold utf8.RuneError in *; lia).
  all: exfalso; apply (f_equal fst) in E; cbn [fst] in E;
    unfold utf8.locb, utf8.hicb in *; byte_ranges;
    match type of E with
    | ?v = _ => assert (G : 2 ^ 7 <= v) by leading_bit
    end; lia.
Qed.

Lemma byteZ_byte (c : ascii) : 0 <= byteZ c < 256.
Proof.
  unfold byteZ. pose proof (N_ascii_bounded c). lia.
Qed.

Lemma runes_head_below_RuneSelf (s : string) (r : Z) (l : list Z) :
  utf8.runes s = r :: l -> r < 128 ->
  exists c s', s = String c s' /\ byteZ c = r /\ utf8.runes s' = l.
Proof.
  intros E Hr. destruct s as [|c s']; [discriminate E|].
  unfold utf8.runes in E. cbn [String.length bytes utf8.decodeRunes] in E.
  destruct (utf8.DecodeRune (byteZ c :: bytes s')) as [r0 size] eqn:D.
  injection E as -> E.
  destruct (DecodeRune_below_RuneSelf _ _ _ _ (byteZ_byte c) D Hr) as [-> ->].
  exists c, s'. split; [reflexivity|]. split; [reflexivity|]. exact E.
Qed.

(** A message whose runes begin with those of an ASCII text begins with
    that text. *)
Lemma runes_prefix_ascii (p : string) :
  asciiBytes (bytes p) ->
  forall (s : string) (l : list Z),
    utf8.runes s = bytes p ++ l ->
    exists s', s = (p ++ s')%string /\ utf8.runes s' = l.
Proof.
  induction p as [|c p IH]; intros Hp s l E.
  - exists s. split; [reflexivity|exact E].
  - cbn [bytes app] in *. inversion Hp as [|? ? Hc Hp']; subst.
    destruct (runes_head_below_RuneSelf _ _ _ E ltac:(lia))
      as (c' & s' & -> & Hc' & E').
    destruct (IH Hp' _ _ E') as (s'' & -> & E'').
    exists s''. split; [|exact E''].
    cbn [append]. f_equal.
    rewrite <- (Zbyte_byteZ c), <- (Zbyte_byteZ c'). now rewrite Hc'.
Qed.

(** ** What a successful scan has read *)

Lemma advance_literal_inv (c : Z) (rest : list Z) (i : Z) (s s' : fmt.ss)
  (w : Z) :
  literalRune c ->
  fmt.advance (c :: rest) i None s = Ok (w, s') -> 0 <= w ->
  exists t,
    fmt.rs s = c :: t
    /\ fmt.advance rest (i + 1) None (fmt.mkss t (fmt.count s + 1))
       = Ok (w, s').
Proof.
  intros [Hs Hp] E Hw. cbn [fmt.advance] in E. rewrite Hs in E.
  apply Z.eqb_neq in Hp. rewrite Hp in E.
  unfold fmt.mustReadRune, fmt.getRune in E.
  destruct (fmt.hugeWid <=? fmt.count s); [discriminate E|].
  destruct (fmt.rs s) as [|r t]; [discriminate E|].
  destruct (Z.eqb_spec c r) as [<-|Hne]; cbn [negb] in E.
  - exists t. split; [reflexivity|exact E].
  - injection E as <- _. lia.
Qed.

Lemma advance_literals_inv (lits : list Z) :
  Forall literalRune lits ->
  forall (rest : list Z) (i : Z) (s s' : fmt.ss) (w : Z),
    fmt.advance (lits ++ rest) i None s = Ok (w, s') -> 0 <= w ->
    exists t, fmt.rs s = lits ++ t.
Proof.
  induction 1 as [|c lits Hc Hl IH]; intros rest i s s' w E Hw.
  - exists (fmt.rs s). reflexivity.
  - cbn [app] in E.
    destruct (advance_literal_inv _ _ _ _ _ _ Hc E Hw) as (t & Hs & E').
    destruct (IH _ _ _ _ _ E' Hw) as (t' & Ht).
    cbn [fmt.rs] in Ht. exists t'. rewrite Hs, Ht. reflexivity.
Qed.

(** A scan without error went through its first round of literals. *)
Lemma doScanf_first_round (fuel : nat) (c0 : Z) (f : list Z) (nargs : nat)
  (s : fmt.ss) (out : list string) :
  fmt.doScanf (S fuel) (c0 :: f) nargs s [] = (out, None) ->
  c0 <> 37 -> (0 < nargs)%nat ->
  exists w s', fmt.advance (c0 :: f) 0 None s = Ok (w, s') /\ 0 < w.
Proof.
  intros E Hc Hn. cbn [fmt.doScanf] in E.
  destruct (fmt.advance (c0 :: f) 0 None s) as [[w s']|e];
    [|discriminate E].
  exists w, s'. split; [reflexivity|].
  destruct (Z.ltb_spec 0 w) as [H|H]; [exact H|exfalso].
  apply Z.eqb_neq in Hc. rewrite Hc in E. cbn [negb] in E.
  destruct (w <? 0); [discriminate E|].
  cbn [List.length] in E.
  destruct nargs as [|nargs]; [lia|]. discriminate E.
Qed.

Lemma Sscanf_doScanf (str format : string) (nargs : nat) :
  fmt.Sscanf str format nargs
  = fmt.doScanf (S (String.length format)) (bytes format) nargs
      (fmt.newScanState str) [].
Proof. reflexivity. Qed.

Lemma pullFormat_literal :
  bytes pullFormat
  = (83 :: bytes "uccessfully")
    ++ bytes " pulled image %q in %s (%s including waiting). Image size: %s bytes.".
Proof. reflexivity. Qed.

Lemma Successfully_literal :
  Forall literalRune (83 :: bytes "uccessfully").
Proof. repeat constructor; discriminate. Qed.

Lemma Successfully_ascii : asciiBytes (bytes "Successfully").
Proof.
  unfold asciiBytes. rewrite Forall_forall. intros b Hb. cbn in Hb.
  repeat (destruct Hb as [<-|Hb]; [lia|]). destruct Hb.
Qed.

Lemma prefix_app (p s : string) : String.prefix p (p ++ s) = true.
Proof.
  induction p as [|c p IH]; [destruct s; reflexivity|].
  cbn [append String.prefix]. destruct (ascii_dec c c); [exact IH|congruence].
Qed.

Lemma doScanf_literals (fuel : nat) (c0 : Z) (lits rest : list Z)
  (nargs : nat) (s : fmt.ss) (out : list string) :
  fmt.doScanf (S fuel) ((c0 :: lits) ++ rest) nargs s [] = (out, None) ->
  Forall literalRune (c0 :: lits) -> (0 < nargs)%nat ->
  exists t, fmt.rs s = (c0 :: lits) ++ t.
Proof.
  intros E L Hn.
  assert (Hc : c0 <> 37) by (inversion L as [|? ? [_ H] _]; exact H).
  destruct (doScanf_first_round _ _ _ _ _ _ E Hc Hn) as (w & s' & A & Hw).
  exact (advance_literals_inv _ L _ _ _ _ _ A ltac:(lia)).
Qed.

Lemma runes_newScanState (str : string) :
  fmt.rs (fmt.newScanState str) = utf8.runes str.
Proof. reflexivity. Qed.

Lemma Sscanf_anchored (msg : string) (out : list string) :
  fmt.Sscanf msg pullFormat 4 = (out, None) ->
  String.prefix "Successfully" msg = true.
Proof.
  intros E. rewrite Sscanf_doScanf, pullFormat_literal in E.
  destruct (doScanf_literals _ _ _ _ _ _ _ E Successfully_literal
              ltac:(lia)) as (t & Ht).
  rewrite runes_newScanState in Ht.
  destruct (runes_prefix_ascii _ Successfully_ascii _ _ Ht)
    as (rest & Hm & _).
  rewrite Hm. apply prefix_app.
Qed.

Lemma parse_scan_error (msg : string) (out : list string)
  (e : fmt.scanError) :
  fmt.Sscanf msg pullFormat 4 = (out, Some e) ->
  parse msg = Err (LogFailedParse (Some e)).
Proof.
  intros Hs. unfold parse. rewrite Hs.
  destruct out as [|a [|b [|c [|d [|x out]]]]]; reflexivity.
Qed.

(** X12.  The scan is anchored at the first byte of the message.  An
    accepted event whose message does not begin with [Successfully], be it
    after leading spaces or any other text, fails in the scan itself: the
    handler logs that it failed to parse the event message, with the error
    of the scan, and records nothing. *)
Theorem unanchored_message_rejected (event : Event) :
  accept event = true ->
  String.prefix "Successfully" (Message event) = false ->
  exists out e,
    fmt.Sscanf (Message event) pullFormat 4 = (out, Some e)
    /\ handleAddFunc (EventObj event)
       = [LogPodEventAdded (Message event); LogFailedParse (Some e)]
    /\ recorded (handleAddFunc (EventObj event)) = [].
Proof.
  intros Ha Hp.
  destruct (fmt.Sscanf (Message event) pullFormat 4) as [out [e|]] eqn:Hs.
  - exists out, e. split; [reflexivity|].
    exact (handleAddFunc_parse_Err _ _ Ha (parse_scan_error _ _ _ Hs)).
  - rewrite (Sscanf_anchored _ _ Hs) in Hp. discriminate Hp.
Qed.

Lemma unanchored_message_rejected_witness :
  accept (pulledEvent (" " ++ exampleMsg)) = true
  /\ String.prefix "Successfully" (Message (pulledEvent (" " ++ exampleMsg)))
     = false
  /\ recorded (handleAddFunc (EventObj (pulledEvent (" " ++ exampleMsg)))) = [].
Proof.
  split; [reflexivity|]. split; [reflexivity|].
  destruct (unanchored_message_rejected (pulledEvent (" " ++ exampleMsg))
              eq_refl eq_refl) as (out & e & _ & _ & H).
  exact H.
Defined.

(** X14.  The test for [Container image] changes what is logged and
    nothing else: a message that begins with these words could not have
    been parsed, since the scan wants [Successfully] at its start; without
    the test the handler would log the message and the failure of the
    scan, and record nothing all the same. *)
Theorem skipped_message_never_parses (msg : string) :
  String.prefix "Container image" msg = true ->
  exists out e,
    fmt.Sscanf msg pullFormat 4 = (out, Some e)
    /\ parse msg = Err (LogFailedParse (Some e)).
Proof.
  intros Hp.
  assert (Hs : String.prefix "Successfully" msg = false).
  { rewrite prefix_take in Hp. rewrite prefix_take.
    apply andb_prop in Hp as [_ Hp]. apply String.eqb_eq in Hp.
    destruct msg as [|c msg]; [discriminate Hp|].
    cbn [String.length take] in Hp. injection Hp as -> _.
    cbn [String.length take String.eqb].
    change (Ascii.eqb "C" "S") with false. apply andb_false_r. }
  destruct (fmt.Sscanf msg pullFormat 4) as [out [e|]] eqn:E.
  - exists out, e. split; [reflexivity|].
    exact (parse_scan_error _ _ _ E).
  - rewrite (Sscanf_anchored _ _ E) in Hs. discriminate Hs.
Qed.

Lemma skipped_message_never_parses_witness :
  String.prefix "Container image"
    "Container image busybox already present on machine" = true
  /\ exists out e,
       parse "Container image busybox already present on machine"
       = Err (LogFailedParse (Some e))
       /\ fmt.Sscanf "Container image busybox already present on machine"
            pullFormat 4 = (out, Some e).
Proof.
  split; [reflexivity|].
  destruct (skipped_message_never_parses
              "Container image busybox already present on machine" eq_refl)
    as (out & e & H1 & H2).
  exists out, e. split; [exact H2|exact H1].
Defined.


(** * A reference between back quotes *)

Lemma rawQuoted_from_plain (body rest buf : list rune) (cnt : Z) :
  Forall (fun r => r <> 96) body ->
  cnt + Z.of_nat (List.length body) < fmt.hugeWid ->
  fmt.rawQuoted_from (body ++ 96 :: rest) cnt buf
  = Ok (buf ++ body,
        fmt.mkss rest (cnt + Z.of_nat (List.length body) + 1)).
Proof.
  intros Hb. revert cnt buf.
  induction Hb as [|r body Hr Hb IH]; intros cnt buf Hc.
  - cbn [app List.length] in *. unfold fmt.rawQuoted_from.
    destruct (Z.leb_spec fmt.hugeWid cnt); [lia|].
    change (96 =? 96) with true. cbv iota.
    rewrite Z.add_0_r, app_nil_r. reflexivity.
  - cbn [app List.length] in *.
    unfold fmt.rawQuoted_from; fold fmt.rawQuoted_from.
    destruct (Z.leb_spec fmt.hugeWid cnt); [lia|].
    destruct (Z.eqb_spec r 96); [contradiction|].
    rewrite IH by lia. rewrite <- app_assoc. cbn [app].
    f_equal. f_equal. f_equal. lia.
Qed.

(** [%q] in front of a back-quoted string: the text between the quotes, as
    it stands. *)
Lemma convertString_q_raw (body rest : list rune) (cnt : Z) :
  Forall (fun r => r <> 96) body ->
  cnt + Z.of_nat (List.length body) + 1 < fmt.hugeWid ->
  fmt.convertString 113 (fmt.mkss (96 :: body ++ 96 :: rest) cnt)
  = Ok (utf8.encodeRunes body,
        fmt.mkss rest (cnt + 1 + Z.of_nat (List.length body) + 1)).
Proof.
  intros Hb Hc.
  unfold fmt.convertString. change (113 =? 115) with false.
  change (113 =? 118) with false. change (113 =? 113) with true.
  cbn [orb negb]. cbv iota.
  rewrite (SkipSpace_nonspace 96 _ _ eq_refl).
  unfold fmt.quotedString, fmt.notEOF. rewrite !getRune_cons by lia.
  change (96 =? 96) with true. cbv iota.
  cbn [fmt.rs fmt.count].
  rewrite (rawQuoted_from_plain _ _ _ _ Hb) by lia.
  reflexivity.
Qed.

Section ScanRaw.

Variables refR t1R t2R t3R : list rune.
Hypothesis Href : Forall (fun r => r <> 96) refR.
Hypothesis N1 : t1R <> [].
Hypothesis H1 : Forall (fun r => fmt.notSpace r = true) t1R.
Hypothesis N2 : t2R <> [].
Hypothesis H2 : Forall (fun r => fmt.notSpace r = true) t2R.
Hypothesis N3 : t3R <> [].
Hypothesis H3 : Forall (fun r => fmt.notSpace r = true) t3R.
Hypothesis Hlen :
  73 + Z.of_nat (List.length refR) + Z.of_nat (List.length t1R)
  + Z.of_nat (List.length t2R) + Z.of_nat (List.length t3R) < fmt.hugeWid.

Lemma doScanf_raw (R : list rune) :
  fmt.doScanf (S (String.length pullFormat)) (bytes pullFormat) 4
    (fmt.mkss
       (bytes "Successfully pulled image " ++ 96 :: refR ++ 96 ::
        bytes " in " ++ t1R ++ bytes " (" ++ t2R ++
        bytes " including waiting). Image size: " ++ t3R ++
        bytes " bytes." ++ R) 0) []
  = ([utf8.encodeRunes refR; utf8.encodeRunes t1R; utf8.encodeRunes t2R;
      utf8.encodeRunes t3R], None).
Proof.
  rewrite hugeWid_value in Hlen. expose_lists.
  round; norm.
  round; norm.
  rewrite (SkipSpace_nonspace 96 _ _ eq_refl).
  rewrite (convertString_q_raw _ _ _ Href) by side.
  round.
  rewrite (advance_flush_verb_token 115 _ _ _ _ _ eq_refl N1 H1) by side.
  norm.
  round; norm.
  rewrite (SkipSpace_token _ _ _ N1 H1).
  rewrite (convertString_s _ 32 _ _ N1 H1 eq_refl) by side.
  round; norm.
  round; norm.
  rewrite (SkipSpace_token _ _ _ N2 H2).
  rewrite (convertString_s _ 32 _ _ N2 H2 eq_refl) by side.
  round.
  rewrite (advance_flush_verb_token 115 _ _ _ _ _ eq_refl N3 H3) by side.
  norm.
  round; norm.
  rewrite (SkipSpace_token _ _ _ N3 H3).
  rewrite (convertString_s _ 32 _ _ N3 H3 eq_refl) by side.
  round. norm. reflexivity.
Qed.

End ScanRaw.

Lemma rawRef_ascii (s : string) : rawRef s = true -> asciiBytes (bytes s).
Proof.
  intros H. apply asciiBytes_check. revert H. apply allBytes_weaken.
  intros b Hb. unfold rawRefByte in Hb. now apply andb_prop in Hb as [Hb _].
Qed.

Lemma rawRef_runes (s : string) :
  rawRef s = true -> Forall (fun r => r <> 96) (bytes s).
Proof.
  intros H. apply allBytes_Forall in H. revert H. apply Forall_impl.
  intros b Hb. unfold rawRefByte in Hb.
  apply andb_prop in Hb as [_ Hb].
  now apply negb_true_iff, Z.eqb_neq in Hb.
Qed.

Lemma Sscanf_rawPullMessage (ref pull total size extra : string) :
  rawRef ref = true ->
  plainToken pull = true -> plainToken total = true ->
  plainToken size = true ->
  len (rawPullMessage ref pull total size) < fmt.hugeWid ->
  fmt.Sscanf (rawPullMessage ref pull total size ++ extra) pullFormat 4
  = ([ref; pull; total; size], None).
Proof.
  intros Href Hpull Htotal Hsize Hlen.
  destruct (plainToken_runes _ Hpull) as (N1 & T1 & E1).
  destruct (plainToken_runes _ Htotal) as (N2 & T2 & E2).
  destruct (plainToken_runes _ Hsize) as (N3 & T3 & E3).
  assert (L : 73 + Z.of_nat (List.length (bytes ref))
              + Z.of_nat (List.length (bytes pull))
              + Z.of_nat (List.length (bytes total))
              + Z.of_nat (List.length (bytes size)) < fmt.hugeWid).
  { revert Hlen. unfold len, rawPullMessage.
    rewrite !string_app_length, !bytes_length. simpl String.length. lia. }
  unfold rawPullMessage.
  unfold fmt.Sscanf, fmt.newScanState.
  rewrite ?string_app_assoc.
  rewrite (runes_ascii_app "Successfully pulled image ")
    by (apply asciiBytes_check; reflexivity).
  rewrite (runes_ascii_app bq) by (apply asciiBytes_check; reflexivity).
  rewrite (runes_ascii_app ref) by (apply rawRef_ascii, Href).
  rewrite (runes_ascii_app bq) by (apply asciiBytes_check; reflexivity).
  rewrite (runes_ascii_app " in ") by (apply asciiBytes_check; reflexivity).
  rewrite (runes_ascii_app pull) by (apply plainToken_ascii, Hpull).
  rewrite (runes_ascii_app " (") by (apply asciiBytes_check; reflexivity).
  rewrite (runes_ascii_app total) by (apply plainToken_ascii, Htotal).
  rewrite (runes_ascii_app " including waiting). Image size: ")
    by (apply asciiBytes_check; reflexivity).
  rewrite (runes_ascii_app size) by (apply plainToken_ascii, Hsize).
  rewrite (runes_ascii_app " bytes.") by (apply asciiBytes_check; reflexivity).
  etransitivity;
    [exact (doScanf_raw _ _ _ _ (rawRef_runes _ Href) N1 T1 N2 T2 N3 T3 L _)|].
  rewrite (encodeRunes_ascii _ (rawRef_ascii _ Href)), E1, E2, E3.
  reflexivity.
Qed.

(** X15.  A reference between back quotes is read as a raw string: the
    scan accepts it and stores the text between the back quotes as it
    stands, backslashes and double quotes included, where between double
    quotes a backslash is an escape or an error.  With durations and a
    size that convert, the handler records the event under that
    reference. *)
Theorem backquoted_reference_verbatim (event : Event)
  (ref pull total size extra : string) (d1 d2 n : Z) :
  accept event = true ->
  Message event = (rawPullMessage ref pull total size ++ extra)%string ->
  rawRef ref = true ->
  plainToken pull = true -> plainToken total = true ->
  plainToken size = true ->
  len (rawPullMessage ref pull total size) < fmt.hugeWid ->
  time.ParseDuration pull = Ok d1 ->
  time.ParseDuration total = Ok d2 ->
  strconv.ParseInt size = Ok n ->
  parse (Message event)
  = Ok {| imageRef := ref; pullDuration := d1; totalDuration := d2;
          imageSizeBytes := n |}
  /\ exists attrs,
       recorded (handleAddFunc (EventObj event))
       = [ (imageSizeGauge, n, attrs);
           (durationPullHistogram, time.Milliseconds d1, attrs);
           (durationPullWaitOnlyHistogram,
            time.Milliseconds (waitOnlyDuration d2 d1), attrs) ]
       /\ lookup "exported.pod.image" attrs
          = Some (attribute.StringValue ref).
Proof.
  intros Ha Hm Href Hp Ht Hs Hlen E1 E2 E3.
  assert (P : parse (Message event)
              = Ok {| imageRef := ref; pullDuration := d1;
                      totalDuration := d2; imageSizeBytes := n |}).
  { rewrite Hm.
    rewrite (parse_scanned _ _ _ _ _
               (Sscanf_rawPullMessage _ _ _ _ extra Href Hp Ht Hs Hlen)).
    rewrite E1, E2, E3. reflexivity. }
  split; [exact P|].
  eexists. split.
  - rewrite (recorded_parsed _ _ Ha P). apply recorded_recordAll.
  - reflexivity.
Qed.

Lemma backquoted_reference_verbatim_witness :
  accept (pulledEvent
            (rawPullMessage ("a" ++ String bslash "n" ++ dq ++ "b")
               "15s" "45s" "500")) = true
  /\ rawRef ("a" ++ String bslash "n" ++ dq ++ "b") = true
  /\ parse (rawPullMessage ("a" ++ String bslash "n" ++ dq ++ "b")
              "15s" "45s" "500")
     = Ok {| imageRef := ("a" ++ String bslash "n" ++ dq ++ "b")%string;
             pullDuration := 15000000000;
             totalDuration := 45000000000;
             imageSizeBytes := 500 |}.
Proof.
  split; [reflexivity|]. split; [reflexivity|].
  exact (proj1 (backquoted_reference_verbatim
                  (pulledEvent
                     (rawPullMessage ("a" ++ String bslash "n" ++ dq ++ "b")
                        "15s" "45s" "500"))
                  ("a" ++ String bslash "n" ++ dq ++ "b") "15s" "45s" "500" ""
                  15000000000 45000000000 500
                  eq_refl eq_refl eq_refl eq_refl eq_refl eq_refl eq_refl
                  eq_refl eq_refl eq_refl)).
Defined.

(** * What follows a message that scans *)

Section Extension.

Variable X : list rune.

Lemma rs_extended (s : fmt.ss) : fmt.rs (extended X s) = fmt.rs s ++ X.
Proof. reflexivity. Qed.

Lemma count_extended (s : fmt.ss) : fmt.count (extended X s) = fmt.count s.
Proof. reflexivity. Qed.

Lemma getRune_some (s s' : fmt.ss) (r : rune) :
  fmt.getRune s = (Some r, s') ->
  fmt.rs s <> []
  /\ fmt.getRune (extended X s) = (Some r, extended X s').
Proof.
  unfold fmt.getRune, extended. destruct s as [l cnt]. cbn [fmt.rs fmt.count].
  destruct (fmt.hugeWid <=? cnt); [discriminate|].
  destruct l as [|r0 t]; [discriminate|].
  intros H. injection H as <- <-. split; [discriminate|reflexivity].
Qed.

Lemma getRune_none (s s' : fmt.ss) :
  fmt.getRune s = (None, s') ->
  s' = s
  /\ (fmt.rs s <> [] -> fmt.getRune (extended X s) = (None, extended X s)).
Proof.
  unfold fmt.getRune, extended. destruct s as [l cnt]. cbn [fmt.rs fmt.count].
  destruct (fmt.hugeWid <=? cnt).
  - intros H. injection H as <-. split; reflexivity.
  - destruct l as [|r0 t]; [|discriminate].
    intros H. injection H as <-. split; [reflexivity|congruence].
Qed.

Lemma skipBlanks_ext (l : list rune) :
  forall cnt : Z,
    fmt.rs (fmt.skipBlanks l cnt) <> [] ->
    fmt.skipBlanks (l ++ X) cnt = extended X (fmt.skipBlanks l cnt).
Proof.
  induction l as [|r t IH]; intros cnt H.
  - exfalso. apply H. cbn [fmt.skipBlanks].
    destruct (fmt.hugeWid <=? cnt); reflexivity.
  - cbn [app fmt.skipBlanks] in *.
    destruct (fmt.hugeWid <=? cnt); [reflexivity|].
    destruct (fmt.isSpace r && negb (r =? 10))%bool; [|reflexivity].
    apply IH, H.
Qed.

Lemma matchSpaces_ext (s s' : fmt.ss) :
  fmt.matchSpaces 0 true s = Ok s' -> fmt.rs s' <> [] ->
  fmt.matchSpaces 0 true (extended X s) = Ok (extended X s').
Proof.
  unfold fmt.matchSpaces. cbn [fmt.matchNewlines Nat.eqb andb].
  destruct (fmt.getRune s) as [[r|] s1] eqn:G.
  - destruct (getRune_some _ _ _ G) as [_ ->].
    destruct (negb (fmt.isSpace r)); [discriminate|].
    destruct (r =? 10); [discriminate|].
    intros H. injection H as <-. intros Hne.
    rewrite rs_extended, count_extended.
    now rewrite skipBlanks_ext.
  - destruct (getRune_none _ _ G) as [-> Hn].
    intros H. injection H as <-. intros Hne. now rewrite Hn.
Qed.

Lemma peek_cons (r0 : rune) (t : list rune) (cnt : Z) (ok : rune) :
  fmt.peek (fmt.mkss ((r0 :: t) ++ X) cnt) ok
  = fmt.peek (fmt.mkss (r0 :: t) cnt) ok.
Proof.
  unfold fmt.peek, fmt.getRune. cbn [app fmt.rs fmt.count].
  destruct (fmt.hugeWid <=? cnt); reflexivity.
Qed.

Lemma SkipSpace_from_nil (cnt : Z) :
  fmt.SkipSpace_from [] cnt = Ok (fmt.mkss [] cnt).
Proof. cbn [fmt.SkipSpace_from]. destruct (fmt.hugeWid <=? cnt); reflexivity. Qed.

Lemma SkipSpace_from_ext (l : list rune) :
  forall (cnt : Z) (s' : fmt.ss),
    fmt.SkipSpace_from l cnt = Ok s' -> fmt.rs s' <> [] ->
    fmt.SkipSpace_from (l ++ X) cnt = Ok (extended X s').
Proof.
  induction l as [|r t IH]; intros cnt s' E Hne.
  - exfalso. apply Hne. rewrite SkipSpace_from_nil in E.
    injection E as <-. reflexivity.
  - cbn [app fmt.SkipSpace_from] in *.
    destruct (fmt.hugeWid <=? cnt);
      [injection E as <-; reflexivity|].
    destruct (Z.eqb_spec r 13) as [->|Hr].
    + change (13 =? 10) with false in *.
      change (negb (fmt.isSpace 13)) with false in *.
      cbn [andb] in *. cbv iota in *.
      destruct t as [|t0 t'].
      * exfalso. apply Hne.
        assert (E' : fmt.SkipSpace_from [] (cnt + 1) = Ok s')
          by (destruct (fmt.peek _ _); exact E).
        rewrite SkipSpace_from_nil in E'. injection E' as <-. reflexivity.
      * rewrite peek_cons.
        destruct (fmt.peek _ _); apply IH; assumption.
    + cbn [andb] in *.
      destruct (r =? 10); [discriminate E|].
      destruct (negb (fmt.isSpace r)).
      * injection E as <-. reflexivity.
      * apply IH; assumption.
Qed.

Lemma SkipSpace_ext (s s' : fmt.ss) :
  fmt.SkipSpace s = Ok s' -> fmt.rs s' <> [] ->
  fmt.SkipSpace (extended X s) = Ok (extended X s').
Proof. unfold fmt.SkipSpace. apply SkipSpace_from_ext. Qed.

Lemma notEOF_Ok (s s' : fmt.ss) :
  fmt.notEOF s = Ok s' ->
  s' = s /\ fmt.rs s <> [] /\ fmt.notEOF (extended X s) = Ok (extended X s).
Proof.
  unfold fmt.notEOF. destruct (fmt.getRune s) as [[r|] s1] eqn:G;
    [|discriminate].
  destruct (getRune_some _ _ _ G) as [Hne ->].
  intros H. injection H as <-. auto.
Qed.

Lemma token_from_ext (f : rune -> bool) (l : list rune) :
  forall (cnt : Z) (buf buf' : list rune) (s' : fmt.ss),
    fmt.token_from f l cnt buf = (buf', s') -> fmt.rs s' <> [] ->
    fmt.token_from f (l ++ X) cnt buf = (buf', extended X s').
Proof.
  induction l as [|r t IH]; intros cnt buf buf' s' E Hne.
  - exfalso. apply Hne. cbn [fmt.token_from] in E.
    destruct (fmt.hugeWid <=? cnt); injection E as _ <-; reflexivity.
  - cbn [app fmt.token_from] in *.
    destruct (fmt.hugeWid <=? cnt);
      [injection E as <- <-; reflexivity|].
    destruct (negb (f r)); [injection E as <- <-; reflexivity|].
    apply IH; assumption.
Qed.

Lemma rawQuoted_from_ext (l : list rune) :
  forall (cnt : Z) (buf buf' : list rune) (s' : fmt.ss),
    fmt.rawQuoted_from l cnt buf = Ok (buf', s') ->
    fmt.rawQuoted_from (l ++ X) cnt buf = Ok (buf', extended X s').
Proof.
  induction l as [|r t IH]; intros cnt buf buf' s' E.
  - cbn [fmt.rawQuoted_from] in E.
    destruct (fmt.hugeWid <=? cnt); discriminate E.
  - cbn [app fmt.rawQuoted_from] in *.
    destruct (fmt.hugeWid <=? cnt); [discriminate E|].
    destruct (r =? 96); [injection E as <- <-; reflexivity|].
    apply IH; assumption.
Qed.

Lemma dblQuoted_from_ext (n : nat) :
  forall (l : list rune) (cnt : Z) (buf buf' : list rune) (s' : fmt.ss),
    (List.length l <= n)%nat ->
    fmt.dblQuoted_from l cnt buf = Ok (buf', s') ->
    fmt.dblQuoted_from (l ++ X) cnt buf = Ok (buf', extended X s').
Proof.
  induction n as [|n IH]; intros l cnt buf buf' s' Hn E.
  - destruct l; [|cbn in Hn; lia]. cbn [fmt.dblQuoted_from] in E.
    destruct (fmt.hugeWid <=? cnt); discriminate E.
  - destruct l as [|r t].
    + cbn [fmt.dblQuoted_from] in E.
      destruct (fmt.hugeWid <=? cnt); discriminate E.
    + cbn [app fmt.dblQuoted_from] in *.
      destruct (fmt.hugeWid <=? cnt); [discriminate E|].
      destruct (r =? 92).
      * destruct (fmt.hugeWid <=? cnt + 1); [discriminate E|].
        destruct t as [|r2 t2]; [discriminate E|].
        cbn [app]. apply IH; [cbn [List.length] in Hn; lia|exact E].
      * destruct (r =? 34); [injection E as <- <-; reflexivity|].
        apply IH; [cbn [List.length] in Hn; lia|exact E].
Qed.

Lemma quotedString_ext (s s' : fmt.ss) (v : string) :
  fmt.quotedString s = Ok (v, s') ->
  fmt.quotedString (extended X s) = Ok (v, extended X s').
Proof.
  unfold fmt.quotedString.
  destruct (fmt.notEOF s) as [s0|e] eqn:N; [|discriminate].
  destruct (notEOF_Ok _ _ N) as (-> & _ & ->).
  destruct (fmt.getRune s) as [[q|] s1] eqn:G; [|discriminate].
  destruct (getRune_some _ _ _ G) as [_ ->].
  rewrite !rs_extended, !count_extended.
  destruct (q =? 96).
  - destruct (fmt.rawQuoted_from (fmt.rs s1) (fmt.count s1) [])
      as [[buf s2]|e] eqn:R; [|discriminate].
    rewrite (rawQuoted_from_ext _ _ _ _ _ R).
    intros H. injection H as <- <-. reflexivity.
  - destruct (q =? 34); [|discriminate].
    destruct (fmt.dblQuoted_from (fmt.rs s1) (fmt.count s1) [34])
      as [[buf s2]|e] eqn:R; [|discriminate].
    rewrite (dblQuoted_from_ext _ _ _ _ _ _ (le_n _) R).
    destruct (strconv.Unquote (utf8.encodeRunes buf)); [|discriminate].
    intros H. injection H as <- <-. reflexivity.
Qed.

Lemma token_from_nil (f : rune -> bool) (cnt : Z) (buf : list rune) :
  fmt.token_from f [] cnt buf = (buf, fmt.mkss [] cnt).
Proof. cbn [fmt.token_from]. destruct (fmt.hugeWid <=? cnt); reflexivity. Qed.

Lemma token_ext (s s' : fmt.ss) (v : string) :
  fmt.token true fmt.notSpace s = Ok (v, s') -> fmt.rs s' <> [] ->
  fmt.token true fmt.notSpace (extended X s) = Ok (v, extended X s').
Proof.
  unfold fmt.token.
  destruct (fmt.SkipSpace s) as [s1|e] eqn:K; [|discriminate].
  destruct (fmt.token_from fmt.notSpace (fmt.rs s1) (fmt.count s1) [])
    as [buf s2] eqn:T.
  intros H Hne. injection H as <- <-.
  assert (H1 : fmt.rs s1 <> []).
  { intros E1. rewrite E1, token_from_nil in T. injection T as _ <-.
    apply Hne. reflexivity. }
  rewrite (SkipSpace_ext _ _ K H1).
  rewrite rs_extended, count_extended.
  rewrite (token_from_ext _ _ _ _ _ _ T Hne). reflexivity.
Qed.

Lemma convertString_Ok (c : rune) (s s' : fmt.ss) (v : string) :
  fmt.convertString c s = Ok (v, s') ->
  fmt.rs s <> []
  /\ (fmt.rs s' <> [] ->
      fmt.convertString c (extended X s) = Ok (v, extended X s')).
Proof.
  unfold fmt.convertString.
  destruct (negb ((c =? 115) || (c =? 118) || (c =? 113))); [discriminate|].
  destruct (fmt.SkipSpace s) as [s1|e] eqn:K; [|discriminate].
  destruct (fmt.notEOF s1) as [s2|e] eqn:N; [|discriminate].
  destruct (notEOF_Ok _ _ N) as (-> & H1 & N').
  intros E. split.
  - intros E0. destruct s as [l cnt]. cbn [fmt.rs] in E0. subst l.
    unfold fmt.SkipSpace in K. cbn [fmt.rs fmt.count] in K.
    rewrite SkipSpace_from_nil in K. injection K as <-. apply H1. reflexivity.
  - intros Hne. rewrite (SkipSpace_ext _ _ K H1), N'.
    destruct (c =? 113).
    + now apply quotedString_ext.
    + now apply token_ext.
Qed.

Lemma tameFormat_tail (c : rune) (rest : list rune) :
  tameFormat (c :: rest) = true -> tameFormat rest = true.
Proof. cbn [tameFormat]. intros H. apply andb_prop in H. apply H. Qed.

Lemma tameFormat_skipn (n : nat) :
  forall format, tameFormat format = true ->
                 tameFormat (skipn n format) = true.
Proof.
  induction n as [|n IH]; intros format H; [exact H|].
  destruct format as [|c rest]; [reflexivity|].
  cbn [skipn]. apply IH. exact (tameFormat_tail _ _ H).
Qed.

Lemma endsLiteral_nonempty (format : list rune) :
  endsLiteral format -> format <> [].
Proof. intros (pre & b & -> & _) E. destruct pre; discriminate E. Qed.

Lemma endsLiteral_tail (c : rune) (rest : list rune) :
  endsLiteral (c :: rest) -> rest <> [] -> endsLiteral rest.
Proof.
  intros (pre & b & E & Hb & Hp) Hne.
  destruct pre as [|x pre].
  - cbn in E. injection E as _ E. congruence.
  - cbn in E. injection E as _ E. exists pre, b.
    split; [exact E|]. split; [exact Hb|].
    intros pre' Ep. apply (Hp (x :: pre')). now rewrite Ep.
Qed.

Lemma endsLiteral_skipn (n : nat) :
  forall format, endsLiteral format -> skipn n format <> [] ->
                 endsLiteral (skipn n format).
Proof.
  induction n as [|n IH]; intros format H Hne; [exact H|].
  destruct format as [|c rest]; [exact H|].
  cbn [skipn] in *. apply IH; [|exact Hne].
  apply (endsLiteral_tail c); [exact H|].
  intros ->. apply Hne. destruct n; reflexivity.
Qed.

(** After a verb the format goes on. *)
Lemma endsLiteral_verb (v : rune) (rest : list rune) :
  endsLiteral (37 :: v :: rest) -> endsLiteral rest.
Proof.
  intros H.
  assert (Hne : rest <> []).
  { intros ->. destruct H as (pre & b & E & _ & Hp).
    destruct pre as [|x [|y pre]]; try discriminate E.
    - cbn in E. injection E as Hx _. subst x. apply (Hp []). reflexivity.
    - cbn in E. injection E as _ _ E. destruct pre; discriminate E. }
  apply (endsLiteral_tail v); [|exact Hne].
  apply (endsLiteral_tail 37); [exact H|discriminate].
Qed.

Lemma endsLiteral_space (c : rune) (rest : list rune) :
  endsLiteral (c :: rest) -> fmt.isSpace c = true -> rest <> [].
Proof.
  intros (pre & b & E & [Hb _] & _) Hc ->.
  destruct pre as [|x pre].
  - cbn in E. injection E as ->. congruence.
  - cbn in E. injection E as _ E. destruct pre; discriminate E.
Qed.

Lemma flush_ext (sp : option (nat * bool)) (s s1 : fmt.ss) :
  spaceRun sp ->
  match sp with
  | None => Ok s
  | Some (newlines, trailingSpace) =>
    fmt.matchSpaces newlines trailingSpace s
  end = Ok s1 ->
  fmt.rs s1 <> [] ->
  match sp with
  | None => Ok (extended X s)
  | Some (newlines, trailingSpace) =>
    fmt.matchSpaces newlines trailingSpace (extended X s)
  end = Ok (extended X s1).
Proof.
  intros [->| ->] E Hne.
  - injection E as <-. reflexivity.
  - now apply matchSpaces_ext.
Qed.

Lemma mustReadRune_Ok (s s' : fmt.ss) (r : rune) :
  fmt.mustReadRune s = Ok (r, s') ->
  fmt.rs s <> []
  /\ fmt.mustReadRune (extended X s) = Ok (r, extended X s').
Proof.
  unfold fmt.mustReadRune.
  destruct (fmt.getRune s) as [[r0|] s0] eqn:G; [|discriminate].
  intros H. injection H as <- <-.
  destruct (getRune_some _ _ _ G) as [Hne ->]. auto.
Qed.

(** [advance] on a longer input: the same, unless it met the end of the
    input. *)
Lemma advance_ext (format : list rune) :
  forall (i : Z) (sp : option (nat * bool)) (s s' : fmt.ss) (w : Z),
    tameFormat format = true -> spaceRun sp ->
    fmt.advance format i sp s = Ok (w, s') ->
    fmt.rs s' <> []
    \/ (endsLiteral format /\ w = i + Z.of_nat (List.length format)) ->
    fmt.advance format i sp (extended X s) = Ok (w, extended X s').
Proof.
  induction format as [|c rest IH]; intros i sp s s' w Ht Hsp E H.
  - assert (Hne : fmt.rs s' <> []).
    { destruct H as [H|[H _]]; [exact H|].
      exfalso. exact (endsLiteral_nonempty _ H eq_refl). }
    cbn [fmt.advance] in *.
    destruct (match sp with
              | None => Ok s
              | Some (newlines, trailingSpace) =>
                fmt.matchSpaces newlines trailingSpace s
              end) as [s1|e] eqn:F; [|discriminate E].
    injection E as <- <-.
    now rewrite (flush_ext _ _ _ Hsp F Hne).
  - cbn [fmt.advance] in *.
    destruct (fmt.isSpace c) eqn:Hs.
    + assert (Hc : (c =? 37) = false)
        by (destruct (Z.eqb_spec c 37) as [->|]; [discriminate Hs|reflexivity]).
      cbn [tameFormat] in Ht. rewrite Hc in Ht.
      apply andb_prop in Ht as [Hn Ht]. apply negb_true_iff in Hn.
      rewrite Hn in *.
      assert (Hsp' : match sp with Some p => p | None => (0%nat, false) end
                     = (0%nat, false)
                     \/ match sp with Some p => p | None => (0%nat, false) end
                        = (0%nat, true))
        by (destruct Hsp as [->| ->]; [left|right]; reflexivity).
      destruct (match sp with Some p => p | None => (0%nat, false) end)
        as [newlines trailing].
      assert (Hn0 : newlines = 0%nat)
        by (destruct Hsp' as [Hp|Hp]; now injection Hp).
      subst newlines.
      apply (IH _ _ _ _ _ Ht (or_intror eq_refl) E).
      destruct H as [H|[H1 H2]]; [left; exact H|right].
      split.
      * apply (endsLiteral_tail c); [exact H1|].
        exact (endsLiteral_space _ _ H1 Hs).
      * cbn [List.length] in H2. lia.
    + destruct (match sp with
                | None => Ok s
                | Some (newlines, trailingSpace) =>
                  fmt.matchSpaces newlines trailingSpace s
                end) as [s1|e] eqn:F; [|discriminate E].
      destruct (c =? 37) eqn:Hc.
      * cbn [tameFormat] in Ht. rewrite Hc in Ht.
        destruct rest as [|v rest']; [discriminate Ht|].
        apply andb_prop in Ht as [Hv Ht].
        assert (Hv' : (v =? 37) = false).
        { destruct (Z.eqb_spec v 37) as [->|]; [discriminate Hv|reflexivity]. }
        rewrite Hv' in *. cbn [negb] in *.
        injection E as <- <-.
        assert (Hne : fmt.rs s1 <> []).
        { destruct H as [H|[_ H]]; [exact H|].
          cbn [List.length] in H. lia. }
        now rewrite (flush_ext _ _ _ Hsp F Hne).
      * destruct (fmt.mustReadRune s1) as [[inputc s2]|e] eqn:M;
          [|discriminate E].
        destruct (mustReadRune_Ok _ _ _ M) as [Hne M'].
        rewrite (flush_ext _ _ _ Hsp F Hne), M'.
        destruct (negb (c =? inputc)).
        -- injection E as <- <-. reflexivity.
        -- destruct rest as [|d rest'].
           ++ cbn [fmt.advance] in *. injection E as <- <-. reflexivity.
           ++ apply (IH _ _ _ _ _ (tameFormat_tail _ _ Ht) (or_introl eq_refl) E).
              destruct H as [H|[H1 H2]]; [left; exact H|right].
              split.
              ** apply (endsLiteral_tail c); [exact H1|discriminate].
              ** cbn [List.length] in *. lia.
Qed.

(** What [advance] returns: [-1], or the place in the format it came to;
    it stays in its place only before a verb. *)
Lemma advance_bounds (format : list rune) :
  forall (i : Z) (sp : option (nat * bool)) (s s' : fmt.ss) (w : Z),
    tameFormat format = true ->
    fmt.advance format i sp s = Ok (w, s') ->
    w = -1
    \/ (i <= w <= i + Z.of_nat (List.length format)
        /\ (w = i -> format = [] \/ exists rest, format = 37 :: rest)).
Proof.
  induction format as [|c rest IH]; intros i sp s s' w Ht E.
  - cbn [fmt.advance] in E.
    destruct (match sp with
              | None => Ok s
              | Some (newlines, trailingSpace) =>
                fmt.matchSpaces newlines trailingSpace s
              end); [|discriminate E].
    injection E as <- _. right. cbn [List.length]. split; [lia|auto].
  - pose proof (tameFormat_tail _ _ Ht) as Ht'.
    cbn [fmt.advance] in E.
    destruct (fmt.isSpace c).
    + destruct (match sp with Some p => p | None => (0%nat, false) end)
        as [newlines trailing].
      destruct (IH _ _ _ _ _ Ht' E) as [H|[H _]]; [left; exact H|right].
      cbn [List.length]. split; [lia|]. intros Hw. lia.
    + destruct (match sp with
                | None => Ok s
                | Some (newlines, trailingSpace) =>
                  fmt.matchSpaces newlines trailingSpace s
                end) as [s1|e]; [|discriminate E].
      destruct (Z.eqb_spec c 37) as [->|Hc].
      * cbn [tameFormat] in Ht. change (37 =? 37) with true in Ht.
        destruct rest as [|v rest']; [discriminate E|].
        apply andb_prop in Ht as [Hv _].
        assert (Hv' : (v =? 37) = false).
        { destruct (Z.eqb_spec v 37) as [->|]; [discriminate Hv|reflexivity]. }
        rewrite Hv' in E. cbn [negb] in E.
        injection E as <- _. right. cbn [List.length].
        split; [lia|]. intros _. right. eexists. reflexivity.
      * destruct (fmt.mustReadRune s1) as [[inputc s2]|e]; [|discriminate E].
        destruct (negb (c =? inputc)); [injection E as <- _; now left|].
        destruct (IH _ _ _ _ _ Ht' E) as [H|[H _]]; [left; exact H|right].
        cbn [List.length]. split; [lia|]. intros Hw. lia.
Qed.

(** On an input that has come to its end, [advance] goes no further than
    the next verb. *)
Lemma advance_at_end (format : list rune) :
  forall (i : Z) (sp : option (nat * bool)) (cnt : Z) (s' : fmt.ss) (w : Z),
    tameFormat format = true -> spaceRun sp -> endsLiteral format ->
    fmt.advance format i sp (fmt.mkss [] cnt) = Ok (w, s') ->
    s' = fmt.mkss [] cnt
    /\ exists v rest,
         skipn (Z.to_nat (w - i)) format = 37 :: v :: rest /\ i <= w.
Proof.
  induction format as [|c rest IH]; intros i sp cnt s' w Ht Hsp He E.
  - exfalso. exact (endsLiteral_nonempty _ He eq_refl).
  - pose proof (tameFormat_tail _ _ Ht) as Ht'.
    assert (F : match sp with
                | None => Ok (fmt.mkss [] cnt)
                | Some (newlines, trailingSpace) =>
                  fmt.matchSpaces newlines trailingSpace (fmt.mkss [] cnt)
                end = @Ok fmt.scanError fmt.ss (fmt.mkss [] cnt)).
    { destruct Hsp as [->| ->]; [reflexivity|].
      unfold fmt.matchSpaces, fmt.getRune.
      cbn [fmt.matchNewlines fmt.rs fmt.count].
      destruct (fmt.hugeWid <=? cnt); reflexivity. }
    cbn [fmt.advance] in E.
    destruct (fmt.isSpace c) eqn:Hs.
    + assert (Hc : (c =? 37) = false)
        by (destruct (Z.eqb_spec c 37) as [->|]; [discriminate Hs|reflexivity]).
      cbn [tameFormat] in Ht. rewrite Hc in Ht.
      apply andb_prop in Ht as [Hn _]. apply negb_true_iff in Hn.
      rewrite Hn in E.
      assert (Hsp' : match sp with Some p => p | None => (0%nat, false) end
                     = (0%nat, false)
                     \/ match sp with Some p => p | None => (0%nat, false) end
                        = (0%nat, true))
        by (destruct Hsp as [->| ->]; [left|right]; reflexivity).
      destruct (match sp with Some p => p | None => (0%nat, false) end)
        as [newlines trailing].
      assert (Hn0 : newlines = 0%nat)
        by (destruct Hsp' as [Hp|Hp]; now injection Hp).
      subst newlines.
      assert (He' : endsLiteral rest).
      { apply (endsLiteral_tail c); [exact He|].
        exact (endsLiteral_space _ _ He Hs). }
      destruct (IH _ _ _ _ _ Ht' (or_intror eq_refl) He' E)
        as (-> & v & r & K & Hw).
      split; [reflexivity|]. exists v, r. split; [|lia].
      replace (Z.to_nat (w - i)) with (S (Z.to_nat (w - (i + 1)))) by lia.
      exact K.
    + rewrite F in E.
      destruct (Z.eqb_spec c 37) as [->|Hc].
      * cbn [tameFormat] in Ht. change (37 =? 37) with true in Ht.
        destruct rest as [|v rest']; [discriminate E|].
        apply andb_prop in Ht as [Hv _].
        assert (Hv' : (v =? 37) = false).
        { destruct (Z.eqb_spec v 37) as [->|]; [discriminate Hv|reflexivity]. }
        rewrite Hv' in E. cbn [negb] in E.
        injection E as <- <-. split; [reflexivity|].
        exists v, rest'. rewrite Z.sub_diag. split; [reflexivity|lia].
      * exfalso. unfold fmt.mustReadRune, fmt.getRune in E.
        cbn [fmt.rs fmt.count] in E.
        destruct (fmt.hugeWid <=? cnt); discriminate E.
Qed.

Lemma doScanf_nil (fuel : nat) (nargs : nat) (s1 s2 : fmt.ss)
  (out : list string) :
  fmt.doScanf fuel [] nargs s1 out = fmt.doScanf fuel [] nargs s2 out.
Proof. destruct fuel; reflexivity. Qed.

Lemma verb_letter (v : rune) :
  ((v =? 113) || (v =? 115))%bool = true ->
  (v =? 37) = false /\ (v =? 99) = false.
Proof.
  intros H. apply orb_prop in H as [H|H]; apply Z.eqb_eq in H; subst v;
    split; reflexivity.
Qed.

(** On an input that has come to its end the scan fails, as long as the
    format has a literal left. *)
Lemma doScanf_at_end (fuel : nat) :
  forall (format : list rune) (nargs : nat) (cnt : Z)
         (out out' : list string),
    tameFormat format = true -> endsLiteral format ->
    (List.length format < fuel)%nat ->
    fmt.doScanf fuel format nargs (fmt.mkss [] cnt) out <> (out', None).
Proof.
  induction fuel as [|fuel IH]; intros format nargs cnt out out' Ht He Hf E;
    [lia|].
  destruct format as [|c0 f];
    [exact (endsLiteral_nonempty _ He eq_refl)|].
  rewrite doScanf_round in E.
  destruct (fmt.advance (c0 :: f) 0 None (fmt.mkss [] cnt))
    as [[w s1]|e] eqn:A; [|discriminate E].
  destruct (advance_at_end _ _ _ _ _ _ Ht (or_introl eq_refl) He A)
    as (-> & v & rest & K & Hw).
  rewrite Z.sub_0_r in K.
  destruct (Z.ltb_spec 0 w) as [Hpos|Hzero].
  - revert E. apply IH.
    + now apply tameFormat_skipn.
    + apply endsLiteral_skipn; [exact He|]. rewrite K. discriminate.
    + rewrite length_skipn. cbn [List.length] in *. lia.
  - assert (w = 0) by lia. subst w. cbn [Z.to_nat skipn] in K.
    injection K as -> ->.
    change (37 =? 37) with true in E. cbn [negb] in E. cbv iota in E.
    cbn [tameFormat] in Ht. change (37 =? 37) with true in Ht.
    apply andb_prop in Ht as [Hv _].
    destruct (verb_letter _ Hv) as [V1 V2].
    rewrite V2 in E. cbn [negb] in E.
    unfold fmt.SkipSpace in E. cbn [fmt.rs fmt.count] in E.
    rewrite SkipSpace_from_nil in E. rewrite V1 in E.
    destruct (Nat.leb nargs (List.length out)); [discriminate E|].
    assert (C : fmt.convertString v (fmt.mkss [] cnt) = Err fmt.EOF).
    { unfold fmt.convertString.
      assert (Hv3 : negb ((v =? 115) || (v =? 118) || (v =? 113)) = false).
      { apply orb_prop in Hv as [H|H]; apply Z.eqb_eq in H; subst v;
          reflexivity. }
      rewrite Hv3.
      unfold fmt.SkipSpace. cbn [fmt.rs fmt.count].
      rewrite SkipSpace_from_nil.
      unfold fmt.notEOF, fmt.getRune. cbn [fmt.rs fmt.count].
      destruct (fmt.hugeWid <=? cnt); reflexivity. }
    rewrite C in E. discriminate E.
Qed.

(** A scan without error is not changed by runes behind its input. *)
Lemma doScanf_ext (fuel : nat) :
  forall (format : list rune) (nargs : nat) (s : fmt.ss)
         (out out' : list string),
    tameFormat format = true -> endsLiteral format ->
    (List.length format < fuel)%nat ->
    fmt.doScanf fuel format nargs s out = (out', None) ->
    fmt.doScanf fuel format nargs (extended X s) out = (out', None).
Proof.
  induction fuel as [|fuel IH]; intros format nargs s out out' Ht He Hf E;
    [lia|].
  destruct format as [|c0 f];
    [exfalso; exact (endsLiteral_nonempty _ He eq_refl)|].
  rewrite doScanf_round in E. rewrite doScanf_round.
  destruct (fmt.advance (c0 :: f) 0 None s) as [[w s1]|e] eqn:A;
    [|discriminate E].
  pose proof (advance_bounds _ _ _ _ _ _ Ht A) as B.
  assert (Next : forall s2,
            0 < w ->
            fmt.doScanf fuel (skipn (Z.to_nat w) (c0 :: f)) nargs s1 out
            = (out', None) ->
            s2 = extended X s1 ->
            fmt.doScanf fuel (skipn (Z.to_nat w) (c0 :: f)) nargs s2 out
            = (out', None)).
  { intros s2 Hpos E2 ->.
    destruct (skipn (Z.to_nat w) (c0 :: f)) as [|d r] eqn:K.
    - rewrite <- E2. apply doScanf_nil.
    - apply IH; [| | |exact E2].
      + rewrite <- K. now apply tameFormat_skipn.
      + rewrite <- K. apply endsLiteral_skipn; [exact He|].
        rewrite K. discriminate.
      + apply (f_equal (@List.length Z)) in K.
        rewrite length_skipn in K. cbn [List.length] in *. lia. }
  destruct (fmt.rs s1) as [|r1 l1] eqn:R1.
  - (* the round came to the end of the input *)
    destruct (Z.ltb_spec 0 w) as [Hpos|Hle].
    + destruct (skipn (Z.to_nat w) (c0 :: f)) as [|d r] eqn:K.
      * assert (Hw : w = 0 + Z.of_nat (List.length (c0 :: f))).
        { apply (f_equal (@List.length Z)) in K.
          rewrite length_skipn in K. cbn [List.length] in *.
          destruct B as [B|[B _]]; lia. }
        rewrite (advance_ext _ _ _ _ _ _ Ht (or_introl eq_refl) A
                   (or_intror (conj He Hw))).
        destruct (Z.ltb_spec 0 w); [|lia].
        rewrite K. rewrite <- E. apply doScanf_nil.
      * exfalso. destruct s1 as [l1 c1]. cbn [fmt.rs] in R1. subst l1.
        revert E. apply doScanf_at_end.
        -- rewrite <- K. now apply tameFormat_skipn.
        -- rewrite <- K. apply endsLiteral_skipn; [exact He|].
           rewrite K. discriminate.
        -- apply (f_equal (@List.length Z)) in K.
           rewrite length_skipn in K. cbn [List.length] in *. lia.
    + exfalso.
      destruct (Z.eqb_spec c0 37) as [->|Hc]; cbn [negb] in E.
      * cbn [tameFormat] in Ht. change (37 =? 37) with true in Ht.
        destruct f as [|v rest]; [discriminate Ht|].
        apply andb_prop in Ht as [Hv _].
        destruct (verb_letter _ Hv) as [V1 V2].
        rewrite V2, V1 in E. cbn [negb] in E.
        destruct (fmt.SkipSpace s1) as [s2|e] eqn:K; [|discriminate E].
        destruct (Nat.leb nargs (List.length out)); [discriminate E|].
        destruct (fmt.convertString v s2) as [[x s3]|e] eqn:C;
          [|discriminate E].
        destruct (convertString_Ok _ _ _ _ C) as [Hne _].
        apply Hne. destruct s1 as [l1 c1]. cbn [fmt.rs] in R1. subst l1.
        unfold fmt.SkipSpace in K. cbn [fmt.rs fmt.count] in K.
        rewrite SkipSpace_from_nil in K. injection K as <-. reflexivity.
      * destruct B as [B|[B1 B2]].
        -- subst w. change (-1 <? 0) with true in E. discriminate E.
        -- assert (w = 0) by lia. subst w.
           destruct (B2 eq_refl) as [B|[r B]]; [discriminate B|].
           injection B as B _. congruence.
  - assert (Hne : fmt.rs s1 <> []) by (rewrite R1; discriminate).
    rewrite (advance_ext _ _ _ _ _ _ Ht (or_introl eq_refl) A
               (or_introl Hne)).
    destruct (Z.ltb_spec 0 w) as [Hpos|Hle].
    + now apply (Next _ Hpos E).
    + destruct (negb (c0 =? 37)) eqn:Hc; [exact E|].
      apply negb_false_iff, Z.eqb_eq in Hc. subst c0.
      destruct f as [|v rest]; [exact E|].
      cbn [tameFormat] in Ht. change (37 =? 37) with true in Ht.
      apply andb_prop in Ht as [Hv Ht].
      destruct (verb_letter _ Hv) as [V1 V2].
      rewrite V2, V1 in *. cbn [negb] in *.
      destruct (fmt.SkipSpace s1) as [s2|e] eqn:K; [|discriminate E].
      destruct (Nat.leb nargs (List.length out)) eqn:Hn.
      * discriminate E.
      * destruct (fmt.convertString v s2) as [[x s3]|e] eqn:C;
          [|discriminate E].
        destruct (convertString_Ok _ _ _ _ C) as [Hne2 C'].
        rewrite (SkipSpace_ext _ _ K Hne2).
        pose proof (endsLiteral_verb _ _ He) as He'.
        pose proof (proj2 (andb_prop _ _ Ht)) as Ht'.
        destruct (fmt.rs s3) as [|r3 l3] eqn:R3.
        -- exfalso. destruct s3 as [l3 c3]. cbn [fmt.rs] in R3. subst l3.
           revert E. apply doScanf_at_end; [exact Ht'|exact He'|].
           cbn [List.length] in Hf. lia.
        -- rewrite C' by discriminate.
           apply IH; [exact Ht'|exact He'| |exact E].
           cbn [List.length] in Hf. lia.
Qed.

End Extension.

(** ** The format of [main.go] *)

Lemma pullFormat_tame : tameFormat (bytes pullFormat) = true.
Proof. reflexivity. Qed.

Lemma pullFormat_endsLiteral : endsLiteral (bytes pullFormat).
Proof.
  exists (removelast (bytes pullFormat)), 46.
  split; [reflexivity|]. split; [split; [reflexivity|discriminate]|].
  intros pre' E. apply (f_equal (fun l => last l 0)) in E.
  rewrite last_last in E. vm_compute in E. discriminate E.
Qed.

(** A message that scans without error scans alike, with the same
    strings stored, whatever runes are put behind it. *)
Lemma Sscanf_ext (P Q : string) (X : list rune) (out : list string) :
  utf8.runes Q = utf8.runes P ++ X ->
  fmt.Sscanf P pullFormat 4 = (out, None) ->
  fmt.Sscanf Q pullFormat 4 = (out, None).
Proof.
  intros HQ E. rewrite Sscanf_doScanf in *.
  assert (S0 : fmt.newScanState Q = extended X (fmt.newScanState P)).
  { unfold fmt.newScanState, extended. cbn [fmt.rs fmt.count].
    now rewrite HQ. }
  rewrite S0.
  apply doScanf_ext;
    [exact pullFormat_tame|exact pullFormat_endsLiteral| |exact E].
  rewrite bytes_length. lia.
Qed.

(** ** Texts cut short *)

Lemma app_split (a : string) :
  forall (b P S : string),
    (a ++ b = P ++ S)%string ->
    (exists y, a = (P ++ y)%string /\ S = (y ++ b)%string)
    \/ (exists x, x <> EmptyString /\ P = (a ++ x)%string
                  /\ b = (x ++ S)%string).
Proof.
  induction a as [|c a IH]; intros b P S E.
  - destruct P as [|d P].
    + left. exists EmptyString. split; [reflexivity|]. symmetry. exact E.
    + right. exists (String d P). split; [discriminate|].
      split; [reflexivity|exact E].
  - destruct P as [|d P].
    + left. exists (String c a). split; [reflexivity|]. symmetry. exact E.
    + cbn [append] in E. injection E as <- E.
      destruct (IH _ _ _ E) as [(y & -> & ->)|(x & Hx & -> & ->)].
      * left. exists y. split; reflexivity.
      * right. exists x. split; [exact Hx|]. split; reflexivity.
Qed.

Lemma suffix_last (x : string) :
  forall (T S : string) (c : ascii),
    (T ++ String c "" = x ++ S)%string -> S <> EmptyString ->
    exists S', S = (S' ++ String c "")%string /\ T = (x ++ S')%string.
Proof.
  induction x as [|d x IH]; intros T S c E Hne.
  - exists T. split; [symmetry; exact E|reflexivity].
  - destruct T as [|t T].
    + cbn [append] in E. injection E as _ E.
      destruct x; [|discriminate E]. cbn [append] in E. congruence.
    + cbn [append] in E. injection E as <- E.
      destruct (IH _ _ _ E Hne) as (S' & -> & ->).
      exists S'. split; reflexivity.
Qed.

Lemma properPrefixes_In (a : string) :
  forall (P y : string),
    a = (P ++ y)%string -> y <> EmptyString -> In P (properPrefixes a).
Proof.
  induction a as [|c a IH]; intros P y E Hy.
  - destruct P; [|discriminate E]. cbn [append] in E. congruence.
  - cbn [properPrefixes]. destruct P as [|d P]; [left; reflexivity|].
    cbn [append] in E. injection E as <- E.
    right. apply in_map. exact (IH _ _ E Hy).
Qed.

Lemma contains_In (s : string) (c : ascii) :
  In (byteZ c) (bytes s) -> contains s c = true.
Proof.
  induction s as [|a s IH]; intros H; [destruct H|].
  rewrite contains_cons. cbn [bytes] in H. destruct H as [H|H].
  - assert (a = c) by (rewrite <- (Zbyte_byteZ a), H; apply Zbyte_byteZ).
    subst a. now rewrite Ascii.eqb_refl.
  - rewrite (IH H). apply orb_true_r.
Qed.

(** A rune below [RuneSelf] is a byte of the text. *)
Lemma decodeRunes_small (fuel : nat) :
  forall (l : list Z) (r : rune),
    Forall isByte l ->
    In r (utf8.decodeRunes fuel l) -> r < 128 -> In r l.
Proof.
  induction fuel as [|fuel IH]; intros l r Hl Hin Hr; [destruct Hin|].
  destruct l as [|b0 t]; [destruct Hin|].
  cbn [utf8.decodeRunes] in Hin.
  destruct (utf8.DecodeRune (b0 :: t)) as [r0 n] eqn:D.
  inversion Hl as [|? ? Hb Ht]; subst.
  destruct Hin as [<-|Hin].
  - destruct (DecodeRune_below_RuneSelf _ _ _ _ Hb D Hr) as [-> _].
    left. reflexivity.
  - pose proof (DecodeRune_size _ _ _ _ D) as Hn.
    destruct n as [|n]; [lia|]. cbn [skipn] in Hin.
    right. assert (Hs : Forall isByte (skipn n t)).
    { rewrite <- (firstn_skipn n t) in Ht. apply Forall_app in Ht. tauto. }
    pose proof (IH _ _ Hs Hin Hr) as H.
    rewrite <- (firstn_skipn n t). apply in_or_app. now right.
Qed.

Lemma runes_unquoted (p : string) :
  contains p dquote = false -> contains p bslash = false ->
  Forall (fun r => r <> 92 /\ r <> 34) (utf8.runes p).
Proof.
  intros Hq Hb. rewrite Forall_forall. intros r Hr.
  split; intros ->.
  - pose proof (decodeRunes_small _ _ _ (bytes_isByte p) Hr ltac:(lia)) as H.
    rewrite (contains_In p bslash H) in Hb. discriminate Hb.
  - pose proof (decodeRunes_small _ _ _ (bytes_isByte p) Hr ltac:(lia)) as H.
    rewrite (contains_In p dquote H) in Hq. discriminate Hq.
Qed.

(** A quoted string that is not closed. *)
Lemma dblQuoted_from_open (body : list rune) :
  Forall (fun r => r <> 92 /\ r <> 34) body ->
  forall (cnt : Z) (buf : list rune),
    fmt.dblQuoted_from body cnt buf = Err fmt.ErrUnexpectedEOF.
Proof.
  induction 1 as [|r body [H1 H2] Hb IH]; intros cnt buf.
  - cbn [fmt.dblQuoted_from]. destruct (fmt.hugeWid <=? cnt); reflexivity.
  - cbn [fmt.dblQuoted_from]. destruct (fmt.hugeWid <=? cnt); [reflexivity|].
    apply Z.eqb_neq in H1. apply Z.eqb_neq in H2. rewrite H1, H2. apply IH.
Qed.

Lemma convertString_q_open (body : list rune) (cnt : Z) :
  Forall (fun r => r <> 92 /\ r <> 34) body -> cnt < fmt.hugeWid ->
  fmt.convertString 113 (fmt.mkss (34 :: body) cnt)
  = Err fmt.ErrUnexpectedEOF.
Proof.
  intros Hb Hc.
  unfold fmt.convertString. change (113 =? 115) with false.
  change (113 =? 118) with false. change (113 =? 113) with true.
  cbn [orb negb]. cbv iota.
  rewrite (SkipSpace_nonspace 34 _ _ eq_refl).
  unfold fmt.quotedString, fmt.notEOF. rewrite !getRune_cons by lia.
  change (34 =? 96) with false. change (34 =? 34) with true. cbv iota.
  cbn [fmt.rs fmt.count].
  now rewrite (dblQuoted_from_open _ Hb).
Qed.

Lemma doScanf_open_quote (body : list rune) :
  Forall (fun r => r <> 92 /\ r <> 34) body ->
  fmt.doScanf (S (String.length pullFormat)) (bytes pullFormat) 4
    (fmt.mkss (bytes "Successfully pulled image " ++ 34 :: body) 0) []
  = ([], Some fmt.ErrUnexpectedEOF).
Proof.
  intros Hb. expose_lists.
  round; norm. round; norm.
  rewrite (SkipSpace_nonspace 34 _ _ eq_refl).
  rewrite (convertString_q_open _ _ Hb) by side.
  reflexivity.
Qed.

Lemma Sscanf_open_quote (p : string) :
  contains p dquote = false -> contains p bslash = false ->
  fmt.Sscanf ("Successfully pulled image " ++ dq ++ p) pullFormat 4
  = ([], Some fmt.ErrUnexpectedEOF).
Proof.
  intros Hq Hb. rewrite Sscanf_doScanf. unfold fmt.newScanState.
  rewrite (runes_ascii_app "Successfully pulled image ")
    by (apply asciiBytes_check; reflexivity).
  rewrite (runes_ascii_app dq) by (apply asciiBytes_check; reflexivity).
  exact (doScanf_open_quote _ (runes_unquoted _ Hq Hb)).
Qed.

Lemma opening_prefixes :
  forallb (fun P => scanFailed (fmt.Sscanf P pullFormat 4))
    (properPrefixes ("Successfully pulled image " ++ dq)) = true.
Proof. vm_compute. reflexivity. Qed.

Lemma runes_ascii (a : string) :
  asciiBytes (bytes a) -> utf8.runes a = bytes a.
Proof.
  intros H. rewrite <- (string_app_nil_r a) at 1.
  rewrite (runes_ascii_app _ _ H), runes_nil. apply app_nil_r.
Qed.

Lemma validRef_unquoted (ref : string) :
  validRef ref = true ->
  utf8.ValidString ref = true
  /\ contains ref dquote = false /\ contains ref bslash = false.
Proof.
  unfold validRef. rewrite andb_true_iff. intros [V H].
  split; [exact V|]. split.
  - exact (allBytes_contains validRefByte ref dquote H eq_refl).
  - exact (allBytes_contains validRefByte ref bslash H eq_refl).
Qed.

(** A message in the expected form that is cut short fails to scan,
    wherever it is cut. *)
Lemma truncated_scan_fails (ref pull total size P S : string) :
  validRef ref = true ->
  plainToken pull = true -> plainToken total = true ->
  plainToken size = true ->
  len (pullMessage ref pull total size) <= fmt.hugeWid ->
  pullMessage ref pull total size = (P ++ S)%string ->
  S <> EmptyString ->
  scanFailed (fmt.Sscanf P pullFormat 4) = true.
Proof.
  intros Href Hp Ht Hs Hlen E HS.
  destruct (validRef_unquoted _ Href) as (V & Hq & Hb).
  set (T0 := (dq ++ " in " ++ pull ++ " (" ++ total
              ++ " including waiting). Image size: " ++ size
              ++ " bytes")%string).
  assert (E1 : (("Successfully pulled image " ++ dq)
                ++ (ref ++ (T0 ++ ".")))%string = (P ++ S)%string).
  { rewrite <- E. unfold pullMessage, T0.
    rewrite !string_app_assoc. reflexivity. }
  destruct (app_split _ _ _ _ E1) as [(y & Ha & _)|(x & Hx & HP & Hr)].
  - destruct y as [|c y].
    + rewrite string_app_nil_r in Ha. subst P.
      change ("Successfully pulled image " ++ dq)%string
        with ("Successfully pulled image " ++ dq ++ "")%string.
      now rewrite Sscanf_open_quote.
    + pose proof opening_prefixes as O. rewrite forallb_forall in O.
      apply O. apply (properPrefixes_In _ _ (String c y) Ha). discriminate.
  - destruct (app_split _ _ _ _ Hr) as [(y & Hy & _)|(x2 & Hx2 & -> & HT)].
    + subst P. rewrite Hy, !contains_app in Hq, Hb.
      apply orb_false_elim in Hq as [Hq _].
      apply orb_false_elim in Hb as [Hb _].
      rewrite string_app_assoc. now rewrite Sscanf_open_quote.
    + destruct (suffix_last _ _ _ _ HT HS) as (S' & -> & HT0).
      destruct (fmt.Sscanf P pullFormat 4) as [out [e|]] eqn:R;
        [reflexivity|exfalso].
      assert (A0 : asciiBytes (bytes T0)).
      { unfold T0. rewrite !bytes_app. unfold asciiBytes.
        repeat (apply Forall_app; split);
          first [apply plainToken_ascii; assumption
                |apply asciiBytes_check; reflexivity]. }
      rewrite HT0, bytes_app in A0. apply Forall_app in A0 as [A1 A2].
      assert (RP : utf8.runes P
                   = bytes "Successfully pulled image " ++ bytes dq
                     ++ utf8.runes ref ++ bytes x2).
      { rewrite HP, string_app_assoc.
        rewrite (runes_ascii_app "Successfully pulled image ")
          by (apply asciiBytes_check; reflexivity).
        rewrite (runes_ascii_app dq) by (apply asciiBytes_check; reflexivity).
        rewrite (runes_valid_app ref) by exact V.
        now rewrite (runes_ascii x2). }
      assert (RC : utf8.runes (pullMessageCut ref pull total size)
                   = utf8.runes P ++ bytes S').
      { rewrite RP.
        assert (EC : pullMessageCut ref pull total size
                     = ("Successfully pulled image " ++ dq ++ ref
                        ++ x2 ++ S')%string).
        { rewrite <- HT0. unfold pullMessageCut, T0. reflexivity. }
        rewrite EC.
        rewrite (runes_ascii_app "Successfully pulled image ")
          by (apply asciiBytes_check; reflexivity).
        rewrite (runes_ascii_app dq) by (apply asciiBytes_check; reflexivity).
        rewrite (runes_valid_app ref) by exact V.
        rewrite (runes_ascii (x2 ++ S'))
          by (rewrite bytes_app; apply Forall_app; split; assumption).
        rewrite bytes_app, <- !app_assoc. reflexivity. }
      pose proof (Sscanf_ext _ _ _ _ RC R) as R'.
      rewrite (Sscanf_pullMessageCut _ _ _ _ Href Hp Ht Hs Hlen) in R'.
      discriminate R'.
Qed.

(** ** A reference that is not quoted *)

Lemma convertString_q_unquoted (x : rune) (l : list rune) (cnt : Z) :
  fmt.isSpace x = false -> x <> 34 -> x <> 96 -> cnt < fmt.hugeWid ->
  fmt.convertString 113 (fmt.mkss (x :: l) cnt)
  = Err (fmt.ErrString "expected quoted string").
Proof.
  intros Hx H34 H96 Hc.
  unfold fmt.convertString. change (113 =? 115) with false.
  change (113 =? 118) with false. change (113 =? 113) with true.
  cbn [orb negb]. cbv iota.
  rewrite (SkipSpace_nonspace x _ _ Hx).
  unfold fmt.quotedString, fmt.notEOF. rewrite !getRune_cons by lia.
  apply Z.eqb_neq in H34. apply Z.eqb_neq in H96. now rewrite H34, H96.
Qed.

Lemma doScanf_unquoted (x : rune) (l : list rune) :
  fmt.isSpace x = false -> x <> 34 -> x <> 96 ->
  fmt.doScanf (S (String.length pullFormat)) (bytes pullFormat) 4
    (fmt.mkss (bytes "Successfully pulled image " ++ x :: l) 0) []
  = ([], Some (fmt.ErrString "expected quoted string")).
Proof.
  intros Hx H34 H96. expose_lists.
  round. rewrite (advance_flush_verb 113 _ _ x _ _ eq_refl Hx) by side.
  norm. round; norm.
  rewrite (SkipSpace_nonspace x _ _ Hx).
  rewrite (convertString_q_unquoted _ _ _ Hx H34 H96) by side.
  reflexivity.
Qed.

(** A message whose reference is opened by anything but a double quote or
    a back quote fails to scan. *)
Lemma Sscanf_unquoted (rest : string) (x : rune) (l : list rune) :
  utf8.runes rest = x :: l ->
  fmt.isSpace x = false -> x <> 34 -> x <> 96 ->
  fmt.Sscanf ("Successfully pulled image " ++ rest) pullFormat 4
  = ([], Some (fmt.ErrString "expected quoted string")).
Proof.
  intros Hr Hx H34 H96. rewrite Sscanf_doScanf. unfold fmt.newScanState.
  rewrite (runes_ascii_app "Successfully pulled image ")
    by (apply asciiBytes_check; reflexivity).
  rewrite Hr. exact (doScanf_unquoted _ _ Hx H34 H96).
Qed.

(** * The form of the messages that scan *)

(** ** What each step of the scan has read *)

Lemma getRune_Some_inv (s s1 : fmt.ss) (r : rune) :
  fmt.getRune s = (Some r, s1) ->
  fmt.rs s = r :: fmt.rs s1
  /\ fmt.count s < fmt.hugeWid
  /\ fmt.count s1 = fmt.count s + 1.
Proof.
  unfold fmt.getRune. destruct s as [l cnt]. cbn [fmt.rs fmt.count].
  destruct (Z.leb_spec fmt.hugeWid cnt); [discriminate|].
  destruct l as [|r0 t]; [discriminate|].
  intros E. injection E as <- <-. cbn [fmt.rs fmt.count]. auto.
Qed.

Lemma atEOF_getRune (s : fmt.ss) : atEOF s -> fmt.getRune s = (None, s).
Proof.
  unfold atEOF, fmt.getRune. destruct s as [l cnt]. cbn [fmt.rs fmt.count].
  destruct (fmt.hugeWid <=? cnt); [reflexivity|].
  destruct l; [reflexivity|discriminate].
Qed.

Lemma atEOF_cases (s : fmt.ss) :
  atEOF s <-> fmt.hugeWid <= fmt.count s \/ fmt.rs s = [].
Proof.
  unfold atEOF, fmt.getRune. destruct s as [l cnt]. cbn [fmt.rs fmt.count].
  destruct (Z.leb_spec fmt.hugeWid cnt).
  - split; [now left|reflexivity].
  - destruct l; cbn [fst]; split; auto; try discriminate.
    intros [?|?]; [lia|discriminate].
Qed.

Lemma atEOF_SkipSpace (s : fmt.ss) : atEOF s -> fmt.SkipSpace s = Ok s.
Proof.
  intros H. apply atEOF_cases in H. unfold fmt.SkipSpace.
  destruct s as [l cnt]. cbn [fmt.rs fmt.count] in *.
  destruct H as [H| ->].
  - destruct l; cbn [fmt.SkipSpace_from];
      destruct (Z.leb_spec fmt.hugeWid cnt); (reflexivity || lia).
  - cbn [fmt.SkipSpace_from]. destruct (fmt.hugeWid <=? cnt); reflexivity.
Qed.

Lemma skipBlanks_inv (l : list rune) :
  forall cnt : Z,
    exists b,
      Forall (fun r => blank r = true) b
      /\ l = b ++ fmt.rs (fmt.skipBlanks l cnt).
Proof.
  induction l as [|r t IH]; intros cnt.
  - exists []. split; [constructor|].
    cbn [fmt.skipBlanks]. destruct (fmt.hugeWid <=? cnt); reflexivity.
  - cbn [fmt.skipBlanks].
    destruct (fmt.hugeWid <=? cnt);
      [exists []; split; [constructor|reflexivity]|].
    destruct (fmt.isSpace r && negb (r =? 10))%bool eqn:B;
      [|exists []; split; [constructor|reflexivity]].
    destruct (IH (cnt + 1)) as (b & Hb & E).
    exists (r :: b). split; [constructor; assumption|].
    cbn [app]. now rewrite <- E.
Qed.

(** A space of the format has matched a run of blanks, which is empty
    only at the end of the input. *)
Lemma matchSpaces_inv (s s1 : fmt.ss) :
  fmt.matchSpaces 0 true s = Ok s1 ->
  exists b,
    Forall (fun r => blank r = true) b
    /\ fmt.rs s = b ++ fmt.rs s1
    /\ (b = [] -> atEOF s1).
Proof.
  unfold fmt.matchSpaces. cbn [fmt.matchNewlines Nat.eqb andb].
  destruct (fmt.getRune s) as [[r|] s0] eqn:G.
  - destruct (getRune_Some_inv _ _ _ G) as (Hr & Hc & _).
    destruct (fmt.isSpace r) eqn:Hs; cbn [negb]; [|discriminate].
    destruct (Z.eqb_spec r 10) as [|Hn]; [discriminate|].
    intros H. injection H as <-.
    destruct s as [l cnt]. cbn [fmt.rs fmt.count] in *. subst l.
    cbn [fmt.skipBlanks].
    destruct (Z.leb_spec fmt.hugeWid cnt); [lia|].
    rewrite Hs. apply Z.eqb_neq in Hn. rewrite Hn. cbn [negb andb].
    destruct (skipBlanks_inv (fmt.rs s0) (cnt + 1)) as (b & Hb & E).
    exists (r :: b). split; [|split].
    + constructor; [|exact Hb]. unfold blank. now rewrite Hs, Hn.
    + cbn [app]. now rewrite <- E.
    + discriminate.
  - intros H. injection H as <-. exists []. split; [constructor|].
    split; [reflexivity|]. intros _. unfold atEOF. now rewrite G.
Qed.

Lemma advance_pending (c : rune) (rest : list rune) (i : Z) (s : fmt.ss) :
  fmt.isSpace c = false ->
  fmt.advance (c :: rest) i (Some (0%nat, true)) s
  = match fmt.matchSpaces 0 true s with
    | Err e => Err e
    | Ok s1 => fmt.advance (c :: rest) i None s1
    end.
Proof.
  intros Hc. cbn [fmt.advance]. rewrite Hc.
  destruct (fmt.matchSpaces 0 true s); reflexivity.
Qed.

Lemma advance_literal_step (c : Z) (rest : list Z) (i : Z) (s s' : fmt.ss)
  (w : Z) :
  literalRune c ->
  fmt.advance (c :: rest) i None s = Ok (w, s') -> 0 <= w ->
  exists s1,
    fmt.getRune s = (Some c, s1)
    /\ fmt.advance rest (i + 1) None s1 = Ok (w, s').
Proof.
  intros [Hs Hp] E Hw. cbn [fmt.advance] in E. rewrite Hs in E.
  apply Z.eqb_neq in Hp. rewrite Hp in E.
  unfold fmt.mustReadRune in E.
  destruct (fmt.getRune s) as [[r|] s1]; [|discriminate E].
  destruct (Z.eqb_spec c r) as [<-|Hne]; cbn [negb] in E.
  - exists s1. split; [reflexivity|exact E].
  - injection E as <- _. lia.
Qed.

(** The literals of the format have been read as they stand. *)
Lemma advance_word_inv (lits : list Z) :
  Forall literalRune lits ->
  forall (rest : list Z) (i : Z) (s s' : fmt.ss) (w : Z),
    fmt.advance (lits ++ rest) i None s = Ok (w, s') -> 0 <= w ->
    exists s1,
      fmt.rs s = lits ++ fmt.rs s1
      /\ fmt.advance rest (i + Z.of_nat (List.length lits)) None s1
         = Ok (w, s').
Proof.
  induction 1 as [|c lits Hc Hl IH]; intros rest i s s' w E Hw.
  - exists s. split; [reflexivity|].
    cbn [List.length Z.of_nat]. rewrite Z.add_0_r. exact E.
  - cbn [app] in E.
    destruct (advance_literal_step _ _ _ _ _ _ Hc E Hw) as (s0 & G & E').
    destruct (getRune_Some_inv _ _ _ G) as (Hr & _).
    destruct (IH _ _ _ _ _ E' Hw) as (s1 & Hs1 & E1).
    exists s1. split.
    + rewrite Hr, Hs1. reflexivity.
    + rewrite <- E1. f_equal. cbn [List.length]. lia.
Qed.

(** A space of the format before a word. *)
Lemma advance_blanks_word_inv (lits rest : list Z) (i : Z)
  (s s' : fmt.ss) (w : Z) :
  Forall literalRune lits -> lits <> [] ->
  fmt.advance (32 :: lits ++ rest) i None s = Ok (w, s') -> 0 <= w ->
  exists b s1,
    b <> [] /\ Forall (fun r => blank r = true) b
    /\ fmt.rs s = b ++ lits ++ fmt.rs s1
    /\ fmt.advance rest (i + 1 + Z.of_nat (List.length lits)) None s1
       = Ok (w, s').
Proof.
  intros L Hne E Hw. destruct lits as [|c lits]; [congruence|].
  rewrite advance_space in E. cbn [app] in E.
  pose proof (Forall_inv L) as Hc.
  rewrite (advance_pending _ _ _ _ (proj1 Hc)) in E.
  destruct (fmt.matchSpaces 0 true s) as [s0|e] eqn:M; [|discriminate E].
  destruct (matchSpaces_inv _ _ M) as (b & Hb & Hs & Hnil).
  destruct (advance_literal_step _ _ _ _ _ _ Hc E Hw) as (s0' & G & _).
  destruct (advance_word_inv _ L rest _ _ _ _ E Hw) as (s1 & Hs1 & E1).
  exists b, s1. split; [|split; [exact Hb|split; [|exact E1]]].
  - intros ->. specialize (Hnil eq_refl).
    rewrite (atEOF_getRune _ Hnil) in G. discriminate G.
  - rewrite Hs, Hs1. reflexivity.
Qed.

(** A space of the format before a verb. *)
Lemma advance_blanks_verb_inv (v : Z) (rest : list Z) (i : Z)
  (s s' : fmt.ss) (w : Z) :
  (v =? 37) = false ->
  fmt.advance (32 :: 37 :: v :: rest) i None s = Ok (w, s') ->
  w = i + 1
  /\ exists b,
       Forall (fun r => blank r = true) b
       /\ fmt.rs s = b ++ fmt.rs s'
       /\ (b = [] -> atEOF s').
Proof.
  intros Hv E. rewrite advance_space in E.
  rewrite (advance_pending 37 _ _ _ eq_refl) in E.
  destruct (fmt.matchSpaces 0 true s) as [s0|e] eqn:M; [|discriminate E].
  rewrite (advance_verb _ _ _ _ Hv) in E. injection E as <- <-.
  split; [reflexivity|]. exact (matchSpaces_inv _ _ M).
Qed.

Lemma SkipSpace_from_inv (l : list rune) :
  forall (cnt : Z) (s' : fmt.ss),
    fmt.SkipSpace_from l cnt = Ok s' ->
    exists b,
      Forall (fun r => blank r = true) b
      /\ l = b ++ fmt.rs s'
      /\ (atEOF s'
          \/ exists r t, s' = fmt.mkss (r :: t) (fmt.count s')
                         /\ fmt.isSpace r = false
                         /\ fmt.count s' < fmt.hugeWid).
Proof.
  induction l as [|r t IH]; intros cnt s' E.
  - rewrite SkipSpace_from_nil in E. injection E as <-.
    exists []. split; [constructor|]. split; [reflexivity|].
    left. apply atEOF_cases. now right.
  - cbn [fmt.SkipSpace_from] in E.
    destruct (Z.leb_spec fmt.hugeWid cnt).
    { injection E as <-. exists []. split; [constructor|].
      split; [reflexivity|]. left. apply atEOF_cases. now left. }
    destruct ((r =? 13) && fmt.peek (fmt.mkss t (cnt + 1)) 10)%bool eqn:C.
    { apply andb_prop in C as [C _]. apply Z.eqb_eq in C. subst r.
      destruct (IH _ _ E) as (b & Hb & Hl & Hp).
      exists (13 :: b). split; [constructor; [reflexivity|exact Hb]|].
      split; [cbn [app]; now rewrite <- Hl|exact Hp]. }
    destruct (Z.eqb_spec r 10) as [|Hn]; [discriminate E|].
    destruct (fmt.isSpace r) eqn:Hs; cbn [negb] in E.
    + destruct (IH _ _ E) as (b & Hb & Hl & Hp).
      exists (r :: b). split.
      * constructor; [|exact Hb]. unfold blank. rewrite Hs.
        apply Z.eqb_neq in Hn. now rewrite Hn.
      * split; [cbn [app]; now rewrite <- Hl|exact Hp].
    + injection E as <-. exists []. split; [constructor|].
      split; [reflexivity|]. right. exists r, t. auto.
Qed.

Lemma token_from_inv (f : rune -> bool) (l : list rune) :
  forall (cnt : Z) (buf buf' : list rune) (s' : fmt.ss),
    fmt.token_from f l cnt buf = (buf', s') ->
    exists t,
      Forall (fun r => f r = true) t
      /\ l = t ++ fmt.rs s' /\ buf' = buf ++ t.
Proof.
  induction l as [|r t IH]; intros cnt buf buf' s' E.
  - rewrite token_from_nil in E. injection E as <- <-.
    exists []. split; [constructor|]. split; [reflexivity|].
      symmetry. apply app_nil_r.
  - cbn [fmt.token_from] in E.
    destruct (fmt.hugeWid <=? cnt).
    { injection E as <- <-. exists []. split; [constructor|]. split; [reflexivity|].
      symmetry. apply app_nil_r. }
    destruct (f r) eqn:Hf; cbn [negb] in E.
    + destruct (IH _ _ _ _ E) as (t' & Ht & Hl & Hb).
      exists (r :: t'). split; [constructor; assumption|].
      split; [cbn [app]; now rewrite <- Hl|].
      rewrite Hb, <- app_assoc. reflexivity.
    + injection E as <- <-. exists []. split; [constructor|]. split; [reflexivity|].
      symmetry. apply app_nil_r.
Qed.

Lemma rawQuoted_from_inv (l : list rune) :
  forall (cnt : Z) (buf buf' : list rune) (s' : fmt.ss),
    fmt.rawQuoted_from l cnt buf = Ok (buf', s') ->
    exists body,
      Forall (fun r => r <> 96) body
      /\ l = body ++ 96 :: fmt.rs s' /\ buf' = buf ++ body.
Proof.
  induction l as [|r t IH]; intros cnt buf buf' s' E;
    cbn [fmt.rawQuoted_from] in E;
    destruct (fmt.hugeWid <=? cnt); try discriminate E.
  destruct (Z.eqb_spec r 96) as [->|Hr].
  - injection E as <- <-. exists []. split; [constructor|]. split; [reflexivity|].
      symmetry. apply app_nil_r.
  - destruct (IH _ _ _ _ E) as (body & Hb & Hl & Hbuf).
    exists (r :: body). split; [constructor; assumption|].
    split; [cbn [app]; now rewrite <- Hl|].
    rewrite Hbuf, <- app_assoc. reflexivity.
Qed.

Lemma dblQuoted_from_inv (n : nat) :
  forall (l : list rune) (cnt : Z) (buf buf' : list rune) (s' : fmt.ss),
    (List.length l <= n)%nat ->
    fmt.dblQuoted_from l cnt buf = Ok (buf', s') ->
    exists body,
      escaped body
      /\ l = body ++ 34 :: fmt.rs s' /\ buf' = buf ++ body ++ [34].
Proof.
  induction n as [|n IH]; intros l cnt buf buf' s' Hn E.
  - destruct l; [|cbn [List.length] in Hn; lia].
    cbn [fmt.dblQuoted_from] in E.
    destruct (fmt.hugeWid <=? cnt); discriminate E.
  - destruct l as [|r t]; cbn [fmt.dblQuoted_from] in E;
      destruct (fmt.hugeWid <=? cnt); try discriminate E.
    cbn [List.length] in Hn.
    destruct (Z.eqb_spec r 92) as [->|Hr].
    + destruct (fmt.hugeWid <=? cnt + 1); [discriminate E|].
      destruct t as [|r2 t2]; [discriminate E|].
      cbn [List.length] in Hn.
      destruct (IH t2 _ _ _ _ ltac:(lia) E) as (body & Hb & Hl & Hbuf).
      exists (92 :: r2 :: body). split; [now constructor|].
      split; [cbn [app]; now rewrite <- Hl|].
      rewrite Hbuf, <- app_assoc. reflexivity.
    + destruct (Z.eqb_spec r 34) as [->|Hq].
      * injection E as <- <-. exists []. split; [constructor|].
        split; reflexivity.
      * destruct (IH t _ _ _ _ ltac:(lia) E) as (body & Hb & Hl & Hbuf).
        exists (r :: body). split; [now constructor|].
        split; [cbn [app]; now rewrite <- Hl|].
        rewrite Hbuf, <- app_assoc. reflexivity.
Qed.

Lemma SkipSpace_inv (s s' : fmt.ss) :
  fmt.SkipSpace s = Ok s' ->
  exists b,
    Forall (fun r => blank r = true) b
    /\ fmt.rs s = b ++ fmt.rs s'
    /\ (atEOF s'
        \/ exists r t, s' = fmt.mkss (r :: t) (fmt.count s')
                       /\ fmt.isSpace r = false
                       /\ fmt.count s' < fmt.hugeWid).
Proof. apply SkipSpace_from_inv. Qed.

Lemma atEOF_notEOF (s : fmt.ss) : atEOF s -> fmt.notEOF s = Err fmt.EOF.
Proof.
  intros H. unfold fmt.notEOF. now rewrite (atEOF_getRune _ H).
Qed.

Lemma notEOF_inv (s s' : fmt.ss) : fmt.notEOF s = Ok s' -> s' = s.
Proof.
  unfold fmt.notEOF. destruct (fmt.getRune s) as [[r|] s0]; [|discriminate].
  intros H. now injection H.
Qed.

(** What [%s] has read: blanks, and a token of runes that are no spaces. *)
Lemma convertString_s_inv (s s' : fmt.ss) (val : string) :
  fmt.convertString 115 s = Ok (val, s') ->
  exists b t,
    Forall (fun r => blank r = true) b
    /\ t <> [] /\ Forall (fun r => fmt.notSpace r = true) t
    /\ fmt.rs s = b ++ t ++ fmt.rs s'
    /\ val = utf8.encodeRunes t.
Proof.
  unfold fmt.convertString. change (115 =? 115) with true.
  change (115 =? 118) with false. change (115 =? 113) with false.
  cbn [orb negb]. cbv iota.
  destruct (fmt.SkipSpace s) as [s1|e] eqn:K; [|discriminate].
  destruct (SkipSpace_inv _ _ K) as (b & Hb & Hs & Hp).
  destruct (fmt.notEOF s1) as [s2|e] eqn:N; [|discriminate].
  pose proof (notEOF_inv _ _ N) as ->.
  destruct Hp as [Hp|(r & t & Hs1 & Hr & Hc)];
    [rewrite (atEOF_notEOF _ Hp) in N; discriminate N|].
  rewrite Hs1. unfold fmt.token.
  rewrite (SkipSpace_nonspace _ _ _ Hr). cbn [fmt.rs fmt.count].
  cbn [fmt.token_from].
  destruct (Z.leb_spec fmt.hugeWid (fmt.count s1)); [lia|].
  unfold fmt.notSpace at 1. rewrite Hr. cbn [negb app].
  destruct (fmt.token_from fmt.notSpace t (fmt.count s1 + 1) [r])
    as [buf s3] eqn:T.
  intros E. injection E as <- <-.
  destruct (token_from_inv _ _ _ _ _ _ T) as (t' & Ht & Hl & ->).
  exists b, (r :: t'). split; [exact Hb|]. split; [discriminate|].
  split; [constructor; [unfold fmt.notSpace; now rewrite Hr|exact Ht]|].
  split; [|reflexivity].
  rewrite Hs, Hs1. cbn [fmt.rs app]. now rewrite Hl.
Qed.

(** What [%q] has read: blanks, and a quoted string. *)
Lemma convertString_q_inv (s s' : fmt.ss) (val : string) :
  fmt.convertString 113 s = Ok (val, s') ->
  exists b q,
    Forall (fun r => blank r = true) b
    /\ quotedLiteral q val
    /\ fmt.rs s = b ++ q ++ fmt.rs s'.
Proof.
  unfold fmt.convertString. change (113 =? 115) with false.
  change (113 =? 118) with false. change (113 =? 113) with true.
  cbn [orb negb]. cbv iota.
  destruct (fmt.SkipSpace s) as [s1|e] eqn:K; [|discriminate].
  destruct (SkipSpace_inv _ _ K) as (b & Hb & Hs & _).
  destruct (fmt.notEOF s1) as [s2|e] eqn:N; [|discriminate].
  pose proof (notEOF_inv _ _ N) as ->.
  unfold fmt.quotedString. rewrite N.
  destruct (fmt.getRune s1) as [[quote|] s2] eqn:G; [|discriminate].
  destruct (getRune_Some_inv _ _ _ G) as (Hq & _).
  destruct (Z.eqb_spec quote 96) as [->|H96].
  - destruct (fmt.rawQuoted_from (fmt.rs s2) (fmt.count s2) [])
      as [[buf s3]|e] eqn:R; [|discriminate].
    intros H. injection H as <- <-.
    destruct (rawQuoted_from_inv _ _ _ _ _ R) as (body & Hbody & Hl & ->).
    exists b, (96 :: body ++ [96]). split; [exact Hb|].
    split; [now constructor|].
    rewrite Hs, Hq, Hl. cbn [app]. rewrite <- app_assoc. reflexivity.
  - destruct (Z.eqb_spec quote 34) as [->|H34]; [|discriminate].
    destruct (fmt.dblQuoted_from (fmt.rs s2) (fmt.count s2) [34])
      as [[buf s3]|e] eqn:R; [|discriminate].
    destruct (strconv.Unquote (utf8.encodeRunes buf)) as [v|e] eqn:U;
      [|discriminate].
    intros H. injection H as <- <-.
    destruct (dblQuoted_from_inv _ _ _ _ _ _ (le_n _) R)
      as (body & Hbody & Hl & ->).
    exists b, (34 :: body ++ [34]). split; [exact Hb|].
    split; [now constructor|].
    rewrite Hs, Hq, Hl. cbn [app]. rewrite <- app_assoc. reflexivity.
Qed.

(** A round of the scan that begins with literals or spaces. *)
Lemma doScanf_literal_inv (fuel : nat) (c0 : Z) (f : list Z) (nargs : nat)
  (s : fmt.ss) (out out' : list string) :
  fmt.doScanf (S fuel) (c0 :: f) nargs s out = (out', None) ->
  c0 <> 37 ->
  exists w s',
    fmt.advance (c0 :: f) 0 None s = Ok (w, s') /\ 0 <= w
    /\ (0 < w ->
        fmt.doScanf fuel (skipn (Z.to_nat w) (c0 :: f)) nargs s' out
        = (out', None)).
Proof.
  intros E Hc. rewrite doScanf_round in E.
  destruct (fmt.advance (c0 :: f) 0 None s) as [[w s']|e];
    [|discriminate E].
  exists w, s'. split; [reflexivity|].
  destruct (Z.ltb_spec 0 w) as [H|H].
  - split; [lia|]. intros _. exact E.
  - apply Z.eqb_neq in Hc. rewrite Hc in E. cbn [negb] in E.
    destruct (Z.ltb_spec w 0); [discriminate E|]. split; [lia|]. lia.
Qed.

(** A round of the scan at a verb [%s] or [%q]. *)
Lemma doScanf_verb_inv (fuel : nat) (v : Z) (rest : list Z) (nargs : nat)
  (s : fmt.ss) (out out' : list string) :
  (v =? 37) = false -> (v =? 99) = false ->
  fmt.doScanf (S fuel) (37 :: v :: rest) nargs s out = (out', None) ->
  exists s1 val s2,
    fmt.SkipSpace s = Ok s1
    /\ fmt.convertString v s1 = Ok (val, s2)
    /\ fmt.doScanf fuel rest nargs s2 (out ++ [val]) = (out', None).
Proof.
  intros H37 H99 E. rewrite doScanf_round in E.
  rewrite (advance_verb _ _ _ _ H37) in E.
  change (0 <? 0) with false in E. change (37 =? 37) with true in E.
  cbn [negb] in E. cbv iota in E. rewrite H99, H37 in E. cbn [negb] in E.
  destruct (fmt.SkipSpace s) as [s1|e]; [|discriminate E].
  destruct (Nat.leb nargs (List.length out)); [discriminate E|].
  destruct (fmt.convertString v s1) as [[val s2]|e] eqn:C;
    [|discriminate E].
  exists s1, val, s2. split; [reflexivity|]. split; [exact C|exact E].
Qed.

(** The blanks that [SkipSpace] passes before a verb, with what the verb
    reads: there is input left for the verb. *)
Lemma verb_not_atEOF (v : Z) (s s1 s2 : fmt.ss) (val : string) :
  fmt.SkipSpace s = Ok s1 ->
  fmt.convertString v s1 = Ok (val, s2) ->
  ~ atEOF s.
Proof.
  intros K C H. rewrite (atEOF_SkipSpace _ H) in K. injection K as <-.
  unfold fmt.convertString in C.
  destruct (negb ((v =? 115) || (v =? 118) || (v =? 113)));
    [discriminate C|].
  rewrite (atEOF_SkipSpace _ H), (atEOF_notEOF _ H) in C. discriminate C.
Qed.

(** A round at [%s]: blanks, a token, and the rounds that follow. *)
Lemma doScanf_s_inv (fuel : nat) (rest : list Z) (nargs : nat)
  (s : fmt.ss) (out out' : list string) :
  fmt.doScanf (S fuel) (37 :: 115 :: rest) nargs s out = (out', None) ->
  ~ atEOF s
  /\ exists b t s2,
       Forall (fun r => blank r = true) b
       /\ t <> [] /\ Forall (fun r => fmt.notSpace r = true) t
       /\ fmt.rs s = b ++ t ++ fmt.rs s2
       /\ fmt.doScanf fuel rest nargs s2 (out ++ [utf8.encodeRunes t])
          = (out', None).
Proof.
  intros E.
  destruct (doScanf_verb_inv _ 115 _ _ _ _ _ eq_refl eq_refl E)
    as (s1 & val & s2 & K & C & E').
  split; [exact (verb_not_atEOF _ _ _ _ _ K C)|].
  destruct (SkipSpace_inv _ _ K) as (b1 & B1 & R1 & _).
  destruct (convertString_s_inv _ _ _ C) as (b2 & t & B2 & Nt & Ht & R2 & ->).
  exists (b1 ++ b2), t, s2.
  split; [apply Forall_app; now split|].
  split; [exact Nt|]. split; [exact Ht|]. split; [|exact E'].
  rewrite R1, R2, <- app_assoc. reflexivity.
Qed.

(** A round at [%q]: blanks, a quoted string, and the rounds that
    follow. *)
Lemma doScanf_q_inv (fuel : nat) (rest : list Z) (nargs : nat)
  (s : fmt.ss) (out out' : list string) :
  fmt.doScanf (S fuel) (37 :: 113 :: rest) nargs s out = (out', None) ->
  ~ atEOF s
  /\ exists b q val s2,
       Forall (fun r => blank r = true) b
       /\ quotedLiteral q val
       /\ fmt.rs s = b ++ q ++ fmt.rs s2
       /\ fmt.doScanf fuel rest nargs s2 (out ++ [val]) = (out', None).
Proof.
  intros E.
  destruct (doScanf_verb_inv _ 113 _ _ _ _ _ eq_refl eq_refl E)
    as (s1 & val & s2 & K & C & E').
  split; [exact (verb_not_atEOF _ _ _ _ _ K C)|].
  destruct (SkipSpace_inv _ _ K) as (b1 & B1 & R1 & _).
  destruct (convertString_q_inv _ _ _ C) as (b2 & q & B2 & Hq & R2).
  exists (b1 ++ b2), q, val, s2.
  split; [apply Forall_app; now split|].
  split; [exact Hq|]. split; [|exact E'].
  rewrite R1, R2, <- app_assoc. reflexivity.
Qed.

(** The blanks for a space of the format and those before a verb make one
    run, which is not empty. *)
Lemma blanks_before_verb (b1 b2 : list rune) (s : fmt.ss) :
  Forall (fun r => blank r = true) b1 ->
  Forall (fun r => blank r = true) b2 ->
  (b1 = [] -> atEOF s) -> ~ atEOF s ->
  b1 ++ b2 <> [] /\ Forall (fun r => blank r = true) (b1 ++ b2).
Proof.
  intros H1 H2 Hn He. split; [|apply Forall_app; now split].
  intros E. apply app_eq_nil in E as [E _]. auto.
Qed.

(** ** The rounds of the scan under the format of [main.go] *)

Ltac literals := repeat constructor; discriminate.

Ltac expose_format E :=
  let f := eval vm_compute in (bytes pullFormat) in
  change (bytes pullFormat) with f in E;
  let n := eval vm_compute in (S (String.length pullFormat)) in
  change (S (String.length pullFormat)) with n in E.

(** The next round, from the width [w] that [advance] has returned. *)
Ltac next_round K Hw :=
  vm_compute in Hw; subst;
  specialize (K eq_refl);
  match type of K with
  | context [skipn ?n ?l] =>
    let v := eval vm_compute in (skipn n l) in change (skipn n l) with v in K
  end.

(** A scan without error has read a message laid out as the format
    says. *)
Lemma doScanf_laidOut (s0 : fmt.ss) (out : list string) :
  fmt.doScanf (S (String.length pullFormat)) (bytes pullFormat) 4 s0 []
  = (out, None) ->
  laidOut pullLayout (fmt.rs s0) out.
Proof.
  intros E. expose_format E.
  (* Successfully pulled image *)
  apply doScanf_literal_inv in E as (w & s' & A & Hw & K); [|discriminate].
  destruct (advance_word_inv (bytes "Successfully") ltac:(literals)
              _ _ _ _ _ A Hw) as (s1 & R1 & A1).
  destruct (advance_blanks_word_inv (bytes "pulled") _ _ _ _ _
              ltac:(literals) ltac:(discriminate) A1 Hw)
    as (b2 & s2 & N2 & B2 & R2 & A2).
  destruct (advance_blanks_word_inv (bytes "image") _ _ _ _ _
              ltac:(literals) ltac:(discriminate) A2 Hw)
    as (b3 & s3 & N3 & B3 & R3 & A3).
  destruct (advance_blanks_verb_inv 113 _ _ _ _ _ eq_refl A3)
    as (Ew & b4 & B4 & R4 & N4).
  next_round K Ew. clear A A1 A2 A3 Hw.
  (* %q *)
  apply doScanf_q_inv in K as (Q0 & b5 & q & ref & s5 & B5 & Q & R5 & E).
  destruct (blanks_before_verb _ _ _ B4 B5 N4 Q0) as [N45 B45].
  (* in *)
  apply doScanf_literal_inv in E as (w & s6 & A & Hw & K); [|discriminate].
  destruct (advance_blanks_word_inv (bytes "in") _ _ _ _ _
              ltac:(literals) ltac:(discriminate) A Hw)
    as (b6 & s7 & N6 & B6 & R6 & A1).
  destruct (advance_blanks_verb_inv 115 _ _ _ _ _ eq_refl A1)
    as (Ew & b7 & B7 & R7 & N7).
  next_round K Ew. clear A A1 Hw.
  (* %s *)
  apply doScanf_s_inv in K as (T0 & b8 & t1 & s8 & B8 & Nt1 & T1 & R8 & E).
  destruct (blanks_before_verb _ _ _ B7 B8 N7 T0) as [N78 B78].
  (* ( *)
  apply doScanf_literal_inv in E as (w & s9 & A & Hw & K); [|discriminate].
  destruct (advance_blanks_word_inv (bytes "(") _ _ _ _ _
              ltac:(literals) ltac:(discriminate) A Hw)
    as (b9 & s10 & N9 & B9 & R9 & A1).
  rewrite (advance_verb 115 _ _ _ eq_refl) in A1.
  injection A1 as Ew <-.
  next_round K Ew. clear A Hw.
  (* %s *)
  apply doScanf_s_inv in K as (_ & b10 & t2 & s11 & B10 & Nt2 & T2 & R10 & E).
  (* including waiting). Image size: *)
  apply doScanf_literal_inv in E as (w & s12 & A & Hw & K); [|discriminate].
  destruct (advance_blanks_word_inv (bytes "including") _ _ _ _ _
              ltac:(literals) ltac:(discriminate) A Hw)
    as (b11 & s13 & N11 & B11 & R11 & A1).
  destruct (advance_blanks_word_inv (bytes "waiting).") _ _ _ _ _
              ltac:(literals) ltac:(discriminate) A1 Hw)
    as (b12 & s14 & N12 & B12 & R12 & A2).
  destruct (advance_blanks_word_inv (bytes "Image") _ _ _ _ _
              ltac:(literals) ltac:(discriminate) A2 Hw)
    as (b13 & s15 & N13 & B13 & R13 & A3).
  destruct (advance_blanks_word_inv (bytes "size:") _ _ _ _ _
              ltac:(literals) ltac:(discriminate) A3 Hw)
    as (b14 & s16 & N14 & B14 & R14 & A4).
  destruct (advance_blanks_verb_inv 115 _ _ _ _ _ eq_refl A4)
    as (Ew & b15 & B15 & R15 & N15).
  next_round K Ew. clear A A1 A2 A3 A4 Hw.
  (* %s *)
  apply doScanf_s_inv in K as (T3 & b16 & t3 & s17 & B16 & Nt3 & T3' & R16 & E).
  destruct (blanks_before_verb _ _ _ B15 B16 N15 T3) as [N156 B156].
  (* bytes. *)
  apply doScanf_literal_inv in E as (w & s18 & A & Hw & K); [|discriminate].
  destruct (advance_blanks_word_inv (bytes "bytes.") _ _ _ _ _
              ltac:(literals) ltac:(discriminate) A Hw)
    as (b17 & s19 & N17 & B17 & R17 & A1).
  rewrite advance_nil in A1. injection A1 as Ew <-.
  next_round K Ew. clear A Hw.
  cbn [fmt.doScanf List.length app Nat.ltb Nat.leb] in K.
  injection K as <-.
  (* the runes, from the first to the last *)
  unfold pullLayout.
  rewrite R1. apply laidOut_Word.
  rewrite R2. apply laidOut_Blanks; [assumption..|]. apply laidOut_Word.
  rewrite R3. apply laidOut_Blanks; [assumption..|]. apply laidOut_Word.
  rewrite R4, R5, app_assoc.
  apply laidOut_Blanks; [assumption..|]. apply laidOut_Quoted; [exact Q|].
  rewrite R6. apply laidOut_Blanks; [assumption..|]. apply laidOut_Word.
  rewrite R7, R8, app_assoc.
  apply laidOut_Blanks; [assumption..|]. apply laidOut_Token; [assumption..|].
  rewrite R9. apply laidOut_Blanks; [assumption..|]. apply laidOut_Word.
  rewrite R10. apply laidOut_OptBlanks; [assumption|].
  apply laidOut_Token; [assumption..|].
  rewrite R11. apply laidOut_Blanks; [assumption..|]. apply laidOut_Word.
  rewrite R12. apply laidOut_Blanks; [assumption..|]. apply laidOut_Word.
  rewrite R13. apply laidOut_Blanks; [assumption..|]. apply laidOut_Word.
  rewrite R14. apply laidOut_Blanks; [assumption..|]. apply laidOut_Word.
  rewrite R15, R16, app_assoc.
  apply laidOut_Blanks; [assumption..|]. apply laidOut_Token; [assumption..|].
  rewrite R17. apply laidOut_Blanks; [assumption..|]. apply laidOut_Word.
  apply laidOut_nil.
Qed.

(** A message that scans without error is laid out as the format says:
    the words of the format with blanks between them, a quoted reference
    and three tokens, stored in this order; what follows the final period
    is free. *)
Lemma Sscanf_laidOut (msg : string) (out : list string) :
  fmt.Sscanf msg pullFormat 4 = (out, None) ->
  laidOut pullLayout (utf8.runes msg) out.
Proof.
  intros E. rewrite Sscanf_doScanf in E.
  exact (doScanf_laidOut _ _ E).
Qed.

(** ** The scan of a message that is laid out as the format says *)

Lemma blank_isSpace (r : rune) : blank r = true -> fmt.isSpace r = true.
Proof. unfold blank. intros H. now apply andb_prop in H. Qed.

Lemma nonspace_blank (r : rune) : fmt.isSpace r = false -> blank r = false.
Proof. unfold blank. intros ->. reflexivity. Qed.

Lemma skipBlanks_run (b : list rune) (x : rune) (l : list rune) :
  Forall (fun r => blank r = true) b -> blank x = false ->
  forall cnt : Z,
    cnt + Z.of_nat (List.length b) < fmt.hugeWid ->
    fmt.skipBlanks (b ++ x :: l) cnt
    = fmt.mkss (x :: l) (cnt + Z.of_nat (List.length b)).
Proof.
  intros Hb Hx. induction Hb as [|r b Hr Hb IH]; intros cnt Hc.
  - cbn [app List.length Z.of_nat fmt.skipBlanks]. rewrite Z.add_0_r.
    unfold blank in Hx. rewrite Hx.
    destruct (fmt.hugeWid <=? cnt); reflexivity.
  - cbn [app List.length] in *. cbn [fmt.skipBlanks].
    destruct (Z.leb_spec fmt.hugeWid cnt); [lia|].
    unfold blank in Hr. rewrite Hr, IH by lia. f_equal. lia.
Qed.

Lemma matchSpaces_run (b : list rune) (x : rune) (l : list rune) (cnt : Z) :
  b <> [] -> Forall (fun r => blank r = true) b -> blank x = false ->
  cnt + Z.of_nat (List.length b) < fmt.hugeWid ->
  fmt.matchSpaces 0 true (fmt.mkss (b ++ x :: l) cnt)
  = Ok (fmt.mkss (x :: l) (cnt + Z.of_nat (List.length b))).
Proof.
  intros Hne Hb Hx Hc. destruct b as [|r b]; [congruence|].
  pose proof (Forall_inv Hb) as Hr.
  unfold fmt.matchSpaces. cbn [fmt.matchNewlines app].
  rewrite getRune_cons by (cbn [List.length] in Hc; lia).
  rewrite (blank_isSpace _ Hr).
  unfold blank in Hr. apply andb_prop in Hr as [_ Hr].
  apply negb_true_iff in Hr. rewrite Hr.
  cbn [Nat.eqb negb andb fmt.rs fmt.count].
  exact (f_equal Ok (skipBlanks_run (r :: b) x l Hb Hx cnt Hc)).
Qed.

(** A space of the format, then a literal: a run of blanks, then that
    literal. *)
Lemma advance_flush_lit_run (b : list rune) (c : rune) (format : list rune)
  (i : Z) (l : list rune) (cnt : Z) :
  b <> [] -> Forall (fun r => blank r = true) b ->
  fmt.isSpace c = false -> (c =? 37) = false ->
  cnt + Z.of_nat (List.length b) < fmt.hugeWid ->
  fmt.advance (c :: format) i (Some (0%nat, true))
    (fmt.mkss (b ++ c :: l) cnt)
  = fmt.advance format (i + 1) None
      (fmt.mkss l (cnt + Z.of_nat (List.length b) + 1)).
Proof.
  intros Hne Hb Hs Hp Hc.
  rewrite (advance_pending _ _ _ _ Hs).
  rewrite (matchSpaces_run _ _ _ _ Hne Hb (nonspace_blank _ Hs) Hc).
  apply (advance_lit _ _ _ _ _ Hs Hp Hc).
Qed.

(** A space of the format, then a verb: a run of blanks. *)
Lemma advance_flush_verb_run (b : list rune) (v : rune)
  (format : list rune) (i : Z) (x : rune) (l : list rune) (cnt : Z) :
  b <> [] -> Forall (fun r => blank r = true) b ->
  (v =? 37) = false -> fmt.isSpace x = false ->
  cnt + Z.of_nat (List.length b) < fmt.hugeWid ->
  fmt.advance (37 :: v :: format) i (Some (0%nat, true))
    (fmt.mkss (b ++ x :: l) cnt)
  = Ok (i, fmt.mkss (x :: l) (cnt + Z.of_nat (List.length b))).
Proof.
  intros Hne Hb Hv Hx Hc.
  rewrite (advance_pending 37 _ _ _ eq_refl).
  rewrite (matchSpaces_run _ _ _ _ Hne Hb (nonspace_blank _ Hx) Hc).
  apply (advance_verb _ _ _ _ Hv).
Qed.

Lemma SkipSpace_run (b : list rune) (x : rune) (l : list rune) :
  Forall (fun r => blank r = true) b -> fmt.isSpace x = false ->
  forall cnt : Z,
    cnt + Z.of_nat (List.length b) < fmt.hugeWid ->
    fmt.SkipSpace (fmt.mkss (b ++ x :: l) cnt)
    = Ok (fmt.mkss (x :: l) (cnt + Z.of_nat (List.length b))).
Proof.
  intros Hb Hx. induction Hb as [|r b Hr Hb IH]; intros cnt Hc.
  - cbn [app List.length Z.of_nat]. rewrite Z.add_0_r.
    apply (SkipSpace_nonspace _ _ _ Hx).
  - cbn [app List.length] in *.
    unfold fmt.SkipSpace in *. cbn [fmt.rs fmt.count] in *.
    cbn [fmt.SkipSpace_from].
    destruct (Z.leb_spec fmt.hugeWid cnt); [lia|].
    assert (E : fmt.SkipSpace_from (b ++ x :: l) (cnt + 1)
                = Ok (fmt.mkss (x :: l)
                        (cnt + Z.of_nat (S (List.length b))))).
    { rewrite IH by lia. f_equal. f_equal. lia. }
    destruct ((r =? 13) && fmt.peek (fmt.mkss (b ++ x :: l) (cnt + 1)) 10)%bool;
      [exact E|].
    pose proof (blank_isSpace _ Hr) as Hs.
    unfold blank in Hr. apply andb_prop in Hr as [_ Hr].
    apply negb_true_iff in Hr. rewrite Hr, Hs. cbn [negb]. exact E.
Qed.

Lemma dblQuoted_from_escaped (body : list rune) :
  escaped body ->
  forall (rest buf : list rune) (cnt : Z),
    cnt + Z.of_nat (List.length body) < fmt.hugeWid ->
    fmt.dblQuoted_from (body ++ 34 :: rest) cnt buf
    = Ok (buf ++ body ++ [34],
          fmt.mkss rest (cnt + Z.of_nat (List.length body) + 1)).
Proof.
  induction 1 as [|r body H92 H34 Hb IH|r body Hb IH]; intros rest buf cnt Hc.
  - cbn [app List.length] in *. cbn [fmt.dblQuoted_from].
    destruct (Z.leb_spec fmt.hugeWid cnt); [lia|].
    change (34 =? 92) with false. change (34 =? 34) with true. cbv iota.
    rewrite Z.add_0_r. reflexivity.
  - cbn [app List.length] in *. cbn [fmt.dblQuoted_from].
    destruct (Z.leb_spec fmt.hugeWid cnt); [lia|].
    destruct (Z.eqb_spec r 92); [contradiction|].
    destruct (Z.eqb_spec r 34); [contradiction|].
    rewrite IH by lia. rewrite <- app_assoc. cbn [app].
    f_equal. f_equal. f_equal. lia.
  - cbn [app List.length] in *. cbn [fmt.dblQuoted_from].
    destruct (Z.leb_spec fmt.hugeWid cnt); [lia|].
    change (92 =? 92) with true. cbv iota.
    destruct (Z.leb_spec fmt.hugeWid (cnt + 1)); [lia|].
    rewrite IH by lia. rewrite <- app_assoc. cbn [app].
    f_equal. f_equal. f_equal. lia.
Qed.

(** [%q] in front of a quoted string. *)
Lemma convertString_q_literal (q : list rune) (v : string)
  (rest : list rune) (cnt : Z) :
  quotedLiteral q v ->
  cnt + Z.of_nat (List.length q) < fmt.hugeWid ->
  fmt.convertString 113 (fmt.mkss (q ++ rest) cnt)
  = Ok (v, fmt.mkss rest (cnt + Z.of_nat (List.length q))).
Proof.
  intros [body Hb|body v' Hb U] Hc.
  - cbn [app]. rewrite <- app_assoc. cbn [app].
    rewrite (convertString_q_raw _ _ _ Hb).
    + f_equal. f_equal. f_equal. cbn [List.length].
      rewrite length_app. cbn [List.length]. lia.
    + revert Hc. cbn [List.length]. rewrite length_app. cbn [List.length].
      lia.
  - revert Hc. cbn [app List.length]. rewrite length_app.
    cbn [List.length]. intros Hc. rewrite <- app_assoc. cbn [app].
    unfold fmt.convertString. change (113 =? 115) with false.
    change (113 =? 118) with false. change (113 =? 113) with true.
    cbn [orb negb]. cbv iota.
    rewrite (SkipSpace_nonspace 34 _ _ eq_refl).
    unfold fmt.quotedString, fmt.notEOF. rewrite !getRune_cons by lia.
    change (34 =? 96) with false. change (34 =? 34) with true. cbv iota.
    cbn [fmt.rs fmt.count].
    rewrite (dblQuoted_from_escaped _ Hb) by lia.
    cbn [app]. rewrite U. f_equal. f_equal. f_equal. lia.
Qed.

Lemma quotedLiteral_head (q : list rune) (v : string) :
  quotedLiteral q v ->
  exists x q', q = x :: q' /\ fmt.isSpace x = false.
Proof.
  intros [body _|body v' _ _]; eexists _, _; split; reflexivity.
Qed.

Lemma advance_word (lits : list rune) :
  Forall literalRune lits ->
  forall (format : list rune) (i : Z) (l : list rune) (cnt : Z),
    cnt + Z.of_nat (List.length lits) <= fmt.hugeWid ->
    fmt.advance (lits ++ format) i None (fmt.mkss (lits ++ l) cnt)
    = fmt.advance format (i + Z.of_nat (List.length lits)) None
        (fmt.mkss l (cnt + Z.of_nat (List.length lits))).
Proof.
  induction 1 as [|c lits [Hs Hp] Hl IH]; intros format i l cnt Hc.
  - cbn [app List.length Z.of_nat]. now rewrite !Z.add_0_r.
  - cbn [app List.length] in *. apply Z.eqb_neq in Hp.
    rewrite (advance_lit _ _ _ _ _ Hs Hp) by lia.
    rewrite IH by lia. f_equal; [lia|f_equal; lia].
Qed.

Lemma advance_blanks_word (b lits : list rune) (format : list rune) (i : Z)
  (l : list rune) (cnt : Z) :
  b <> [] -> Forall (fun r => blank r = true) b ->
  Forall literalRune lits -> lits <> [] ->
  cnt + Z.of_nat (List.length b) + Z.of_nat (List.length lits)
  <= fmt.hugeWid ->
  fmt.advance (32 :: lits ++ format) i None (fmt.mkss (b ++ lits ++ l) cnt)
  = fmt.advance format (i + 1 + Z.of_nat (List.length lits)) None
      (fmt.mkss l (cnt + Z.of_nat (List.length b)
                   + Z.of_nat (List.length lits))).
Proof.
  intros Nb Hb L Nl Hc. destruct lits as [|c lits]; [congruence|].
  inversion L as [|? ? [Hs Hp] L']; subst.
  rewrite advance_space. cbn [app List.length] in *.
  apply Z.eqb_neq in Hp.
  rewrite (advance_flush_lit_run _ _ _ _ _ _ Nb Hb Hs Hp) by lia.
  rewrite (advance_word _ L') by lia.
  f_equal; [lia|f_equal; lia].
Qed.

Lemma advance_blanks_verb (b : list rune) (v : rune) (format : list rune)
  (i : Z) (l : list rune) (cnt : Z) :
  b <> [] -> Forall (fun r => blank r = true) b ->
  (v =? 37) = false -> startsNonSpace l ->
  cnt + Z.of_nat (List.length b) < fmt.hugeWid ->
  fmt.advance (32 :: 37 :: v :: format) i None (fmt.mkss (b ++ l) cnt)
  = Ok (i + 1, fmt.mkss l (cnt + Z.of_nat (List.length b))).
Proof.
  intros Nb Hb Hv (x & l' & -> & Hx) Hc. rewrite advance_space.
  apply (advance_flush_verb_run _ _ _ _ _ _ _ Nb Hb Hv Hx Hc).
Qed.

Lemma SkipSpace_blanks (b l : list rune) (cnt : Z) :
  Forall (fun r => blank r = true) b -> startsNonSpace l ->
  cnt + Z.of_nat (List.length b) < fmt.hugeWid ->
  fmt.SkipSpace (fmt.mkss (b ++ l) cnt)
  = Ok (fmt.mkss l (cnt + Z.of_nat (List.length b))).
Proof.
  intros Hb (x & l' & -> & Hx) Hc. apply (SkipSpace_run _ _ _ Hb Hx _ Hc).
Qed.

Lemma SkipSpace_none (l : list rune) (cnt : Z) :
  startsNonSpace l ->
  fmt.SkipSpace (fmt.mkss l cnt) = Ok (fmt.mkss l cnt).
Proof.
  intros (x & l' & -> & Hx). apply (SkipSpace_nonspace _ _ _ Hx).
Qed.

Lemma convertString_token (t l : list rune) (cnt : Z) :
  t <> [] -> Forall (fun r => fmt.notSpace r = true) t ->
  startsSpace l ->
  cnt + Z.of_nat (List.length t) < fmt.hugeWid ->
  fmt.convertString 115 (fmt.mkss (t ++ l) cnt)
  = Ok (utf8.encodeRunes t, fmt.mkss l (cnt + Z.of_nat (List.length t))).
Proof.
  intros Nt Ht (x & l' & -> & Hx) Hc.
  apply (convertString_s _ _ _ _ Nt Ht Hx Hc).
Qed.

Lemma startsNonSpace_quoted (q : list rune) (v : string) (l : list rune) :
  quotedLiteral q v -> startsNonSpace (q ++ l).
Proof.
  intros H. destruct (quotedLiteral_head _ _ H) as (x & q' & -> & Hx).
  exists x, (q' ++ l). split; [reflexivity|exact Hx].
Qed.

Lemma startsNonSpace_token (t l : list rune) :
  t <> [] -> Forall (fun r => fmt.notSpace r = true) t ->
  startsNonSpace (t ++ l).
Proof.
  intros Nt Ht. destruct t as [|x t]; [congruence|].
  exists x, (t ++ l). split; [reflexivity|].
  apply Forall_inv in Ht. unfold fmt.notSpace in Ht.
  now apply negb_true_iff in Ht.
Qed.

Lemma startsSpace_blanks (b l : list rune) :
  b <> [] -> Forall (fun r => blank r = true) b -> startsSpace (b ++ l).
Proof.
  intros Nb Hb. destruct b as [|x b]; [congruence|].
  exists x, (b ++ l). split; [reflexivity|].
  apply Forall_inv in Hb. now apply blank_isSpace.
Qed.

(** A round that begins with literals or spaces, and the rounds that
    follow. *)
Lemma doScanf_literal_round (fuel : nat) (format : list rune) (nargs : nat)
  (s : fmt.ss) (out : list string) (w : Z) (s' : fmt.ss) :
  fmt.advance format 0 None s = Ok (w, s') -> 0 < w ->
  fmt.doScanf (S fuel) format nargs s out
  = fmt.doScanf fuel (skipn (Z.to_nat w) format) nargs s' out.
Proof.
  intros A Hw. destruct format as [|c0 f].
  - rewrite advance_nil in A. injection A as <- _. lia.
  - rewrite doScanf_round, A.
    destruct (Z.ltb_spec 0 w); [reflexivity|lia].
Qed.

(** A round at a verb, and the rounds that follow. *)
Lemma doScanf_verb_round (fuel : nat) (v : rune) (rest : list rune)
  (nargs : nat) (s s1 s2 : fmt.ss) (out : list string) (val : string) :
  (v =? 37) = false -> (v =? 99) = false ->
  (List.length out < nargs)%nat ->
  fmt.SkipSpace s = Ok s1 ->
  fmt.convertString v s1 = Ok (val, s2) ->
  fmt.doScanf (S fuel) (37 :: v :: rest) nargs s out
  = fmt.doScanf fuel rest nargs s2 (out ++ [val]).
Proof.
  intros H37 H99 Hn K C. rewrite doScanf_round.
  rewrite (advance_verb _ _ _ _ H37).
  change (0 <? 0) with false. change (37 =? 37) with true.
  cbn [negb]. cbv iota. rewrite H99, H37. cbn [negb]. rewrite K.
  destruct (Nat.leb_spec nargs (List.length out)); [lia|].
  rewrite C. reflexivity.
Qed.

Lemma laidOut_Word_inv (w : string) (items : list item) (l : list rune)
  (out : list string) :
  laidOut (Word w :: items) l out ->
  exists l', l = bytes w ++ l' /\ laidOut items l' out.
Proof. inversion 1; subst; eauto. Qed.

Lemma laidOut_Blanks_inv (items : list item) (l : list rune)
  (out : list string) :
  laidOut (Blanks :: items) l out ->
  exists b l',
    b <> [] /\ Forall (fun r => blank r = true) b
    /\ l = b ++ l' /\ laidOut items l' out.
Proof. inversion 1; subst. eexists _, _; eauto. Qed.

Lemma laidOut_OptBlanks_inv (items : list item) (l : list rune)
  (out : list string) :
  laidOut (OptBlanks :: items) l out ->
  exists b l',
    Forall (fun r => blank r = true) b
    /\ l = b ++ l' /\ laidOut items l' out.
Proof. inversion 1; subst. eexists _, _; eauto. Qed.

Lemma laidOut_Quoted_inv (items : list item) (l : list rune)
  (out : list string) :
  laidOut (Quoted :: items) l out ->
  exists q v l' out',
    quotedLiteral q v /\ l = q ++ l' /\ out = v :: out'
    /\ laidOut items l' out'.
Proof. inversion 1; subst. eexists _, _, _, _; eauto. Qed.

Lemma laidOut_Token_inv (items : list item) (l : list rune)
  (out : list string) :
  laidOut (Token :: items) l out ->
  exists t l' out',
    t <> [] /\ Forall (fun r => fmt.notSpace r = true) t
    /\ l = t ++ l' /\ out = utf8.encodeRunes t :: out'
    /\ laidOut items l' out'.
Proof. inversion 1; subst. eexists _, _, _; eauto 6. Qed.

Lemma laidOut_nil_inv (l : list rune) (out : list string) :
  laidOut [] l out -> out = [].
Proof. now inversion 1. Qed.

Lemma pullFormat_words :
  bytes pullFormat
  = bytes "Successfully" ++ 32 :: bytes "pulled" ++ 32 :: bytes "image" ++
    32 :: 37 :: 113 :: 32 :: bytes "in" ++ 32 :: 37 :: 115 :: 32 ::
    bytes "(" ++ 37 :: 115 :: 32 :: bytes "including" ++ 32 ::
    bytes "waiting)." ++ 32 :: bytes "Image" ++ 32 :: bytes "size:" ++
    32 :: 37 :: 115 :: 32 :: bytes "bytes." ++ [].
Proof. reflexivity. Qed.

(** The lengths of the words, as numbers. *)
Ltac lengths :=
  repeat match goal with
         | |- context [List.length (bytes ?s)] =>
           let n := eval vm_compute in (List.length (bytes s)) in
           change (List.length (bytes s)) with n
         end.

Ltac bound := rewrite ?hugeWid_value; lengths; lia.

Ltac rest_is f :=
  match goal with
  | |- context [skipn ?n ?l] => change (skipn n l) with f
  end.

Ltac step_side :=
  match goal with
  | |- Forall literalRune _ => literals
  | |- Forall _ _ => first [assumption | apply Forall_nil]
  | |- _ <> [] => first [assumption | discriminate]
  | |- _ = false => reflexivity
  | |- startsNonSpace _ =>
    first [ eapply startsNonSpace_quoted; eassumption
          | apply startsNonSpace_token; assumption ]
  | |- startsSpace _ => apply startsSpace_blanks; assumption
  | |- _ < _ => bound
  | |- _ <= _ => bound
  | |- (_ < _)%nat => cbn [List.length app]; lia
  end.

Lemma laidOut_doScanf (l : list rune) (out : list string) :
  laidOut pullLayout l out ->
  Z.of_nat (List.length l) <= fmt.hugeWid ->
  fmt.doScanf (S (String.length pullFormat)) (bytes pullFormat) 4
    (fmt.mkss l 0) []
  = (out, None).
Proof.
  intros H Hlen. unfold pullLayout in H. rewrite hugeWid_value in Hlen.
  apply laidOut_Word_inv in H as (l1 & -> & H).
  apply laidOut_Blanks_inv in H as (b2 & l2 & N2 & B2 & -> & H).
  apply laidOut_Word_inv in H as (l3 & -> & H).
  apply laidOut_Blanks_inv in H as (b4 & l4 & N4 & B4 & -> & H).
  apply laidOut_Word_inv in H as (l5 & -> & H).
  apply laidOut_Blanks_inv in H as (b6 & l6 & N6 & B6 & -> & H).
  apply laidOut_Quoted_inv in H as (q & ref & l7 & o7 & Q & -> & -> & H).
  apply laidOut_Blanks_inv in H as (b8 & l8 & N8 & B8 & -> & H).
  apply laidOut_Word_inv in H as (l9 & -> & H).
  apply laidOut_Blanks_inv in H as (b10 & l10 & N10 & B10 & -> & H).
  apply laidOut_Token_inv in H as (t1 & l11 & o11 & Nt1 & T1 & -> & -> & H).
  apply laidOut_Blanks_inv in H as (b12 & l12 & N12 & B12 & -> & H).
  apply laidOut_Word_inv in H as (l13 & -> & H).
  apply laidOut_OptBlanks_inv in H as (b14 & l14 & B14 & -> & H).
  apply laidOut_Token_inv in H as (t2 & l15 & o15 & Nt2 & T2 & -> & -> & H).
  apply laidOut_Blanks_inv in H as (b16 & l16 & N16 & B16 & -> & H).
  apply laidOut_Word_inv in H as (l17 & -> & H).
  apply laidOut_Blanks_inv in H as (b18 & l18 & N18 & B18 & -> & H).
  apply laidOut_Word_inv in H as (l19 & -> & H).
  apply laidOut_Blanks_inv in H as (b20 & l20 & N20 & B20 & -> & H).
  apply laidOut_Word_inv in H as (l21 & -> & H).
  apply laidOut_Blanks_inv in H as (b22 & l22 & N22 & B22 & -> & H).
  apply laidOut_Word_inv in H as (l23 & -> & H).
  apply laidOut_Blanks_inv in H as (b24 & l24 & N24 & B24 & -> & H).
  apply laidOut_Token_inv in H as (t3 & l25 & o25 & Nt3 & T3 & -> & -> & H).
  apply laidOut_Blanks_inv in H as (b26 & l26 & N26 & B26 & -> & H).
  apply laidOut_Word_inv in H as (l27 & -> & H).
  apply laidOut_nil_inv in H as ->.
  rewrite !length_app in Hlen.
  repeat match type of Hlen with
         | context [List.length (bytes ?s)] =>
           let n := eval vm_compute in (List.length (bytes s)) in
           change (List.length (bytes s)) with n in Hlen
         end.
  rewrite pullFormat_words.
  let n := eval vm_compute in (S (String.length pullFormat)) in
  change (S (String.length pullFormat)) with n.
  (* Successfully pulled image *)
  erewrite doScanf_literal_round; cycle 1.
  { rewrite advance_word by step_side.
    rewrite advance_blanks_word by step_side.
    rewrite advance_blanks_word by step_side.
    rewrite advance_blanks_verb by step_side.
    reflexivity. }
  { reflexivity. }
  rest_is (37 :: 113 :: 32 :: bytes "in" ++ 32 :: 37 :: 115 :: 32 ::
           bytes "(" ++ 37 :: 115 :: 32 :: bytes "including" ++ 32 ::
           bytes "waiting)." ++ 32 :: bytes "Image" ++ 32 ::
           bytes "size:" ++ 32 :: 37 :: 115 :: 32 :: bytes "bytes." ++ []).
  (* %q *)
  erewrite doScanf_verb_round; cycle 1; try step_side.
  { rewrite SkipSpace_none by step_side. reflexivity. }
  { rewrite (convertString_q_literal _ _ _ _ Q) by bound. reflexivity. }
  (* in *)
  erewrite doScanf_literal_round; cycle 1.
  { rewrite advance_blanks_word by step_side.
    rewrite advance_blanks_verb by step_side.
    reflexivity. }
  { reflexivity. }
  rest_is (37 :: 115 :: 32 :: bytes "(" ++ 37 :: 115 :: 32 ::
           bytes "including" ++ 32 :: bytes "waiting)." ++ 32 ::
           bytes "Image" ++ 32 :: bytes "size:" ++ 32 :: 37 :: 115 :: 32 ::
           bytes "bytes." ++ []).
  (* %s *)
  erewrite doScanf_verb_round; cycle 1; try step_side.
  { rewrite SkipSpace_none by step_side. reflexivity. }
  { rewrite convertString_token by step_side. reflexivity. }
  (* ( *)
  erewrite doScanf_literal_round; cycle 1.
  { rewrite advance_blanks_word by step_side.
    rewrite advance_verb by reflexivity.
    reflexivity. }
  { reflexivity. }
  rest_is (37 :: 115 :: 32 :: bytes "including" ++ 32 ::
           bytes "waiting)." ++ 32 :: bytes "Image" ++ 32 ::
           bytes "size:" ++ 32 :: 37 :: 115 :: 32 :: bytes "bytes." ++ []).
  (* %s *)
  erewrite doScanf_verb_round; cycle 1; try step_side.
  { rewrite SkipSpace_blanks by step_side. reflexivity. }
  { rewrite convertString_token by step_side. reflexivity. }
  (* including waiting). Image size: *)
  erewrite doScanf_literal_round; cycle 1.
  { rewrite advance_blanks_word by step_side.
    rewrite advance_blanks_word by step_side.
    rewrite advance_blanks_word by step_side.
    rewrite advance_blanks_word by step_side.
    rewrite advance_blanks_verb by step_side.
    reflexivity. }
  { reflexivity. }
  rest_is (37 :: 115 :: 32 :: bytes "bytes." ++ []).
  (* %s *)
  erewrite doScanf_verb_round; cycle 1; try step_side.
  { rewrite SkipSpace_none by step_side. reflexivity. }
  { rewrite convertString_token by step_side. reflexivity. }
  (* bytes. *)
  erewrite doScanf_literal_round; cycle 1.
  { rewrite advance_blanks_word by step_side.
    rewrite advance_nil. reflexivity. }
  { reflexivity. }
  rest_is (@nil rune).
  reflexivity.
Qed.

Lemma decodeRunes_length (fuel : nat) :
  forall l : list Z, (List.length (utf8.decodeRunes fuel l) <= fuel)%nat.
Proof.
  induction fuel as [|fuel IH]; intros l; [cbn; lia|].
  destruct l as [|b t]; [cbn; lia|].
  cbn [utf8.decodeRunes].
  destruct (utf8.DecodeRune (b :: t)) as [r n].
  cbn [List.length]. specialize (IH (skipn n (b :: t))). lia.
Qed.

Lemma runes_length (s : string) :
  (List.length (utf8.runes s) <= String.length s)%nat.
Proof. apply decodeRunes_length. Qed.

(** A message shorter than 2^30 bytes that is laid out as the format
    says is scanned without error, and its four strings are stored. *)
Lemma laidOut_Sscanf (msg : string) (out : list string) :
  laidOut pullLayout (utf8.runes msg) out ->
  len msg <= fmt.hugeWid ->
  fmt.Sscanf msg pullFormat 4 = (out, None).
Proof.
  intros H Hlen. rewrite Sscanf_doScanf.
  apply (laidOut_doScanf _ _ H).
  pose proof (runes_length msg). unfold len in Hlen. lia.
Qed.

(** * C4: failures of the parse *)

(** C4, as stated, fails: the messages below do not match the grammar, yet
    they are parsed and the three instruments are recorded.  In the first
    the reference stands between back quotes, not double quotes, which
    [%q] accepts too; in the second the words are two spaces or a tab
    apart and a space follows the parenthesis, which a space of the
    format and [%s] accept; in the third the reference holds an escaped
    double quote, so that it does not end at the next double quote. *)
Lemma C4_counterexample :
  matchesGrammar msgBackquoted = false
  /\ accept (pulledEvent msgBackquoted) = true
  /\ parse (Message (pulledEvent msgBackquoted))
     = Ok {| imageRef := "repo/example:99cd3b4";
             pullDuration := 15000000000;
             totalDuration := 45000000000;
             imageSizeBytes := 500 |}
  /\ (exists attrs,
       recorded (handleAddFunc (EventObj (pulledEvent msgBackquoted)))
       = [ (imageSizeGauge, 500, attrs);
           (durationPullHistogram, 15000, attrs);
           (durationPullWaitOnlyHistogram, 30000, attrs) ])
  /\ matchesGrammar msgWideBlanks = false
  /\ parse msgWideBlanks
     = Ok {| imageRef := "repo/example:99cd3b4";
             pullDuration := 15000000000;
             totalDuration := 45000000000;
             imageSizeBytes := 500 |}
  /\ List.length
       (recorded (handleAddFunc (EventObj (pulledEvent msgWideBlanks))))
     = 3%nat
  /\ matchesGrammar msgEscapedQuote = false
  /\ parse msgEscapedQuote
     = Ok {| imageRef := "repo" ++ dq ++ "example";
             pullDuration := 15000000000;
             totalDuration := 45000000000;
             imageSizeBytes := 500 |}
  /\ List.length
       (recorded (handleAddFunc (EventObj (pulledEvent msgEscapedQuote))))
     = 3%nat.
Proof.
  split; [vm_compute; reflexivity|]. split; [reflexivity|].
  split; [vm_compute; reflexivity|].
  split; [eexists; vm_compute; reflexivity|].
  repeat split; vm_compute; reflexivity.
Qed.

(** C4, amended.  For every accepted event: either the scan stores four
    fields without error and the three conversions succeed, and then the
    three instruments are recorded, or parsing yields an error, the handler
    logs it and returns, and nothing is recorded; there is no partial
    record.  Parsing yields an error, and nothing is recorded, whenever a
    captured duration or integer token fails its conversion, whenever the
    scan of the message against the format fails, and so for every message
    that is not laid out as the format says: the words [Successfully],
    [pulled], [image], a quoted string (between back quotes, or between
    double quotes and a Go string literal), [in], a token without spaces,
    [(], a token, [including], [waiting).], [Image], [size:], a token and
    [bytes.], with one blank or more (a space other than the line feed)
    between them, none needed behind the parenthesis, and anything behind
    the final period.  These are all the messages below 2^30 bytes on
    which the scan fails: one that is laid out so is scanned, and its
    four strings stored.  In particular parsing yields an error, and
    nothing is recorded, for
    - the empty string;
    - every truncated message, that is every text which a message in the
      expected form (a reference of valid UTF-8 without double quote,
      backslash and line feed, tokens of ASCII characters without spaces,
      less than 2^30 bytes) begins with, short of that message itself;
    - every message whose reference is opened by a character that is no
      space, no double quote and no back quote (a single quote, say);
    - every message in the expected form, followed by anything, whose size
      is not a decimal numeral with an optional sign (a non-numeric
      size), or is one outside the signed 64-bit range, or one of whose
      duration tokens [time.ParseDuration] rejects. *)
Theorem C4_all_or_nothing (event : Event) :
  accept event = true ->
  ((exists r pull total size,
      parse (Message event) = Ok r
      /\ fmt.Sscanf (Message event) pullFormat 4
         = ([imageRef r; pull; total; size], None)
      /\ time.ParseDuration pull = Ok (pullDuration r)
      /\ time.ParseDuration total = Ok (totalDuration r)
      /\ strconv.ParseInt size = Ok (imageSizeBytes r)
      /\ List.length (recorded (handleAddFunc (EventObj event))) = 3%nat)
   \/ (exists line,
         parse (Message event) = Err line
         /\ handleAddFunc (EventObj event)
            = [LogPodEventAdded (Message event); line]
         /\ recorded (handleAddFunc (EventObj event)) = []))
  /\ (forall out e,
        fmt.Sscanf (Message event) pullFormat 4 = (out, Some e) ->
        parse (Message event) = Err (LogFailedParse (Some e))
        /\ recorded (handleAddFunc (EventObj event)) = [])
  /\ (forall ref pull total size,
        fmt.Sscanf (Message event) pullFormat 4
        = ([ref; pull; total; size], None) ->
        is_ok (time.ParseDuration pull) = false
        \/ is_ok (time.ParseDuration total) = false
        \/ is_ok (strconv.ParseInt size) = false ->
        (exists line, parse (Message event) = Err line)
        /\ recorded (handleAddFunc (EventObj event)) = [])
  /\ ((forall out, ~ laidOut pullLayout (utf8.runes (Message event)) out) ->
      (exists e, parse (Message event) = Err (LogFailedParse (Some e)))
      /\ recorded (handleAddFunc (EventObj event)) = [])
  /\ (forall out,
        (fmt.Sscanf (Message event) pullFormat 4 = (out, None) ->
         laidOut pullLayout (utf8.runes (Message event)) out)
        /\ (len (Message event) <= 2 ^ 30 ->
            laidOut pullLayout (utf8.runes (Message event)) out ->
            fmt.Sscanf (Message event) pullFormat 4 = (out, None)))
  /\ (Message event = EmptyString ->
      parse (Message event)
      = Err (LogFailedParse (Some fmt.ErrUnexpectedEOF))
      /\ recorded (handleAddFunc (EventObj event)) = [])
  /\ (forall ref pull total size rest,
        validRef ref = true ->
        plainToken pull = true -> plainToken total = true ->
        plainToken size = true ->
        len (pullMessage ref pull total size) <= 2 ^ 30 ->
        pullMessage ref pull total size = (Message event ++ rest)%string ->
        rest <> EmptyString ->
        (exists e, parse (Message event) = Err (LogFailedParse (Some e)))
        /\ recorded (handleAddFunc (EventObj event)) = [])
  /\ (forall rest x l,
        Message event = ("Successfully pulled image " ++ rest)%string ->
        utf8.runes rest = x :: l ->
        fmt.isSpace x = false -> x <> 34 -> x <> 96 ->
        parse (Message event)
        = Err (LogFailedParse
                 (Some (fmt.ErrString "expected quoted string")))
        /\ recorded (handleAddFunc (EventObj event)) = [])
  /\ (forall ref pull total size extra,
        validRef ref = true ->
        plainToken pull = true -> plainToken total = true ->
        plainToken size = true ->
        len (pullMessage ref pull total size) <= 2 ^ 30 ->
        Message event = (pullMessage ref pull total size ++ extra)%string ->
        signedNumeral size = None
        \/ (exists n, signedNumeral size = Some n
                      /\ ~ - 2 ^ 63 <= n < 2 ^ 63)
        \/ is_ok (time.ParseDuration pull) = false
        \/ is_ok (time.ParseDuration total) = false ->
        (exists line,
           parse (Message event) = Err line
           /\ line <> LogFailedParse None
           /\ forall e, line <> LogFailedParse (Some e))
        /\ recorded (handleAddFunc (EventObj event)) = []).
Proof.
  intros Ha.
  assert (Fail : forall line, parse (Message event) = Err line ->
                 recorded (handleAddFunc (EventObj event)) = [])
    by (intros line Hl; exact (proj2 (handleAddFunc_parse_Err _ _ Ha Hl))).
  assert (ScanFail : forall out e,
            fmt.Sscanf (Message event) pullFormat 4 = (out, Some e) ->
            parse (Message event) = Err (LogFailedParse (Some e))
            /\ recorded (handleAddFunc (EventObj event)) = []).
  { intros out e Hs.
    pose proof (parse_scan_error _ _ _ Hs) as Hp.
    split; [exact Hp|exact (Fail _ Hp)]. }
  assert (Failed : scanFailed (fmt.Sscanf (Message event) pullFormat 4)
                   = true ->
                   (exists e,
                      parse (Message event) = Err (LogFailedParse (Some e)))
                   /\ recorded (handleAddFunc (EventObj event)) = []).
  { intros F.
    assert (R : exists out e,
              fmt.Sscanf (Message event) pullFormat 4 = (out, Some e)).
    { destruct (fmt.Sscanf (Message event) pullFormat 4) as [out [e|]];
        [eauto|discriminate F]. }
    destruct R as (out & e & R). destruct (ScanFail _ _ R) as [P1 P2].
    split; [exists e; exact P1|exact P2]. }
  split; [|split; [exact ScanFail|]].
  { destruct (parse (Message event)) as [r|line] eqn:Hp.
    - left. destruct (parse_Ok_inv _ _ Hp) as (p & t & s & H1 & H2 & H3 & H4).
      exists r, p, t, s. repeat (split; [assumption || reflexivity|]).
      rewrite (recorded_parsed _ _ Ha Hp). reflexivity.
    - right. exists line. split; [reflexivity|].
      exact (handleAddFunc_parse_Err _ _ Ha Hp). }
  split; [|split; [|split; [|split; [|split; [|split]]]]].
  - intros ref pull total size Hs Hc.
    assert (Hp : exists line, parse (Message event) = Err line).
    { rewrite (parse_scanned _ _ _ _ _ Hs).
      destruct (time.ParseDuration pull); [|eauto].
      destruct (time.ParseDuration total); [|eauto].
      destruct (strconv.ParseInt size); [|eauto].
      simpl in Hc. destruct Hc as [Hc|[Hc|Hc]]; discriminate Hc. }
    split; [exact Hp|]. destruct Hp as [line Hp]. exact (Fail _ Hp).
  - intros Hn. apply Failed.
    destruct (fmt.Sscanf (Message event) pullFormat 4) as [out [e|]] eqn:R;
      [reflexivity|].
    exfalso. exact (Hn _ (Sscanf_laidOut _ _ R)).
  - intros out. split; [apply Sscanf_laidOut|].
    intros Hlen L. exact (laidOut_Sscanf _ _ L Hlen).
  - intros Hm.
    assert (Hp : parse (Message event)
                 = Err (LogFailedParse (Some fmt.ErrUnexpectedEOF)))
      by (rewrite Hm; vm_compute; reflexivity).
    split; [exact Hp|exact (Fail _ Hp)].
  - intros ref pull total size rest Href Hp Ht Hs Hlen E Hr.
    exact (Failed (truncated_scan_fails _ _ _ _ _ _ Href Hp Ht Hs Hlen E Hr)).
  - intros rest x l Hm Hr Hx H34 H96.
    pose proof (Sscanf_unquoted _ _ _ Hr Hx H34 H96) as R.
    rewrite <- Hm in R. exact (ScanFail _ _ R).
  - intros ref pull total size extra Href Hp Ht Hs Hlen Hm Hc.
    pose proof (Sscanf_pullMessage _ _ _ _ Href Hp Ht Hs Hlen extra) as R.
    rewrite <- Hm in R.
    assert (Hi : is_ok (strconv.ParseInt size) = false
                 \/ is_ok (time.ParseDuration pull) = false
                 \/ is_ok (time.ParseDuration total) = false).
    { destruct Hc as [Hn|[(n & Hn & Hr)|[Hd|Hd]]];
        [left|left|right; left; exact Hd|right; right; exact Hd].
      - destruct size as [|c t]; [reflexivity|].
        exact (ParseInt_not_numeral _ _ Hn).
      - destruct size as [|c t]; [discriminate Hn|].
        rewrite (ParseInt_numeral _ _ _ Hn).
        destruct (Z.leb_spec (- 2 ^ 63) n); destruct (Z.ltb_spec n (2 ^ 63));
          try reflexivity. lia. }
    assert (P : exists line,
              parse (Message event) = Err line
              /\ line <> LogFailedParse None
              /\ forall e, line <> LogFailedParse (Some e)).
    { rewrite (parse_scanned _ _ _ _ _ R).
      destruct (time.ParseDuration pull) as [d1|e1];
        [|eexists; split; [reflexivity|split; [|intros e]; discriminate]].
      destruct (time.ParseDuration total) as [d2|e2];
        [|eexists; split; [reflexivity|split; [|intros e]; discriminate]].
      destruct (strconv.ParseInt size) as [n|e3];
        [|eexists; split; [reflexivity|split; [|intros e]; discriminate]].
      cbn [is_ok] in Hi. destruct Hi as [Hi|[Hi|Hi]]; discriminate Hi. }
    split; [exact P|]. destruct P as (line & P & _). exact (Fail _ P).
Qed.

Lemma C4_all_or_nothing_witness :
  accept (pulledEvent msgTruncated) = true
  /\ msg15s45s
     = (Message (pulledEvent msgTruncated)
        ++ " (45s including waiting). Image size: 500 bytes.")%string
  /\ recorded (handleAddFunc (EventObj (pulledEvent msgTruncated))) = [].
Proof.
  split; [reflexivity|]. split; [reflexivity|].
  destruct (C4_all_or_nothing (pulledEvent msgTruncated) eq_refl)
    as (_ & _ & _ & _ & _ & _ & H & _).
  exact (proj2 (H "repo/example:99cd3b4" "15s" "45s" "500"
                  " (45s including waiting). Image size: 500 bytes."
                  eq_refl eq_refl eq_refl eq_refl
                  ltac:(vm_compute; discriminate) eq_refl
                  ltac:(discriminate))%string).
Defined.

(** * Properties of [main] *)

(** ** The command line *)

Lemma parseOne_seen (f f' : flag.FlagSet) (args args' : list string)
  (e : option flag.Error) :
  flag.parseOne f args = (true, e, f', args') ->
  (List.length args' < List.length args)%nat.
Proof.
  unfold flag.parseOne.
  destruct args as [|s rest]; [discriminate|].
  destruct s as [|c0 [|c1 t]]; try discriminate.
  destruct (negb (Ascii.eqb c0 "-")); [discriminate|].
  destruct (Ascii.eqb c1 "-" && (len (String c0 (String c1 t)) =? 2))%bool;
    [discriminate|].
  destruct (if Ascii.eqb c1 "-" then t else String c1 t) as [|n0 nt];
    [discriminate|].
  destruct (Ascii.eqb n0 "-" || Ascii.eqb n0 "=")%bool; [discriminate|].
  destruct (flag.nameValue (String n0 nt)) as [name value].
  destruct (flag.formal f name).
  - destruct value as [v|]; [|destruct rest as [|v rest']];
      intros H; injection H as H1 H2 H3; subst args'; cbn [List.length]; lia.
  - destruct (String.eqb name "help" || String.eqb name "h")%bool;
      discriminate.
Qed.

(** The rounds of [Parse] never run out: more fuel changes nothing. *)
Lemma parseLoop_fuel (fuel1 : nat) :
  forall (fuel2 : nat) (f : flag.FlagSet) (args : list string),
    (List.length args < fuel1)%nat -> (List.length args < fuel2)%nat ->
    flag.parseLoop fuel1 f args = flag.parseLoop fuel2 f args.
Proof.
  induction fuel1 as [|fuel1 IH]; intros fuel2 f args H1 H2; [lia|].
  destruct fuel2 as [|fuel2]; [lia|].
  cbn [flag.parseLoop].
  destruct (flag.parseOne f args) as [[[seen e] f'] args'] eqn:E.
  destruct seen; [|reflexivity].
  pose proof (parseOne_seen _ _ _ _ _ E).
  apply IH; lia.
Qed.

Lemma Parse_seen (f f' : flag.FlagSet) (args args' : list string)
  (e : option flag.Error) :
  flag.parseOne f args = (true, e, f', args') ->
  flag.Parse f args = flag.Parse f' args'.
Proof.
  intros E. pose proof (parseOne_seen _ _ _ _ _ E).
  transitivity (flag.parseLoop (List.length args) f' args').
  - unfold flag.Parse. cbn [flag.parseLoop]. rewrite E. reflexivity.
  - unfold flag.Parse. apply parseLoop_fuel; lia.
Qed.

Lemma contains_cons_false (c a : ascii) (s : string) :
  contains (String a s) c = false ->
  Ascii.eqb a c = false /\ contains s c = false.
Proof.
  rewrite contains_cons. intros H. now apply orb_false_elim in H.
Qed.

Lemma cutAtEquals_plain (s : string) :
  contains s "=" = false -> flag.cutAtEquals s = None.
Proof.
  induction s as [|c s IH]; intros H; [reflexivity|].
  apply contains_cons_false in H as [Hc Hs].
  cbn [flag.cutAtEquals]. rewrite Hc, (IH Hs). reflexivity.
Qed.

Lemma cutAtEquals_app (s v : string) :
  contains s "=" = false ->
  flag.cutAtEquals (s ++ String "=" v) = Some (s, v).
Proof.
  induction s as [|c s IH]; intros H; [reflexivity|].
  apply contains_cons_false in H as [Hc Hs].
  cbn [append flag.cutAtEquals]. rewrite Hc, (IH Hs). reflexivity.
Qed.

(** The four spellings of a flag and its value. *)
Lemma parseOne_spellings (f : flag.FlagSet) (name old v : string)
  (rest : list string) :
  flag.formal f name = Some old -> flagName name = true ->
  flag.parseOne f (("-" ++ name)%string :: v :: rest)
  = (true, None, flag.set f name v, rest)
  /\ flag.parseOne f (("--" ++ name)%string :: v :: rest)
     = (true, None, flag.set f name v, rest)
  /\ flag.parseOne f (("-" ++ name ++ "=" ++ v)%string :: rest)
     = (true, None, flag.set f name v, rest)
  /\ flag.parseOne f (("--" ++ name ++ "=" ++ v)%string :: rest)
     = (true, None, flag.set f name v, rest).
Proof.
  intros Hf Hn. destruct name as [|n0 nt]; [discriminate Hn|].
  cbn [flagName] in Hn. apply andb_prop in Hn as [Hm He].
  apply negb_true_iff in Hm. apply negb_true_iff in He.
  apply contains_cons_false in He as [He0 He].
  assert (L : forall s, (len (String "-" (String "-" (String n0 s))) =? 2)
                        = false).
  { intros s. apply Z.eqb_neq. unfold len. cbn [String.length]. lia. }
  assert (N1 : flag.nameValue (String n0 nt) = (String n0 nt, None)).
  { cbn [flag.nameValue]. now rewrite (cutAtEquals_plain _ He). }
  assert (N2 : flag.nameValue (String n0 (nt ++ String "=" v))
               = (String n0 nt, Some v)).
  { cbn [flag.nameValue]. now rewrite (cutAtEquals_app _ v He). }
  repeat split;
    cbn [append flag.parseOne]; change (Ascii.eqb "-" "-") with true;
    cbn [negb andb orb];
    repeat (rewrite ?Hm, ?He0, ?L, ?N1, ?N2, ?Hf; cbn [negb andb orb]);
    reflexivity.
Qed.

(** ** The start of [main] *)

(** [main], with the configuration it settles on and what it does once it
    serves written as [chosenConfig] and [servingActions]. *)
Lemma main_unfold (w : World) :
  main w
  = let stop (e : ending) :=
      {| performed := []; deferred := []; ended := e |} in
    match flag.Parse
            (if String.eqb (HomeDir w) "" then [("context", "")]%string
             else mainFlags) (Args w) with
    | Err e => stop (Exited (flag.exitCode e))
    | Ok (flags, _) =>
      if String.eqb (HomeDir w) "" then stop (Panicked NilPointerDereference)
      else
        let k := flag.deref flags "kubeconfig" in
        let c := flag.deref flags "context" in
        match configError w (firstConfig k) with
        | Some err => stop (Panicked (PanicString err))
        | None =>
          match configError w (chosenConfig k c) with
          | Some err => stop (Panicked (PanicString err))
          | None =>
            match NewForConfigError w (chosenConfig k c) with
            | Some err => stop (Panicked (PanicString err))
            | None =>
              match MergeError w Default
                      (NewWithAttributes SchemaURL
                         [ServiceName "k8s-image-pull-metrics"]) with
              | Some err => stop (Panicked (PanicError err))
              | None =>
                let res :=
                  Merge Default
                    (NewWithAttributes SchemaURL
                       [ServiceName "k8s-image-pull-metrics"]) in
                let meterProvider :=
                  {| WithResource := res;
                     exporterOptions :=
                       [WithInsecure; WithCompression GzipCompression];
                     WithInterval := 30000000000 |} in
                match exporterError w
                        [WithInsecure; WithCompression GzipCompression] with
                | Some err => stop (Panicked (PanicError err))
                | None =>
                  if WaitForCacheSync w
                  then {| performed := servingActions (chosenConfig k c) res;
                          deferred := [CloseStopCh; Shutdown meterProvider];
                          ended := Blocked |}
                  else {| performed :=
                            servingActions (chosenConfig k c) res
                            ++ [LogFatalf "Error syncing cache"];
                          deferred := [CloseStopCh; Shutdown meterProvider];
                          ended := Exited 1 |}
                end
              end
            end
          end
        end
    end.
Proof.
  unfold main, newResource, newMeterProvider, chosenConfig. cbv zeta.
  destruct (String.eqb (HomeDir w) "") eqn:Hh; cbn [negb].
  - destruct (flag.Parse _ _) as [[flags rest]|e]; reflexivity.
  - change (flag.String (flag.String [] "kubeconfig" "") "context" "")
      with mainFlags.
    destruct (flag.Parse mainFlags (Args w)) as [[flags rest]|e];
      [|reflexivity].
    destruct (configError w (firstConfig (flag.deref flags "kubeconfig")))
      eqn:E1; [reflexivity|].
    destruct (String.eqb (flag.deref flags "context") "") eqn:Hc; cbn [negb].
    + rewrite E1.
      destruct (NewForConfigError w _); [reflexivity|].
      destruct (MergeError w _ _); [reflexivity|].
      cbn [app]. destruct (exporterError w _); [reflexivity|].
      destruct (WaitForCacheSync w); reflexivity.
    + destruct (configError w (ClientConfig _ _)); [reflexivity|].
      destruct (NewForConfigError w _); [reflexivity|].
      destruct (MergeError w _ _); [reflexivity|].
      cbn [app]. destruct (exporterError w _); [reflexivity|].
      destruct (WaitForCacheSync w); reflexivity.
Qed.

(** ** C9: the three observations *)

Lemma wrap64_congruent (z : Z) : (wrap64 z - z) mod 2 ^ 64 = 0.
Proof.
  unfold wrap64.
  pose proof (Z.div_mod (z + 2 ^ 63) (2 ^ 64) ltac:(lia)) as H.
  replace ((z + 2 ^ 63) mod 2 ^ 64 - 2 ^ 63 - z)
    with (- ((z + 2 ^ 63) / 2 ^ 64) * 2 ^ 64) by lia.
  apply Z.mod_mul. lia.
Qed.

(** C9.  For an accepted event whose message parses, the handler records
    exactly three observations, one per instrument and in this order: the
    gauge with the image size, the pull histogram with the pull duration in
    milliseconds (its nanoseconds divided by 1000000) and the wait-only
    histogram with the wait-only duration in milliseconds, the wait-only
    duration being the total less the pull duration as an int64 count of
    nanoseconds; all three with one attribute list.  Whenever [main]
    creates instruments, and so whenever it comes to serve, it creates
    these three, once each: the two histograms with unit ms and the bucket
    boundaries 15000, 30000, 45000, 60000, 120000, 180000, 240000 and
    300000, and the gauge. *)
Theorem C9_three_instruments (event : Event) (r : ParsedPullRecord) :
  accept event = true ->
  parse (Message event) = Ok r ->
  (exists attrs waitNs,
     recorded (handleAddFunc (EventObj event))
     = [ (imageSizeGauge, imageSizeBytes r, attrs);
         (durationPullHistogram, Z.quot (pullDuration r) 1000000, attrs);
         (durationPullWaitOnlyHistogram, Z.quot waitNs 1000000, attrs) ]
     /\ - 2 ^ 63 <= waitNs < 2 ^ 63
     /\ (waitNs - (totalDuration r - pullDuration r)) mod 2 ^ 64 = 0
     /\ (0 <= pullDuration r -> 0 <= totalDuration r ->
         waitNs = totalDuration r - pullDuration r))
  /\ (forall w : World,
        (created (trace (main w)) = [] /\ ended (main w) <> Blocked)
        \/ created (trace (main w))
           = [ (durationPullHistogram,
                {| kind := Int64Histogram;
                   name := "k8s.image.pull.duration";
                   description := "The duration of image pull.";
                   unit_ := "ms";
                   explicitBucketBoundaries :=
                     [15000; 30000; 45000; 60000; 120000; 180000; 240000;
                      300000] |});
               (durationPullWaitOnlyHistogram,
                {| kind := Int64Histogram;
                   name := "k8s.image.pull_wait_only.duration";
                   description :=
                     "The duration of image pull including waiting time.";
                   unit_ := "ms";
                   explicitBucketBoundaries :=
                     [15000; 30000; 45000; 60000; 120000; 180000; 240000;
                      300000] |});
               (imageSizeGauge,
                {| kind := Int64Gauge;
                   name := "k8s.image.size";
                   description := "The size of the image in bytes.";
                   unit_ := "bytes";
                   explicitBucketBoundaries := [] |}) ]).
Proof.
  intros Ha Hp. split.
  - exists (commonAttributes event r),
      (waitOnlyDuration (totalDuration r) (pullDuration r)).
    split; [rewrite (recorded_parsed _ _ Ha Hp); apply recorded_recordAll|].
    split; [apply wrap64_range|].
    split; [apply wrap64_congruent|].
    intros H1 H2. destruct (parse_range _ _ Hp) as [Rp Rt].
    unfold waitOnlyDuration. apply wrap64_small. lia.
  - intros w. rewrite main_unfold. cbv zeta.
    assert (Stop : forall e,
              e <> Blocked ->
              let r0 := {| performed := []; deferred := []; ended := e |} in
              created (trace r0) = [] /\ ended r0 <> Blocked).
    { intros e He r0. split; [|exact He].
      unfold trace, r0. cbn [ended performed deferred].
      destruct e; reflexivity. }
    destruct (flag.Parse _ _) as [[flags rest]|e];
      [|left; apply Stop; discriminate].
    destruct (String.eqb (HomeDir w) ""); [left; apply Stop; discriminate|].
    destruct (configError w (firstConfig _));
      [left; apply Stop; discriminate|].
    destruct (configError w (chosenConfig _ _));
      [left; apply Stop; discriminate|].
    destruct (NewForConfigError w _); [left; apply Stop; discriminate|].
    destruct (MergeError w _ _); [left; apply Stop; discriminate|].
    destruct (exporterError w _); [left; apply Stop; discriminate|].
    destruct (WaitForCacheSync w); right; reflexivity.
Qed.

Lemma C9_three_instruments_witness :
  accept (pulledEvent exampleMsg) = true
  /\ parse (Message (pulledEvent exampleMsg))
     = Ok {| imageRef := "repo/example:99cd3b4";
             pullDuration := 104643000000;
             totalDuration := 104643000000;
             imageSizeBytes := 1169083618 |}
  /\ (exists attrs,
        recorded (handleAddFunc (EventObj (pulledEvent exampleMsg)))
        = [ (imageSizeGauge, 1169083618, attrs);
            (durationPullHistogram, 104643, attrs);
            (durationPullWaitOnlyHistogram, 0, attrs) ])
  /\ map fst (created (trace (main (quietWorld "/root" []))))
     = [durationPullHistogram; durationPullWaitOnlyHistogram; imageSizeGauge]
  /\ map (fun d => explicitBucketBoundaries (snd d))
         (created (trace (main (quietWorld "/root" []))))
     = [ [15000; 30000; 45000; 60000; 120000; 180000; 240000; 300000];
         [15000; 30000; 45000; 60000; 120000; 180000; 240000; 300000];
         [] ].
Proof.
  split; [reflexivity|]. split; [vm_compute; reflexivity|].
  destruct (C9_three_instruments (pulledEvent exampleMsg)
              {| imageRef := "repo/example:99cd3b4";
                 pullDuration := 104643000000;
                 totalDuration := 104643000000;
                 imageSizeBytes := 1169083618 |}
              eq_refl ltac:(vm_compute; reflexivity))
    as [(attrs & waitNs & H1 & _ & _ & H2) H3].
  split.
  - exists attrs. rewrite H1.
    rewrite (H2 ltac:(cbn; lia) ltac:(cbn; lia)). reflexivity.
  - destruct (H3 (quietWorld "/root" [])) as [[_ H]|H].
    + exfalso. apply H. reflexivity.
    + rewrite H. split; reflexivity.
Defined.

(** ** How [main] starts and ends *)

(** X8.  Without a home directory [main] cannot start.  When
    [homedir.HomeDir] returns the empty string the [-kubeconfig] flag is
    not defined and its pointer stays [nil]: [main] does nothing that can
    be seen and ends either in [flag.Parse], which exits with status 0 for
    a request for help and 2 for any other error, as for [-kubeconfig]
    itself, or in the panic of the [nil] dereference, whatever the other
    arguments and however willing the cluster. *)
Theorem main_without_home (w : World) :
  HomeDir w = EmptyString ->
  trace (main w) = []
  /\ (ended (main w) = Exited 0 \/ ended (main w) = Exited 2
      \/ ended (main w) = Panicked NilPointerDereference)
  /\ (forall flags rest,
        flag.Parse [("context", "")]%string (Args w) = Ok (flags, rest) ->
        ended (main w) = Panicked NilPointerDereference)
  /\ (forall path rest,
        Args w = "-kubeconfig"%string :: path :: rest ->
        ended (main w) = Exited 2).
Proof.
  intros Hh. rewrite main_unfold, Hh. cbv zeta.
  change (String.eqb "" "") with true. cbv iota.
  split; [|split; [|split]].
  - destruct (flag.Parse _ _) as [[flags rest]|e]; reflexivity.
  - destruct (flag.Parse _ _) as [[flags rest]|e]; cbn [ended].
    + right. right. reflexivity.
    + destruct e; cbn [flag.exitCode]; [left|right; left..]; reflexivity.
  - intros flags rest ->. reflexivity.
  - intros path rest ->. reflexivity.
Qed.

Lemma main_without_home_witness :
  HomeDir (quietWorld "" []) = EmptyString
  /\ trace (main (quietWorld "" [])) = []
  /\ ended (main (quietWorld "" [])) = Panicked NilPointerDereference.
Proof.
  split; [reflexivity|].
  destruct (main_without_home (quietWorld "" []) eq_refl)
    as (H1 & _ & H2 & _).
  split; [exact H1|]. exact (H2 [("context", "")]%string [] eq_refl).
Defined.

(** X9.  [main] comes to serve, blocked in its final [select], exactly
    when the home directory is known, the command line parses, the first
    configuration (in-cluster without [-kubeconfig], from the file
    otherwise) is built without error even if [-context] then replaces it,
    the configuration it settles on is built, and the client set, the
    merged resource, the exporter and the cache synchronisation succeed.
    It has then set the meter provider (gzip, insecure, a reader every 30
    seconds), created the three instruments, registered the handler and
    started the informer on the configuration it settled on, and nothing
    else. *)
Theorem main_serves_iff (w : World) :
  (ended (main w) = Blocked
   <-> HomeDir w <> EmptyString
       /\ exists flags rest,
            flag.Parse mainFlags (Args w) = Ok (flags, rest)
            /\ configError w
                 (firstConfig (flag.deref flags "kubeconfig")) = None
            /\ configError w
                 (chosenConfig (flag.deref flags "kubeconfig")
                    (flag.deref flags "context")) = None
            /\ NewForConfigError w
                 (chosenConfig (flag.deref flags "kubeconfig")
                    (flag.deref flags "context")) = None
            /\ MergeError w Default
                 (NewWithAttributes SchemaURL
                    [ServiceName "k8s-image-pull-metrics"]) = None
            /\ exporterError w
                 [WithInsecure; WithCompression GzipCompression] = None
            /\ WaitForCacheSync w = true)
  /\ (forall flags rest,
        ended (main w) = Blocked ->
        flag.Parse mainFlags (Args w) = Ok (flags, rest) ->
        trace (main w)
        = servingActions
            (chosenConfig (flag.deref flags "kubeconfig")
               (flag.deref flags "context"))
            (Merge Default
               (NewWithAttributes SchemaURL
                  [ServiceName "k8s-image-pull-metrics"]))).
Proof.
  rewrite main_unfold. cbv zeta.
  destruct (String.eqb_spec (HomeDir w) "") as [Hh|Hh].
  - split.
    + split.
      * destruct (flag.Parse _ _) as [[flags rest]|e]; discriminate.
      * intros [H _]. congruence.
    + intros flags rest H. exfalso.
      destruct (flag.Parse _ _) as [[flags' rest']|e]; discriminate H.
  - destruct (flag.Parse mainFlags (Args w)) as [[flags rest]|e] eqn:P.
    2:{ split.
        - split; [discriminate|]. intros [_ (f & r & H & _)]. discriminate H.
        - intros f r H. discriminate H. }
    set (k := flag.deref flags "kubeconfig").
    set (c := flag.deref flags "context").
    assert (Q : forall (P0 : flag.FlagSet -> Prop),
              (exists f (r : list string),
                 Ok (flags, rest)
                 = @Ok flag.Error (flag.FlagSet * list string) (f, r)
                 /\ P0 f) <-> P0 flags).
    { intros P0. split.
      - intros (f & r & E & H). injection E as <- <-. exact H.
      - intros H. exists flags, rest. split; [reflexivity|exact H]. }
    destruct (configError w (firstConfig k)) eqn:E1.
    { split.
      - split; [discriminate|]. intros [_ H].
        apply (Q (fun f => _ /\ _)) in H. fold k in H.
        destruct H as [H _]. congruence.
      - intros f r H. discriminate H. }
    destruct (configError w (chosenConfig k c)) eqn:E2.
    { split.
      - split; [discriminate|]. intros [_ H].
        apply (Q (fun f => _ /\ _)) in H. fold k c in H.
        destruct H as (_ & H & _). congruence.
      - intros f r H. discriminate H. }
    destruct (NewForConfigError w (chosenConfig k c)) eqn:E3.
    { split.
      - split; [discriminate|]. intros [_ H].
        apply (Q (fun f => _ /\ _)) in H. fold k c in H.
        destruct H as (_ & _ & H & _). congruence.
      - intros f r H. discriminate H. }
    destruct (MergeError w Default _) eqn:E4.
    { split.
      - split; [discriminate|]. intros [_ H].
        apply (Q (fun f => _ /\ _)) in H.
        destruct H as (_ & _ & _ & H & _). congruence.
      - intros f r H. discriminate H. }
    destruct (exporterError w _) eqn:E5.
    { split.
      - split; [discriminate|]. intros [_ H].
        apply (Q (fun f => _ /\ _)) in H.
        destruct H as (_ & _ & _ & _ & H & _). congruence.
      - intros f r H. discriminate H. }
    destruct (WaitForCacheSync w) eqn:E6.
    + split.
      * split; [|reflexivity]. intros _. split; [exact Hh|].
        apply (Q (fun f => _ /\ _)). fold k c. repeat split; assumption.
      * intros f r _ E. injection E as <- <-. reflexivity.
    + split.
      * split; [discriminate|]. intros [_ H].
        apply (Q (fun f => _ /\ _)) in H.
        destruct H as (_ & _ & _ & _ & _ & H). congruence.
      * intros f r H. discriminate H.
Qed.

(** X10.  [main] never runs what it defers.  It never returns: it panics
    before anything is deferred, exits through [flag.Parse] or
    [log.Fatalf], or blocks for ever; so the meter provider is never shut
    down by [main], which is what would flush the observations still held
    by the periodic reader, and the stop channel is never closed. *)
Theorem main_never_runs_deferred (w : World) :
  ended (main w) <> Returned
  /\ (forall v, ended (main w) = Panicked v -> deferred (main w) = [])
  /\ ~ In CloseStopCh (trace (main w))
  /\ (forall p, ~ In (Shutdown p) (trace (main w))).
Proof.
  rewrite main_unfold. cbv zeta.
  assert (S0 : forall config res a,
            In a (servingActions config res) ->
            a <> CloseStopCh /\ forall p, a <> Shutdown p).
  { intros config res a H. cbn in H.
    repeat (destruct H as [<-|H]; [split; [|intros p]; discriminate|]).
    destruct H. }
  assert (S1 : forall config res a,
            In a (servingActions config res ++ [LogFatalf "Error syncing cache"]) ->
            a <> CloseStopCh /\ forall p, a <> Shutdown p).
  { intros config res a H. apply in_app_or in H as [H|[<-|[]]].
    - exact (S0 _ _ _ H).
    - split; [|intros p]; discriminate. }
  assert (Stop : forall e,
            e <> Returned ->
            let r := {| performed := []; deferred := []; ended := e |} in
            ended r <> Returned
            /\ (forall v, ended r = Panicked v -> deferred r = [])
            /\ ~ In CloseStopCh (trace r)
            /\ (forall p, ~ In (Shutdown p) (trace r))).
  { intros e He r. split; [exact He|]. split; [reflexivity|].
    unfold trace, r. cbn [ended performed deferred].
    destruct e; try congruence; cbn [app]; (split; [intros []|intros p []]). }
  destruct (flag.Parse _ _) as [[flags rest]|e];
    [|apply Stop; discriminate].
  destruct (String.eqb (HomeDir w) ""); [apply Stop; discriminate|].
  destruct (configError w (firstConfig _)); [apply Stop; discriminate|].
  destruct (configError w (chosenConfig _ _)); [apply Stop; discriminate|].
  destruct (NewForConfigError w _); [apply Stop; discriminate|].
  destruct (MergeError w _ _); [apply Stop; discriminate|].
  destruct (exporterError w _); [apply Stop; discriminate|].
  destruct (WaitForCacheSync w); cbn [trace ended performed].
  - split; [discriminate|]. split; [discriminate|]. split.
    + intros H. exact (proj1 (S0 _ _ _ H) eq_refl).
    + intros p H. exact (proj2 (S0 _ _ _ H) p eq_refl).
  - split; [discriminate|]. split; [discriminate|]. split.
    + intros H. exact (proj1 (S1 _ _ _ H) eq_refl).
    + intros p H. exact (proj2 (S1 _ _ _ H) p eq_refl).
Qed.

Lemma main_withArgs (w : World) (args1 args2 : list string) :
  flag.Parse (if String.eqb (HomeDir w) "" then [("context", "")]%string
              else mainFlags) args1
  = flag.Parse (if String.eqb (HomeDir w) "" then [("context", "")]%string
                else mainFlags) args2 ->
  main (withArgs w args1) = main (withArgs w args2).
Proof.
  intros E. rewrite !main_unfold. cbv zeta.
  cbn [withArgs HomeDir Args configError NewForConfigError MergeError
       exporterError WaitForCacheSync].
  rewrite E. reflexivity.
Qed.

Lemma definedFlags_formal (home name : string) :
  In name (definedFlags home) ->
  flagName name = true
  /\ flag.formal (if String.eqb home "" then [("context", "")]%string
                  else mainFlags) name = Some EmptyString.
Proof.
  unfold definedFlags. destruct (String.eqb home "").
  - intros [<-|[]]. split; reflexivity.
  - intros [<-|[<-|[]]]; split; reflexivity.
Qed.

(** X11.  [main] reads its two flags in any of the four spellings of the
    flag package, with one dash or two, the value after an equals sign or
    as the next argument, and acts alike on all four; as the next argument
    the value is taken as it stands, even when it begins with a dash. *)
Theorem main_flag_spellings (w : World) (name v : string)
  (rest : list string) :
  In name (definedFlags (HomeDir w)) ->
  main (withArgs w (("--" ++ name)%string :: v :: rest))
  = main (withArgs w (("-" ++ name)%string :: v :: rest))
  /\ main (withArgs w (("-" ++ name ++ "=" ++ v)%string :: rest))
     = main (withArgs w (("-" ++ name)%string :: v :: rest))
  /\ main (withArgs w (("--" ++ name ++ "=" ++ v)%string :: rest))
     = main (withArgs w (("-" ++ name)%string :: v :: rest)).
Proof.
  intros Hn. destruct (definedFlags_formal _ _ Hn) as [Hp Hf].
  destruct (parseOne_spellings _ _ _ v rest Hf Hp) as (P1 & P2 & P3 & P4).
  repeat split; apply main_withArgs;
    rewrite (Parse_seen _ _ _ _ _ P1);
    [ rewrite (Parse_seen _ _ _ _ _ P2)
    | rewrite (Parse_seen _ _ _ _ _ P3)
    | rewrite (Parse_seen _ _ _ _ _ P4) ]; reflexivity.
Qed.

Lemma main_flag_spellings_witness :
  In "kubeconfig"%string (definedFlags (HomeDir (quietWorld "/root" [])))
  /\ main (withArgs (quietWorld "/root" [])
             ["--kubeconfig=-context"; "x"]%string)
     = main (withArgs (quietWorld "/root" [])
               ["-kubeconfig"; "-context"; "x"]%string).
Proof.
  split; [left; reflexivity|].
  exact (proj2 (proj2 (main_flag_spellings (quietWorld "/root" [])
                         "kubeconfig" "-context" ["x"%string]
                         (or_introl eq_refl)))).
Defined.

Lemma Parse_nonFlag (f : flag.FlagSet) (x : string) (rest : list string) :
  nonFlag x = true -> flag.Parse f (x :: rest) = Ok (f, x :: rest).
Proof.
  intros Hx. unfold flag.Parse. cbn [List.length flag.parseLoop].
  assert (E : flag.parseOne f (x :: rest) = (false, None, f, x :: rest)).
  { unfold flag.parseOne. destruct x as [|c0 [|c1 t]]; try reflexivity.
    cbn [nonFlag] in Hx. rewrite Hx. reflexivity. }
  rewrite E. reflexivity.
Qed.

Lemma Parse_terminator (f : flag.FlagSet) (rest : list string) :
  flag.Parse f ("--"%string :: rest) = Ok (f, rest).
Proof. reflexivity. Qed.

Lemma Parse_nil (f : flag.FlagSet) : flag.Parse f [] = Ok (f, []).
Proof. reflexivity. Qed.

(** One round of [parseOne] with more arguments behind: the same round,
    unless the last argument is a flag that waits for its value. *)
Lemma parseOne_app (f : flag.FlagSet) (args suffix : list string) :
  args <> [] ->
  match flag.parseOne f args with
  | (false, Some (flag.ErrNeedsArgument _), _, _) => True
  | (seen, e, f', args') =>
    flag.parseOne f (args ++ suffix) = (seen, e, f', args' ++ suffix)
  end.
Proof.
  intros Hne. destruct args as [|s p]; [congruence|].
  cbn [app]. unfold flag.parseOne.
  destruct s as [|c0 [|c1 t]]; try reflexivity.
  destruct (negb (Ascii.eqb c0 "-")); [reflexivity|].
  destruct (Ascii.eqb c1 "-" && (len (String c0 (String c1 t)) =? 2))%bool;
    [reflexivity|].
  destruct (if Ascii.eqb c1 "-" then t else String c1 t) as [|n0 nt];
    [reflexivity|].
  destruct (Ascii.eqb n0 "-" || Ascii.eqb n0 "=")%bool; [reflexivity|].
  destruct (flag.nameValue (String n0 nt)) as [name value].
  destruct (flag.formal f name).
  - destruct value as [v|]; [reflexivity|].
    destruct p as [|v p']; [exact I|reflexivity].
  - destruct (String.eqb name "help" || String.eqb name "h")%bool;
      reflexivity.
Qed.

Lemma parseOne_stop (f : flag.FlagSet) (x : string) (rest : list string) :
  nonFlag x = true \/ x = "--"%string ->
  exists left, flag.parseOne f (x :: rest) = (false, None, f, left).
Proof.
  intros [Hx| ->].
  - exists (x :: rest). unfold flag.parseOne.
    destruct x as [|c0 [|c1 t]]; try reflexivity.
    cbn [nonFlag] in Hx. rewrite Hx. reflexivity.
  - exists rest. reflexivity.
Qed.

Lemma Parse_unseen (f f' : flag.FlagSet) (args args' : list string)
  (e : option flag.Error) :
  flag.parseOne f args = (false, e, f', args') ->
  flag.Parse f args
  = match e with Some e => Err e | None => Ok (f', args') end.
Proof.
  intros E. unfold flag.Parse. cbn [flag.parseLoop]. rewrite E.
  destruct e; reflexivity.
Qed.

(** [Parse] stops at the first argument that is no flag, and at [--]:
    the flags it has read by then are those of the arguments before. *)
Lemma Parse_operand (n : nat) :
  forall (f : flag.FlagSet) (pre : list string) (x : string)
         (rest : list string),
    (List.length pre <= n)%nat ->
    nonFlag x = true \/ x = "--"%string ->
    match flag.Parse f pre with
    | Err (flag.ErrNeedsArgument _) => True
    | Err e => flag.Parse f (pre ++ x :: rest) = Err e
    | Ok (flags, _) =>
      exists left, flag.Parse f (pre ++ x :: rest) = Ok (flags, left)
    end.
Proof.
  induction n as [|n IH]; intros f pre x rest Hn Hx.
  - destruct pre as [|s p]; [|cbn [List.length] in Hn; lia].
    rewrite Parse_nil. cbn [app].
    destruct (parseOne_stop f x rest Hx) as [left E].
    exists left. exact (Parse_unseen _ _ _ _ _ E).
  - destruct pre as [|s p].
    + rewrite Parse_nil. cbn [app].
      destruct (parseOne_stop f x rest Hx) as [left E].
      exists left. exact (Parse_unseen _ _ _ _ _ E).
    + pose proof (parseOne_app f (s :: p) (x :: rest) ltac:(discriminate))
        as A.
      destruct (flag.parseOne f (s :: p)) as [[[seen e] f'] args'] eqn:E.
      destruct seen.
      * assert (A' : flag.parseOne f ((s :: p) ++ x :: rest)
                     = (true, e, f', args' ++ x :: rest))
          by (destruct e as [[]|]; exact A).
        rewrite (Parse_seen _ _ _ _ _ E), (Parse_seen _ _ _ _ _ A').
        apply IH; [|exact Hx].
        pose proof (parseOne_seen _ _ _ _ _ E) as L.
        cbn [List.length] in Hn, L. lia.
      * rewrite (Parse_unseen _ _ _ _ _ E).
        destruct e as [e|].
        -- destruct e; try exact I;
             rewrite (Parse_unseen _ _ _ _ _ A); reflexivity.
        -- rewrite (Parse_unseen _ _ _ _ _ A). eexists. reflexivity.
Qed.

(** X16.  [main] stops reading flags at the first argument that is no
    flag, and at [--], wherever it stands, and never looks at the
    arguments left: whatever follows, flags included, is ignored without
    a word, and [main] goes on as if its arguments had ended just before.
    The one argument in that place which is read is the value of a flag
    that still waits for it. *)
Theorem main_ignores_operands (w : World) (pre : list string) (x : string)
  (rest : list string) :
  awaitsValue w pre = false ->
  nonFlag x = true ->
  main (withArgs w (pre ++ x :: rest)) = main (withArgs w pre)
  /\ main (withArgs w (pre ++ "--"%string :: rest)) = main (withArgs w pre).
Proof.
  intros Hp Hx.
  assert (G : forall y, nonFlag y = true \/ y = "--"%string ->
              main (withArgs w (pre ++ y :: rest)) = main (withArgs w pre)).
  { intros y Hy. rewrite !main_unfold. cbv zeta.
    cbn [withArgs HomeDir Args configError NewForConfigError MergeError
         exporterError WaitForCacheSync].
    pose proof (Parse_operand (List.length pre) (flagsAtParse w) pre y rest
                  (le_n _) Hy) as P.
    unfold awaitsValue in Hp. unfold flagsAtParse in Hp, P.
    destruct (flag.Parse _ pre) as [[flags left]|e].
    - destruct P as [left' ->]. reflexivity.
    - destruct e; try discriminate Hp; rewrite P; reflexivity. }
  split; apply G; [left; exact Hx|right; reflexivity].
Qed.

Lemma main_ignores_operands_witness :
  awaitsValue (quietWorld "/root" []) ["-context"; "a"]%string = false
  /\ nonFlag "serve" = true
  /\ main (withArgs (quietWorld "/root" [])
             ["-context"; "a"; "serve"; "-kubeconfig"; "y"]%string)
     = main (withArgs (quietWorld "/root" []) ["-context"; "a"]%string).
Proof.
  split; [reflexivity|]. split; [reflexivity|].
  exact (proj1 (main_ignores_operands (quietWorld "/root" [])
                  ["-context"; "a"]%string "serve"
                  ["-kubeconfig"; "y"]%string eq_refl eq_refl)).
Defined.

(** The start of [main] in a cluster that answers, with a context given. *)
Example main_serves_with_context :
  ended (main (quietWorld "/root" ["-context"; "staging"]%string)) = Blocked
  /\ trace (main (quietWorld "/root" ["-context"; "staging"]%string))
     = servingActions (ClientConfig "" "staging")
         (Merge Default
            (NewWithAttributes SchemaURL
               [ServiceName "k8s-image-pull-metrics"])).
Proof. split; reflexivity. Qed.
